(** * SSFS: the simple file system of [src/fs.c]

    A shallow embedding of the file system implemented in [src/fs.c]
    (format, mount, unmount, create, delete, stat, read, write and their
    helpers) together with the properties of its allocator, its block map
    and its byte-range operations.

    The C program keeps its session in five static variables and talks to a
    block device through [vdisk_on], [vdisk_off], [vdisk_read],
    [vdisk_write] and [vdisk_sync].  Here the session is the record
    [fs_state], threaded explicitly through every function; a C function
    [int f(args)] becomes [f st args : Z * fs_state] (plus whatever the C
    function writes through its pointer arguments). *)

From Stdlib Require Import ZArith List Lia String Bool.
From stdpp Require Import base list strings gmap.
From coqutil Require Import Byte Word.LittleEndianList.

Local Open Scope Z_scope.

(** ** Machine integers *)

(** Conversion to [uint32_t]. *)
Definition to_uint32 (z : Z) : Z := z mod 2 ^ 32.

(** Conversion to [int] (32 bits, two's complement). *)
Definition to_int (z : Z) : Z := (z + 2 ^ 31) mod 2 ^ 32 - 2 ^ 31.

Definition INT_MAX : Z := 2 ^ 31 - 1.

(** ** Constants of [fs.c] and [include/error.h] *)

Definition BLOCK_SIZE : Z := 1024.
Definition INODE_SIZE : Z := 32.
Definition INODES_PER_BLOCK : Z := Z.quot BLOCK_SIZE INODE_SIZE.
Definition POINTERS_PER_BLOCK : Z := Z.quot BLOCK_SIZE 4.

Definition MAGIC_NUMBER : list byte :=
  [ Byte.xf0; Byte.x55; Byte.x4c; Byte.x49; Byte.x45; Byte.x47; Byte.x45;
    Byte.x49; Byte.x4e; Byte.x46; Byte.x4f; Byte.x30; Byte.x39; Byte.x34;
    Byte.x30; Byte.x0f ].

Definition E_DISK_NOT_MOUNTED : Z := -100.
Definition E_DISK_ALREADY_MOUNTED : Z := -101.
Definition E_INVALID_INODE : Z := -102.
Definition E_OUT_OF_SPACE : Z := -103.
Definition E_OUT_OF_INODES : Z := -104.
Definition E_CORRUPT_DISK : Z := -105.
Definition E_INVALID_OFFSET : Z := -106.

(** Modelled from the spec: the values of the device's error codes.
    [include/error.h] only declares them ([extern const int]); the spec says
    that error codes are small negative integers.  Nothing below depends on
    the values beyond their sign. *)
Definition vdisk_ENOEXIST : Z := -4.
Definition vdisk_EEXCEED : Z := -5.

(** ** Bytes, blocks and little-endian words *)

Abbreviation block := (list byte).

Definition zero_block : block := replicate (Z.to_nat BLOCK_SIZE) Byte.x00.

(** [memcpy(dst + doff, src, n)] and [memset(dst + doff, 0, n)]. *)
Definition memcpy (dst : list byte) (doff : Z) (src : list byte) (n : Z)
  : list byte :=
  take (Z.to_nat doff) dst ++ take (Z.to_nat n) src
    ++ drop (Z.to_nat doff + Z.to_nat n) dst.

Definition memset0 (dst : list byte) (doff : Z) (n : Z) : list byte :=
  take (Z.to_nat doff) dst ++ replicate (Z.to_nat n) Byte.x00
    ++ drop (Z.to_nat doff + Z.to_nat n) dst.

(** [memcmp(a, b, n) == 0] for two buffers of the same length [n]. *)
Fixpoint bytes_eqb (a b : list byte) : bool :=
  match a, b with
  | [], [] => true
  | x :: a', y :: b' => Byte.eqb x y && bytes_eqb a' b'
  | _, _ => false
  end.

(** A buffer read as an array of [uint32_t]: entry [k] (little endian). *)
Definition get_u32 (b : list byte) (k : Z) : Z :=
  le_combine (take 4 (drop (4 * Z.to_nat k) b)).

Definition set_u32 (b : list byte) (k : Z) (v : Z) : list byte :=
  take (4 * Z.to_nat k) b ++ le_split 4 v ++ drop (4 * Z.to_nat k + 4) b.

(** ** On-disk records *)

Record superblock_t := mk_superblock {
  magic : list byte;
  num_blocks : Z;
  num_inode_blocks : Z;
  block_size : Z }.

Record inode_t := mk_inode {
  valid : byte;
  padding : byte * byte * byte;
  size : Z;
  direct_blocks : list Z;
  indirect_block : Z;
  double_indirect_block : Z }.

(** [memcpy(&superblock, block_buffer, sizeof(superblock_t))] and back. *)
Definition decode_superblock (b : list byte) : superblock_t :=
  {| magic := take 16 b;
     num_blocks := get_u32 b 4;
     num_inode_blocks := get_u32 b 5;
     block_size := get_u32 b 6 |}.

Definition encode_superblock (sb : superblock_t) : list byte :=
  magic sb ++ le_split 4 (num_blocks sb) ++ le_split 4 (num_inode_blocks sb)
    ++ le_split 4 (block_size sb).

(** The 32 bytes of an [inode_t]: [valid], three bytes of padding, then seven
    little-endian words. *)
Definition decode_inode (b : list byte) : inode_t :=
  {| valid := nth 0 b Byte.x00;
     padding := (nth 1 b Byte.x00, nth 2 b Byte.x00, nth 3 b Byte.x00);
     size := get_u32 b 1;
     direct_blocks := [get_u32 b 2; get_u32 b 3; get_u32 b 4; get_u32 b 5];
     indirect_block := get_u32 b 6;
     double_indirect_block := get_u32 b 7 |}.

Definition encode_inode (i : inode_t) : list byte :=
  [valid i; (padding i).1.1; (padding i).1.2; (padding i).2]
    ++ le_split 4 (size i)
    ++ le_split 4 (nth 0 (direct_blocks i) 0)
    ++ le_split 4 (nth 1 (direct_blocks i) 0)
    ++ le_split 4 (nth 2 (direct_blocks i) 0)
    ++ le_split 4 (nth 3 (direct_blocks i) 0)
    ++ le_split 4 (indirect_block i)
    ++ le_split 4 (double_indirect_block i).

Definition direct (i : inode_t) (k : Z) : Z := nth (Z.to_nat k) (direct_blocks i) 0.

Definition set_valid (i : inode_t) (v : byte) : inode_t :=
  mk_inode v (padding i) (size i) (direct_blocks i) (indirect_block i)
    (double_indirect_block i).
Definition set_size (i : inode_t) (v : Z) : inode_t :=
  mk_inode (valid i) (padding i) v (direct_blocks i) (indirect_block i)
    (double_indirect_block i).
Definition set_direct (i : inode_t) (k : Z) (v : Z) : inode_t :=
  mk_inode (valid i) (padding i) (size i)
    (<[Z.to_nat k := v]> (direct_blocks i)) (indirect_block i)
    (double_indirect_block i).
Definition set_indirect (i : inode_t) (v : Z) : inode_t :=
  mk_inode (valid i) (padding i) (size i) (direct_blocks i) v
    (double_indirect_block i).
Definition set_double_indirect (i : inode_t) (v : Z) : inode_t :=
  mk_inode (valid i) (padding i) (size i) (direct_blocks i)
    (indirect_block i) v.

Definition is_valid (i : inode_t) : bool := negb (byte.unsigned (valid i) =? 0).

(** ** The block device and the session state *)

(** Modelled from the spec: the block device ([include/vdisk.h] and its
    implementation are not part of the sources).  An open handle carries the
    sectors of its image; [vdisk_on] loads them from the host's image file
    and [vdisk_off] stores them back.  Every call of [fs.c] that opens a
    handle closes it before another one is opened, so this is the same as
    writing through to the image. *)
Record DISK := mk_disk {
  dname : string;
  sectors : list block }.

Definition size_in_sectors (d : DISK) : Z := Z.of_nat (length (sectors d)).

(** What the session has done to the device and to the allocator, oldest
    first.  The C program keeps no such record; it is carried along so that
    the order of these actions can be stated. *)
Inductive event :=
  | EvAlloc (b : Z)                         (* find_free_block marked b *)
  | EvRelease (b : Z)                       (* free_block cleared b *)
  | EvWrite (sector : Z) (buf : block) (result : Z)   (* vdisk_write *)
  | EvLink (b : Z).                         (* b stored in a parent slot *)

(** The five static variables of [fs.c], the host's image files, and the
    device's pending faults: the head of [faults] is the result of the next
    device operation (0 for success), and an empty list means that the device
    works from now on. *)
Record fs_state := mk_state {
  images : gmap string (list block);
  faults : list Z;
  history : list event;
  disk_mounted : bool;
  disk : DISK;
  superblock : superblock_t;
  block_bitmap : list Z;
  mounted_disk : option string }.

Definition with_images (st : fs_state) (v : gmap string (list block)) :=
  mk_state v (faults st) (history st) (disk_mounted st) (disk st)
    (superblock st) (block_bitmap st) (mounted_disk st).
Definition with_faults (st : fs_state) (v : list Z) :=
  mk_state (images st) v (history st) (disk_mounted st) (disk st)
    (superblock st) (block_bitmap st) (mounted_disk st).
Definition log (st : fs_state) (e : event) :=
  mk_state (images st) (faults st) (history st ++ [e]) (disk_mounted st)
    (disk st) (superblock st) (block_bitmap st) (mounted_disk st).
Definition with_mounted (st : fs_state) (v : bool) :=
  mk_state (images st) (faults st) (history st) v (disk st)
    (superblock st) (block_bitmap st) (mounted_disk st).
Definition with_disk (st : fs_state) (v : DISK) :=
  mk_state (images st) (faults st) (history st) (disk_mounted st) v
    (superblock st) (block_bitmap st) (mounted_disk st).
Definition with_superblock (st : fs_state) (v : superblock_t) :=
  mk_state (images st) (faults st) (history st) (disk_mounted st) (disk st)
    v (block_bitmap st) (mounted_disk st).
Definition with_bitmap (st : fs_state) (v : list Z) :=
  mk_state (images st) (faults st) (history st) (disk_mounted st) (disk st)
    (superblock st) v (mounted_disk st).
Definition with_name (st : fs_state) (v : option string) :=
  mk_state (images st) (faults st) (history st) (disk_mounted st) (disk st)
    (superblock st) (block_bitmap st) v.

(** The result of the next device operation. *)
Definition device_fault (st : fs_state) : Z * fs_state :=
  match faults st with
  | [] => (0, st)
  | e :: rest => (e, with_faults st rest)
  end.

Definition in_range (d : DISK) (sector : Z) : bool :=
  (0 <=? sector) && (sector <? size_in_sectors d).

(** Modelled from the spec: the five operations of the device. *)
Definition vdisk_on (st : fs_state) (name : string) : Z * DISK * fs_state :=
  match images st !! name with
  | None => (vdisk_ENOEXIST, disk st, st)
  | Some img =>
      let '(e, st) := device_fault st in
      if e =? 0 then (0, mk_disk name img, st) else (e, disk st, st)
  end.

Definition vdisk_off (st : fs_state) (d : DISK) : fs_state :=
  with_images st (<[dname d := sectors d]> (images st)).

Definition vdisk_sync (st : fs_state) (d : DISK) : Z * fs_state :=
  device_fault st.

Definition vdisk_read (st : fs_state) (d : DISK) (sector : Z)
  : Z * block * fs_state :=
  if in_range d sector then
    let '(e, st) := device_fault st in
    if e =? 0 then (0, nth (Z.to_nat sector) (sectors d) zero_block, st)
    else (e, zero_block, st)
  else (vdisk_EEXCEED, zero_block, st).

Definition vdisk_write (st : fs_state) (d : DISK) (sector : Z) (buf : block)
  : Z * DISK * fs_state :=
  if in_range d sector then
    let '(e, st) := device_fault st in
    if e =? 0 then
      (0, mk_disk (dname d) (<[Z.to_nat sector := buf]> (sectors d)),
       log st (EvWrite sector buf 0))
    else (e, d, log st (EvWrite sector buf e))
  else (vdisk_EEXCEED, d, log st (EvWrite sector buf vdisk_EEXCEED)).

(** [vdisk_read(&disk, ...)] and [vdisk_write(&disk, ...)] on the mounted
    handle. *)
Definition disk_read (st : fs_state) (sector : Z) : Z * block * fs_state :=
  vdisk_read st (disk st) sector.

Definition disk_write (st : fs_state) (sector : Z) (buf : block)
  : Z * fs_state :=
  let '(r, d, st) := vdisk_write st (disk st) sector buf in
  (r, with_disk st d).

(** ** Helper functions of [fs.c] *)

Definition empty_inode : inode_t :=
  mk_inode Byte.x00 (Byte.x00, Byte.x00, Byte.x00) 0 [0; 0; 0; 0] 0 0.

(** The number of inodes, [superblock.num_inode_blocks * INODES_PER_BLOCK]
    in [uint32_t] arithmetic. *)
Definition inode_count (st : fs_state) : Z :=
  to_uint32 (num_inode_blocks (superblock st) * INODES_PER_BLOCK).

(** [inode_num < 0 || (uint32_t)inode_num >= num_inode_blocks * INODES_PER_BLOCK] *)
Definition bad_inode_num (st : fs_state) (inode_num : Z) : bool :=
  (inode_num <? 0) || (inode_count st <=? to_uint32 inode_num).

(** [read_inode]: the inode is returned next to the result code (on failure
    the C function leaves its output untouched; the model returns
    [empty_inode], which no caller looks at). *)
Definition read_inode (st : fs_state) (inode_num : Z) (bypass_mount_check : bool)
  : Z * inode_t * fs_state :=
  if negb (disk_mounted st) && negb bypass_mount_check then
    (E_DISK_NOT_MOUNTED, empty_inode, st)
  else if bad_inode_num st inode_num then (E_INVALID_INODE, empty_inode, st)
  else
    let block_num := 1 + Z.quot inode_num INODES_PER_BLOCK in
    let offset := Z.rem inode_num INODES_PER_BLOCK * INODE_SIZE in
    let '(result, blk, st) := disk_read st block_num in
    if negb (result =? 0) then (result, empty_inode, st)
    else (0, decode_inode (take (Z.to_nat INODE_SIZE) (drop (Z.to_nat offset) blk)), st).

Definition write_inode (st : fs_state) (inode_num : Z) (inode : inode_t)
  : Z * fs_state :=
  if negb (disk_mounted st) then (E_DISK_NOT_MOUNTED, st)
  else if bad_inode_num st inode_num then (E_INVALID_INODE, st)
  else
    let block_num := 1 + Z.quot inode_num INODES_PER_BLOCK in
    let offset := Z.rem inode_num INODES_PER_BLOCK * INODE_SIZE in
    let '(result, blk, st) := disk_read st block_num in
    if negb (result =? 0) then (result, st)
    else
      let blk := memcpy blk offset (encode_inode inode) INODE_SIZE in
      let '(result, st) := disk_write st block_num blk in
      if negb (result =? 0) then (result, st) else (0, st).

(** [block_bitmap[i]]; the C array has [num_blocks] entries and an access
    outside of it is undefined, the model reads 0 there and ignores a store. *)
Definition bitmap_get (st : fs_state) (i : Z) : Z :=
  nth (Z.to_nat i) (block_bitmap st) 0.

Definition bitmap_set (st : fs_state) (i : Z) (v : Z) : fs_state :=
  with_bitmap st (<[Z.to_nat i := v]> (block_bitmap st)).

(** The loop of [find_free_block]: [n] candidates starting at [i]. *)
Fixpoint first_free (st : fs_state) (i : Z) (n : nat) : option Z :=
  match n with
  | O => None
  | S n' => if bitmap_get st i =? 0 then Some i else first_free st (i + 1) n'
  end.

Definition first_data_block (st : fs_state) : Z :=
  to_int (to_uint32 (1 + num_inode_blocks (superblock st))).

Definition find_free_block (st : fs_state) : Z * fs_state :=
  if negb (disk_mounted st) then (E_DISK_NOT_MOUNTED, st)
  else
    let start := to_uint32 (first_data_block st) in
    match first_free st start (Z.to_nat (num_blocks (superblock st) - start)) with
    | Some i => (to_int i, log (bitmap_set st i 1) (EvAlloc i))
    | None => (E_OUT_OF_SPACE, st)
    end.

Definition free_block (st : fs_state) (block_num : Z) : fs_state :=
  if disk_mounted st && (0 <? block_num)
     && (to_uint32 block_num <? num_blocks (superblock st))
  then log (bitmap_set st block_num 0) (EvRelease block_num)
  else st.

(** *** [get_block_for_offset]

    The C function updates [*inode] in place; the model returns the inode
    next to the result.  Each of the five places where a block is allocated
    reads, in the C text: [find_free_block], [vdisk_write] of zeros (on
    failure [free_block] and return), then the store of [new_block] into the
    inode or into the page read before (recorded as [EvLink]).

    The function is cut where the C text falls through from one stage to the
    next: [gbfo_indirect_entry] is lines 1030-1069, [gbfo_double_data] lines
    1150-1189, [gbfo_double_entry] lines 1103-1148 followed by the former. *)

Definition gbfo_indirect_entry (st : fs_state) (inode : inode_t) (block_index : Z)
  (allocate : bool) : Z * inode_t * fs_state :=
  let '(result, indirect, st) := disk_read st (indirect_block inode) in
  if negb (result =? 0) then (result, inode, st)
  else if (get_u32 indirect block_index =? 0) && allocate then
    let '(new_block, st) := find_free_block st in
    if new_block <? 0 then (new_block, inode, st)
    else
      let '(result, st) := disk_write st new_block zero_block in
      if negb (result =? 0) then (result, inode, free_block st new_block)
      else
        let indirect := set_u32 indirect block_index new_block in
        let st := log st (EvLink new_block) in
        let '(result, st) := disk_write st (indirect_block inode) indirect in
        if negb (result =? 0) then (result, inode, free_block st new_block)
        else (to_int (get_u32 indirect block_index), inode, st)
  else (to_int (get_u32 indirect block_index), inode, st).

Definition gbfo_double_data (st : fs_state) (inode : inode_t) (page : Z)
  (entry_index : Z) (allocate : bool) : Z * inode_t * fs_state :=
  let '(result, indirect, st) := disk_read st page in
  if negb (result =? 0) then (result, inode, st)
  else if (get_u32 indirect entry_index =? 0) && allocate then
    let '(new_block, st) := find_free_block st in
    if new_block <? 0 then (new_block, inode, st)
    else
      let '(result, st) := disk_write st new_block zero_block in
      if negb (result =? 0) then (result, inode, free_block st new_block)
      else
        let indirect := set_u32 indirect entry_index new_block in
        let st := log st (EvLink new_block) in
        let '(result, st) := disk_write st page indirect in
        if negb (result =? 0) then (result, inode, free_block st new_block)
        else (to_int (get_u32 indirect entry_index), inode, st)
  else (to_int (get_u32 indirect entry_index), inode, st).

Definition gbfo_double_entry (st : fs_state) (inode : inode_t) (block_index : Z)
  (allocate : bool) : Z * inode_t * fs_state :=
  let '(result, pointers, st) := disk_read st (double_indirect_block inode) in
  if negb (result =? 0) then (result, inode, st)
  else
    let indirect_index := Z.quot block_index POINTERS_PER_BLOCK in
    let entry_index := Z.rem block_index POINTERS_PER_BLOCK in
    if (get_u32 pointers indirect_index =? 0) && allocate then
      let '(new_block, st) := find_free_block st in
      if new_block <? 0 then (new_block, inode, st)
      else
        let '(result, st) := disk_write st new_block zero_block in
        if negb (result =? 0) then (result, inode, free_block st new_block)
        else
          let pointers := set_u32 pointers indirect_index new_block in
          let st := log st (EvLink new_block) in
          let '(result, st) :=
            disk_write st (double_indirect_block inode) pointers in
          if negb (result =? 0) then (result, inode, free_block st new_block)
          else
            gbfo_double_data st inode (get_u32 pointers indirect_index)
              entry_index allocate
    else if get_u32 pointers indirect_index =? 0 then (0, inode, st)
    else
      gbfo_double_data st inode (get_u32 pointers indirect_index)
        entry_index allocate.

Definition get_block_for_offset (st : fs_state) (inode : inode_t) (offset : Z)
  (allocate : bool) : Z * inode_t * fs_state :=
  if negb (disk_mounted st) then (E_DISK_NOT_MOUNTED, inode, st)
  else if offset <? 0 then (E_INVALID_OFFSET, inode, st)
  else
    let block_index := Z.quot offset BLOCK_SIZE in
    if block_index <? 4 then
      if (direct inode block_index =? 0) && allocate then
        let '(new_block, st) := find_free_block st in
        if new_block <? 0 then (new_block, inode, st)
        else
          let '(result, st) := disk_write st new_block zero_block in
          if negb (result =? 0) then (result, inode, free_block st new_block)
          else
            let inode := set_direct inode block_index new_block in
            let st := log st (EvLink new_block) in
            (to_int (direct inode block_index), inode, st)
      else (to_int (direct inode block_index), inode, st)
    else
      let block_index := block_index - 4 in
      if to_uint32 block_index <? POINTERS_PER_BLOCK then
        if indirect_block inode =? 0 then
          if negb allocate then (0, inode, st)
          else
            let '(new_block, st) := find_free_block st in
            if new_block <? 0 then (new_block, inode, st)
            else
              let '(result, st) := disk_write st new_block zero_block in
              if negb (result =? 0) then (result, inode, free_block st new_block)
              else
                let inode := set_indirect inode new_block in
                let st := log st (EvLink new_block) in
                gbfo_indirect_entry st inode block_index allocate
        else gbfo_indirect_entry st inode block_index allocate
      else
        let block_index := block_index - POINTERS_PER_BLOCK in
        if to_uint32 block_index <? POINTERS_PER_BLOCK * POINTERS_PER_BLOCK then
          if double_indirect_block inode =? 0 then
            if negb allocate then (0, inode, st)
            else
              let '(new_block, st) := find_free_block st in
              if new_block <? 0 then (new_block, inode, st)
              else
                let '(result, st) := disk_write st new_block zero_block in
                if negb (result =? 0) then
                  (result, inode, free_block st new_block)
                else
                  let inode := set_double_indirect inode new_block in
                  let st := log st (EvLink new_block) in
                  gbfo_double_entry st inode block_index allocate
          else gbfo_double_entry st inode block_index allocate
        else (E_INVALID_OFFSET, inode, st).

(** ** Core functions of [fs.c] *)

(** The loop of [format] over the inode blocks [i, i + n). *)
Fixpoint format_inode_blocks (st : fs_state) (d : DISK) (i : Z) (n : nat)
  : Z * DISK * fs_state :=
  match n with
  | O => (0, d, st)
  | S n' =>
      let '(result, d, st) := vdisk_write st d i zero_block in
      if negb (result =? 0) then (result, d, st)
      else format_inode_blocks st d (i + 1) n'
  end.

Definition format (st : fs_state) (disk_name : string) (inodes : Z)
  : Z * fs_state :=
  if disk_mounted st then (E_DISK_ALREADY_MOUNTED, st)
  else
    let inodes := if inodes <=? 0 then 1 else inodes in
    let '(result, format_disk, st) := vdisk_on st disk_name in
    if negb (result =? 0) then (result, st)
    else
      let num_inode_blocks :=
        Z.quot (to_int (to_int (inodes + INODES_PER_BLOCK) - 1)) INODES_PER_BLOCK in
      let num_inode_blocks :=
        if num_inode_blocks <=? 0 then 1 else num_inode_blocks in
      let total_blocks := to_uint32 (size_in_sectors format_disk) in
      if total_blocks <=? to_uint32 (to_uint32 num_inode_blocks + 1) then
        (E_OUT_OF_SPACE, vdisk_off st format_disk)
      else
        let sb := mk_superblock MAGIC_NUMBER total_blocks num_inode_blocks BLOCK_SIZE in
        let block_buffer := memcpy zero_block 0 (encode_superblock sb) 28 in
        let '(result, format_disk, st) := vdisk_write st format_disk 0 block_buffer in
        if negb (result =? 0) then (result, vdisk_off st format_disk)
        else
          let '(result, format_disk, st) :=
            format_inode_blocks st format_disk 1 (Z.to_nat num_inode_blocks) in
          if negb (result =? 0) then (result, vdisk_off st format_disk)
          else
            let '(result, st) := vdisk_sync st format_disk in
            if negb (result =? 0) then (result, vdisk_off st format_disk)
            else (0, vdisk_off st format_disk).

(** [block_bitmap[p] = 1] for every non-zero entry [p] of a pointer page. *)
Definition mark_entries (st : fs_state) (page : block) : fs_state :=
  fold_left
    (fun st k => if get_u32 page (Z.of_nat k) =? 0 then st
                 else bitmap_set st (get_u32 page (Z.of_nat k)) 1)
    (seq 0 (Z.to_nat POINTERS_PER_BLOCK)) st.

(** The body of the inner loop of [mount] over the double-indirect page. *)
Fixpoint mark_double (st : fs_state) (pointers : block) (j : Z) (n : nat)
  : Z * fs_state :=
  match n with
  | O => (0, st)
  | S n' =>
      if get_u32 pointers j =? 0 then mark_double st pointers (j + 1) n'
      else
        let st := bitmap_set st (get_u32 pointers j) 1 in
        let '(result, curr, st) := disk_read st (get_u32 pointers j) in
        if negb (result =? 0) then (result, st)
        else mark_double (mark_entries st curr) pointers (j + 1) n'
  end.

(** What [mount] does with one valid inode. *)
Definition mark_inode (st : fs_state) (inode : inode_t) : Z * fs_state :=
  let st :=
    fold_left
      (fun st j => if direct inode (Z.of_nat j) =? 0 then st
                   else bitmap_set st (direct inode (Z.of_nat j)) 1)
      (seq 0 4) st in
  let '(result, st) :=
    if indirect_block inode =? 0 then (0, st)
    else
      let st := bitmap_set st (indirect_block inode) 1 in
      let '(result, page, st) := disk_read st (indirect_block inode) in
      if negb (result =? 0) then (result, st) else (0, mark_entries st page) in
  if negb (result =? 0) then (result, st)
  else if double_indirect_block inode =? 0 then (0, st)
  else
    let st := bitmap_set st (double_indirect_block inode) 1 in
    let '(result, page, st) := disk_read st (double_indirect_block inode) in
    if negb (result =? 0) then (result, st)
    else mark_double st page 0 (Z.to_nat POINTERS_PER_BLOCK).

(** The scan of [mount] over the inodes [i, i + n). *)
Fixpoint mount_scan (st : fs_state) (i : Z) (n : nat) : Z * fs_state :=
  match n with
  | O => (0, st)
  | S n' =>
      let '(result, inode, st) := read_inode st (to_int i) true in
      if negb (result =? 0) then (result, st)
      else if is_valid inode then
        let '(result, st) := mark_inode st inode in
        if negb (result =? 0) then (result, st) else mount_scan st (i + 1) n'
      else mount_scan st (i + 1) n'
  end.

(** [mount]; [calloc] and [malloc] are taken to succeed. *)
Definition mount (st : fs_state) (disk_name : string) : Z * fs_state :=
  if disk_mounted st then (E_DISK_ALREADY_MOUNTED, st)
  else
    let '(result, d, st) := vdisk_on st disk_name in
    if negb (result =? 0) then (result, st)
    else
      let st := with_disk st d in
      let '(result, block_buffer, st) := disk_read st 0 in
      if negb (result =? 0) then (result, vdisk_off st (disk st))
      else
        let st := with_superblock st (decode_superblock block_buffer) in
        if negb (bytes_eqb (magic (superblock st)) MAGIC_NUMBER) then
          (E_CORRUPT_DISK, vdisk_off st (disk st))
        else
          let st :=
            with_bitmap st (replicate (Z.to_nat (num_blocks (superblock st))) 0) in
          let st := bitmap_set st 0 1 in
          let st :=
            fold_left (fun st i => bitmap_set st (Z.of_nat i) 1)
              (seq 1 (Z.to_nat (num_inode_blocks (superblock st)))) st in
          let '(result, st) := mount_scan st 0 (Z.to_nat (inode_count st)) in
          if negb (result =? 0) then
            (result, vdisk_off (with_bitmap st []) (disk st))
          else
            (0, with_mounted (with_name st (Some disk_name)) true).

Definition unmount (st : fs_state) : Z * fs_state :=
  if negb (disk_mounted st) then (E_DISK_NOT_MOUNTED, st)
  else
    let '(result, st) := vdisk_sync st (disk st) in
    let st := with_bitmap st [] in
    let st := with_name st None in
    let st := vdisk_off st (disk st) in
    let st := with_mounted st false in
    (if result =? 0 then 0 else result, st).

(** The loop of [create] over the inodes [inode_num, inode_num + n). *)
Fixpoint create_scan (st : fs_state) (inode_num : Z) (n : nat) : Z * fs_state :=
  match n with
  | O => (E_OUT_OF_INODES, st)
  | S n' =>
      let '(result, inode, st) := read_inode st inode_num false in
      if negb (result =? 0) then (result, st)
      else if byte.unsigned (valid inode) =? 0 then
        let inode := set_valid inode Byte.x01 in
        let inode := set_size inode 0 in
        let inode :=
          fold_left (fun inode i => set_direct inode (Z.of_nat i) 0) (seq 0 4) inode in
        let inode := set_indirect inode 0 in
        let inode := set_double_indirect inode 0 in
        let '(result, st) := write_inode st inode_num inode in
        if negb (result =? 0) then (result, st) else (inode_num, st)
      else create_scan st (inode_num + 1) n'
  end.

(** [create]; the message printed when no disk is mounted is not modelled. *)
Definition create (st : fs_state) : Z * fs_state :=
  if negb (disk_mounted st) then (E_DISK_NOT_MOUNTED, st)
  else
    let max_inodes := to_int (inode_count st) in
    create_scan st 0 (Z.to_nat max_inodes).

(** [free_block(p)] for every non-zero entry [p] of a pointer page. *)
Definition free_entries (st : fs_state) (page : block) : fs_state :=
  fold_left
    (fun st k => if get_u32 page (Z.of_nat k) =? 0 then st
                 else free_block st (to_int (get_u32 page (Z.of_nat k))))
    (seq 0 (Z.to_nat POINTERS_PER_BLOCK)) st.

(** The loop of [delete] over the double-indirect page. *)
Fixpoint free_double (st : fs_state) (pointers : block) (i : Z) (n : nat)
  : Z * fs_state :=
  match n with
  | O => (0, st)
  | S n' =>
      if get_u32 pointers i =? 0 then free_double st pointers (i + 1) n'
      else
        let '(result, page, st) := disk_read st (get_u32 pointers i) in
        if negb (result =? 0) then (result, st)
        else
          let st := free_entries st page in
          let st := free_block st (to_int (get_u32 pointers i)) in
          free_double st pointers (i + 1) n'
  end.

Definition delete (st : fs_state) (inode_num : Z) : Z * fs_state :=
  if negb (disk_mounted st) then (E_DISK_NOT_MOUNTED, st)
  else if bad_inode_num st inode_num then (E_INVALID_INODE, st)
  else
    let '(result, inode, st) := read_inode st inode_num false in
    if negb (result =? 0) then (result, st)
    else if byte.unsigned (valid inode) =? 0 then (E_INVALID_INODE, st)
    else
      let '(inode, st) :=
        fold_left
          (fun '(inode, st) i =>
             if direct inode (Z.of_nat i) =? 0 then (inode, st)
             else (set_direct inode (Z.of_nat i) 0,
                   free_block st (to_int (direct inode (Z.of_nat i)))))
          (seq 0 4) (inode, st) in
      let '(result, inode, st) :=
        if indirect_block inode =? 0 then (0, inode, st)
        else
          let '(result, page, st) := disk_read st (indirect_block inode) in
          if negb (result =? 0) then (result, inode, st)
          else
            let st := free_entries st page in
            let st := free_block st (to_int (indirect_block inode)) in
            (0, set_indirect inode 0, st) in
      if negb (result =? 0) then (result, st)
      else
        let '(result, inode, st) :=
          if double_indirect_block inode =? 0 then (0, inode, st)
          else
            let '(result, page, st) :=
              disk_read st (double_indirect_block inode) in
            if negb (result =? 0) then (result, inode, st)
            else
              let '(result, st) :=
                free_double st page 0 (Z.to_nat POINTERS_PER_BLOCK) in
              if negb (result =? 0) then (result, inode, st)
              else
                let st := free_block st (to_int (double_indirect_block inode)) in
                (0, set_double_indirect inode 0, st) in
        if negb (result =? 0) then (result, st)
        else
          let inode := set_valid inode Byte.x00 in
          let inode := set_size inode 0 in
          let '(result, st) := write_inode st inode_num inode in
          if negb (result =? 0) then (result, st) else (0, st).

Definition stat (st : fs_state) (inode_num : Z) : Z * fs_state :=
  if negb (disk_mounted st) then (E_DISK_NOT_MOUNTED, st)
  else if bad_inode_num st inode_num then (E_INVALID_INODE, st)
  else
    let '(result, inode, st) := read_inode st inode_num false in
    if negb (result =? 0) then (result, st)
    else if byte.unsigned (valid inode) =? 0 then (E_INVALID_INODE, st)
    else (to_int (size inode), st).

(** *** [read]

    The user buffer [data] is passed in and returned.  The [while] loop
    copies at least one byte per round, so [bytes_to_read] rounds are
    enough; [fuel] counts them down. *)
Fixpoint read_loop (fuel : nat) (st : fs_state) (inode : inode_t)
  (data : list byte) (bytes_to_read bytes_read current_offset : Z)
  : Z * list byte * fs_state :=
  match fuel with
  | O => (bytes_read, data, st)
  | S fuel' =>
      if bytes_read <? bytes_to_read then
        let block_offset := Z.rem current_offset BLOCK_SIZE in
        let '(block_num, inode, st) :=
          get_block_for_offset st inode (to_int current_offset) false in
        if block_num <=? 0 then (bytes_read, data, st)
        else
          let '(result, blk, st) := disk_read st block_num in
          if negb (result =? 0) then
            (if 0 <? bytes_read then bytes_read else result, data, st)
          else
            let bytes_to_copy := BLOCK_SIZE - block_offset in
            let bytes_to_copy :=
              if bytes_to_read - bytes_read <? bytes_to_copy
              then bytes_to_read - bytes_read else bytes_to_copy in
            let data :=
              memcpy data bytes_read (drop (Z.to_nat block_offset) blk)
                bytes_to_copy in
            read_loop fuel' st inode data bytes_to_read
              (bytes_read + bytes_to_copy)
              (to_uint32 (current_offset + bytes_to_copy))
      else (bytes_read, data, st)
  end.

(** Step 5 of [read]: the number of bytes to read. *)
Definition read_count (inode : inode_t) (len offset : Z) : Z :=
  if to_uint32 offset <? size inode then
    let bytes_to_read := to_int (to_uint32 (size inode - to_uint32 offset)) in
    if len <? bytes_to_read then len else bytes_to_read
  else 0.

Definition read (st : fs_state) (inode_num : Z) (data : list byte)
  (len offset : Z) : Z * list byte * fs_state :=
  if negb (disk_mounted st) then (E_DISK_NOT_MOUNTED, data, st)
  else if bad_inode_num st inode_num then (E_INVALID_INODE, data, st)
  else
    let '(result, inode, st) := read_inode st inode_num false in
    if negb (result =? 0) then (result, data, st)
    else if byte.unsigned (valid inode) =? 0 then (E_INVALID_INODE, data, st)
    else
      let bytes_to_read := read_count inode len offset in
      if bytes_to_read <=? 0 then (0, data, st)
      else
        read_loop (Z.to_nat bytes_to_read) st inode data bytes_to_read 0
          (to_uint32 offset).

(** *** [write]

    Both loops of [write] can leave the function; they return [Some r] for
    [return r;] and [None] when the loop ends. *)

(** [inode.size = ((uint32_t)curr_offset > inode.size) ? (uint32_t)curr_offset : inode.size] *)
Definition advance_size (inode : inode_t) (curr_offset : Z) : inode_t :=
  set_size inode
    (if size inode <? to_uint32 curr_offset then to_uint32 curr_offset
     else size inode).

(** The zero-fill loop (step 5). *)
Fixpoint fill_loop (fuel : nat) (st : fs_state) (inode_num : Z)
  (inode : inode_t) (curr_offset zero_fill_end : Z)
  : option Z * inode_t * fs_state :=
  match fuel with
  | O => (None, inode, st)
  | S fuel' =>
      if curr_offset <? zero_fill_end then
        let block_offset := Z.rem curr_offset BLOCK_SIZE in
        let '(block_num, inode, st) :=
          get_block_for_offset st inode curr_offset true in
        if block_num <=? 0 then
          let inode := advance_size inode curr_offset in
          let '(_, st) := write_inode st inode_num inode in
          (Some block_num, inode, st)
        else
          let bytes_to_fill := BLOCK_SIZE - block_offset in
          let bytes_to_fill :=
            if zero_fill_end - curr_offset <? bytes_to_fill
            then zero_fill_end - curr_offset else bytes_to_fill in
          let '(result, blk, st) :=
            if (0 <? block_offset) || (bytes_to_fill <? BLOCK_SIZE)
            then disk_read st block_num
            else (0, zero_block, st) in
          if negb (result =? 0) then
            let inode := advance_size inode curr_offset in
            let '(_, st) := write_inode st inode_num inode in
            (Some result, inode, st)
          else
            let blk := memset0 blk block_offset bytes_to_fill in
            let '(result, st) := disk_write st block_num blk in
            if negb (result =? 0) then
              let inode := advance_size inode curr_offset in
              let '(_, st) := write_inode st inode_num inode in
              (Some result, inode, st)
            else
              fill_loop fuel' st inode_num inode (curr_offset + bytes_to_fill)
                zero_fill_end
      else (None, inode, st)
  end.

(** [if ((uint32_t)current_offset > inode.size) { inode.size = current_offset;
    write_inode(inode_num, &inode); }] *)
Definition persist_progress (st : fs_state) (inode_num : Z) (inode : inode_t)
  (current_offset : Z) : inode_t * fs_state :=
  if size inode <? to_uint32 current_offset then
    let inode := set_size inode (to_uint32 current_offset) in
    let '(_, st) := write_inode st inode_num inode in
    (inode, st)
  else (inode, st).

(** The payload loop (step 6).  A block that is written in full is not read
    first: the C buffer is then uninitialised and overwritten completely,
    the model starts from [zero_block]. *)
Fixpoint write_loop (fuel : nat) (st : fs_state) (inode_num : Z)
  (inode : inode_t) (data : list byte) (len bytes_written current_offset : Z)
  : option Z * Z * Z * inode_t * fs_state :=
  match fuel with
  | O => (None, bytes_written, current_offset, inode, st)
  | S fuel' =>
      if bytes_written <? len then
        let block_offset := Z.rem current_offset BLOCK_SIZE in
        let '(block_num, inode, st) :=
          get_block_for_offset st inode current_offset true in
        if block_num <=? 0 then
          let '(inode, st) := persist_progress st inode_num inode current_offset in
          (Some (if 0 <? bytes_written then bytes_written else block_num),
           bytes_written, current_offset, inode, st)
        else
          let bytes_to_write := BLOCK_SIZE - block_offset in
          let bytes_to_write :=
            if len - bytes_written <? bytes_to_write
            then len - bytes_written else bytes_to_write in
          let '(result, blk, st) :=
            if (0 <? block_offset) || (bytes_to_write <? BLOCK_SIZE)
            then disk_read st block_num
            else (0, zero_block, st) in
          if negb (result =? 0) then
            if 0 <? bytes_written then
              let '(inode, st) :=
                persist_progress st inode_num inode current_offset in
              (Some bytes_written, bytes_written, current_offset, inode, st)
            else (Some result, bytes_written, current_offset, inode, st)
          else
            let blk :=
              memcpy blk block_offset (drop (Z.to_nat bytes_written) data)
                bytes_to_write in
            let '(result, st) := disk_write st block_num blk in
            if negb (result =? 0) then
              if 0 <? bytes_written then
                let '(inode, st) :=
                  persist_progress st inode_num inode current_offset in
                (Some bytes_written, bytes_written, current_offset, inode, st)
              else (Some result, bytes_written, current_offset, inode, st)
            else
              write_loop fuel' st inode_num inode data len
                (bytes_written + bytes_to_write)
                (current_offset + bytes_to_write)
      else (None, bytes_written, current_offset, inode, st)
  end.

(** Step 5 of [write]. *)
Definition write_fill (st : fs_state) (inode_num : Z) (inode : inode_t)
  (offset : Z) : option Z * inode_t * fs_state :=
  if size inode <? to_uint32 offset then
    let zero_fill_start := to_int (size inode) in
    let zero_fill_end := offset in
    let '(early, inode, st) :=
      fill_loop (Z.to_nat (zero_fill_end - zero_fill_start)) st inode_num inode
        zero_fill_start zero_fill_end in
    match early with
    | Some r => (Some r, inode, st)
    | None => (None, set_size inode (to_uint32 offset), st)
    end
  else (None, inode, st).

Definition write (st : fs_state) (inode_num : Z) (data : list byte)
  (len offset : Z) : Z * fs_state :=
  if negb (disk_mounted st) then (E_DISK_NOT_MOUNTED, st)
  else if bad_inode_num st inode_num then (E_INVALID_INODE, st)
  else
    let '(result, inode, st) := read_inode st inode_num false in
    if negb (result =? 0) then (result, st)
    else if byte.unsigned (valid inode) =? 0 then (E_INVALID_INODE, st)
    else
      let '(early, inode, st) := write_fill st inode_num inode offset in
      match early with
      | Some r => (r, st)
      | None =>
          let '(early, bytes_written, current_offset, inode, st) :=
            write_loop (Z.to_nat len) st inode_num inode data len 0 offset in
          match early with
          | Some r => (r, st)
          | None =>
              if size inode <? to_uint32 current_offset then
                let inode := set_size inode (to_uint32 current_offset) in
                let '(result, st) := write_inode st inode_num inode in
                if negb (result =? 0) then (bytes_written, st)
                else (bytes_written, st)
              else (bytes_written, st)
          end
      end.

(** * Specification vocabulary *)

(** The device works: no fault is pending. *)
Definition healthy (st : fs_state) : Prop := faults st = [].

(** ** Well-formed sessions *)

(** What [format] writes into a superblock and the model's bound on the
    image: block numbers and inode numbers travel as [int]. *)
Definition superblock_ok (st : fs_state) : Prop :=
  1 <= num_inode_blocks (superblock st) /\
  num_inode_blocks (superblock st) * INODES_PER_BLOCK <= INT_MAX /\
  num_inode_blocks (superblock st) + 1 < num_blocks (superblock st) /\
  num_blocks (superblock st) <= INT_MAX.

(** The state [mount] leaves behind on an image written by [format]. *)
Definition mounted_ok (st : fs_state) : Prop :=
  disk_mounted st = true /\
  superblock_ok st /\
  size_in_sectors (disk st) = num_blocks (superblock st) /\
  Z.of_nat (length (block_bitmap st)) = num_blocks (superblock st) /\
  Forall (fun b : block => length b = Z.to_nat BLOCK_SIZE) (sectors (disk st)).


(** The block stored in sector [s] of the mounted device. *)
Definition blk (st : fs_state) (s : Z) : block :=
  nth (Z.to_nat s) (sectors (disk st)) zero_block.

(** The state after a successful [vdisk_write(&disk, s, buf)]. *)
Definition put (st : fs_state) (s : Z) (buf : block) : fs_state :=
  with_disk (log st (EvWrite s buf 0))
    (mk_disk (dname (disk st)) (<[Z.to_nat s := buf]> (sectors (disk st)))).

(** The inode record stored on the device under number [i]. *)
Definition inode_at (st : fs_state) (i : Z) : inode_t :=
  decode_inode
    (take (Z.to_nat INODE_SIZE)
       (drop (Z.to_nat (Z.rem i INODES_PER_BLOCK * INODE_SIZE))
          (blk st (1 + Z.quot i INODES_PER_BLOCK)))).

(** The fields of an inode record fit their C types. *)
Definition inode_ok (i : inode_t) : Prop :=
  0 <= size i < 2 ^ 32 /\
  length (direct_blocks i) = 4%nat /\
  Forall (fun p => 0 <= p < 2 ^ 32) (direct_blocks i) /\
  0 <= indirect_block i < 2 ^ 32 /\
  0 <= double_indirect_block i < 2 ^ 32.

(** The inode [create] writes over a free inode [i]. *)
Definition created (i : inode_t) : inode_t :=
  mk_inode Byte.x01 (padding i) 0 [0; 0; 0; 0] 0 0.

(** ** Example sessions *)

(** A host with one zeroed image of [n] blocks and nothing mounted. *)
Definition blank_host (n : nat) : fs_state :=
  mk_state {[ "disk.img"%string := replicate n zero_block ]} [] [] false
    (mk_disk ""%string []) (mk_superblock [] 0 0 0) [] None.

(** A 12-block image, formatted for 10 inodes and mounted. *)
Definition example_mounted : fs_state :=
  snd (mount (snd (format (blank_host 12) "disk.img"%string 10)) "disk.img"%string).

(** The same session after [create()], which returns inode 0. *)
Definition example_file : fs_state := snd (create example_mounted).

(** The state after a successful [write_inode(i, &inode)]. *)
Definition store_inode (st : fs_state) (i : Z) (inode : inode_t) : fs_state :=
  put st (1 + Z.quot i INODES_PER_BLOCK)
    (memcpy (blk st (1 + Z.quot i INODES_PER_BLOCK))
       (Z.rem i INODES_PER_BLOCK * INODE_SIZE) (encode_inode inode) INODE_SIZE).

(** ** Rounds of the loop of [read] *)

(** The variables of the loop: session, inode, user buffer, [bytes_read]
    and [current_offset]. *)
Record read_cfg := mk_read_cfg {
  rc_state : fs_state;
  rc_inode : inode_t;
  rc_data : list byte;
  rc_read : Z;
  rc_offset : Z }.

(** One full round of the loop: the block is found, read and copied. *)
Definition read_round (bytes_to_read : Z) (c : read_cfg) : option read_cfg :=
  if rc_read c <? bytes_to_read then
    let block_offset := Z.rem (rc_offset c) BLOCK_SIZE in
    let '(block_num, inode, st) :=
      get_block_for_offset (rc_state c) (rc_inode c) (to_int (rc_offset c)) false in
    if block_num <=? 0 then None
    else
      let '(result, blk, st) := disk_read st block_num in
      if negb (result =? 0) then None
      else
        let bytes_to_copy := BLOCK_SIZE - block_offset in
        let bytes_to_copy :=
          if bytes_to_read - rc_read c <? bytes_to_copy
          then bytes_to_read - rc_read c else bytes_to_copy in
        Some (mk_read_cfg st inode
                (memcpy (rc_data c) (rc_read c)
                   (drop (Z.to_nat block_offset) blk) bytes_to_copy)
                (rc_read c + bytes_to_copy)
                (to_uint32 (rc_offset c + bytes_to_copy)))
  else None.

(** [c'] is reached from [c] by some number of full rounds. *)
Inductive read_rounds (bytes_to_read : Z) : read_cfg -> read_cfg -> Prop :=
  | read_rounds_refl c : read_rounds bytes_to_read c c
  | read_rounds_step c c1 c' :
      read_round bytes_to_read c = Some c1 ->
      read_rounds bytes_to_read c1 c' ->
      read_rounds bytes_to_read c c'.

(** Every pending device fault is an error code of the device, that is, a
    negative number (0 stands for an operation that succeeds). *)
Definition neg_faults (st : fs_state) : Prop :=
  Forall (fun e => e <= 0) (faults st).

(** [example_file] after [write(0, "X", 1, 4096)], which fills the four
    direct blocks and puts the byte behind the indirect page. *)
Definition example_indirect : fs_state :=
  snd (write example_file 0 [Byte.x58] 1 4096).

(** The same session with a device that is about to fail: on the second
    operation from now (the read of the indirect page when [read] looks up
    offset 4096), respectively on the third (the read of the data block). *)
Definition example_lookup_fails : fs_state :=
  with_faults example_indirect [0; -7].

Definition example_block_fails : fs_state :=
  with_faults example_indirect [0; 0; -7].

(** ** The order of allocation, zeroing and linking *)

(** The events a call of [get_block_for_offset] with result [r] may add to
    the history.  Every block is allocated, zeroed on the device and only
    then linked, either into the inode ([alloc_events_linked]) or into a
    page that is written back afterwards ([alloc_events_stored]).  At most
    one device write fails, and it is the last one: the zeroing or the
    write-back; the block allocated last is then released and the device's
    error is the result. *)
Inductive alloc_events (r : Z) : list event -> Prop :=
  | alloc_events_nil : alloc_events r []
  | alloc_events_linked b l :
      alloc_events r l ->
      alloc_events r (EvAlloc b :: EvWrite b zero_block 0 :: EvLink b :: l)
  | alloc_events_stored b s pg k l :
      alloc_events r l ->
      alloc_events r
        (EvAlloc b :: EvWrite b zero_block 0 :: EvLink b
           :: EvWrite s (set_u32 pg k b) 0 :: l)
  | alloc_events_zero_failed b e :
      e <> 0 -> r = e ->
      alloc_events r [EvAlloc b; EvWrite b zero_block e; EvRelease b]
  | alloc_events_store_failed b s pg k e :
      e <> 0 -> r = e ->
      alloc_events r
        [EvAlloc b; EvWrite b zero_block 0; EvLink b;
         EvWrite s (set_u32 pg k b) e; EvRelease b].

Definition is_alloc (ev : event) : Prop :=
  match ev with EvAlloc _ => True | _ => False end.

(** What a call leaves of the session when seen from the allocator: it adds
    the events [l] to the history, a block released at the very end has its
    bitmap entry at 0, and the mounted flag, the superblock and the length
    of the bitmap stay. *)
Definition alloc_outcome (st : fs_state) (r : Z) (st' : fs_state) : Prop :=
  exists l,
    history st' = history st ++ l /\
    alloc_events r l /\
    (forall l1 b, l = l1 ++ [EvRelease b] -> bitmap_get st' b = 0) /\
    disk_mounted st' = disk_mounted st /\
    superblock st' = superblock st /\
    length (block_bitmap st') = length (block_bitmap st).

(** ** The block map of a file *)

(** Where a block number is stored: in one of the six fields of the inode,
    or in entry [k] of the page whose number is stored in [parent]. *)
Inductive field := FDirect (k : Z) | FInd | FDbl.

Inductive slot := Top (f : field) | Child (parent : slot) (k : Z).

#[global] Instance field_eq_dec : EqDecision field.
Proof. solve_decision. Defined.

#[global] Instance slot_eq_dec : EqDecision slot.
Proof. solve_decision. Defined.

Definition get_field (inode : inode_t) (f : field) : Z :=
  match f with
  | FDirect k => direct inode k
  | FInd => indirect_block inode
  | FDbl => double_indirect_block inode
  end.

Definition set_field (inode : inode_t) (f : field) (v : Z) : inode_t :=
  match f with
  | FDirect k => set_direct inode k v
  | FInd => set_indirect inode v
  | FDbl => set_double_indirect inode v
  end.

(** Entry [k] of the pointer page [p]; the null page has no entries. *)
Definition entry (st : fs_state) (p k : Z) : Z :=
  if p =? 0 then 0 else get_u32 (blk st p) k.

(** The block number stored in a slot (0 when the slot or one of the pages
    on the way to it is missing). *)
Fixpoint ptr (st : fs_state) (inode : inode_t) (s : slot) : Z :=
  match s with
  | Top f => get_field inode f
  | Child parent k => entry st (ptr st inode parent) k
  end.

(** The slots that hold pages: the indirect field, the double-indirect
    field and the entries of the double-indirect page. *)
Definition page_slot (s : slot) : Prop :=
  match s with
  | Top FInd | Top FDbl => True
  | Child (Top FDbl) j => 0 <= j < POINTERS_PER_BLOCK
  | _ => False
  end.

(** The slots of the format: the six fields, the entries of the indirect
    page, of the double-indirect page and of the pages below it. *)
Definition slot_ok (s : slot) : Prop :=
  match s with
  | Top (FDirect k) => 0 <= k < 4
  | Top _ => True
  | Child parent k => page_slot parent /\ 0 <= k < POINTERS_PER_BLOCK
  end.

(** The block map of the inode is a tree over the data-block pool: every
    block it references is a data block that the bitmap marks as used, and
    no block is referenced from two slots. *)
Definition tree_ok (st : fs_state) (inode : inode_t) : Prop :=
  inode_ok inode /\
  (forall s, slot_ok s -> ptr st inode s <> 0 ->
     num_inode_blocks (superblock st) < ptr st inode s < num_blocks (superblock st) /\
     bitmap_get st (ptr st inode s) <> 0) /\
  (forall s1 s2, slot_ok s1 -> slot_ok s2 -> ptr st inode s1 <> 0 ->
     ptr st inode s1 = ptr st inode s2 -> s1 = s2).

(** The slot that maps block [k] of the file. *)
Definition slot_of (k : Z) : slot :=
  if k <? 4 then Top (FDirect k)
  else if k - 4 <? POINTERS_PER_BLOCK then Child (Top FInd) (k - 4)
  else Child (Child (Top FDbl) ((k - 4 - POINTERS_PER_BLOCK) / POINTERS_PER_BLOCK))
         ((k - 4 - POINTERS_PER_BLOCK) mod POINTERS_PER_BLOCK).

(** The device block that holds block [k] of the file, or 0. *)
Definition bmap (st : fs_state) (inode : inode_t) (k : Z) : Z :=
  ptr st inode (slot_of k).

(** The number of blocks and of bytes a file can map. *)
Definition MAX_BLOCKS : Z :=
  4 + POINTERS_PER_BLOCK + POINTERS_PER_BLOCK * POINTERS_PER_BLOCK.

Definition addressable_max : Z := MAX_BLOCKS * BLOCK_SIZE.

(** Byte [p] of the file, read through the block map. *)
Definition fbyte (st : fs_state) (inode : inode_t) (p : Z) : byte :=
  nth (Z.to_nat (p mod BLOCK_SIZE)) (blk st (bmap st inode (p / BLOCK_SIZE)))
    Byte.x00.

(** The working state the proofs about [read] and [write] start from. *)
Definition session_ok (st : fs_state) (inode : inode_t) : Prop :=
  mounted_ok st /\ healthy st /\ tree_ok st inode.

(** The state after [find_free_block] has handed out [b]. *)
Definition alloc (st : fs_state) (b : Z) : fs_state :=
  log (bitmap_set st b 1) (EvAlloc b).

(** What [get_block_for_offset] keeps of a session when it allocates: the
    session stays well formed, every slot that was mapped keeps its block,
    the data blocks and the inode table keep their content, and [size] and
    [valid] of the inode are not touched. *)
Definition extends (st : fs_state) (inode : inode_t) (st' : fs_state)
    (inode' : inode_t) : Prop :=
  session_ok st' inode' /\
  superblock st' = superblock st /\
  size inode' = size inode /\ valid inode' = valid inode /\
  (forall s, slot_ok s -> ptr st inode s <> 0 ->
     ptr st' inode' s = ptr st inode s) /\
  (forall s, slot_ok s -> ~ page_slot s -> ptr st inode s <> 0 ->
     blk st' (ptr st inode s) = blk st (ptr st inode s)) /\
  (forall x, 0 <= x <= num_inode_blocks (superblock st) ->
     blk st' x = blk st x).

(** The index of a slot in its page and the block in which the slot lives
    (-1 for a field of the inode). *)
Definition child_index (s : slot) : Z :=
  match s with Top _ => 0 | Child _ k => k end.

Definition home (st : fs_state) (inode : inode_t) (s : slot) : Z :=
  match s with Top _ => -1 | Child sp _ => ptr st inode sp end.

(** The field of the inode on the way to block [k] of the file. *)
Definition top_field (k : Z) : field :=
  if k <? 4 then FDirect k
  else if k - 4 <? POINTERS_PER_BLOCK then FInd else FDbl.

(** What [write] keeps of a session while it runs: like [extends], but the
    content of data blocks may change. *)
Definition grows (st : fs_state) (inode : inode_t) (st' : fs_state)
    (inode' : inode_t) : Prop :=
  session_ok st' inode' /\
  superblock st' = superblock st /\
  size inode' = size inode /\ valid inode' = valid inode /\
  (forall s, slot_ok s -> ptr st inode s <> 0 ->
     ptr st' inode' s = ptr st inode s) /\
  (forall x, 0 <= x <= num_inode_blocks (superblock st) ->
     blk st' x = blk st x).

(** Byte [p] of the file is byte [p - offset] of the caller's buffer. *)
Definition payload (data : list byte) (offset p : Z) : byte :=
  nth (Z.to_nat (p - offset)) data Byte.x00.

(** The effect of the rounds of a loop of [write] that put the bytes [f] in
    the range [[a, b)] of the file: the range is mapped and holds [f], and
    every other mapped byte of the file is what it was. *)
Definition writes (st : fs_state) (inode : inode_t) (st' : fs_state)
    (inode' : inode_t) (a b : Z) (f : Z -> byte) : Prop :=
  grows st inode st' inode' /\
  (forall p, a <= p < b ->
     bmap st' inode' (p / BLOCK_SIZE) <> 0 /\ fbyte st' inode' p = f p) /\
  (forall p, 0 <= p < addressable_max -> ~ (a <= p < b) ->
     bmap st inode (p / BLOCK_SIZE) <> 0 ->
     fbyte st' inode' p = fbyte st inode p).

(** No hole below the size: every byte of the file has a block. *)
Definition no_holes (st : fs_state) (inode : inode_t) : Prop :=
  forall p, 0 <= p < size inode -> bmap st inode (p / BLOCK_SIZE) <> 0.

(** Inode [i] of the mounted image is a file as [create] and [write] leave
    it on a working device: valid, with a block map that is a tree over used
    data blocks, of at most the addressable size and without holes. *)
Definition file_ok (st : fs_state) (i : Z) : Prop :=
  0 <= i < inode_count st /\
  byte.unsigned (valid (inode_at st i)) <> 0 /\
  tree_ok st (inode_at st i) /\
  size (inode_at st i) <= addressable_max /\
  no_holes st (inode_at st i).

(** The file [i] in [st'] is the file of [st] with [len] bytes of [data]
    written at [offset]: the gap, if any, between the old size and [offset]
    reads as zeros, and the rest of the file is as before. *)
Definition written (st : fs_state) (i : Z) (data : list byte) (len offset : Z)
    (st' : fs_state) : Prop :=
  session_ok st' (inode_at st' i) /\
  superblock st' = superblock st /\
  valid (inode_at st' i) = valid (inode_at st i) /\
  size (inode_at st' i) = Z.max (size (inode_at st i)) (offset + len) /\
  no_holes st' (inode_at st' i) /\
  (forall p, offset <= p < offset + len ->
     fbyte st' (inode_at st' i) p = payload data offset p) /\
  (forall p, size (inode_at st i) <= p < offset ->
     fbyte st' (inode_at st' i) p = Byte.x00) /\
  (forall p, 0 <= p < size (inode_at st i) -> ~ (offset <= p < offset + len) ->
     fbyte st' (inode_at st' i) p = fbyte st (inode_at st i) p).

(** ** Rounds of the zero-fill loop of [write] *)

(** The variables of the loop: session, inode in memory and [curr_offset]. *)
Record fill_cfg := mk_fill_cfg {
  fc_state : fs_state;
  fc_inode : inode_t;
  fc_offset : Z }.

(** The body of the loop up to the point where it either leaves ([Some e]:
    the code [e] is what [write] is about to return, after it has advanced
    the size and written the inode) or goes round again ([None]). *)
Definition fill_step (c : fill_cfg) (zero_fill_end : Z)
  : option Z * fill_cfg :=
  let curr_offset := fc_offset c in
  let block_offset := Z.rem curr_offset BLOCK_SIZE in
  let '(block_num, inode, st) :=
    get_block_for_offset (fc_state c) (fc_inode c) curr_offset true in
  if block_num <=? 0 then (Some block_num, mk_fill_cfg st inode curr_offset)
  else
    let bytes_to_fill := BLOCK_SIZE - block_offset in
    let bytes_to_fill :=
      if zero_fill_end - curr_offset <? bytes_to_fill
      then zero_fill_end - curr_offset else bytes_to_fill in
    let '(result, blk, st) :=
      if (0 <? block_offset) || (bytes_to_fill <? BLOCK_SIZE)
      then disk_read st block_num
      else (0, zero_block, st) in
    if negb (result =? 0) then (Some result, mk_fill_cfg st inode curr_offset)
    else
      let blk := memset0 blk block_offset bytes_to_fill in
      let '(result, st) := disk_write st block_num blk in
      if negb (result =? 0) then (Some result, mk_fill_cfg st inode curr_offset)
      else (None, mk_fill_cfg st inode (curr_offset + bytes_to_fill)).

(** [c'] is reached from [c] by some number of rounds that filled their
    block. *)
Inductive fill_rounds (zero_fill_end : Z) : fill_cfg -> fill_cfg -> Prop :=
  | fill_rounds_refl c : fill_rounds zero_fill_end c c
  | fill_rounds_step c c1 c' :
      fc_offset c < zero_fill_end ->
      fill_step c zero_fill_end = (None, c1) ->
      fill_rounds zero_fill_end c1 c' ->
      fill_rounds zero_fill_end c c'.

(** [example_file] with a device that fails on its fourth operation from
    now: in [write(0, "X", 1, 5000)] that is the zeroing of the block
    allocated for the second round of the fill, after the read of the inode
    and the two writes of the first round. *)
Definition example_fill_fails : fs_state :=
  with_faults example_file [0; 0; 0; -7].

(** The fill loop of that call: its start, the state after the first round
    and the state in which the second round fails. *)
Definition example_fill_start : fill_cfg :=
  let '(_, inode, st) := read_inode example_fill_fails 0 false in
  mk_fill_cfg st inode (size inode).

Definition example_fill_round : fill_cfg :=
  snd (fill_step example_fill_start 5000).

Definition example_fill_failed : fill_cfg :=
  snd (fill_step example_fill_round 5000).

(** * Further vocabulary *)

(** [st'] is [st] but for the device operations that have been consumed:
    the images, the handle and its sectors, the superblock, the bitmap, the
    mounted flag and the history of writes are the same. *)
Definition read_only (st st' : fs_state) : Prop :=
  st' = with_faults st (faults st').

(** [example_file] after [write(0, "X", 1, 5000)]: a file of 5001 bytes over
    four direct blocks and one block behind the indirect page. *)
Definition example_sparse : fs_state :=
  snd (write example_file 0 [Byte.x58] 1 5000).

(** ** Releasing blocks *)

(** [st'] is [st] with the bitmap entries of the blocks in [P] cleared:
    every entry is either as before or the cleared entry of a block in [P],
    every block in [P] is free, and nothing but the bitmap (and the
    history) has changed. *)
Definition released (P : Z -> Prop) (st st' : fs_state) : Prop :=
  images st' = images st /\ faults st' = faults st /\
  disk_mounted st' = disk_mounted st /\ disk st' = disk st /\
  superblock st' = superblock st /\ mounted_disk st' = mounted_disk st /\
  length (block_bitmap st') = length (block_bitmap st) /\
  (forall x, 0 <= x ->
     bitmap_get st' x = bitmap_get st x \/ (P x /\ bitmap_get st' x = 0)) /\
  (forall x, 0 <= x -> P x -> bitmap_get st' x = 0).

(** The blocks a file holds: data blocks and pointer pages. *)
Definition file_block (st : fs_state) (inode : inode_t) (x : Z) : Prop :=
  exists s, slot_ok s /\ ptr st inode s = x /\ x <> 0.

(** The non-zero entries of a pointer page. *)
Definition page_entry (page : block) (x : Z) : Prop :=
  exists k, 0 <= k < POINTERS_PER_BLOCK /\ get_u32 page k = x /\ x <> 0.

(** The record [delete] writes over inode [i]. *)
Definition deleted (i : inode_t) : inode_t :=
  mk_inode Byte.x00 (padding i) 0 [0; 0; 0; 0] 0 0.

(** ** Marking blocks *)

(** [st'] is [st] with more bitmap entries set to 1 and, possibly, device
    operations used up: the images, the handle, the superblock, the flag
    and the length of the bitmap are the same, and what was marked is
    marked. *)
Definition marked (st st' : fs_state) : Prop :=
  images st' = images st /\ disk_mounted st' = disk_mounted st /\
  disk st' = disk st /\ superblock st' = superblock st /\
  mounted_disk st' = mounted_disk st /\
  length (block_bitmap st') = length (block_bitmap st) /\
  (forall x, 0 <= x -> bitmap_get st x = 1 -> bitmap_get st' x = 1).

(** [x] is a block number the bitmap has an entry for. *)
Definition in_bitmap (st : fs_state) (x : Z) : Prop :=
  0 <= x < Z.of_nat (length (block_bitmap st)).

(** Between [st] and [st'] the bitmap changed at most in entries that
    satisfy [P]. *)
Definition marks_only (P : Z -> Prop) (st st' : fs_state) : Prop :=
  forall x, 0 <= x -> bitmap_get st' x = bitmap_get st x \/ P x.

(** ** Well-formed images *)

(** The session [mount] works in once it has opened the image [img] under
    [name] and copied its superblock. *)
Definition opened (st : fs_state) (name : string) (img : list block)
  : fs_state :=
  with_superblock (with_disk st (mk_disk name img))
    (decode_superblock (nth 0 img zero_block)).

(** The device holds a file system: the superblock carries the magic number
    and the size of the device, which has room for the inode blocks and at
    least one more, the blocks are whole, and the blocks that the valid
    inodes reach are on the device. *)
Definition image_ok (s : fs_state) : Prop :=
  magic (superblock s) = MAGIC_NUMBER /\
  superblock_ok s /\
  size_in_sectors (disk s) = num_blocks (superblock s) /\
  Forall (fun b : block => length b = Z.to_nat BLOCK_SIZE) (sectors (disk s)) /\
  (forall k x, 0 <= k < inode_count s ->
     is_valid (inode_at s k) = true ->
     file_block s (inode_at s k) x -> x < num_blocks (superblock s)).

(** The host after [unmount] of the sparse file's session. *)
Definition example_unmounted : fs_state := snd (unmount example_sparse).

(** The host after [format] of the blank image. *)
Definition example_formatted : fs_state :=
  snd (format (blank_host 12) "disk.img"%string 10).

(** The session after [mount] of the unmounted image. *)
Definition example_remounted : fs_state :=
  snd (mount example_unmounted "disk.img"%string).

(** The image [format] has written. *)
Definition example_formatted_image : list block :=
  default [] (images example_formatted !! "disk.img"%string).

(** Between [st] and [st'] only the bitmap and the pending faults of the
    device may differ. *)
Definition bitmap_only (st st' : fs_state) : Prop :=
  images st' = images st /\ history st' = history st /\
  disk_mounted st' = disk_mounted st /\ disk st' = disk st /\
  superblock st' = superblock st /\ mounted_disk st' = mounted_disk st.

(** ** A full device *)

(** No data block is free. *)
Definition full (st : fs_state) : Prop :=
  forall j, num_inode_blocks (superblock st) + 1 <= j < num_blocks (superblock st) ->
    bitmap_get st j <> 0.

(** The 12-block session after a write of nine blocks into inode 0: four
    direct blocks, the indirect page and five more data blocks use up the
    ten data blocks of the image. *)
Definition example_full : fs_state :=
  snd (write example_file 0 (replicate (Z.to_nat 9216) Byte.x58) 9216 0).

(** ** Device failures during an allocation *)

(** Between [st] and [st'] the device has only succeeded: the entries of
    the fault schedule that were used up are all 0. *)
Definition fault_free (st st' : fs_state) : Prop :=
  exists zs, faults st = zs ++ faults st' /\ Forall (fun e => e = 0) zs.

(** A call that leads from [st] to [st'] with result [r] stops at the first
    failure of the device and returns its code: of the entries [fs] of the
    fault schedule that the call has used up, only the last one can be
    different from 0, and then it is [r]. *)
Definition fault_run (st : fs_state) (r : Z) (st' : fs_state) : Prop :=
  exists fs,
    faults st = fs ++ faults st' /\
    forall zs e rest, fs = zs ++ e :: rest -> e <> 0 -> rest = [] /\ r = e.

(** What the allocator relies on: a mounted session whose bitmap has one
    entry per block of a superblock as [format] writes it. *)
Definition alloc_inv (st : fs_state) : Prop :=
  disk_mounted st = true /\ superblock_ok st /\
  Z.of_nat (length (block_bitmap st)) = num_blocks (superblock st).

(** Between [st] and [st'] a mark of the bitmap is only taken away by a
    release: a block that was marked in [st], or that was allocated on the
    way, and that was not released on the way is marked in [st']. *)
Definition marks_kept (st st' : fs_state) : Prop :=
  alloc_inv st' /\
  exists l,
    history st' = history st ++ l /\
    (forall x, In (EvAlloc x) l -> 0 < x) /\
    forall x, 0 <= x ->
      bitmap_get st x = 1 \/ In (EvAlloc x) l ->
      ~ In (EvRelease x) l -> bitmap_get st' x = 1.

(** [example_file] with a device that is about to fail on its second
    operation from now: in [get_block_for_offset] at offset 4096 with
    [allocate], the zeroing of the new indirect page succeeds and the read
    of that page fails. *)
Definition example_page_read_fails : fs_state :=
  with_faults example_file [0; -7].

(** ** The stores of [mount] into the bitmap *)

(** [mount] stores through [block_bitmap[...]] without a check: at index 0,
    at the inode blocks [1 .. num_inode_blocks] and at every block number
    that a valid inode reaches.  The array has [num_blocks] entries, and a
    store outside of it is undefined in C; this says that the image of the
    session [s] keeps all of them inside. *)
Definition stores_in_range (s : fs_state) : Prop :=
  0 <= num_inode_blocks (superblock s) < num_blocks (superblock s) /\
  (forall k x, 0 <= k < inode_count s ->
     is_valid (inode_at s k) = true ->
     file_block s (inode_at s k) x -> x < num_blocks (superblock s)).

(** The unmounted image with a device that fails on its fourth operation
    from now: [mount] opens the image, reads the superblock and inode 0,
    marks the direct blocks and fails on the read of the indirect page. *)
Definition example_mount_fails : fs_state :=
  with_faults example_unmounted [0; 0; 0; -7].
(** * Properties *)

(** ** Machine integers and little-endian words *)

Lemma to_uint32_small z : 0 <= z < 2 ^ 32 -> to_uint32 z = z.
Proof. intros H. unfold to_uint32. apply Z.mod_small. exact H. Qed.

Lemma to_uint32_range z : 0 <= to_uint32 z < 2 ^ 32.
Proof. unfold to_uint32. apply Z.mod_pos_bound. lia. Qed.

Lemma to_int_small z : - 2 ^ 31 <= z < 2 ^ 31 -> to_int z = z.
Proof. intros H. unfold to_int. rewrite Z.mod_small; lia. Qed.

Lemma to_int_range z : - 2 ^ 31 <= to_int z < 2 ^ 31.
Proof.
  unfold to_int. pose proof (Z.mod_pos_bound (z + 2 ^ 31) (2 ^ 32)). lia.
Qed.

Lemma to_uint32_neg z : - 2 ^ 31 <= z < 0 -> to_uint32 z = z + 2 ^ 32.
Proof.
  intros H. unfold to_uint32.
  rewrite <- (Z.mod_add z 1 (2 ^ 32)) by lia. apply Z.mod_small. lia.
Qed.

Lemma to_uint32_to_int z : 0 <= z < 2 ^ 32 -> to_uint32 (to_int z) = z.
Proof.
  intros H. unfold to_uint32, to_int.
  rewrite Zminus_mod_idemp_l.
  replace (z + 2 ^ 31 - 2 ^ 31) with z by lia. apply Z.mod_small. exact H.
Qed.

Lemma le_combine_replicate n : le_combine (replicate n Byte.x00) = 0.
Proof.
  induction n as [|n IH]; [reflexivity|].
  change (le_combine (replicate (S n) Byte.x00))
    with (Z.lor (byte.unsigned Byte.x00)
            (Z.shiftl (le_combine (replicate n Byte.x00)) 8)).
  rewrite IH. reflexivity.
Qed.

Lemma get_u32_range b k : 0 <= get_u32 b k < 2 ^ 32.
Proof.
  unfold get_u32.
  pose proof (le_combine_bound (take 4 (drop (4 * Z.to_nat k) b))) as H.
  assert (Hl : (length (take 4 (drop (4 * Z.to_nat k) b)) <= 4)%nat)
    by (rewrite length_take; lia).
  assert (2 ^ (8 * Z.of_nat (length (take 4 (drop (4 * Z.to_nat k) b))))
          <= 2 ^ 32) by (apply Z.pow_le_mono_r; lia).
  lia.
Qed.

Lemma get_u32_zero_block k : get_u32 zero_block k = 0.
Proof.
  unfold get_u32, zero_block.
  rewrite drop_replicate, take_replicate. apply le_combine_replicate.
Qed.

Lemma length_zero_block : length zero_block = Z.to_nat BLOCK_SIZE.
Proof. unfold zero_block. apply length_replicate. Qed.

Lemma length_set_u32 b k v :
  (4 * Z.to_nat k + 4 <= length b)%nat -> length (set_u32 b k v) = length b.
Proof.
  intros H. unfold set_u32.
  rewrite !length_app, length_take, length_drop, length_le_split. lia.
Qed.

Lemma get_set_u32_eq b k v :
  (4 * Z.to_nat k + 4 <= length b)%nat ->
  get_u32 (set_u32 b k v) k = to_uint32 v.
Proof.
  intros H. unfold get_u32, set_u32.
  rewrite drop_app_length' by (rewrite length_take; lia).
  rewrite take_app_length' by (rewrite length_le_split; reflexivity).
  rewrite le_combine_split. reflexivity.
Qed.

Lemma get_set_u32_ne b k k' v :
  0 <= k -> 0 <= k' -> k <> k' ->
  (4 * Z.to_nat k + 4 <= length b)%nat ->
  get_u32 (set_u32 b k v) k' = get_u32 b k'.
Proof.
  intros Hk Hk' Hne Hlen. unfold get_u32, set_u32. f_equal.
  destruct (Z_lt_le_dec k' k) as [Hlt|Hge].
  - assert (Hn : (4 * Z.to_nat k' + 4 <= 4 * Z.to_nat k)%nat) by lia.
    rewrite !take_drop_commute.
    rewrite take_app_le by (rewrite length_take; lia).
    rewrite take_take. f_equal. f_equal. lia.
  - assert (Hn : (4 * Z.to_nat k + 4 <= 4 * Z.to_nat k')%nat) by lia.
    rewrite drop_app_ge by (rewrite length_take; lia).
    rewrite length_take.
    rewrite drop_app_ge by (rewrite length_le_split; lia).
    rewrite length_le_split, drop_drop. f_equal. f_equal. lia.
Qed.

(** ** The device *)

Lemma device_fault_healthy st : healthy st -> device_fault st = (0, st).
Proof. unfold healthy, device_fault. intros ->. reflexivity. Qed.

Lemma disk_read_healthy st s :
  healthy st -> 0 <= s < size_in_sectors (disk st) ->
  disk_read st s = (0, nth (Z.to_nat s) (sectors (disk st)) zero_block, st).
Proof.
  intros Hh Hs. unfold disk_read, vdisk_read, in_range.
  replace (0 <=? s) with true by (symmetry; apply Z.leb_le; lia).
  replace (s <? size_in_sectors (disk st)) with true
    by (symmetry; apply Z.ltb_lt; lia).
  simpl. rewrite device_fault_healthy by assumption. reflexivity.
Qed.

Lemma disk_write_healthy st s buf :
  healthy st -> 0 <= s < size_in_sectors (disk st) ->
  disk_write st s buf =
    (0, with_disk (log st (EvWrite s buf 0))
          (mk_disk (dname (disk st)) (<[Z.to_nat s := buf]> (sectors (disk st))))).
Proof.
  intros Hh Hs. unfold disk_write, vdisk_write, in_range.
  replace (0 <=? s) with true by (symmetry; apply Z.leb_le; lia).
  replace (s <? size_in_sectors (disk st)) with true
    by (symmetry; apply Z.ltb_lt; lia).
  simpl. rewrite device_fault_healthy by assumption. reflexivity.
Qed.

(** ** The allocator *)

Lemma first_free_some st n : forall i r,
  first_free st i n = Some r ->
  i <= r < i + Z.of_nat n /\ bitmap_get st r = 0 /\
  (forall j, i <= j < r -> bitmap_get st j <> 0).
Proof.
  induction n as [|n IH]; intros i r H; simpl in H; [discriminate|].
  destruct (bitmap_get st i =? 0) eqn:E.
  - injection H as <-. apply Z.eqb_eq in E. repeat split; lia.
  - apply Z.eqb_neq in E. destruct (IH _ _ H) as (Hr & Hz & Hj).
    split; [lia|]. split; [exact Hz|].
    intros j Hjr. destruct (Z.eq_dec j i) as [->|Hne]; [exact E|].
    apply Hj. lia.
Qed.

Lemma first_free_none st n : forall i,
  first_free st i n = None ->
  forall j, i <= j < i + Z.of_nat n -> bitmap_get st j <> 0.
Proof.
  induction n as [|n IH]; intros i H j Hj; simpl in H; [lia|].
  destruct (bitmap_get st i =? 0) eqn:E; [discriminate|].
  apply Z.eqb_neq in E.
  destruct (Z.eq_dec j i) as [->|Hne]; [exact E|].
  apply (IH _ H). lia.
Qed.

Lemma first_data_block_ok st :
  superblock_ok st ->
  first_data_block st = num_inode_blocks (superblock st) + 1 /\
  to_uint32 (first_data_block st) = num_inode_blocks (superblock st) + 1.
Proof.
  intros (H1 & H2 & H3 & H4). unfold first_data_block, INT_MAX in *.
  rewrite (to_uint32_small (1 + _)) by lia.
  rewrite to_int_small by lia.
  rewrite to_uint32_small by lia. lia.
Qed.

Lemma bitmap_get_set_eq st i v :
  0 <= i < Z.of_nat (length (block_bitmap st)) ->
  bitmap_get (bitmap_set st i v) i = v.
Proof.
  intros H. unfold bitmap_get, bitmap_set. simpl.
  apply nth_lookup_Some with (d := 0) (x := v).
  apply list_lookup_insert_eq. lia.
Qed.

Lemma bitmap_get_set_ne st i j v :
  0 <= i -> 0 <= j -> i <> j ->
  bitmap_get (bitmap_set st i v) j = bitmap_get st j.
Proof.
  intros Hi Hj Hne. unfold bitmap_get, bitmap_set. simpl.
  rewrite !nth_lookup. rewrite list_lookup_insert_ne by lia. reflexivity.
Qed.

Lemma find_free_block_spec (st st' : fs_state) (r : Z) :
  disk_mounted st = true ->
  superblock_ok st ->
  Z.of_nat (length (block_bitmap st)) = num_blocks (superblock st) ->
  find_free_block st = (r, st') ->
  r <> 0 /\
  ((num_inode_blocks (superblock st) + 1 <= r < num_blocks (superblock st) /\
    bitmap_get st r = 0 /\
    (forall j, num_inode_blocks (superblock st) + 1 <= j < r ->
               bitmap_get st j <> 0) /\
    st' = log (bitmap_set st r 1) (EvAlloc r) /\
    bitmap_get st' r = 1 /\
    (forall j, 0 <= j -> j <> r -> bitmap_get st' j = bitmap_get st j))
   \/
   (r = E_OUT_OF_SPACE /\ st' = st /\
    forall j, num_inode_blocks (superblock st) + 1 <= j < num_blocks (superblock st) ->
              bitmap_get st j <> 0)).
Proof.
  intros Hm Hsb Hlen H. unfold find_free_block in H. rewrite Hm in H. simpl in H.
  destruct (first_data_block_ok st Hsb) as [_ Hfd]. rewrite Hfd in H.
  pose proof Hsb as (H1 & H2 & H3 & H4). unfold INT_MAX in *.
  destruct (first_free st _ _) as [i|] eqn:E.
  - apply first_free_some in E. destruct E as (Hi & Hz & Hj).
    rewrite Z2Nat.id in Hi by lia.
    rewrite to_int_small in H by lia. injection H as <- <-.
    split; [lia|]. left. repeat split; try lia; try assumption.
    + apply (bitmap_get_set_eq st i 1). lia.
    + intros j Hj0 Hne. apply (bitmap_get_set_ne st i j 1); lia.
  - injection H as <- <-. split; [discriminate|]. right.
    repeat split. intros j Hj. apply (first_free_none _ _ _ E).
    rewrite Z2Nat.id by lia. lia.
Qed.

(** C4: [find_free_block] is first fit over the data blocks: it returns the
    smallest block number in [[num_inode_blocks + 1, num_blocks)] whose
    bitmap entry is 0 and sets that entry to 1, it returns [E_OUT_OF_SPACE]
    (and changes nothing) when there is none, and it never returns 0. *)
Theorem find_free_block_first_fit (st st' : fs_state) (r : Z) :
  disk_mounted st = true ->
  superblock_ok st ->
  Z.of_nat (length (block_bitmap st)) = num_blocks (superblock st) ->
  find_free_block st = (r, st') ->
  r <> 0 /\
  ((num_inode_blocks (superblock st) + 1 <= r < num_blocks (superblock st) /\
    bitmap_get st r = 0 /\
    (forall j, num_inode_blocks (superblock st) + 1 <= j < r ->
               bitmap_get st j <> 0) /\
    st' = log (bitmap_set st r 1) (EvAlloc r) /\
    bitmap_get st' r = 1 /\
    (forall j, 0 <= j -> j <> r -> bitmap_get st' j = bitmap_get st j))
   \/
   (r = E_OUT_OF_SPACE /\ st' = st /\
    forall j, num_inode_blocks (superblock st) + 1 <= j < num_blocks (superblock st) ->
              bitmap_get st j <> 0)).
Proof. exact (find_free_block_spec st st' r). Qed.

(** ** [free_block] *)

Lemma free_block_guard st b :
  disk_mounted st = true -> 0 < b -> to_uint32 b < num_blocks (superblock st) ->
  free_block st b = log (bitmap_set st b 0) (EvRelease b).
Proof.
  intros Hm Hb Hn. unfold free_block. rewrite Hm.
  replace (0 <? b) with true by (symmetry; apply Z.ltb_lt; lia).
  replace (to_uint32 b <? num_blocks (superblock st)) with true
    by (symmetry; apply Z.ltb_lt; lia).
  reflexivity.
Qed.

(** C7 (amended): [free_block] changes the bitmap only when the disk is
    mounted and [0 < block_num < num_blocks], and then only the entry of
    [block_num], which becomes 0.  The entry of block 0 never changes; the
    entry of an inode block [j] is unchanged by every call with
    [block_num <> j], the function does not check that [block_num] is a data
    block.  The device is not touched. *)
Theorem free_block_frame (st : fs_state) (b : Z) :
  (forall j, bitmap_get (free_block st b) j <> bitmap_get st j ->
     disk_mounted st = true /\ 0 < b /\
     to_uint32 b < num_blocks (superblock st) /\
     j = b /\ bitmap_get (free_block st b) j = 0) /\
  bitmap_get (free_block st b) 0 = bitmap_get st 0 /\
  (forall j, 1 <= j <= num_inode_blocks (superblock st) -> j <> b ->
     bitmap_get (free_block st b) j = bitmap_get st j) /\
  disk (free_block st b) = disk st /\
  superblock (free_block st b) = superblock st.
Proof.
  unfold free_block.
  destruct (disk_mounted st) eqn:Hm; simpl;
    [|repeat split; congruence].
  destruct (0 <? b) eqn:Hb; simpl;
    [|repeat split; congruence].
  destruct (to_uint32 b <? num_blocks (superblock st)) eqn:Hn;
    [|repeat split; congruence].
  apply Z.ltb_lt in Hb, Hn.
  assert (Hother : forall j, Z.to_nat j <> Z.to_nat b ->
            bitmap_get (log (bitmap_set st b 0) (EvRelease b)) j = bitmap_get st j).
  { intros j Hj. unfold bitmap_get, bitmap_set. simpl.
    rewrite !nth_lookup. rewrite list_lookup_insert_ne by lia. reflexivity. }
  split; [|split; [|split; [|split]]].
  - intros j Hj.
    assert (Hjb : j = b).
    { destruct (Nat.eq_dec (Z.to_nat j) (Z.to_nat b)) as [Hjb|Hjb]; [lia|].
      exfalso. apply Hj. apply Hother. exact Hjb. }
    subst j. split; [reflexivity|]. split; [lia|]. split; [exact Hn|].
    split; [reflexivity|].
    clear Hother. unfold bitmap_get, bitmap_set in *. simpl in *.
    destruct (decide (Z.to_nat b < length (block_bitmap st))%nat) as [Hl|Hl].
    + rewrite nth_lookup, list_lookup_insert_eq by lia. reflexivity.
    + exfalso. apply Hj. rewrite list_insert_ge by lia. reflexivity.
  - apply Hother. lia.
  - intros j Hj Hne. apply Hother. lia.
  - reflexivity.
  - reflexivity.
Qed.

(** ** The mounted flag *)

(** C8: without a mounted disk [unmount], [create], [delete], [stat], [read]
    and [write] return [E_DISK_NOT_MOUNTED]; with a mounted disk [format] and
    [mount] return [E_DISK_ALREADY_MOUNTED]; in both cases the state (the
    images, the device, the five static variables) is returned unchanged. *)
Theorem mounted_flag_discipline (st : fs_state) :
  (disk_mounted st = false ->
     unmount st = (E_DISK_NOT_MOUNTED, st) /\
     create st = (E_DISK_NOT_MOUNTED, st) /\
     (forall i, delete st i = (E_DISK_NOT_MOUNTED, st)) /\
     (forall i, stat st i = (E_DISK_NOT_MOUNTED, st)) /\
     (forall i data len offset,
        read st i data len offset = (E_DISK_NOT_MOUNTED, data, st)) /\
     (forall i data len offset,
        write st i data len offset = (E_DISK_NOT_MOUNTED, st))) /\
  (disk_mounted st = true ->
     (forall name inodes, format st name inodes = (E_DISK_ALREADY_MOUNTED, st)) /\
     (forall name, mount st name = (E_DISK_ALREADY_MOUNTED, st))).
Proof.
  split; intros Hm.
  - unfold unmount, create, delete, stat, read, write. rewrite Hm. simpl.
    repeat split; reflexivity.
  - unfold format, mount. rewrite Hm. split; reflexivity.
Qed.

(** A tactic for closed goals: evaluate, then close. *)
Ltac by_eval :=
  vm_compute; first [ reflexivity | discriminate | intro; discriminate ].

Lemma example_mounted_ok : mounted_ok example_mounted.
Proof.
  unfold mounted_ok, superblock_ok.
  repeat split; try by_eval.
  vm_compute. repeat constructor.
Qed.

Lemma find_free_block_first_fit_witness :
  fst (find_free_block example_mounted) <> 0.
Proof.
  apply (find_free_block_first_fit example_mounted
           (snd (find_free_block example_mounted))
           (fst (find_free_block example_mounted))).
  - by_eval.
  - unfold superblock_ok. repeat split; by_eval.
  - by_eval.
  - destruct (find_free_block example_mounted). reflexivity.
Defined.

(** C7, as stated, fails: in a mounted session whose block 1 is an inode
    block, [free_block(1)] clears the bitmap entry of that block. *)
Lemma free_block_clears_inode_block :
  disk_mounted example_mounted = true /\
  1 <= 1 <= num_inode_blocks (superblock example_mounted) /\
  bitmap_get example_mounted 1 = 1 /\
  bitmap_get (free_block example_mounted 1) 1 = 0.
Proof. repeat split; by_eval. Qed.

Lemma mounted_flag_discipline_witness :
  create (blank_host 12) = (E_DISK_NOT_MOUNTED, blank_host 12) /\
  mount example_mounted "disk.img"%string
    = (E_DISK_ALREADY_MOUNTED, example_mounted).
Proof.
  split.
  - apply (proj1 (mounted_flag_discipline (blank_host 12))). reflexivity.
  - apply (proj2 (mounted_flag_discipline example_mounted)). by_eval.
Defined.

(** ** Buffers *)

Lemma length_memcpy dst d src n :
  (Z.to_nat d + Z.to_nat n <= length dst)%nat -> (Z.to_nat n <= length src)%nat ->
  length (memcpy dst d src n) = length dst.
Proof.
  intros H1 H2. unfold memcpy.
  rewrite !length_app, !length_take, length_drop. lia.
Qed.

Lemma lookup_memcpy_in dst d src n i :
  (Z.to_nat d + Z.to_nat n <= length dst)%nat -> (Z.to_nat n <= length src)%nat ->
  (Z.to_nat d <= i < Z.to_nat d + Z.to_nat n)%nat ->
  memcpy dst d src n !! i = src !! (i - Z.to_nat d)%nat.
Proof.
  intros H1 H2 Hi. unfold memcpy.
  rewrite lookup_app_r by (rewrite length_take; lia).
  rewrite length_take, Nat.min_l by lia.
  rewrite lookup_app_l by (rewrite length_take; lia).
  apply lookup_take_lt. lia.
Qed.

Lemma lookup_memcpy_out dst d src n i :
  (Z.to_nat d + Z.to_nat n <= length dst)%nat -> (Z.to_nat n <= length src)%nat ->
  ~ (Z.to_nat d <= i < Z.to_nat d + Z.to_nat n)%nat ->
  memcpy dst d src n !! i = dst !! i.
Proof.
  intros H1 H2 Hi. unfold memcpy.
  destruct (decide (i < Z.to_nat d)%nat) as [Hlt|Hge].
  - rewrite lookup_app_l by (rewrite length_take; lia).
    apply lookup_take_lt. lia.
  - rewrite lookup_app_r by (rewrite length_take; lia).
    rewrite length_take, Nat.min_l by lia.
    rewrite lookup_app_r by (rewrite length_take; lia).
    rewrite length_take, Nat.min_l by lia.
    rewrite lookup_drop. f_equal. lia.
Qed.

Lemma memset0_memcpy dst d n :
  memset0 dst d n = memcpy dst d (replicate (Z.to_nat n) Byte.x00) n.
Proof.
  unfold memset0, memcpy. rewrite take_replicate, Nat.min_id. reflexivity.
Qed.

Lemma take_drop_lookup {A} (l : list A) a n i :
  (i < n)%nat -> take n (drop a l) !! i = l !! (a + i)%nat.
Proof. intros H. rewrite lookup_take_lt by lia. apply lookup_drop. Qed.

(** Reading [n] bytes at [a] from a buffer into which [m] bytes were copied
    at [d]. *)
Lemma take_drop_memcpy_same dst d src n :
  (Z.to_nat d + Z.to_nat n <= length dst)%nat -> (Z.to_nat n = length src)%nat ->
  take (Z.to_nat n) (drop (Z.to_nat d) (memcpy dst d src n)) = src.
Proof.
  intros H1 H2. unfold memcpy.
  rewrite drop_app_length' by (rewrite length_take; lia).
  rewrite H2, firstn_all. apply take_app_length.
Qed.

Lemma take_drop_memcpy_other dst d src m a n :
  (Z.to_nat d + Z.to_nat m <= length dst)%nat -> (Z.to_nat m <= length src)%nat ->
  (a + n <= Z.to_nat d \/ Z.to_nat d + Z.to_nat m <= a)%nat ->
  take n (drop a (memcpy dst d src m)) = take n (drop a dst).
Proof.
  intros H1 H2 H3. apply list_eq. intros i.
  destruct (decide (i < n)%nat) as [Hi|Hi].
  - rewrite !take_drop_lookup by lia. apply lookup_memcpy_out; lia.
  - rewrite !lookup_take_ge by lia. reflexivity.
Qed.

(** ** Blocks of the mounted device *)

Lemma length_blk st s :
  mounted_ok st -> length (blk st s) = Z.to_nat BLOCK_SIZE.
Proof.
  intros (_ & _ & _ & _ & Hf). unfold blk.
  destruct (decide (Z.to_nat s < length (sectors (disk st)))%nat) as [Hl|Hl].
  - revert Hl. apply (proj1 (Forall_nth _ zero_block _) Hf).
  - rewrite nth_overflow by lia. apply length_zero_block.
Qed.

Lemma blk_put_eq st s buf :
  0 <= s < size_in_sectors (disk st) -> blk (put st s buf) s = buf.
Proof.
  intros H. unfold blk, put, size_in_sectors in *. simpl.
  apply nth_lookup_Some with (x := buf). apply list_lookup_insert_eq. lia.
Qed.

Lemma blk_put_ne st s s' buf :
  0 <= s -> 0 <= s' -> s <> s' -> blk (put st s buf) s' = blk st s'.
Proof.
  intros H1 H2 H3. unfold blk, put. simpl.
  rewrite !nth_lookup. rewrite list_lookup_insert_ne by lia. reflexivity.
Qed.

Lemma mounted_ok_put st s buf :
  mounted_ok st -> length buf = Z.to_nat BLOCK_SIZE -> mounted_ok (put st s buf).
Proof.
  intros (H1 & H2 & H3 & H4 & H5) Hl. unfold mounted_ok, put, size_in_sectors in *.
  simpl. rewrite length_insert.
  repeat split; try assumption; try apply H2.
  apply Forall_insert; assumption.
Qed.

Lemma disk_read_ok st s :
  mounted_ok st -> healthy st -> 0 <= s < num_blocks (superblock st) ->
  disk_read st s = (0, blk st s, st).
Proof.
  intros Hm Hh Hs. apply disk_read_healthy; [exact Hh|].
  destruct Hm as (_ & _ & -> & _). exact Hs.
Qed.

Lemma disk_write_ok st s buf :
  mounted_ok st -> healthy st -> 0 <= s < num_blocks (superblock st) ->
  disk_write st s buf = (0, put st s buf).
Proof.
  intros Hm Hh Hs. apply disk_write_healthy; [exact Hh|].
  destruct Hm as (_ & _ & -> & _). exact Hs.
Qed.

(** ** Inode records *)

Lemma get_u32_app_split l1 l2 k v :
  length l1 = (4 * Z.to_nat k)%nat ->
  get_u32 (l1 ++ le_split 4 v ++ l2) k = to_uint32 v.
Proof.
  intros H. unfold get_u32.
  rewrite drop_app_length' by lia.
  rewrite take_app_length' by (rewrite length_le_split; reflexivity).
  apply le_combine_split.
Qed.

Lemma length_encode_inode i : length (encode_inode i) = Z.to_nat INODE_SIZE.
Proof. reflexivity. Qed.

Lemma decode_inode_ok b : inode_ok (decode_inode b).
Proof.
  unfold inode_ok, decode_inode. simpl.
  repeat split; try apply get_u32_range.
  repeat constructor; apply get_u32_range.
Qed.

Lemma decode_encode_inode i : inode_ok i -> decode_inode (encode_inode i) = i.
Proof.
  intros (Hs & Hl & Hd & Hi & Hdi).
  destruct i as [v [[p1 p2] p3] s d ind dbl]. simpl in *.
  destruct d as [|d0 [|d1 [|d2 [|d3 [|]]]]]; try discriminate.
  apply Forall_cons in Hd as [Hd0 Hd].
  apply Forall_cons in Hd as [Hd1 Hd].
  apply Forall_cons in Hd as [Hd2 Hd].
  apply Forall_cons in Hd as [Hd3 _].
  unfold decode_inode, encode_inode. cbn [valid padding size direct_blocks
    indirect_block double_indirect_block fst snd nth].
  set (hdr := [v; p1; p2; p3]).
  assert (E1 : get_u32 (hdr ++ le_split 4 s ++ le_split 4 d0 ++ le_split 4 d1
             ++ le_split 4 d2 ++ le_split 4 d3 ++ le_split 4 ind ++ le_split 4 dbl) 1 = s).
  { rewrite get_u32_app_split by reflexivity. apply to_uint32_small, Hs. }
  assert (E2 : get_u32 (hdr ++ le_split 4 s ++ le_split 4 d0 ++ le_split 4 d1
             ++ le_split 4 d2 ++ le_split 4 d3 ++ le_split 4 ind ++ le_split 4 dbl) 2 = d0).
  { rewrite (app_assoc hdr).
    rewrite get_u32_app_split by reflexivity. apply to_uint32_small, Hd0. }
  assert (E3 : get_u32 (hdr ++ le_split 4 s ++ le_split 4 d0 ++ le_split 4 d1
             ++ le_split 4 d2 ++ le_split 4 d3 ++ le_split 4 ind ++ le_split 4 dbl) 3 = d1).
  { rewrite (app_assoc hdr), (app_assoc (hdr ++ _)).
    rewrite get_u32_app_split by reflexivity. apply to_uint32_small, Hd1. }
  assert (E4 : get_u32 (hdr ++ le_split 4 s ++ le_split 4 d0 ++ le_split 4 d1
             ++ le_split 4 d2 ++ le_split 4 d3 ++ le_split 4 ind ++ le_split 4 dbl) 4 = d2).
  { rewrite (app_assoc hdr), (app_assoc (hdr ++ _)), (app_assoc ((hdr ++ _) ++ _)).
    rewrite get_u32_app_split by reflexivity. apply to_uint32_small, Hd2. }
  assert (E5 : get_u32 (hdr ++ le_split 4 s ++ le_split 4 d0 ++ le_split 4 d1
             ++ le_split 4 d2 ++ le_split 4 d3 ++ le_split 4 ind ++ le_split 4 dbl) 5 = d3).
  { rewrite (app_assoc hdr), (app_assoc (hdr ++ _)), (app_assoc ((hdr ++ _) ++ _)),
      (app_assoc (((hdr ++ _) ++ _) ++ _)).
    rewrite get_u32_app_split by reflexivity. apply to_uint32_small, Hd3. }
  assert (E6 : get_u32 (hdr ++ le_split 4 s ++ le_split 4 d0 ++ le_split 4 d1
             ++ le_split 4 d2 ++ le_split 4 d3 ++ le_split 4 ind ++ le_split 4 dbl) 6 = ind).
  { rewrite (app_assoc hdr), (app_assoc (hdr ++ _)), (app_assoc ((hdr ++ _) ++ _)),
      (app_assoc (((hdr ++ _) ++ _) ++ _)), (app_assoc ((((hdr ++ _) ++ _) ++ _) ++ _)).
    rewrite get_u32_app_split by reflexivity. apply to_uint32_small, Hi. }
  assert (E7 : get_u32 (hdr ++ le_split 4 s ++ le_split 4 d0 ++ le_split 4 d1
             ++ le_split 4 d2 ++ le_split 4 d3 ++ le_split 4 ind ++ le_split 4 dbl) 7 = dbl).
  { rewrite (app_assoc hdr), (app_assoc (hdr ++ _)), (app_assoc ((hdr ++ _) ++ _)),
      (app_assoc (((hdr ++ _) ++ _) ++ _)), (app_assoc ((((hdr ++ _) ++ _) ++ _) ++ _)),
      (app_assoc (((((hdr ++ _) ++ _) ++ _) ++ _) ++ _)).
    rewrite <- (app_nil_r (le_split 4 dbl)).
    rewrite get_u32_app_split by reflexivity. apply to_uint32_small, Hdi. }
  rewrite E1, E2, E3, E4, E5, E6, E7. reflexivity.
Qed.

(** ** The inode table *)

Lemma inode_count_ok st :
  superblock_ok st ->
  inode_count st = num_inode_blocks (superblock st) * INODES_PER_BLOCK.
Proof.
  intros (H1 & H2 & H3 & H4). unfold inode_count, INT_MAX in *.
  change INODES_PER_BLOCK with 32 in *.
  apply to_uint32_small. lia.
Qed.

Lemma inode_slot i :
  0 <= i ->
  Z.quot i INODES_PER_BLOCK = i / 32 /\
  Z.rem i INODES_PER_BLOCK * INODE_SIZE = i mod 32 * 32 /\
  0 <= i mod 32 * 32 <= 992.
Proof.
  intros Hi. change INODES_PER_BLOCK with 32. change INODE_SIZE with 32.
  rewrite Z.quot_div_nonneg, Z.rem_mod_nonneg by lia.
  pose proof (Z.mod_pos_bound i 32). lia.
Qed.

Lemma inode_block_range st i :
  superblock_ok st -> 0 <= i < inode_count st ->
  1 <= 1 + Z.quot i INODES_PER_BLOCK <= num_inode_blocks (superblock st).
Proof.
  intros Hsb Hi. rewrite (inode_count_ok st Hsb) in Hi.
  destruct (inode_slot i) as (-> & _); [lia|].
  change INODES_PER_BLOCK with 32 in Hi.
  assert (i / 32 < num_inode_blocks (superblock st))
    by (apply Z.div_lt_upper_bound; lia).
  assert (0 <= i / 32) by (apply Z.div_pos; lia). lia.
Qed.

Lemma bad_inode_num_false st i :
  superblock_ok st -> 0 <= i < inode_count st -> bad_inode_num st i = false.
Proof.
  intros Hsb Hi. unfold bad_inode_num.
  pose proof (inode_count_ok st Hsb) as Hc.
  destruct Hsb as (H1 & H2 & H3 & H4). unfold INT_MAX in *.
  rewrite to_uint32_small by lia.
  apply orb_false_iff. split; [apply Z.ltb_ge|apply Z.leb_gt]; lia.
Qed.

Lemma read_inode_ok st i b :
  mounted_ok st -> healthy st -> 0 <= i < inode_count st ->
  read_inode st i b = (0, inode_at st i, st).
Proof.
  intros Hm Hh Hi. pose proof Hm as (Hmt & Hsb & _).
  unfold read_inode. rewrite Hmt, (bad_inode_num_false st i Hsb Hi). simpl.
  pose proof (inode_block_range st i Hsb Hi) as Hb.
  rewrite disk_read_ok; [reflexivity|exact Hm|exact Hh|].
  destruct Hsb as (? & ? & ? & ?). lia.
Qed.

Lemma write_inode_ok st i inode :
  mounted_ok st -> healthy st -> 0 <= i < inode_count st ->
  write_inode st i inode = (0, store_inode st i inode).
Proof.
  intros Hm Hh Hi. pose proof Hm as (Hmt & Hsb & _).
  unfold write_inode. rewrite Hmt, (bad_inode_num_false st i Hsb Hi). simpl.
  pose proof (inode_block_range st i Hsb Hi) as Hb.
  assert (Hr : 0 <= 1 + Z.quot i INODES_PER_BLOCK < num_blocks (superblock st))
    by (destruct Hsb as (? & ? & ? & ?); lia).
  rewrite disk_read_ok by assumption. simpl.
  rewrite disk_write_ok by assumption. reflexivity.
Qed.

Lemma mounted_ok_store_inode st i inode :
  mounted_ok st -> 0 <= i -> mounted_ok (store_inode st i inode).
Proof.
  intros Hm Hi. apply mounted_ok_put; [exact Hm|].
  destruct (inode_slot i Hi) as (_ & -> & Ho).
  rewrite length_memcpy; [apply length_blk, Hm| |].
  - rewrite (length_blk st _ Hm). change INODE_SIZE with 32.
    change BLOCK_SIZE with 1024. lia.
  - rewrite length_encode_inode. lia.
Qed.

Lemma inode_at_store_same st i inode :
  mounted_ok st -> 0 <= i < inode_count st -> inode_ok inode ->
  inode_at (store_inode st i inode) i = inode.
Proof.
  intros Hm Hi Hok. pose proof Hm as (_ & Hsb & Hsz & _).
  pose proof (inode_block_range st i Hsb Hi) as Hb.
  unfold inode_at, store_inode.
  rewrite blk_put_eq by (destruct Hsb as (? & ? & ? & ?); lia).
  destruct (inode_slot i) as (_ & Ho & Hr); [lia|].
  rewrite take_drop_memcpy_same.
  - apply decode_encode_inode, Hok.
  - rewrite (length_blk st _ Hm), Ho. change INODE_SIZE with 32.
    change BLOCK_SIZE with 1024. lia.
  - rewrite length_encode_inode. reflexivity.
Qed.

Lemma inode_at_store_other st i j inode :
  mounted_ok st -> 0 <= i -> 0 <= j -> i <> j ->
  inode_at (store_inode st i inode) j = inode_at st j.
Proof.
  intros Hm Hi Hj Hne. unfold inode_at, store_inode.
  destruct (inode_slot i Hi) as (Hqi & Hoi & Hri).
  destruct (inode_slot j Hj) as (Hqj & Hoj & Hrj).
  rewrite Hqi, Hqj, Hoi, Hoj.
  destruct (Z.eq_dec (i / 32) (j / 32)) as [Heq|Hnb].
  - rewrite Heq.
    unfold blk at 1, put. cbn [disk with_disk sectors].
    destruct (decide (Z.to_nat (1 + j / 32) < length (sectors (disk st)))%nat)
      as [Hl|Hl].
    + rewrite (nth_lookup_Some _ _ zero_block _
                 (list_lookup_insert_eq _ _ _ Hl)).
      f_equal. apply take_drop_memcpy_other.
      * rewrite (length_blk st _ Hm). change INODE_SIZE with 32.
        change BLOCK_SIZE with 1024. lia.
      * rewrite length_encode_inode. lia.
      * change INODE_SIZE with 32.
        assert (i mod 32 <> j mod 32).
        { intros E. apply Hne.
          rewrite (Z.div_mod i 32), (Z.div_mod j 32) by lia. lia. }
        lia.
    + rewrite list_insert_ge by lia. reflexivity.
  - rewrite blk_put_ne; [reflexivity| | |lia].
    + assert (0 <= i / 32) by (apply Z.div_pos; lia). lia.
    + assert (0 <= j / 32) by (apply Z.div_pos; lia). lia.
Qed.

Lemma blk_store_inode_other st i inode s :
  0 <= i -> 0 <= s -> s <> 1 + Z.quot i INODES_PER_BLOCK ->
  blk (store_inode st i inode) s = blk st s.
Proof.
  intros Hi Hs Hne. unfold store_inode. apply blk_put_ne; try lia.
  destruct (inode_slot i Hi) as (-> & _).
  assert (0 <= i / 32) by (apply Z.div_pos; lia). lia.
Qed.

(** ** [create] *)

Lemma create_scan_spec st :
  mounted_ok st -> healthy st ->
  forall n k,
    0 <= k -> k + Z.of_nat n <= inode_count st ->
    ((forall j, k <= j < k + Z.of_nat n ->
        byte.unsigned (valid (inode_at st j)) <> 0) ->
     create_scan st k n = (E_OUT_OF_INODES, st)) /\
    (forall f, k <= f < k + Z.of_nat n ->
       byte.unsigned (valid (inode_at st f)) = 0 ->
       (forall j, k <= j < f -> byte.unsigned (valid (inode_at st j)) <> 0) ->
       create_scan st k n = (f, store_inode st f (created (inode_at st f)))).
Proof.
  intros Hm Hh. induction n as [|n IH]; intros k Hk Hn.
  - split; [reflexivity|]. intros f Hf. lia.
  - cbn [create_scan]. rewrite read_inode_ok by (try assumption; lia).
    cbn [negb Z.eqb].
    destruct (IH (k + 1)) as [IHnone IHsome]; [lia|lia|].
    split.
    + intros Hall.
      assert (Hv : byte.unsigned (valid (inode_at st k)) <> 0) by (apply Hall; lia).
      apply Z.eqb_neq in Hv. rewrite Hv.
      apply IHnone. intros j Hj. apply Hall. lia.
    + intros f Hf Hfree Hbelow.
      destruct (Z.eq_dec f k) as [->|Hne].
      * apply Z.eqb_eq in Hfree. rewrite Hfree.
        rewrite write_inode_ok by (try assumption; lia). reflexivity.
      * assert (Hv : byte.unsigned (valid (inode_at st k)) <> 0)
          by (apply Hbelow; lia).
        apply Z.eqb_neq in Hv. rewrite Hv.
        apply IHsome; [lia|exact Hfree|].
        intros j Hj. apply Hbelow. lia.
Qed.

(** C3: in a mounted session on a working device, [create] returns the
    smallest inode number whose record has [valid = 0], after writing that
    record back with [valid = 1], [size = 0] and all six pointers 0 (every
    other inode record is left as it was); when every record has
    [valid <> 0] it returns [E_OUT_OF_INODES] and changes nothing. *)
Theorem create_smallest_free (st : fs_state) :
  mounted_ok st -> healthy st ->
  (forall k,
     0 <= k < inode_count st ->
     byte.unsigned (valid (inode_at st k)) = 0 ->
     (forall j, 0 <= j < k -> byte.unsigned (valid (inode_at st j)) <> 0) ->
     exists st',
       create st = (k, st') /\
       inode_at st' k = created (inode_at st k) /\
       valid (inode_at st' k) = Byte.x01 /\
       size (inode_at st' k) = 0 /\
       direct_blocks (inode_at st' k) = [0; 0; 0; 0] /\
       indirect_block (inode_at st' k) = 0 /\
       double_indirect_block (inode_at st' k) = 0 /\
       (forall j, 0 <= j -> j <> k -> inode_at st' j = inode_at st j)) /\
  ((forall j, 0 <= j < inode_count st ->
      byte.unsigned (valid (inode_at st j)) <> 0) ->
   create st = (E_OUT_OF_INODES, st)).
Proof.
  intros Hm Hh. pose proof Hm as (Hmt & Hsb & _).
  pose proof (inode_count_ok st Hsb) as Hc.
  assert (Hint : to_int (inode_count st) = inode_count st).
  { destruct Hsb as (? & ? & ? & ?). unfold INT_MAX in *.
    change INODES_PER_BLOCK with 32 in *. apply to_int_small. lia. }
  assert (Hnn : 0 <= inode_count st).
  { destruct Hsb as (? & ? & ? & ?). rewrite Hc.
    change INODES_PER_BLOCK with 32. lia. }
  destruct (create_scan_spec st Hm Hh (Z.to_nat (inode_count st)) 0)
    as [Hnone Hsome]; [lia|lia|].
  rewrite Z2Nat.id in Hnone, Hsome by lia.
  unfold create. rewrite Hmt, Hint. cbn [negb].
  split.
  - intros k Hk Hfree Hbelow.
    exists (store_inode st k (created (inode_at st k))).
    assert (Hat : inode_at (store_inode st k (created (inode_at st k))) k
                  = created (inode_at st k)).
    { apply inode_at_store_same; [exact Hm|exact Hk|].
      unfold inode_ok, created. simpl.
      repeat split; try lia. repeat constructor; lia. }
    split; [apply Hsome; [lia|exact Hfree|intros j Hj; apply Hbelow; lia]|].
    rewrite Hat. repeat split.
    intros j Hj Hne. apply inode_at_store_other; [exact Hm|lia|lia|lia].
  - intros Hall. apply Hnone. intros j Hj. apply Hall. lia.
Qed.

Lemma create_smallest_free_witness :
  exists st',
    create example_mounted = (0, st') /\
    inode_at st' 0 = created (inode_at example_mounted 0) /\
    valid (inode_at st' 0) = Byte.x01 /\
    size (inode_at st' 0) = 0 /\
    direct_blocks (inode_at st' 0) = [0; 0; 0; 0] /\
    indirect_block (inode_at st' 0) = 0 /\
    double_indirect_block (inode_at st' 0) = 0 /\
    (forall j, 0 <= j -> j <> 0 -> inode_at st' j = inode_at example_mounted j).
Proof.
  apply (proj1 (create_smallest_free example_mounted example_mounted_ok eq_refl)).
  - split; by_eval.
  - by_eval.
  - intros j Hj. lia.
Defined.

(** ** [format] *)

Lemma vdisk_write_healthy st d s buf :
  healthy st -> 0 <= s < size_in_sectors d ->
  vdisk_write st d s buf =
    (0, mk_disk (dname d) (<[Z.to_nat s := buf]> (sectors d)),
     log st (EvWrite s buf 0)).
Proof.
  intros Hh Hs. unfold vdisk_write, in_range.
  replace (0 <=? s) with true by (symmetry; apply Z.leb_le; lia).
  replace (s <? size_in_sectors d) with true by (symmetry; apply Z.ltb_lt; lia).
  simpl. rewrite device_fault_healthy by assumption. reflexivity.
Qed.

Lemma format_inode_blocks_spec n : forall st d i,
  healthy st -> 0 <= i -> i + Z.of_nat n <= size_in_sectors d ->
  exists d' st',
    format_inode_blocks st d i n = (0, d', st') /\
    healthy st' /\ images st' = images st /\
    disk_mounted st' = disk_mounted st /\
    dname d' = dname d /\ length (sectors d') = length (sectors d) /\
    (forall j, i <= j < i + Z.of_nat n ->
       nth (Z.to_nat j) (sectors d') zero_block = zero_block) /\
    (forall j, 0 <= j -> ~ (i <= j < i + Z.of_nat n) ->
       nth (Z.to_nat j) (sectors d') zero_block
       = nth (Z.to_nat j) (sectors d) zero_block).
Proof.
  induction n as [|n IH]; intros st d i Hh Hi Hn.
  - exists d, st. repeat split; try reflexivity; try assumption. intros j Hj. lia.
  - cbn [format_inode_blocks].
    rewrite vdisk_write_healthy by (try assumption; lia). cbn [negb Z.eqb].
    set (d1 := mk_disk (dname d) (<[Z.to_nat i := zero_block]> (sectors d))).
    destruct (IH (log st (EvWrite i zero_block 0)) d1 (i + 1))
      as (d' & st' & E & Hh' & Him & Hmt & Hnm & Hlen & Hz & Ho).
    + exact Hh.
    + lia.
    + unfold size_in_sectors, d1 in *. simpl. rewrite length_insert. lia.
    + exists d', st'. rewrite E.
      assert (Hd1 : nth (Z.to_nat i) (sectors d1) zero_block = zero_block).
      { unfold d1. simpl. apply nth_lookup_Some with (x := zero_block).
        apply list_lookup_insert_eq. unfold size_in_sectors in Hn. lia. }
      repeat split; try assumption.
      * rewrite Hlen. unfold d1. simpl. apply length_insert.
      * intros j Hj. destruct (Z.eq_dec j i) as [->|Hne].
        -- rewrite Ho by lia. exact Hd1.
        -- apply Hz. lia.
      * intros j Hj0 Hj. rewrite Ho by lia. unfold d1. simpl.
        rewrite !nth_lookup. rewrite list_lookup_insert_ne by lia. reflexivity.
Qed.

Lemma with_images_id st name img :
  images st !! name = Some img ->
  with_images st (<[name := img]> (images st)) = st.
Proof.
  intros H. unfold with_images. rewrite insert_id by exact H.
  destruct st. reflexivity.
Qed.

Lemma decode_encode_superblock nb nib bs rest :
  0 <= nb < 2 ^ 32 -> 0 <= nib < 2 ^ 32 -> 0 <= bs < 2 ^ 32 ->
  decode_superblock
    (encode_superblock (mk_superblock MAGIC_NUMBER nb nib bs) ++ rest)
  = mk_superblock MAGIC_NUMBER nb nib bs.
Proof.
  intros H1 H2 H3. unfold decode_superblock, encode_superblock.
  cbn [magic num_blocks num_inode_blocks block_size].
  rewrite <- !app_assoc.
  assert (E4 : get_u32 (MAGIC_NUMBER ++ le_split 4 nb ++ le_split 4 nib
                          ++ le_split 4 bs ++ rest) 4 = nb).
  { rewrite get_u32_app_split by reflexivity. apply to_uint32_small, H1. }
  assert (E5 : get_u32 (MAGIC_NUMBER ++ le_split 4 nb ++ le_split 4 nib
                          ++ le_split 4 bs ++ rest) 5 = nib).
  { rewrite (app_assoc MAGIC_NUMBER).
    rewrite get_u32_app_split by reflexivity. apply to_uint32_small, H2. }
  assert (E6 : get_u32 (MAGIC_NUMBER ++ le_split 4 nb ++ le_split 4 nib
                          ++ le_split 4 bs ++ rest) 6 = bs).
  { rewrite (app_assoc MAGIC_NUMBER), (app_assoc (MAGIC_NUMBER ++ _)).
    rewrite get_u32_app_split by reflexivity. apply to_uint32_small, H3. }
  rewrite E4, E5, E6. reflexivity.
Qed.

(** C9: with no disk mounted, a working device and an image of [length img]
    blocks under [name], [format] clamps [inodes] to at least 1, takes
    [num_inode_blocks = ceil(inodes / 32)] (which is at least 1), returns
    [E_OUT_OF_SPACE] when [num_inode_blocks + 1 >= num_blocks] and otherwise
    returns 0 after writing the superblock (magic, number of blocks, number
    of inode blocks, block size, then zeros) to block 0 and zeros to the
    inode blocks [1 .. num_inode_blocks]; the other blocks keep their
    content.  ([inodes + INODES_PER_BLOCK] must not overflow [int].) *)
Theorem format_spec (st : fs_state) (name : string) (inodes : Z)
    (img : list block) :
  disk_mounted st = false ->
  healthy st ->
  images st !! name = Some img ->
  Z.of_nat (length img) < 2 ^ 32 ->
  - 2 ^ 31 <= inodes ->
  inodes + INODES_PER_BLOCK <= INT_MAX ->
  let n := Z.max 1 inodes in
  let nib := (n + INODES_PER_BLOCK - 1) / INODES_PER_BLOCK in
  1 <= nib /\
  (nib - 1) * INODES_PER_BLOCK < n <= nib * INODES_PER_BLOCK /\
  (Z.of_nat (length img) <= nib + 1 ->
     format st name inodes = (E_OUT_OF_SPACE, st)) /\
  (nib + 1 < Z.of_nat (length img) ->
     exists st' img',
       format st name inodes = (0, st') /\
       disk_mounted st' = false /\
       images st' !! name = Some img' /\
       length img' = length img /\
       nth 0 img' zero_block =
         encode_superblock
           (mk_superblock MAGIC_NUMBER (Z.of_nat (length img)) nib BLOCK_SIZE)
         ++ replicate (Z.to_nat BLOCK_SIZE - 28) Byte.x00 /\
       decode_superblock (nth 0 img' zero_block) =
         mk_superblock MAGIC_NUMBER (Z.of_nat (length img)) nib BLOCK_SIZE /\
       (forall i, 1 <= i <= nib ->
          nth (Z.to_nat i) img' zero_block = zero_block) /\
       (forall i, nib < i ->
          nth (Z.to_nat i) img' zero_block = nth (Z.to_nat i) img zero_block)).
Proof.
  intros Hm Hh Himg Hlen Hlo Hhi n nib.
  change INODES_PER_BLOCK with 32 in *. unfold INT_MAX in Hhi.
  assert (Hn : 1 <= n <= 2 ^ 31 - 1 - 32) by (unfold n; lia).
  assert (Hnib : 1 <= nib).
  { unfold nib. apply Z.div_le_lower_bound; lia. }
  assert (Hceil : (nib - 1) * 32 < n <= nib * 32).
  { unfold nib. pose proof (Z.div_mod (n + 32 - 1) 32).
    pose proof (Z.mod_pos_bound (n + 32 - 1) 32). lia. }
  assert (Hnibhi : nib <= 2 ^ 26).
  { unfold nib. apply Z.div_le_upper_bound; lia. }
  split; [exact Hnib|]. split; [exact Hceil|].
  assert (Hclamp : (if inodes <=? 0 then 1 else inodes) = n).
  { unfold n. destruct (inodes <=? 0) eqn:E;
      [apply Z.leb_le in E|apply Z.leb_gt in E]; lia. }
  assert (Hcomp : Z.quot (to_int (to_int (n + 32) - 1)) 32 = nib).
  { rewrite (to_int_small (n + 32)) by lia.
    rewrite to_int_small by lia.
    rewrite Z.quot_div_nonneg by lia. reflexivity. }
  assert (Hfmt : forall k : Z * fs_state,
    (let '(result, format_disk, st0) := (0, mk_disk name img, st) in
     if negb (result =? 0) then (result, st0)
     else
       let num_inode_blocks := Z.quot (to_int (to_int (n + 32) - 1)) 32 in
       let num_inode_blocks :=
         if num_inode_blocks <=? 0 then 1 else num_inode_blocks in
       let total_blocks := to_uint32 (size_in_sectors format_disk) in
       if total_blocks <=? to_uint32 (to_uint32 num_inode_blocks + 1) then
         (E_OUT_OF_SPACE, vdisk_off st0 format_disk)
       else
         let sb := mk_superblock MAGIC_NUMBER total_blocks num_inode_blocks BLOCK_SIZE in
         let block_buffer := memcpy zero_block 0 (encode_superblock sb) 28 in
         let '(result, format_disk, st0) :=
           vdisk_write st0 format_disk 0 block_buffer in
         if negb (result =? 0) then (result, vdisk_off st0 format_disk)
         else
           let '(result, format_disk, st0) :=
             format_inode_blocks st0 format_disk 1 (Z.to_nat num_inode_blocks) in
           if negb (result =? 0) then (result, vdisk_off st0 format_disk)
           else
             let '(result, st0) := vdisk_sync st0 format_disk in
             if negb (result =? 0) then (result, vdisk_off st0 format_disk)
             else (0, vdisk_off st0 format_disk)) = k ->
    format st name inodes = k).
  { intros k <-. unfold format. rewrite Hm, Hclamp.
    unfold vdisk_on. rewrite Himg, (device_fault_healthy st Hh).
    reflexivity. }
  cbn [negb Z.eqb] in Hfmt. rewrite Hcomp in Hfmt.
  replace (nib <=? 0) with false in Hfmt by (symmetry; apply Z.leb_gt; lia).
  unfold size_in_sectors in Hfmt. cbn [sectors] in Hfmt.
  rewrite (to_uint32_small (Z.of_nat (length img))) in Hfmt by lia.
  rewrite (to_uint32_small nib) in Hfmt by lia.
  rewrite (to_uint32_small (nib + 1)) in Hfmt by lia.
  split.
  - intros Hsmall. apply Hfmt.
    replace (Z.of_nat (length img) <=? nib + 1) with true
      by (symmetry; apply Z.leb_le; lia).
    unfold vdisk_off. cbn [dname sectors].
    rewrite with_images_id by exact Himg. reflexivity.
  - intros Hbig.
    replace (Z.of_nat (length img) <=? nib + 1) with false in Hfmt
      by (symmetry; apply Z.leb_gt; lia).
    set (sb := mk_superblock MAGIC_NUMBER (Z.of_nat (length img)) nib BLOCK_SIZE) in *.
    set (buf := memcpy zero_block 0 (encode_superblock sb) 28) in *.
    rewrite vdisk_write_healthy in Hfmt
      by (try assumption; unfold size_in_sectors; simpl; lia).
    cbn [negb Z.eqb dname sectors] in Hfmt.
    set (d1 := mk_disk name (<[Z.to_nat 0 := buf]> img)) in *.
    destruct (format_inode_blocks_spec (Z.to_nat nib)
                (log st (EvWrite 0 buf 0)) d1 1)
      as (d' & st' & E & Hh' & Him & Hmt & Hnm & Hl & Hz & Ho).
    + exact Hh.
    + lia.
    + unfold size_in_sectors, d1. simpl. rewrite length_insert. lia.
    + rewrite E in Hfmt. cbn [negb Z.eqb] in Hfmt.
      unfold vdisk_sync in Hfmt. rewrite (device_fault_healthy st' Hh') in Hfmt.
      cbn [negb Z.eqb] in Hfmt.
      exists (vdisk_off st' d'), (sectors d').
      assert (Hbuf : buf = encode_superblock sb
                             ++ replicate (Z.to_nat BLOCK_SIZE - 28) Byte.x00).
      { unfold buf, memcpy. simpl take at 1. cbn [app].
        rewrite firstn_all2 by (simpl; lia).
        unfold zero_block. rewrite drop_replicate. reflexivity. }
      assert (H0 : nth 0 (sectors d') zero_block = buf).
      { change 0%nat with (Z.to_nat 0). rewrite (Ho 0) by lia. unfold d1. simpl.
        apply nth_lookup_Some with (x := buf).
        apply list_lookup_insert_eq. lia. }
      split; [apply Hfmt; reflexivity|].
      split; [unfold vdisk_off; simpl; rewrite Hmt; exact Hm|].
      split; [unfold vdisk_off; simpl; rewrite Hnm; apply lookup_insert_eq|].
      split; [rewrite Hl; unfold d1; simpl; apply length_insert|].
      split; [rewrite H0; exact Hbuf|].
      split; [rewrite H0, Hbuf; apply decode_encode_superblock;
              change BLOCK_SIZE with 1024; lia|].
      split.
      * intros i Hi. apply Hz. rewrite Z2Nat.id by lia. lia.
      * intros i Hi. rewrite Ho by (rewrite ?Z2Nat.id by lia; lia).
        unfold d1. simpl. rewrite !nth_lookup.
        rewrite list_lookup_insert_ne by lia. reflexivity.
Qed.

Lemma format_spec_witness :
  fst (format (blank_host 12) "disk.img"%string 10) = 0.
Proof.
  destruct (format_spec (blank_host 12) "disk.img"%string 10
              (replicate 12 zero_block)) as (_ & _ & _ & H).
  - reflexivity.
  - reflexivity.
  - apply lookup_singleton_eq.
  - by_eval.
  - by_eval.
  - by_eval.
  - destruct H as (st' & img' & E & _); [by_eval|]. rewrite E. reflexivity.
Defined.

(** ** [write] at a negative offset *)

Lemma mounted_ok_same st st' :
  disk_mounted st' = disk_mounted st -> superblock st' = superblock st ->
  disk st' = disk st -> block_bitmap st' = block_bitmap st ->
  mounted_ok st -> mounted_ok st'.
Proof.
  intros H1 H2 H3 H4. unfold mounted_ok, superblock_ok.
  rewrite H1, H2, H3, H4. exact id.
Qed.

Lemma device_fault_frame st e st' :
  device_fault st = (e, st') ->
  disk_mounted st' = disk_mounted st /\ superblock st' = superblock st /\
  disk st' = disk st /\ block_bitmap st' = block_bitmap st /\
  history st' = history st /\ images st' = images st.
Proof.
  unfold device_fault. destruct (faults st); intros H; injection H as <- <-;
    repeat split.
Qed.

Lemma read_inode_inv st i bp inode st1 :
  read_inode st i bp = (0, inode, st1) ->
  inode = inode_at st i /\
  disk_mounted st1 = disk_mounted st /\ superblock st1 = superblock st /\
  disk st1 = disk st /\ block_bitmap st1 = block_bitmap st /\
  history st1 = history st.
Proof.
  unfold read_inode.
  destruct (negb (disk_mounted st) && negb bp); [discriminate|].
  destruct (bad_inode_num st i); [discriminate|].
  unfold disk_read, vdisk_read.
  destruct (in_range _ _); [|discriminate].
  destruct (device_fault st) as [e st2] eqn:Ef.
  apply device_fault_frame in Ef.
  destruct (e =? 0) eqn:Ee; simpl.
  - intros H. injection H as <- <-. repeat split; apply Ef.
  - rewrite Ee. simpl. intros H. injection H as -> _ _. discriminate.
Qed.

Lemma encode_decode_inode bs :
  length bs = 32%nat -> encode_inode (decode_inode bs) = bs.
Proof.
  intros Hl. unfold encode_inode, decode_inode.
  cbn [valid padding size direct_blocks indirect_block double_indirect_block
       fst snd nth].
  unfold get_u32.
  rewrite !split_le_combine' by (rewrite length_take, length_drop; lia).
  do 32 (destruct bs as [|? bs]; [discriminate|]).
  destruct bs; [reflexivity|discriminate].
Qed.

Lemma memcpy_same dst d n :
  (Z.to_nat d + Z.to_nat n <= length dst)%nat ->
  memcpy dst d (take (Z.to_nat n) (drop (Z.to_nat d) dst)) n = dst.
Proof.
  intros H. unfold memcpy. rewrite take_take, Nat.min_id.
  rewrite <- (take_drop (Z.to_nat d) dst) at 4.
  f_equal. rewrite <- drop_drop. apply take_drop.
Qed.

Lemma write_inode_same st0 st i r st' :
  mounted_ok st -> 0 <= i < inode_count st ->
  disk st0 = disk st ->
  write_inode st i (inode_at st0 i) = (r, st') ->
  sectors (disk st') = sectors (disk st) /\
  block_bitmap st' = block_bitmap st /\ superblock st' = superblock st /\
  disk_mounted st' = disk_mounted st.
Proof.
  intros Hm Hi Hd. pose proof Hm as (Hmt & Hsb & Hsz & _).
  unfold write_inode. rewrite Hmt, (bad_inode_num_false st i Hsb Hi). simpl.
  unfold disk_read, vdisk_read.
  destruct (in_range _ _) eqn:Hr;
    [|simpl; intros H; injection H as <- <-; repeat split; congruence].
  destruct (device_fault st) as [e st2] eqn:Ef.
  apply device_fault_frame in Ef. destruct Ef as (F1 & F2 & F3 & F4 & F5 & F6).
  destruct (e =? 0) eqn:Ee; simpl;
    [|rewrite Ee; simpl; intros H; injection H as <- <-;
      repeat split; congruence].
  unfold disk_write, vdisk_write. rewrite F3, Hr.
  destruct (device_fault st2) as [e3 st3] eqn:Ef3.
  apply device_fault_frame in Ef3.
  destruct Ef3 as (G1 & G2 & G3 & G4 & G5 & G6).
  assert (Hsame :
    <[Z.to_nat (1 + Z.quot i INODES_PER_BLOCK) :=
        memcpy (nth (Z.to_nat (1 + Z.quot i INODES_PER_BLOCK)) (sectors (disk st))
                  zero_block)
          (Z.rem i INODES_PER_BLOCK * INODE_SIZE)
          (encode_inode (inode_at st0 i)) INODE_SIZE]> (sectors (disk st))
    = sectors (disk st)).
  { unfold inode_at, blk. rewrite Hd.
    destruct (inode_slot i) as (_ & Ho & Hrng); [lia|].
    set (b := nth _ (sectors (disk st)) zero_block).
    assert (Hb : length b = Z.to_nat BLOCK_SIZE) by (apply (length_blk st), Hm).
    rewrite encode_decode_inode.
    - rewrite memcpy_same.
      + apply list_insert_id. unfold b.
        destruct (nth_lookup_or_length (sectors (disk st))
                    (Z.to_nat (1 + Z.quot i INODES_PER_BLOCK)) zero_block)
          as [Hn|Hn]; [exact Hn|].
        unfold in_range, size_in_sectors in Hr.
        apply andb_true_iff in Hr as [Hr0 Hr]. apply Z.ltb_lt in Hr.
        apply Z.leb_le in Hr0. lia.
      + rewrite Hb, Ho. change INODE_SIZE with 32. change BLOCK_SIZE with 1024. lia.
    - rewrite length_take, length_drop, Hb, Ho. change INODE_SIZE with 32.
      change BLOCK_SIZE with 1024. lia. }
  destruct (e3 =? 0) eqn:Ee3; simpl.
  - intros H. injection H as <- <-. simpl. rewrite Hsame.
    repeat split; congruence.
  - rewrite Ee3. simpl. intros H. injection H as <- <-. simpl.
    repeat split; congruence.
Qed.

Lemma gbfo_negative st inode offset allocate :
  disk_mounted st = true -> offset < 0 ->
  get_block_for_offset st inode offset allocate = (E_INVALID_OFFSET, inode, st).
Proof.
  intros Hm Ho. unfold get_block_for_offset. rewrite Hm. simpl.
  replace (offset <? 0) with true by (symmetry; apply Z.ltb_lt; lia).
  reflexivity.
Qed.

Lemma write_loop_negative st i inode data len offset :
  disk_mounted st = true -> offset < 0 -> 0 < len ->
  to_uint32 offset <= size inode ->
  write_loop (Z.to_nat len) st i inode data len 0 offset
  = (Some E_INVALID_OFFSET, 0, offset, inode, st).
Proof.
  intros Hm Ho Hl Hs.
  destruct (Z.to_nat len) as [|fuel] eqn:E; [lia|].
  cbn [write_loop].
  replace (0 <? len) with true by (symmetry; apply Z.ltb_lt; lia).
  rewrite gbfo_negative by assumption.
  change (E_INVALID_OFFSET <=? 0) with true. cbn match.
  unfold persist_progress.
  replace (size inode <? to_uint32 offset) with false
    by (symmetry; apply Z.ltb_ge; lia).
  reflexivity.
Qed.

Lemma set_size_same inode : set_size inode (size inode) = inode.
Proof. destruct inode. reflexivity. Qed.

(** C10 (amended): in a mounted session, for an inode [i] that [write] reads
    as valid, [write(i, data, len, offset)] with [offset < 0] and [len > 0]
    returns [E_INVALID_OFFSET]; no sector of the device changes (so the
    inode record and every data byte stay as they were) and the bitmap is
    unchanged. *)
Theorem write_negative_offset (st st1 : fs_state) (i : Z) (data : list byte)
    (len offset : Z) (inode : inode_t) :
  mounted_ok st ->
  0 <= i < inode_count st ->
  read_inode st i false = (0, inode, st1) ->
  byte.unsigned (valid inode) <> 0 ->
  - 2 ^ 31 <= offset < 0 ->
  0 < len ->
  exists st',
    write st i data len offset = (E_INVALID_OFFSET, st') /\
    sectors (disk st') = sectors (disk st) /\
    inode_at st' i = inode_at st i /\
    block_bitmap st' = block_bitmap st.
Proof.
  intros Hm Hi Hread Hv Ho Hl.
  pose proof Hm as (Hmt & Hsb & _).
  destruct (read_inode_inv _ _ _ _ _ Hread) as (Hino & R1 & R2 & R3 & R4 & R5).
  assert (Hm1 : mounted_ok st1) by (apply (mounted_ok_same st); assumption).
  assert (Hmt1 : disk_mounted st1 = true) by congruence.
  assert (Hsz : 0 <= size inode < 2 ^ 32).
  { rewrite Hino. apply decode_inode_ok. }
  assert (Hat : forall st', sectors (disk st') = sectors (disk st) ->
                            inode_at st' i = inode_at st i).
  { intros st' E. unfold inode_at, blk. rewrite E. reflexivity. }
  unfold write. rewrite Hmt, (bad_inode_num_false st i Hsb Hi), Hread.
  apply Z.eqb_neq in Hv. rewrite Hv. cbn [negb Z.eqb].
  unfold write_fill.
  destruct (size inode <? to_uint32 offset) eqn:Hfill.
  - apply Z.ltb_lt in Hfill.
    destruct (Z_lt_le_dec (to_int (size inode)) offset) as [Hneg|Hpos].
    + (* the recorded size is at least 2^31: the fill loop starts below 0 *)
      destruct (Z.to_nat (offset - to_int (size inode))) as [|fuel] eqn:E; [lia|].
      cbn [fill_loop].
      replace (to_int (size inode) <? offset) with true
        by (symmetry; apply Z.ltb_lt; lia).
      rewrite gbfo_negative by (try assumption; lia).
      change (E_INVALID_OFFSET <=? 0) with true. cbn match.
      unfold advance_size. rewrite to_uint32_to_int by exact Hsz.
      rewrite Z.ltb_irrefl, set_size_same.
      destruct (write_inode st1 i inode) as [r st2] eqn:Ew.
      exists st2. split; [reflexivity|].
      rewrite Hino in Ew.
      destruct (write_inode_same st st1 i r st2) as (W1 & W2 & W3 & W4).
      * exact Hm1.
      * unfold inode_count in *. rewrite R2. exact Hi.
      * congruence.
      * exact Ew.
      * assert (Hs2 : sectors (disk st2) = sectors (disk st)) by congruence.
        split; [exact Hs2|]. split; [apply Hat, Hs2|congruence].
    + destruct (Z.to_nat (offset - to_int (size inode))) as [|fuel] eqn:E; [|lia].
      cbn [fill_loop].
      rewrite write_loop_negative; try assumption; try lia.
      * exists st1. split; [reflexivity|].
        assert (Hs1 : sectors (disk st1) = sectors (disk st)) by congruence.
        split; [exact Hs1|]. split; [apply Hat, Hs1|congruence].
      * simpl. lia.
  - apply Z.ltb_ge in Hfill.
    rewrite write_loop_negative; try assumption; try lia.
    exists st1. split; [reflexivity|].
    assert (Hs1 : sectors (disk st1) = sectors (disk st)) by congruence.
    split; [exact Hs1|]. split; [apply Hat, Hs1|congruence].
Qed.

Lemma example_file_ok : mounted_ok example_file.
Proof.
  unfold mounted_ok, superblock_ok.
  repeat split; try by_eval.
  vm_compute. repeat constructor.
Qed.

Lemma write_negative_offset_witness :
  exists st',
    write example_file 0 [Byte.x58] 1 (-1) = (E_INVALID_OFFSET, st') /\
    sectors (disk st') = sectors (disk example_file) /\
    inode_at st' 0 = inode_at example_file 0 /\
    block_bitmap st' = block_bitmap example_file.
Proof.
  apply (write_negative_offset example_file example_file 0 [Byte.x58] 1 (-1)
           (inode_at example_file 0)).
  - exact example_file_ok.
  - split; by_eval.
  - by_eval.
  - by_eval.
  - split; by_eval.
  - by_eval.
Defined.

(** C10, as stated, fails for an empty write: with [len = 0] the function
    never reaches [get_block_for_offset] and returns 0. *)
Lemma write_negative_offset_empty :
  fst (write example_file 0 [] 0 (-1)) = 0 /\
  byte.unsigned (valid (inode_at example_file 0)) <> 0 /\
  E_INVALID_OFFSET <> 0.
Proof. repeat split; by_eval. Qed.

(** ** Device errors in [read] *)

Lemma device_fault_neg st e st' :
  neg_faults st -> device_fault st = (e, st') -> e <= 0 /\ neg_faults st'.
Proof.
  unfold neg_faults, device_fault. intros Hn.
  destruct (faults st) as [|x rest] eqn:E; intros H; injection H as <- <-.
  - split; [lia|]. rewrite E. constructor.
  - apply Forall_cons in Hn as [Hx Hr]. split; [exact Hx|exact Hr].
Qed.

Lemma disk_read_neg st s e b st' :
  neg_faults st -> disk_read st s = (e, b, st') -> e <= 0 /\ neg_faults st'.
Proof.
  intros Hn. unfold disk_read, vdisk_read.
  destruct (in_range _ _).
  - destruct (device_fault st) as [x st1] eqn:E.
    destruct (device_fault_neg _ _ _ Hn E) as [Hx Hn1].
    destruct (x =? 0); intros H; injection H as <- _ <-; split;
      first [lia | assumption].
  - intros H. injection H as <- _ <-. split; [unfold vdisk_EEXCEED; lia|exact Hn].
Qed.

Lemma gbfo_lookup_neg st inode offset r inode' st' :
  neg_faults st ->
  get_block_for_offset st inode offset false = (r, inode', st') ->
  neg_faults st'.
Proof.
  intros Hn. unfold get_block_for_offset, gbfo_indirect_entry,
    gbfo_double_entry, gbfo_double_data.
  cbn [negb].
  repeat
    match goal with
    | |- context [(_ && false)%bool] => rewrite andb_false_r; cbv iota
    | |- (_, _, _) = (_, _, _) -> _ =>
        let H := fresh in intros H; injection H as <- <- <-; assumption
    | |- context [disk_read ?s ?b] =>
        let E := fresh "E" in
        destruct (disk_read s b) as [[? ?] ?] eqn:E;
        apply disk_read_neg in E; [destruct E as [_ E]|assumption]
    | |- context [if ?c then _ else _] => destruct c; cbv iota
    end.
Qed.

Lemma read_round_neg btr c c1 :
  neg_faults (rc_state c) -> read_round btr c = Some c1 ->
  neg_faults (rc_state c1).
Proof.
  intros Hn. unfold read_round.
  destruct (rc_read c <? btr); [|discriminate].
  destruct (get_block_for_offset _ _ _ _) as [[b ino] st1] eqn:Eg.
  apply gbfo_lookup_neg in Eg; [|exact Hn].
  destruct (b <=? 0); [discriminate|].
  destruct (disk_read st1 b) as [[e blk] st2] eqn:Er.
  apply disk_read_neg in Er; [|exact Eg].
  destruct (negb (e =? 0)); [discriminate|].
  intros H. injection H as <-. apply Er.
Qed.

Lemma read_rounds_neg btr c c' :
  read_rounds btr c c' -> neg_faults (rc_state c) -> neg_faults (rc_state c').
Proof.
  induction 1 as [|c c1 c' Hs _ IH]; [exact id|].
  intros Hn. apply IH. exact (read_round_neg _ _ _ Hn Hs).
Qed.

(** A full round advances by at least one byte, and [read_loop] follows it. *)
Lemma read_round_loop btr c c1 fuel :
  read_round btr c = Some c1 -> 0 <= rc_offset c ->
  read_loop (S fuel) (rc_state c) (rc_inode c) (rc_data c) btr (rc_read c)
    (rc_offset c)
  = read_loop fuel (rc_state c1) (rc_inode c1) (rc_data c1) btr (rc_read c1)
      (rc_offset c1)
  /\ rc_read c < rc_read c1 /\ 0 <= rc_offset c1.
Proof.
  intros Hs Ho. unfold read_round in Hs. cbn [read_loop].
  destruct (rc_read c <? btr) eqn:Hlt; [|discriminate].
  apply Z.ltb_lt in Hlt.
  destruct (get_block_for_offset _ _ _ _) as [[b ino] st1].
  destruct (b <=? 0); [discriminate|].
  destruct (disk_read st1 b) as [[e blk] st2].
  destruct (negb (e =? 0)); [discriminate|].
  injection Hs as <-. cbn [rc_state rc_inode rc_data rc_read rc_offset].
  split; [reflexivity|]. split; [|apply to_uint32_range].
  assert (0 <= Z.rem (rc_offset c) BLOCK_SIZE < BLOCK_SIZE).
  { change BLOCK_SIZE with 1024. rewrite Z.rem_mod_nonneg by lia.
    apply Z.mod_pos_bound. lia. }
  destruct (btr - rc_read c <? BLOCK_SIZE - Z.rem (rc_offset c) BLOCK_SIZE)
    eqn:E; lia.
Qed.

Lemma read_rounds_loop btr c c' :
  read_rounds btr c c' ->
  forall fuel,
    btr - rc_read c <= Z.of_nat fuel -> 0 <= rc_offset c ->
    exists fuel',
      read_loop fuel (rc_state c) (rc_inode c) (rc_data c) btr (rc_read c)
        (rc_offset c)
      = read_loop fuel' (rc_state c') (rc_inode c') (rc_data c') btr
          (rc_read c') (rc_offset c')
      /\ btr - rc_read c' <= Z.of_nat fuel' /\ 0 <= rc_offset c'.
Proof.
  induction 1 as [c|c c1 c' Hs _ IH]; intros fuel Hf Ho.
  - exists fuel. repeat split; assumption.
  - assert (Hlt : rc_read c < btr).
    { unfold read_round in Hs. destruct (rc_read c <? btr) eqn:E;
        [apply Z.ltb_lt in E; exact E|discriminate]. }
    destruct fuel as [|fuel]; [lia|].
    destruct (read_round_loop btr c c1 fuel Hs Ho) as (E & Hadv & Ho1).
    destruct (IH fuel) as (fuel' & E' & Hf' & Ho'); [lia|exact Ho1|].
    exists fuel'. rewrite E. repeat split; assumption.
Qed.

(** C6 (amended): [read] has found the inode valid and has something to
    read; [c] is the state of its loop after any number of full rounds, with
    bytes still to read.  If the block of the next round is found and the
    device fails to read it, [read] returns the number of bytes read so far
    when that is positive and the device's (negative) error otherwise.  If
    instead the block is not found, because of a hole or because the device
    failed on an indirection page inside [get_block_for_offset], the loop
    ends and [read] returns the number of bytes read so far, which is 0 in
    the first round: that error is not propagated. *)
Theorem read_device_error (st st0 : fs_state) (i : Z) (data : list byte)
    (len offset : Z) (inode : inode_t) (c : read_cfg) :
  disk_mounted st = true ->
  bad_inode_num st i = false ->
  read_inode st i false = (0, inode, st0) ->
  byte.unsigned (valid inode) <> 0 ->
  0 < read_count inode len offset ->
  neg_faults st0 ->
  read_rounds (read_count inode len offset)
    (mk_read_cfg st0 inode data 0 (to_uint32 offset)) c ->
  rc_read c < read_count inode len offset ->
  (forall b inode1 st1 e blk st2,
     get_block_for_offset (rc_state c) (rc_inode c) (to_int (rc_offset c)) false
       = (b, inode1, st1) ->
     0 < b ->
     disk_read st1 b = (e, blk, st2) ->
     e <> 0 ->
     e < 0 /\
     read st i data len offset
       = (if 0 <? rc_read c then rc_read c else e, rc_data c, st2)) /\
  (forall r inode1 st1,
     get_block_for_offset (rc_state c) (rc_inode c) (to_int (rc_offset c)) false
       = (r, inode1, st1) ->
     r <= 0 ->
     read st i data len offset = (rc_read c, rc_data c, st1)).
Proof.
  intros Hm Hbad Hread Hv Hcount Hneg Hrounds Hmore.
  set (btr := read_count inode len offset) in *.
  assert (Hstart : read st i data len offset
                   = read_loop (Z.to_nat btr) st0 inode data btr 0 (to_uint32 offset)).
  { unfold read. rewrite Hm, Hbad, Hread.
    apply Z.eqb_neq in Hv. rewrite Hv. cbn [negb Z.eqb]. fold btr.
    replace (btr <=? 0) with false by (symmetry; apply Z.leb_gt; lia).
    reflexivity. }
  destruct (read_rounds_loop btr _ _ Hrounds (Z.to_nat btr))
    as (fuel & E & Hfuel & Hoff); cbn [rc_read rc_offset];
    [lia|apply to_uint32_range|].
  cbn [rc_state rc_inode rc_data rc_read rc_offset] in E.
  rewrite Hstart, E.
  destruct fuel as [|fuel]; [lia|].
  cbn [read_loop].
  replace (rc_read c <? btr) with true by (symmetry; apply Z.ltb_lt; lia).
  split.
  - intros b inode1 st1 e blk st2 Hg Hb Hr He.
    rewrite Hg.
    replace (b <=? 0) with false by (symmetry; apply Z.leb_gt; lia).
    rewrite Hr. apply Z.eqb_neq in He. rewrite He. cbn [negb].
    split; [|reflexivity].
    assert (Hn1 : neg_faults st1).
    { apply (gbfo_lookup_neg _ _ _ _ _ _ (read_rounds_neg _ _ _ Hrounds Hneg) Hg). }
    destruct (disk_read_neg _ _ _ _ _ Hn1 Hr) as [Hle _].
    apply Z.eqb_neq in He. lia.
  - intros r inode1 st1 Hg Hr0.
    rewrite Hg.
    replace (r <=? 0) with true by (symmetry; apply Z.leb_le; lia).
    reflexivity.
Qed.

Lemma read_device_error_witness :
  fst (fst (read example_block_fails 0 [Byte.x00] 1 4096)) = -7.
Proof.
  set (st := example_block_fails).
  set (st0 := snd (read_inode st 0 false)).
  set (inode := snd (fst (read_inode st 0 false))).
  set (c := mk_read_cfg st0 inode [Byte.x00] 0 (to_uint32 4096)).
  set (g := get_block_for_offset (rc_state c) (rc_inode c) (to_int (rc_offset c)) false).
  set (rd := disk_read (snd g) (fst (fst g))).
  destruct (read_device_error st st0 0 [Byte.x00] 1 4096 inode c) as [H _].
  - by_eval.
  - by_eval.
  - by_eval.
  - by_eval.
  - by_eval.
  - vm_compute. repeat constructor; discriminate.
  - apply read_rounds_refl.
  - by_eval.
  - destruct (H (fst (fst g)) (snd (fst g)) (snd g) (fst (fst rd))
                (snd (fst rd)) (snd rd)) as [_ E].
    + unfold g. destruct (get_block_for_offset _ _ _ _) as [[? ?] ?]. reflexivity.
    + by_eval.
    + unfold rd. destruct (disk_read _ _) as [[? ?] ?]. reflexivity.
    + by_eval.
    + rewrite E. by_eval.
Defined.

(** C6, as stated, fails when the device error hits the lookup of the block:
    the file of [example_lookup_fails] is valid and longer than 4096 bytes,
    the device fails (with -7) while [read] at offset 4096 reads the indirect
    page in its first round, and [read] returns 0, not the error. *)
Lemma read_lookup_error_not_propagated :
  neg_faults example_lookup_fails /\
  byte.unsigned (valid (inode_at example_lookup_fails 0)) <> 0 /\
  4096 < size (inode_at example_lookup_fails 0) /\
  faults example_lookup_fails = [0; -7] /\
  fst (fst (read example_lookup_fails 0 [Byte.x00] 1 4096)) = 0 /\
  faults (snd (read example_lookup_fails 0 [Byte.x00] 1 4096)) = [].
Proof.
  split; [vm_compute; repeat constructor; discriminate|].
  repeat split; by_eval.
Qed.

(** ** Allocation in [get_block_for_offset] *)

Lemma alloc_events_link r l :
  alloc_events r l ->
  forall l1 b l2, l = l1 ++ EvLink b :: l2 ->
  exists l0, l1 = l0 ++ [EvAlloc b; EvWrite b zero_block 0].
Proof.
  induction 1 as [|b0 l H IH|b0 s pg k l H IH|b0 e He Hr|b0 s pg k e He Hr];
    intros l1 b l2 E.
  - destruct l1; discriminate.
  - destruct l1 as [|x1 [|x2 [|x3 l1]]]; simpl in E; inversion E; subst.
    + exists []. reflexivity.
    + destruct (IH _ _ _ eq_refl) as [l0 ->].
      eexists (_ :: _ :: _ :: l0). reflexivity.
  - destruct l1 as [|x1 [|x2 [|x3 [|x4 l1]]]]; simpl in E; inversion E; subst.
    + exists []. reflexivity.
    + destruct (IH _ _ _ eq_refl) as [l0 ->].
      eexists (_ :: _ :: _ :: _ :: l0). reflexivity.
  - destruct l1 as [|x1 [|x2 [|x3 [|]]]]; simpl in E; inversion E.
  - destruct l1 as [|x1 [|x2 [|x3 [|x4 [|x5 [|]]]]]]; simpl in E; inversion E;
      subst.
    exists []. reflexivity.
Qed.

Lemma alloc_events_failed_write r l :
  alloc_events r l ->
  forall l1 s buf e l2, l = l1 ++ EvWrite s buf e :: l2 -> e <> 0 ->
  r = e /\
  exists b l0 l0',
    l1 = l0 ++ EvAlloc b :: l0' /\ Forall (fun ev => ~ is_alloc ev) l0' /\
    l2 = [EvRelease b].
Proof.
  induction 1 as [|b0 l H IH|b0 s0 pg k l H IH|b0 e0 He Hr|b0 s0 pg k e0 He Hr];
    intros l1 s buf e l2 E Hne.
  - destruct l1; discriminate.
  - destruct l1 as [|x1 [|x2 [|x3 l1]]]; simpl in E; inversion E; subst;
      try congruence.
    destruct (IH _ _ _ _ _ eq_refl Hne) as (Hre & b & l0 & l0' & -> & Hn & ->).
    split; [exact Hre|].
    eexists b, (_ :: _ :: _ :: l0), l0'.
    split; [reflexivity|]. split; [assumption|reflexivity].
  - destruct l1 as [|x1 [|x2 [|x3 [|x4 l1]]]]; simpl in E; inversion E; subst;
      try congruence.
    destruct (IH _ _ _ _ _ eq_refl Hne) as (Hre & b & l0 & l0' & -> & Hn & ->).
    split; [exact Hre|].
    eexists b, (_ :: _ :: _ :: _ :: l0), l0'.
    split; [reflexivity|]. split; [assumption|reflexivity].
  - destruct l1 as [|x1 [|x2 [|x3 [|]]]]; simpl in E; inversion E; subst.
    split; [reflexivity|].
    eexists _, [], []. split; [reflexivity|]. split; [constructor|reflexivity].
  - destruct l1 as [|x1 [|x2 [|x3 [|x4 [|x5 [|]]]]]]; simpl in E; inversion E;
      subst; try congruence.
    split; [reflexivity|].
    eexists _, [], [_; _]. split; [reflexivity|].
    split; [repeat constructor; simpl; tauto|reflexivity].
Qed.

(** Every device write of the call that succeeds is the zeroing of the
    block allocated just before, or the write-back of a page into which the
    number of the block zeroed just before has been stored. *)
Lemma alloc_events_write r l :
  alloc_events r l ->
  forall l1 s buf l2, l = l1 ++ EvWrite s buf 0 :: l2 ->
  (buf = zero_block /\ exists l0, l1 = l0 ++ [EvAlloc s]) \/
  (exists l0 b pg k,
     buf = set_u32 pg k b /\
     l1 = l0 ++ [EvAlloc b; EvWrite b zero_block 0; EvLink b]).
Proof.
  induction 1 as [|b0 l H IH|b0 s0 pg k l H IH|b0 e0 He Hr|b0 s0 pg k e0 He Hr];
    intros l1 s buf l2 E.
  - destruct l1; discriminate.
  - destruct l1 as [|x1 [|x2 [|x3 l1]]]; simpl in E; inversion E; subst.
    + left. split; [reflexivity|]. exists []. reflexivity.
    + destruct (IH _ _ _ _ eq_refl) as [[Hb [l0 ->]]|(l0 & b & pg & k & Hb & ->)].
      * left. split; [exact Hb|]. eexists (_ :: _ :: _ :: l0). reflexivity.
      * right. eexists (_ :: _ :: _ :: l0), b, pg, k. split; [exact Hb|reflexivity].
  - destruct l1 as [|x1 [|x2 [|x3 [|x4 l1]]]]; simpl in E; inversion E; subst.
    + left. split; [reflexivity|]. exists []. reflexivity.
    + right. eexists [], _, _, _. split; reflexivity.
    + destruct (IH _ _ _ _ eq_refl) as [[Hb [l0 ->]]|(l0 & b & pg' & k' & Hb & ->)].
      * left. split; [exact Hb|]. eexists (_ :: _ :: _ :: _ :: l0). reflexivity.
      * right. eexists (_ :: _ :: _ :: _ :: l0), b, pg', k'.
        split; [exact Hb|reflexivity].
  - destruct l1 as [|x1 [|x2 [|x3 [|]]]]; simpl in E; inversion E; subst.
    congruence.
  - destruct l1 as [|x1 [|x2 [|x3 [|x4 [|x5 [|]]]]]]; simpl in E; inversion E;
      subst; try congruence.
    left. split; [reflexivity|]. exists []. reflexivity.
Qed.

Lemma disk_write_history st s buf e st' :
  disk_write st s buf = (e, st') ->
  history st' = history st ++ [EvWrite s buf e] /\
  disk_mounted st' = disk_mounted st /\ superblock st' = superblock st /\
  block_bitmap st' = block_bitmap st.
Proof.
  unfold disk_write, vdisk_write.
  destruct (in_range _ _).
  - destruct (device_fault st) as [x st1] eqn:Ef.
    apply device_fault_frame in Ef. destruct Ef as (F1 & F2 & F3 & F4 & F5 & F6).
    destruct (x =? 0) eqn:Ex; intros H; injection H as <- <-; simpl;
      rewrite F5; repeat split; assumption.
  - intros H. injection H as <- <-. simpl. repeat split.
Qed.

Lemma disk_read_frame st s e b st' :
  disk_read st s = (e, b, st') ->
  history st' = history st /\
  disk_mounted st' = disk_mounted st /\ superblock st' = superblock st /\
  block_bitmap st' = block_bitmap st.
Proof.
  unfold disk_read, vdisk_read.
  destruct (in_range _ _).
  - destruct (device_fault st) as [x st1] eqn:Ef.
    apply device_fault_frame in Ef. destruct Ef as (F1 & F2 & F3 & F4 & F5 & F6).
    destruct (x =? 0); intros H; injection H as <- <- <-; repeat split; assumption.
  - intros H. injection H as <- <- <-. repeat split.
Qed.

Lemma find_free_block_history st b st' :
  disk_mounted st = true -> superblock_ok st ->
  find_free_block st = (b, st') ->
  (b < 0 /\ st' = st) \/
  (0 < b < num_blocks (superblock st) /\
   st' = log (bitmap_set st b 1) (EvAlloc b)).
Proof.
  intros Hm Hsb H. unfold find_free_block in H. rewrite Hm in H. simpl in H.
  destruct (first_data_block_ok st Hsb) as [_ Hfd]. rewrite Hfd in H.
  pose proof Hsb as (H1 & H2 & H3 & H4). unfold INT_MAX in *.
  destruct (first_free st _ _) as [i|] eqn:E.
  - apply first_free_some in E. destruct E as (Hi & _).
    rewrite Z2Nat.id in Hi by lia.
    rewrite to_int_small in H by lia. injection H as <- <-.
    right. split; [lia|reflexivity].
  - injection H as <- <-. left. split; [unfold E_OUT_OF_SPACE; lia|reflexivity].
Qed.

(** The sequence common to the six places that allocate: the block is
    found, zeros are written to it, and on failure it is released. *)
Lemma alloc_zero_history st b st1 e st2 :
  disk_mounted st = true -> superblock_ok st ->
  Z.of_nat (length (block_bitmap st)) = num_blocks (superblock st) ->
  find_free_block st = (b, st1) -> (b <? 0) = false ->
  disk_write st1 b zero_block = (e, st2) ->
  history st2 = history st ++ [EvAlloc b; EvWrite b zero_block e] /\
  disk_mounted st2 = true /\ superblock st2 = superblock st /\
  length (block_bitmap st2) = length (block_bitmap st) /\
  history (free_block st2 b)
    = history st ++ [EvAlloc b; EvWrite b zero_block e; EvRelease b] /\
  bitmap_get (free_block st2 b) b = 0 /\
  disk_mounted (free_block st2 b) = true /\
  superblock (free_block st2 b) = superblock st /\
  length (block_bitmap (free_block st2 b)) = length (block_bitmap st).
Proof.
  intros Hm Hsb Hlen Hf Hb Hw. apply Z.ltb_ge in Hb.
  destruct (find_free_block_history st b st1 Hm Hsb Hf) as [[Hneg _]|[Hr ->]];
    [lia|].
  destruct (disk_write_history _ _ _ _ _ Hw) as (W1 & W2 & W3 & W4).
  simpl in W1, W2, W3, W4.
  assert (Hh2 : history st2 = history st ++ [EvAlloc b; EvWrite b zero_block e]).
  { rewrite W1, <- app_assoc. reflexivity. }
  assert (Hl2 : length (block_bitmap st2) = length (block_bitmap st)).
  { rewrite W4. apply length_insert. }
  pose proof Hsb as (H1 & H2 & H3 & H4). unfold INT_MAX in *.
  rewrite free_block_guard;
    [|congruence|lia|rewrite W3, to_uint32_small by lia; lia].
  split; [exact Hh2|]. split; [congruence|]. split; [exact W3|].
  split; [exact Hl2|]. simpl.
  split; [rewrite Hh2, <- app_assoc; reflexivity|].
  split; [apply (bitmap_get_set_eq st2 b 0); lia|].
  split; [congruence|]. split; [exact W3|].
  rewrite length_insert. exact Hl2.
Qed.

Lemma gbfo_indirect_entry_eq st inode k allocate :
  gbfo_indirect_entry st inode k allocate
  = gbfo_double_data st inode (indirect_block inode) k allocate.
Proof. reflexivity. Qed.

Lemma alloc_outcome_same st r st' :
  history st' = history st -> disk_mounted st' = disk_mounted st ->
  superblock st' = superblock st ->
  length (block_bitmap st') = length (block_bitmap st) ->
  alloc_outcome st r st'.
Proof.
  intros H1 H2 H3 H4. exists []. rewrite app_nil_r.
  split; [exact H1|]. split; [constructor|].
  split; [intros l1 b E; destruct l1; discriminate|].
  repeat split; assumption.
Qed.

Lemma alloc_outcome_failed st r st' l :
  history st' = history st ++ l -> alloc_events r l ->
  (forall l1 b, l = l1 ++ [EvRelease b] -> bitmap_get st' b = 0) ->
  disk_mounted st' = disk_mounted st -> superblock st' = superblock st ->
  length (block_bitmap st') = length (block_bitmap st) ->
  alloc_outcome st r st'.
Proof. intros. exists l. repeat split; assumption. Qed.

Lemma alloc_outcome_after st st1 r st' pre :
  history st1 = history st ++ pre ->
  (forall l, alloc_events r l -> alloc_events r (pre ++ l)) ->
  (forall l1 b, pre <> l1 ++ [EvRelease b]) ->
  disk_mounted st1 = disk_mounted st -> superblock st1 = superblock st ->
  length (block_bitmap st1) = length (block_bitmap st) ->
  alloc_outcome st1 r st' -> alloc_outcome st r st'.
Proof.
  intros Hh Hpre Hlast F1 F2 F3 (l & Hl & Ha & Hrel & G1 & G2 & G3).
  exists (pre ++ l). split; [rewrite Hl, Hh, app_assoc; reflexivity|].
  split; [apply Hpre, Ha|].
  split; [|repeat split; congruence].
  intros l1 b E. clear Hl Ha.
  induction l as [|x l' _] using rev_ind.
  - rewrite app_nil_r in E. exfalso. exact (Hlast _ _ E).
  - rewrite app_assoc in E. apply app_inj_tail in E as [_ ->].
    apply (Hrel l'). reflexivity.
Qed.

Lemma gbfo_double_data_outcome st inode page k r inode' st' :
  disk_mounted st = true -> superblock_ok st ->
  Z.of_nat (length (block_bitmap st)) = num_blocks (superblock st) ->
  gbfo_double_data st inode page k true = (r, inode', st') ->
  alloc_outcome st r st'.
Proof.
  intros Hm Hsb Hlen. unfold gbfo_double_data.
  destruct (disk_read st page) as [[e pg] st1] eqn:Er.
  destruct (disk_read_frame _ _ _ _ _ Er) as (R1 & R2 & R3 & R4).
  destruct (negb (e =? 0)).
  { intros H. injection H as <- <- <-.
    apply alloc_outcome_same; congruence. }
  rewrite andb_true_r.
  destruct (get_u32 pg k =? 0);
    [|intros H; injection H as <- <- <-; apply alloc_outcome_same; congruence].
  assert (Hm1 : disk_mounted st1 = true) by congruence.
  assert (Hsb1 : superblock_ok st1) by (unfold superblock_ok; rewrite R3; exact Hsb).
  assert (Hlen1 : Z.of_nat (length (block_bitmap st1)) = num_blocks (superblock st1))
    by congruence.
  destruct (find_free_block st1) as [b st2] eqn:Ef.
  destruct (b <? 0) eqn:Hb.
  { destruct (find_free_block_history st1 b st2 Hm1 Hsb1 Ef) as [[_ ->]|[Hr _]];
      [|apply Z.ltb_lt in Hb; lia].
    intros H. injection H as <- <- <-. apply alloc_outcome_same; congruence. }
  destruct (disk_write st2 b zero_block) as [e3 st3] eqn:Ew.
  destruct (alloc_zero_history st1 b st2 e3 st3 Hm1 Hsb1 Hlen1 Ef Hb Ew)
    as (A1 & A2 & A3 & A4 & A5 & A6 & A7 & A8 & A9).
  destruct (e3 =? 0) eqn:He3; cbn [negb].
  - apply Z.eqb_eq in He3. subst e3.
    destruct (disk_write (log st3 (EvLink b)) page (set_u32 pg k b))
      as [e4 st4] eqn:Ew4.
    destruct (disk_write_history _ _ _ _ _ Ew4) as (W1 & W2 & W3 & W4).
    simpl in W1, W2, W3, W4.
    assert (Hh4 : history st4 = history st
              ++ [EvAlloc b; EvWrite b zero_block 0; EvLink b;
                  EvWrite page (set_u32 pg k b) e4]).
    { rewrite W1, A1, R1, <- !app_assoc. reflexivity. }
    destruct (e4 =? 0) eqn:He4; cbn [negb].
    + apply Z.eqb_eq in He4. subst e4.
      intros H. injection H as <- <- <-.
      eapply alloc_outcome_failed; [exact Hh4| | |congruence|congruence|congruence].
      * apply alloc_events_stored, alloc_events_nil.
      * intros l1 b' E. destruct l1 as [|? [|? [|? [|? [|]]]]]; discriminate.
    + apply Z.eqb_neq in He4.
      intros H. injection H as <- <- <-.
      pose proof Hsb as (H1 & H2 & H3 & H4). unfold INT_MAX in *.
      assert (Hrange : 0 < b < num_blocks (superblock st)).
      { destruct (find_free_block_history st1 b st2 Hm1 Hsb1 Ef)
          as [[Hneg _]|[Hr _]]; [apply Z.ltb_ge in Hb; lia|].
        rewrite <- R3. exact Hr. }
      rewrite free_block_guard;
        [|congruence|lia|rewrite W3, A3, R3, to_uint32_small by lia; lia].
      eapply alloc_outcome_failed with
        (l := [EvAlloc b; EvWrite b zero_block 0; EvLink b;
               EvWrite page (set_u32 pg k b) e4; EvRelease b]).
      * simpl. rewrite Hh4, <- app_assoc. reflexivity.
      * apply alloc_events_store_failed; [exact He4|reflexivity].
      * intros l1 b' E.
        destruct l1 as [|? [|? [|? [|? [|? [|]]]]]]; try discriminate.
        simpl in E. inversion E; subst.
        apply (bitmap_get_set_eq st4 b' 0). rewrite W4, A4, R4. lia.
      * simpl. congruence.
      * simpl. congruence.
      * simpl. rewrite length_insert. congruence.
  - apply Z.eqb_neq in He3.
    intros H. injection H as <- <- <-.
    eapply alloc_outcome_failed with
      (l := [EvAlloc b; EvWrite b zero_block e3; EvRelease b]).
    + rewrite A5, R1. reflexivity.
    + apply alloc_events_zero_failed; [exact He3|reflexivity].
    + intros l1 b' E. destruct l1 as [|? [|? [|? [|]]]]; try discriminate.
      simpl in E. inversion E; subst. exact A6.
    + congruence.
    + congruence.
    + congruence.
Qed.

Lemma gbfo_double_entry_outcome st inode k r inode' st' :
  disk_mounted st = true -> superblock_ok st ->
  Z.of_nat (length (block_bitmap st)) = num_blocks (superblock st) ->
  gbfo_double_entry st inode k true = (r, inode', st') ->
  alloc_outcome st r st' /\ inode' = inode.
Proof.
  intros Hm Hsb Hlen. unfold gbfo_double_entry.
  assert (Hdata : forall s pg j r inode' st',
            gbfo_double_data s inode pg j true = (r, inode', st') -> inode' = inode).
  { intros s pg j r0 i0 s0. unfold gbfo_double_data.
    repeat
      match goal with
      | |- (_, _, _) = (_, _, _) -> _ =>
          let H := fresh in intros H; injection H as _ <- _; reflexivity
      | |- context [disk_read ?a ?b] => destruct (disk_read a b) as [[? ?] ?]
      | |- context [disk_write ?a ?b ?c] => destruct (disk_write a b c) as [? ?]
      | |- context [find_free_block ?a] => destruct (find_free_block a) as [? ?]
      | |- context [if ?c then _ else _] => destruct c
      end. }
  destruct (disk_read st (double_indirect_block inode)) as [[e pg] st1] eqn:Er.
  destruct (disk_read_frame _ _ _ _ _ Er) as (R1 & R2 & R3 & R4).
  destruct (negb (e =? 0)).
  { intros H. injection H as <- <- <-.
    split; [apply alloc_outcome_same; congruence|reflexivity]. }
  rewrite andb_true_r.
  assert (Hm1 : disk_mounted st1 = true) by congruence.
  assert (Hsb1 : superblock_ok st1) by (unfold superblock_ok; rewrite R3; exact Hsb).
  assert (Hlen1 : Z.of_nat (length (block_bitmap st1)) = num_blocks (superblock st1))
    by congruence.
  destruct (get_u32 pg (Z.quot k POINTERS_PER_BLOCK) =? 0) eqn:Hz.
  2:{ intros H. split; [|exact (Hdata _ _ _ _ _ _ H)].
      apply gbfo_double_data_outcome in H; try assumption.
      eapply alloc_outcome_after with (pre := []); [| | | | | |exact H];
        try congruence.
      - rewrite app_nil_r. exact R1.
      - intros l Hl. exact Hl.
      - intros l1 b E. destruct l1; discriminate. }
  destruct (find_free_block st1) as [b st2] eqn:Ef.
  destruct (b <? 0) eqn:Hb.
  { destruct (find_free_block_history st1 b st2 Hm1 Hsb1 Ef) as [[_ ->]|[Hr _]];
      [|apply Z.ltb_lt in Hb; lia].
    intros H. injection H as <- <- <-.
    split; [apply alloc_outcome_same; congruence|reflexivity]. }
  destruct (disk_write st2 b zero_block) as [e3 st3] eqn:Ew.
  destruct (alloc_zero_history st1 b st2 e3 st3 Hm1 Hsb1 Hlen1 Ef Hb Ew)
    as (A1 & A2 & A3 & A4 & A5 & A6 & A7 & A8 & A9).
  destruct (e3 =? 0) eqn:He3; cbn [negb].
  - apply Z.eqb_eq in He3. subst e3.
    set (pg' := set_u32 pg (Z.quot k POINTERS_PER_BLOCK) b).
    destruct (disk_write (log st3 (EvLink b)) (double_indirect_block inode) pg')
      as [e4 st4] eqn:Ew4.
    destruct (disk_write_history _ _ _ _ _ Ew4) as (W1 & W2 & W3 & W4).
    simpl in W1, W2, W3, W4.
    assert (Hh4 : history st4 = history st
              ++ [EvAlloc b; EvWrite b zero_block 0; EvLink b;
                  EvWrite (double_indirect_block inode) pg' e4]).
    { rewrite W1, A1, R1, <- !app_assoc. reflexivity. }
    destruct (e4 =? 0) eqn:He4; cbn [negb].
    + apply Z.eqb_eq in He4. subst e4.
      intros H. split; [|exact (Hdata _ _ _ _ _ _ H)].
      apply gbfo_double_data_outcome in H; try congruence.
      * eapply alloc_outcome_after; [exact Hh4| | | | | |exact H]; try congruence.
        -- intros l Hl. apply alloc_events_stored, Hl.
        -- intros l1 b' E. destruct l1 as [|? [|? [|? [|? [|]]]]]; discriminate.
      * unfold superblock_ok. rewrite W3, A3, R3. exact Hsb.
    + apply Z.eqb_neq in He4.
      intros H. injection H as <- <- <-. split; [|reflexivity].
      pose proof Hsb as (H1 & H2 & H3 & H4). unfold INT_MAX in *.
      assert (Hrange : 0 < b < num_blocks (superblock st)).
      { destruct (find_free_block_history st1 b st2 Hm1 Hsb1 Ef)
          as [[Hneg _]|[Hr _]]; [apply Z.ltb_ge in Hb; lia|].
        rewrite <- R3. exact Hr. }
      rewrite free_block_guard;
        [|congruence|lia|rewrite W3, A3, R3, to_uint32_small by lia; lia].
      eapply alloc_outcome_failed with
        (l := [EvAlloc b; EvWrite b zero_block 0; EvLink b;
               EvWrite (double_indirect_block inode) pg' e4; EvRelease b]).
      * simpl. rewrite Hh4, <- app_assoc. reflexivity.
      * apply alloc_events_store_failed; [exact He4|reflexivity].
      * intros l1 b' E.
        destruct l1 as [|? [|? [|? [|? [|? [|]]]]]]; try discriminate.
        simpl in E. inversion E; subst.
        apply (bitmap_get_set_eq st4 b' 0). rewrite W4, A4, R4. lia.
      * simpl. congruence.
      * simpl. congruence.
      * simpl. rewrite length_insert. congruence.
  - apply Z.eqb_neq in He3.
    intros H. injection H as <- <- <-. split; [|reflexivity].
    eapply alloc_outcome_failed with
      (l := [EvAlloc b; EvWrite b zero_block e3; EvRelease b]).
    + rewrite A5, R1. reflexivity.
    + apply alloc_events_zero_failed; [exact He3|reflexivity].
    + intros l1 b' E. destruct l1 as [|? [|? [|? [|]]]]; try discriminate.
      simpl in E. inversion E; subst. exact A6.
    + congruence.
    + congruence.
    + congruence.
Qed.

(** The three places that link a fresh block into the inode, with the rest
    of the function as [rest]. *)
Lemma alloc_link_outcome st (inode : inode_t) (link : Z -> inode_t)
    (rest : inode_t -> fs_state -> Z * inode_t * fs_state) r inode' st' :
  disk_mounted st = true -> superblock_ok st ->
  Z.of_nat (length (block_bitmap st)) = num_blocks (superblock st) ->
  (forall b st1 r inode' st',
     disk_mounted st1 = true -> superblock st1 = superblock st ->
     length (block_bitmap st1) = length (block_bitmap st) ->
     rest (link b) st1 = (r, inode', st') ->
     alloc_outcome st1 r st' /\ inode' = link b) ->
  (let '(new_block, st) := find_free_block st in
   if new_block <? 0 then (new_block, inode, st)
   else
     let '(result, st) := disk_write st new_block zero_block in
     if negb (result =? 0) then (result, inode, free_block st new_block)
     else rest (link new_block) (log st (EvLink new_block)))
  = (r, inode', st') ->
  alloc_outcome st r st' /\
  (inode' = inode \/
   exists b l1 l2, history st' = history st ++ l1 ++ EvLink b :: l2 /\
                   inode' = link b).
Proof.
  intros Hm Hsb Hlen Hrest.
  destruct (find_free_block st) as [b st2] eqn:Ef.
  destruct (b <? 0) eqn:Hb.
  { destruct (find_free_block_history st b st2 Hm Hsb Ef) as [[_ ->]|[Hr _]];
      [|apply Z.ltb_lt in Hb; lia].
    intros H. injection H as <- <- <-.
    split; [apply alloc_outcome_same; congruence|left; reflexivity]. }
  destruct (disk_write st2 b zero_block) as [e3 st3] eqn:Ew.
  destruct (alloc_zero_history st b st2 e3 st3 Hm Hsb Hlen Ef Hb Ew)
    as (A1 & A2 & A3 & A4 & A5 & A6 & A7 & A8 & A9).
  destruct (e3 =? 0) eqn:He3; cbn [negb].
  - apply Z.eqb_eq in He3. subst e3.
    intros H. apply Hrest in H; [|exact A2|exact A3|exact A4].
    destruct H as [Hout ->].
    assert (Hh : history (log st3 (EvLink b))
                 = history st ++ [EvAlloc b; EvWrite b zero_block 0; EvLink b]).
    { simpl. rewrite A1, <- app_assoc. reflexivity. }
    split.
    + eapply alloc_outcome_after; [exact Hh| | | | | |exact Hout];
        try (simpl; congruence).
      * intros l Hl. apply alloc_events_linked, Hl.
      * intros l1 b' E. destruct l1 as [|? [|? [|? [|]]]]; discriminate.
    + right. destruct Hout as (l & Hl & _).
      exists b, [EvAlloc b; EvWrite b zero_block 0], l.
      split; [|reflexivity].
      rewrite Hl, Hh, <- !app_assoc. reflexivity.
  - apply Z.eqb_neq in He3.
    intros H. injection H as <- <- <-. split; [|left; reflexivity].
    eapply alloc_outcome_failed with
      (l := [EvAlloc b; EvWrite b zero_block e3; EvRelease b]).
    + exact A5.
    + apply alloc_events_zero_failed; [exact He3|reflexivity].
    + intros l1 b' E. destruct l1 as [|? [|? [|? [|]]]]; try discriminate.
      simpl in E. inversion E; subst. exact A6.
    + congruence.
    + congruence.
    + congruence.
Qed.

Lemma gbfo_outcome st inode offset r inode' st' :
  disk_mounted st = true -> superblock_ok st ->
  Z.of_nat (length (block_bitmap st)) = num_blocks (superblock st) ->
  get_block_for_offset st inode offset true = (r, inode', st') ->
  alloc_outcome st r st' /\
  (inode' = inode \/
   exists b l1 l2,
     history st' = history st ++ l1 ++ EvLink b :: l2 /\
     (inode' = set_direct inode (Z.quot offset BLOCK_SIZE) b \/
      inode' = set_indirect inode b \/
      inode' = set_double_indirect inode b)).
Proof.
  intros Hm Hsb Hlen. unfold get_block_for_offset. rewrite Hm. cbn [negb].
  assert (Hsame : forall r0, (r0, inode, st) = (r, inode', st') ->
            alloc_outcome st r st' /\
            (inode' = inode \/
             exists b l1 l2,
               history st' = history st ++ l1 ++ EvLink b :: l2 /\
               (inode' = set_direct inode (Z.quot offset BLOCK_SIZE) b \/
                inode' = set_indirect inode b \/
                inode' = set_double_indirect inode b))).
  { intros r0 H. injection H as <- <- <-.
    split; [apply alloc_outcome_same; reflexivity|left; reflexivity]. }
  assert (Hentry : forall (link : Z -> inode_t) (b : Z) st1 r inode' st',
            disk_mounted st1 = true -> superblock st1 = superblock st ->
            length (block_bitmap st1) = length (block_bitmap st) ->
            gbfo_indirect_entry st1 (link b) (Z.quot offset BLOCK_SIZE - 4) true
              = (r, inode', st') ->
            alloc_outcome st1 r st' /\ inode' = link b).
  { intros link b st1 r1 i1 s1 M S L H.
    assert (i1 = link b).
    { revert H. unfold gbfo_indirect_entry.
      repeat
        match goal with
        | |- (_, _, _) = (_, _, _) -> _ =>
            let H := fresh in intros H; injection H as _ <- _; reflexivity
        | |- context [disk_read ?a ?b] => destruct (disk_read a b) as [[? ?] ?]
        | |- context [disk_write ?a ?b ?c] => destruct (disk_write a b c) as [? ?]
        | |- context [find_free_block ?a] => destruct (find_free_block a) as [? ?]
        | |- context [if ?c then _ else _] => destruct c
        end. }
    split; [|assumption].
    rewrite gbfo_indirect_entry_eq in H.
    apply gbfo_double_data_outcome in H; [exact H|exact M| |congruence].
    unfold superblock_ok. rewrite S. exact Hsb. }
  assert (Hdouble : forall (link : Z -> inode_t) (b : Z) st1 r inode' st',
            disk_mounted st1 = true -> superblock st1 = superblock st ->
            length (block_bitmap st1) = length (block_bitmap st) ->
            gbfo_double_entry st1 (link b)
              (Z.quot offset BLOCK_SIZE - 4 - POINTERS_PER_BLOCK) true
              = (r, inode', st') ->
            alloc_outcome st1 r st' /\ inode' = link b).
  { intros link b st1 r1 i1 s1 M S L H.
    apply gbfo_double_entry_outcome in H; [exact H|exact M| |congruence].
    unfold superblock_ok. rewrite S. exact Hsb. }
  destruct (offset <? 0); [apply Hsame|].
  destruct (Z.quot offset BLOCK_SIZE <? 4).
  { rewrite andb_true_r.
    destruct (direct inode (Z.quot offset BLOCK_SIZE) =? 0); [|apply Hsame].
    intros H.
    apply (alloc_link_outcome st inode
             (set_direct inode (Z.quot offset BLOCK_SIZE))
             (fun i s => (to_int (direct i (Z.quot offset BLOCK_SIZE)), i, s)))
      in H; try assumption.
    - destruct H as [Ho [->|(b & l1 & l2 & Hh & ->)]];
        (split; [exact Ho|]); [left; reflexivity|].
      right. exists b, l1, l2. split; [exact Hh|left; reflexivity].
    - intros b st1 r1 i1 s1 M S L E. injection E as <- <- <-.
      split; [apply alloc_outcome_same; reflexivity|reflexivity]. }
  destruct (to_uint32 (Z.quot offset BLOCK_SIZE - 4) <? POINTERS_PER_BLOCK).
  { destruct (indirect_block inode =? 0); cbn [negb].
    - intros H.
      apply (alloc_link_outcome st inode (set_indirect inode)
               (fun i s => gbfo_indirect_entry s i
                             (Z.quot offset BLOCK_SIZE - 4) true))
        in H; try assumption.
      + destruct H as [Ho [->|(b & l1 & l2 & Hh & ->)]];
          (split; [exact Ho|]); [left; reflexivity|].
        right. exists b, l1, l2. split; [exact Hh|right; left; reflexivity].
      + intros b st1 r1 i1 s1. apply (Hentry (set_indirect inode)).
    - intros H. destruct (Hentry (fun _ => inode) 0 st r inode' st') as [Ho ->];
        try reflexivity; try assumption.
      split; [exact Ho|left; reflexivity]. }
  destruct (to_uint32 (Z.quot offset BLOCK_SIZE - 4 - POINTERS_PER_BLOCK)
              <? POINTERS_PER_BLOCK * POINTERS_PER_BLOCK); [|apply Hsame].
  destruct (double_indirect_block inode =? 0); cbn [negb].
  - intros H.
    apply (alloc_link_outcome st inode (set_double_indirect inode)
             (fun i s => gbfo_double_entry s i
                           (Z.quot offset BLOCK_SIZE - 4 - POINTERS_PER_BLOCK) true))
      in H; try assumption.
    + destruct H as [Ho [->|(b & l1 & l2 & Hh & ->)]];
        (split; [exact Ho|]); [left; reflexivity|].
      right. exists b, l1, l2. split; [exact Hh|right; right; reflexivity].
    + intros b st1 r1 i1 s1. apply (Hdouble (set_double_indirect inode)).
  - intros H. destruct (Hdouble (fun _ => inode) 0 st r inode' st') as [Ho ->];
      try reflexivity; try assumption.
    split; [exact Ho|left; reflexivity].
Qed.

(** *** Device failures during the call *)

Lemma fault_free_refl st : fault_free st st.
Proof. exists []. split; [reflexivity|constructor]. Qed.

Lemma fault_free_trans st1 st2 st3 :
  fault_free st1 st2 -> fault_free st2 st3 -> fault_free st1 st3.
Proof.
  intros (z1 & E1 & F1) (z2 & E2 & F2). exists (z1 ++ z2).
  split; [rewrite E1, E2, app_assoc; reflexivity|].
  apply Forall_app. split; assumption.
Qed.

Lemma fault_free_same st0 st st' :
  fault_free st0 st -> faults st' = faults st -> fault_free st0 st'.
Proof. intros (zs & E & F) H. exists zs. rewrite H. split; assumption. Qed.

Lemma zeros_split (zs fs zs0 rest : list Z) e :
  Forall (fun e => e = 0) zs -> e <> 0 ->
  zs ++ fs = zs0 ++ e :: rest ->
  exists zs1, zs0 = zs ++ zs1 /\ fs = zs1 ++ e :: rest.
Proof.
  intros Hz He. revert zs0.
  induction zs as [|z zs IH]; intros zs0 E.
  - exists zs0. split; [reflexivity|exact E].
  - apply Forall_cons in Hz as [Hz0 Hz].
    destruct zs0 as [|z0 zs0]; simpl in E; injection E as E0 E.
    + congruence.
    + destruct (IH Hz zs0 E) as (zs1 & -> & ->). exists zs1. subst z0.
      split; reflexivity.
Qed.

Lemma fault_free_run st r st' : fault_free st st' -> fault_run st r st'.
Proof.
  intros (zs & E & F). exists zs. split; [exact E|].
  intros zs0 e rest Ez He. exfalso. apply He.
  rewrite Ez in F. apply Forall_app in F as [_ F].
  apply Forall_cons in F as [F _]. exact F.
Qed.

Lemma fault_free_then_run st0 st r st' :
  fault_free st0 st -> fault_run st r st' -> fault_run st0 r st'.
Proof.
  intros (zs & E & F) (fs & E' & H). exists (zs ++ fs).
  split; [rewrite E, E', app_assoc; reflexivity|].
  intros zs0 e rest Ez He.
  destruct (zeros_split zs fs zs0 rest e F He Ez) as (zs1 & _ & Efs).
  exact (H zs1 e rest Efs He).
Qed.

Lemma fault_run_same st0 r st st' :
  fault_run st0 r st -> faults st' = faults st -> fault_run st0 r st'.
Proof. intros (fs & E & F) H. exists fs. rewrite H. split; assumption. Qed.

Lemma device_fault_run st e st' :
  device_fault st = (e, st') ->
  (e = 0 -> fault_free st st') /\ (e <> 0 -> fault_run st e st').
Proof.
  unfold device_fault. destruct (faults st) as [|x rest] eqn:Ef.
  - intros H; injection H as <- <-.
    split; [intros _; apply fault_free_refl|intros H; congruence].
  - intros H; injection H as <- <-. split.
    + intros ->. exists [0]. cbn. split; [exact Ef|repeat constructor].
    + intros He. exists [x]. cbn. split; [exact Ef|].
      intros zs e rest' Ez _.
      destruct zs as [|z [|? ?]]; simpl in Ez; try discriminate.
      injection Ez as <- <-. split; reflexivity.
Qed.

Lemma disk_read_run st0 st s e b st' :
  fault_free st0 st -> disk_read st s = (e, b, st') ->
  (e = 0 -> fault_free st0 st') /\ (e <> 0 -> fault_run st0 e st').
Proof.
  intros K. unfold disk_read, vdisk_read.
  destruct (in_range _ _).
  - destruct (device_fault st) as [x s1] eqn:Ef.
    apply device_fault_run in Ef. destruct Ef as [F0 F1].
    destruct (Z.eqb_spec x 0) as [-> | Hx]; intros H; injection H as <- <- <-.
    + split; [intros _; exact (fault_free_trans _ _ _ K (F0 eq_refl))|congruence].
    + split; [congruence|].
      intros _. exact (fault_free_then_run _ _ _ _ K (F1 Hx)).
  - intros H; injection H as <- <- <-.
    split; [intros _; exact K|intros _; apply fault_free_run, K].
Qed.

Lemma disk_write_run st0 st s buf e st' :
  fault_free st0 st -> disk_write st s buf = (e, st') ->
  (e = 0 -> fault_free st0 st') /\ (e <> 0 -> fault_run st0 e st').
Proof.
  intros K. unfold disk_write, vdisk_write.
  destruct (in_range _ _).
  - destruct (device_fault st) as [x s1] eqn:Ef.
    apply device_fault_run in Ef. destruct Ef as [F0 F1].
    destruct (Z.eqb_spec x 0) as [-> | Hx]; intros H; injection H as <- <-.
    + split; [intros _; exact (fault_free_trans _ _ _ K (F0 eq_refl))|congruence].
    + split; [congruence|].
      intros _. exact (fault_free_then_run _ _ _ _ K (F1 Hx)).
  - intros H; injection H as <- <-.
    split; [intros _; exact K|intros _; apply fault_free_run, K].
Qed.

Lemma find_free_block_faults st b st' :
  find_free_block st = (b, st') -> faults st' = faults st.
Proof.
  unfold find_free_block. destruct (negb _); [intros H; injection H as _ <-; reflexivity|].
  destruct (first_free _ _ _); intros H; injection H as _ <-; reflexivity.
Qed.

Lemma free_block_faults st b : faults (free_block st b) = faults st.
Proof. unfold free_block. destruct (_ && _)%bool; reflexivity. Qed.

(** One step on each path through the helpers of [get_block_for_offset]:
    a leaf, a device call with its failure branch, a search or a link. *)
Ltac run_walk :=
  repeat match goal with
  | |- _ => progress cbv zeta
  | K : fault_free ?s0 ?s |- (_, _, ?s) = (_, _, _) -> _ =>
      let H := fresh in
      intros H; injection H as <- _ <-; exact (fault_free_run _ _ _ K)
  | K : fault_run ?s0 ?e ?s |- (?e, _, ?s) = (_, _, _) -> _ =>
      let H := fresh in intros H; injection H as <- _ <-; exact K
  | K : fault_run ?s0 ?e ?s |- (?e, _, free_block ?s ?b) = (_, _, _) -> _ =>
      let H := fresh in
      intros H; injection H as <- _ <-;
      exact (fault_run_same _ _ _ _ K (free_block_faults s b))
  | |- (if ?c then _ else _) = _ -> _ => destruct c; cbv iota
  | K : fault_free ?s0 ?s |- context [log ?s ?ev] =>
      change (fault_free s0 (log s ev)) in K
  | K : fault_free ?s0 ?s |- context [disk_read ?s ?x] =>
      let e := fresh "e" in let E := fresh "E" in
      destruct (disk_read s x) as [[e ?] ?] eqn:E;
      apply (disk_read_run _ _ _ _ _ _ K) in E; clear K;
      destruct (e =? 0) eqn:?; cbn [negb];
      [apply proj1 in E; specialize (E ltac:(apply Z.eqb_eq; assumption))
      |apply proj2 in E; specialize (E ltac:(apply Z.eqb_neq; assumption))]
  | K : fault_free ?s0 ?s |- context [disk_write ?s ?x ?y] =>
      let e := fresh "e" in let E := fresh "E" in
      destruct (disk_write s x y) as [e ?] eqn:E;
      apply (disk_write_run _ _ _ _ _ _ K) in E; clear K;
      destruct (e =? 0) eqn:?; cbn [negb];
      [apply proj1 in E; specialize (E ltac:(apply Z.eqb_eq; assumption))
      |apply proj2 in E; specialize (E ltac:(apply Z.eqb_neq; assumption))]
  | K : fault_free ?s0 ?s |- context [find_free_block ?s] =>
      let E := fresh "E" in
      destruct (find_free_block s) as [? ?] eqn:E;
      apply find_free_block_faults in E;
      apply (fault_free_same _ _ _ K) in E; clear K
  end.

Lemma gbfo_double_data_run st0 st inode page k allocate r inode' st' :
  fault_free st0 st ->
  gbfo_double_data st inode page k allocate = (r, inode', st') ->
  fault_run st0 r st'.
Proof. intros K. unfold gbfo_double_data. run_walk. Qed.

Lemma gbfo_double_entry_run st0 st inode k allocate r inode' st' :
  fault_free st0 st ->
  gbfo_double_entry st inode k allocate = (r, inode', st') ->
  fault_run st0 r st'.
Proof.
  intros K. unfold gbfo_double_entry.
  repeat first
    [ match goal with
      | K : fault_free ?s0 ?s
        |- gbfo_double_data ?s _ _ _ _ = _ -> _ =>
          exact (gbfo_double_data_run _ _ _ _ _ _ _ _ _ K)
      end
    | progress run_walk ].
Qed.

(** Whatever the device does, [get_block_for_offset] stops at its first
    failure and returns its code. *)
Lemma gbfo_run st inode offset allocate r inode' st' :
  get_block_for_offset st inode offset allocate = (r, inode', st') ->
  fault_run st r st'.
Proof.
  pose proof (fault_free_refl st) as K. unfold get_block_for_offset.
  repeat first
    [ match goal with
      | K : fault_free ?s0 ?s
        |- gbfo_indirect_entry ?s _ _ _ = _ -> _ =>
          exact (gbfo_double_data_run _ _ _ _ _ _ _ _ _ K)
      | K : fault_free ?s0 ?s
        |- gbfo_double_entry ?s _ _ _ = _ -> _ =>
          exact (gbfo_double_entry_run _ _ _ _ _ _ _ _ K)
      end
    | progress run_walk ].
Qed.

(** *** The marks of the bitmap during the call *)

Lemma marks_kept_refl st : alloc_inv st -> marks_kept st st.
Proof.
  intros Hi. split; [exact Hi|]. exists []. rewrite app_nil_r.
  split; [reflexivity|]. split; [intros x []|]. intros x _ [H|[]] _. exact H.
Qed.

Lemma marks_kept_trans st1 st2 st3 :
  marks_kept st1 st2 -> marks_kept st2 st3 -> marks_kept st1 st3.
Proof.
  intros (_ & l1 & E1 & P1 & H1) (I3 & l2 & E2 & P2 & H2). split; [exact I3|].
  exists (l1 ++ l2). split; [rewrite E2, E1, app_assoc; reflexivity|].
  split; [intros x Hin; apply in_app_or in Hin as [Hin|Hin]; auto|].
  intros x Hx Hm Hr. apply (H2 x Hx).
  - destruct Hm as [Hm|Ha].
    + left. apply (H1 x Hx); [left; exact Hm|].
      intros Hin. apply Hr, in_or_app. left. exact Hin.
    + apply in_app_or in Ha as [Ha|Ha]; [left|right; exact Ha].
      apply (H1 x Hx); [right; exact Ha|].
      intros Hin. apply Hr, in_or_app. left. exact Hin.
  - intros Hin. apply Hr, in_or_app. right. exact Hin.
Qed.

(** A step that keeps the bitmap and adds no allocation. *)
Lemma marks_kept_step st st' l :
  alloc_inv st ->
  history st' = history st ++ l ->
  disk_mounted st' = disk_mounted st -> superblock st' = superblock st ->
  block_bitmap st' = block_bitmap st ->
  (forall x, ~ In (EvAlloc x) l) ->
  marks_kept st st'.
Proof.
  intros (I1 & I2 & I3) Hh Hm Hs Hb Hn. split.
  - split; [congruence|]. split; [unfold superblock_ok; rewrite Hs; exact I2|].
    congruence.
  - exists l. split; [exact Hh|]. split; [intros x H; destruct (Hn x H)|].
    intros x _ [H|H] _; [|destruct (Hn x H)].
    unfold bitmap_get in *. rewrite Hb. exact H.
Qed.

Lemma marks_kept_read st0 st s e b st' :
  marks_kept st0 st -> disk_read st s = (e, b, st') -> marks_kept st0 st'.
Proof.
  intros K E. apply (marks_kept_trans _ _ _ K).
  destruct (disk_read_frame _ _ _ _ _ E) as (R1 & R2 & R3 & R4).
  apply (marks_kept_step st st' []); try assumption; [apply K| |intros x []].
  rewrite app_nil_r. exact R1.
Qed.

Lemma marks_kept_write st0 st s buf e st' :
  marks_kept st0 st -> disk_write st s buf = (e, st') -> marks_kept st0 st'.
Proof.
  intros K E. apply (marks_kept_trans _ _ _ K).
  destruct (disk_write_history _ _ _ _ _ E) as (W1 & W2 & W3 & W4).
  apply (marks_kept_step st st' [EvWrite s buf e]); try assumption; [apply K|].
  intros x [H|[]]. discriminate H.
Qed.

Lemma marks_kept_link st0 st b :
  marks_kept st0 st -> marks_kept st0 (log st (EvLink b)).
Proof.
  intros K. apply (marks_kept_trans _ _ _ K).
  apply (marks_kept_step st (log st (EvLink b)) [EvLink b]);
    try reflexivity; [apply K|].
  intros x [H|[]]. discriminate H.
Qed.

Lemma marks_kept_find st0 st b st' :
  marks_kept st0 st -> find_free_block st = (b, st') -> marks_kept st0 st'.
Proof.
  intros K E. apply (marks_kept_trans _ _ _ K).
  destruct K as ((I1 & I2 & I3) & _).
  destruct (find_free_block_history st b st' I1 I2 E) as [[_ ->]|[Hr ->]].
  - apply marks_kept_refl. exact (conj I1 (conj I2 I3)).
  - split.
    + split; [exact I1|]. split; [exact I2|].
      cbn. rewrite length_insert. exact I3.
    + exists [EvAlloc b]. split; [reflexivity|].
      split; [intros x [H|[]]; injection H as <-; lia|].
      intros x Hx Hm _.
      change (bitmap_get (log (bitmap_set st b 1) (EvAlloc b)) x)
        with (bitmap_get (bitmap_set st b 1) x).
      destruct (Z.eq_dec x b) as [-> | Hne].
      * apply bitmap_get_set_eq. lia.
      * rewrite bitmap_get_set_ne by lia.
        destruct Hm as [Hm|[Ha|[]]]; [exact Hm|congruence].
Qed.

Lemma marks_kept_free st0 st b :
  marks_kept st0 st -> marks_kept st0 (free_block st b).
Proof.
  intros K. apply (marks_kept_trans _ _ _ K).
  destruct K as ((I1 & I2 & I3) & _).
  unfold free_block. destruct (_ && _)%bool eqn:Eg.
  - apply andb_prop in Eg as [Eg _]. apply andb_prop in Eg as [_ Eb].
    apply Z.ltb_lt in Eb. split.
    + split; [exact I1|]. split; [exact I2|].
      cbn. rewrite length_insert. exact I3.
    + exists [EvRelease b]. split; [reflexivity|].
      split; [intros x [H|[]]; discriminate H|].
      intros x Hx Hm Hr.
      change (bitmap_get (log (bitmap_set st b 0) (EvRelease b)) x)
        with (bitmap_get (bitmap_set st b 0) x).
      assert (Hne : x <> b) by (intros ->; apply Hr; left; reflexivity).
      rewrite bitmap_get_set_ne by lia.
      destruct Hm as [Hm|[Ha|[]]]; [exact Hm|discriminate Ha].
  - apply marks_kept_refl. exact (conj I1 (conj I2 I3)).
Qed.

Ltac marks_walk :=
  repeat match goal with
  | |- _ => progress cbv zeta
  | K : marks_kept ?s0 ?s |- (_, _, ?s) = (_, _, _) -> _ =>
      let H := fresh in intros H; injection H as _ _ <-; exact K
  | K : marks_kept ?s0 ?s |- (_, _, free_block ?s ?b) = (_, _, _) -> _ =>
      let H := fresh in
      intros H; injection H as _ _ <-; exact (marks_kept_free _ _ b K)
  | |- (if ?c then _ else _) = _ -> _ => destruct c; cbv iota
  | K : marks_kept ?s0 ?s |- context [log ?s (EvLink ?b)] =>
      apply (marks_kept_link _ _ b) in K
  | K : marks_kept ?s0 ?s |- context [disk_read ?s ?x] =>
      let E := fresh "E" in
      destruct (disk_read s x) as [[? ?] ?] eqn:E;
      apply (marks_kept_read _ _ _ _ _ _ K) in E; clear K
  | K : marks_kept ?s0 ?s |- context [disk_write ?s ?x ?y] =>
      let E := fresh "E" in
      destruct (disk_write s x y) as [? ?] eqn:E;
      apply (marks_kept_write _ _ _ _ _ _ K) in E; clear K
  | K : marks_kept ?s0 ?s |- context [find_free_block ?s] =>
      let E := fresh "E" in
      destruct (find_free_block s) as [? ?] eqn:E;
      apply (marks_kept_find _ _ _ _ K) in E; clear K
  end.

Lemma gbfo_double_data_marks st0 st inode page k allocate r inode' st' :
  marks_kept st0 st ->
  gbfo_double_data st inode page k allocate = (r, inode', st') ->
  marks_kept st0 st'.
Proof. intros K. unfold gbfo_double_data. marks_walk. Qed.

Lemma gbfo_double_entry_marks st0 st inode k allocate r inode' st' :
  marks_kept st0 st ->
  gbfo_double_entry st inode k allocate = (r, inode', st') ->
  marks_kept st0 st'.
Proof.
  intros K. unfold gbfo_double_entry.
  repeat first
    [ match goal with
      | K : marks_kept ?s0 ?s
        |- gbfo_double_data ?s _ _ _ _ = _ -> _ =>
          exact (gbfo_double_data_marks _ _ _ _ _ _ _ _ _ K)
      end
    | progress marks_walk ].
Qed.

(** Whatever the device does, a block that [get_block_for_offset] has
    allocated and not released is marked when the call returns. *)
Lemma gbfo_marks st inode offset allocate r inode' st' :
  alloc_inv st ->
  get_block_for_offset st inode offset allocate = (r, inode', st') ->
  marks_kept st st'.
Proof.
  intros Hi. pose proof (marks_kept_refl st Hi) as K.
  unfold get_block_for_offset.
  repeat first
    [ match goal with
      | K : marks_kept ?s0 ?s
        |- gbfo_indirect_entry ?s _ _ _ = _ -> _ =>
          exact (gbfo_double_data_marks _ _ _ _ _ _ _ _ _ K)
      | K : marks_kept ?s0 ?s
        |- gbfo_double_entry ?s _ _ _ = _ -> _ =>
          exact (gbfo_double_entry_marks _ _ _ _ _ _ _ _ K)
      end
    | progress marks_walk ].
Qed.

(** A block is released only right after a device write has failed. *)
Lemma alloc_events_release r l :
  alloc_events r l ->
  forall l1 b l2, l = l1 ++ EvRelease b :: l2 ->
  l2 = [] /\ exists l0 s buf e, l1 = l0 ++ [EvWrite s buf e] /\ e <> 0.
Proof.
  induction 1 as [|b0 l H IH|b0 s0 pg k l H IH|b0 e0 He Hr|b0 s0 pg k e0 He Hr];
    intros l1 b l2 E.
  - destruct l1; discriminate.
  - destruct l1 as [|x1 [|x2 [|x3 l1]]]; simpl in E; inversion E; subst.
    destruct (IH _ _ _ eq_refl) as (-> & l0 & s & buf & e & -> & He).
    split; [reflexivity|]. eexists (_ :: _ :: _ :: l0), s, buf, e.
    split; [reflexivity|exact He].
  - destruct l1 as [|x1 [|x2 [|x3 [|x4 l1]]]]; simpl in E; inversion E; subst.
    destruct (IH _ _ _ eq_refl) as (-> & l0 & s & buf & e & -> & He).
    split; [reflexivity|]. eexists (_ :: _ :: _ :: _ :: l0), s, buf, e.
    split; [reflexivity|exact He].
  - destruct l1 as [|x1 [|x2 [|x3 [|]]]]; simpl in E; inversion E; subst.
    split; [reflexivity|]. eexists [_], _, _, _. split; [reflexivity|exact He].
  - destruct l1 as [|x1 [|x2 [|x3 [|x4 [|x5 [|]]]]]]; simpl in E; inversion E;
      subst.
    split; [reflexivity|]. eexists [_; _; _], _, _, _.
    split; [reflexivity|exact He].
Qed.

(** C5, with the release tied to the device writes: a call of
    [get_block_for_offset] with [allocate = true] adds the events [l] to the
    history, and
    - every link of a block [b] (into the inode or into a page) comes
      directly after the allocation of [b] and the successful write of zeros
      to [b];
    - every successful device write of the call is that zeroing, or the
      write-back of a page into which the block just zeroed has been linked;
    - a device write that fails is the last one, the block allocated last
      is released right after it (its bitmap entry is 0 on return) and the
      device's error is the result;
    - a block is released only there, right after a device write that has
      failed;
    - a block that the call has allocated and not released is marked in the
      bitmap on return;
    - the call stops at the first failure of the device, be it a write or
      the read of a page, and returns its code: of the entries of the fault
      schedule it has used up only the last can be different from 0, and
      then it is the result;
    - if the inode is changed, one of its six slots has received a block
      that the history records as linked. *)
Theorem gbfo_allocation_order (st st' : fs_state) (inode inode' : inode_t)
    (offset r : Z) :
  disk_mounted st = true ->
  superblock_ok st ->
  Z.of_nat (length (block_bitmap st)) = num_blocks (superblock st) ->
  get_block_for_offset st inode offset true = (r, inode', st') ->
  exists l,
    history st' = history st ++ l /\
    (forall l1 b l2, l = l1 ++ EvLink b :: l2 ->
       exists l0, l1 = l0 ++ [EvAlloc b; EvWrite b zero_block 0]) /\
    (forall l1 s buf l2, l = l1 ++ EvWrite s buf 0 :: l2 ->
       (buf = zero_block /\ exists l0, l1 = l0 ++ [EvAlloc s]) \/
       (exists l0 b pg k,
          buf = set_u32 pg k b /\
          l1 = l0 ++ [EvAlloc b; EvWrite b zero_block 0; EvLink b])) /\
    (forall l1 s buf e l2, l = l1 ++ EvWrite s buf e :: l2 -> e <> 0 ->
       r = e /\
       exists b l0 l0',
         l1 = l0 ++ EvAlloc b :: l0' /\
         Forall (fun ev => ~ is_alloc ev) l0' /\
         l2 = [EvRelease b] /\
         bitmap_get st' b = 0) /\
    (forall l1 b l2, l = l1 ++ EvRelease b :: l2 ->
       l2 = [] /\ exists l0 s buf e, l1 = l0 ++ [EvWrite s buf e] /\ e <> 0) /\
    (forall b, In (EvAlloc b) l -> ~ In (EvRelease b) l ->
       bitmap_get st' b = 1) /\
    (exists fs,
       faults st = fs ++ faults st' /\
       forall zs e rest, fs = zs ++ e :: rest -> e <> 0 ->
         rest = [] /\ r = e) /\
    (inode' = inode \/
     exists b l1 l2,
       l = l1 ++ EvLink b :: l2 /\
       (inode' = set_direct inode (Z.quot offset BLOCK_SIZE) b \/
        inode' = set_indirect inode b \/
        inode' = set_double_indirect inode b)).
Proof.
  intros Hm Hsb Hlen H.
  destruct (gbfo_outcome _ _ _ _ _ _ Hm Hsb Hlen H)
    as [(l & Hl & Ha & Hrel & _) Hino].
  exists l. split; [exact Hl|].
  split; [exact (alloc_events_link r l Ha)|].
  split; [exact (alloc_events_write r l Ha)|].
  split.
  { intros l1 s buf e l2 E Hne.
    destruct (alloc_events_failed_write r l Ha _ _ _ _ _ E Hne)
      as (Hr & b & l0 & l0' & E1 & Hn & E2).
    split; [exact Hr|]. exists b, l0, l0'.
    repeat split; try assumption.
    apply (Hrel (l1 ++ [EvWrite s buf e])). rewrite E, E2, <- app_assoc.
    reflexivity. }
  split; [exact (alloc_events_release r l Ha)|].
  split.
  { destruct (gbfo_marks _ _ _ _ _ _ _ (conj Hm (conj Hsb Hlen)) H)
      as (_ & l' & Hl' & Hpos & Hk).
    rewrite Hl in Hl'. apply app_inv_head in Hl'. subst l'.
    intros b Hb Hnr. apply Hk; [specialize (Hpos b Hb); lia|right; exact Hb|exact Hnr]. }
  split; [exact (gbfo_run _ _ _ _ _ _ _ H)|].
  - destruct Hino as [->|(b & l1 & l2 & Hh & Hi)]; [left; reflexivity|].
    right. exists b, l1, l2. split; [|exact Hi].
    rewrite Hl in Hh. apply app_inv_head in Hh. exact Hh.
Qed.

Lemma gbfo_allocation_order_witness :
  exists l,
    history (snd (get_block_for_offset example_file (inode_at example_file 0)
                    4096 true))
    = history example_file ++ l.
Proof.
  set (g := get_block_for_offset example_file (inode_at example_file 0) 4096 true).
  destruct (gbfo_allocation_order example_file (snd g)
              (inode_at example_file 0) (snd (fst g)) 4096 (fst (fst g)))
    as (l & Hl & _).
  - by_eval.
  - unfold superblock_ok. repeat split; by_eval.
  - by_eval.
  - unfold g. destruct (get_block_for_offset _ _ _ _) as [[? ?] ?]. reflexivity.
  - exists l. exact Hl.
Defined.

(** C5, as stated, fails when the device error is that of a read: in
    [example_page_read_fails] the call at offset 4096 allocates block 2 for
    the indirect page, zeroes it and links it into the inode; the read of
    that page then fails with -7, which is returned, and block 2 is not
    released: its bitmap entry, 0 before the call, is 1 after it. *)
Lemma gbfo_read_error_keeps_block :
  disk_mounted example_page_read_fails = true /\
  faults example_page_read_fails = [0; -7] /\
  bitmap_get example_page_read_fails 2 = 0 /\
  fst (fst (get_block_for_offset example_page_read_fails
              (inode_at example_page_read_fails 0) 4096 true)) = -7 /\
  history (snd (get_block_for_offset example_page_read_fails
                  (inode_at example_page_read_fails 0) 4096 true))
  = history example_page_read_fails
    ++ [EvAlloc 2; EvWrite 2 zero_block 0; EvLink 2] /\
  bitmap_get (snd (get_block_for_offset example_page_read_fails
                     (inode_at example_page_read_fails 0) 4096 true)) 2 = 1.
Proof. repeat split; by_eval. Qed.

(** ** The block map *)

Lemma page_slot_ok s : page_slot s -> slot_ok s.
Proof.
  destruct s as [[k| |]|[[k| |]|sp j] j']; simpl; tauto.
Qed.

Lemma direct_range inode k : inode_ok inode -> 0 <= direct inode k < 2 ^ 32.
Proof.
  intros (_ & _ & Hd & _). unfold direct.
  destruct (decide (Z.to_nat k < length (direct_blocks inode))%nat) as [Hl|Hl].
  - revert Hl. apply (proj1 (Forall_nth _ 0 _) Hd).
  - rewrite nth_overflow by lia. lia.
Qed.

Lemma entry_range st p k : 0 <= entry st p k < 2 ^ 32.
Proof. unfold entry. destruct (p =? 0); [lia|apply get_u32_range]. Qed.

Lemma ptr_range st inode s : inode_ok inode -> 0 <= ptr st inode s < 2 ^ 32.
Proof.
  intros Hok. destruct s as [[k| |]|sp k]; simpl;
    [apply direct_range, Hok|apply Hok|apply Hok|apply entry_range].
Qed.

Lemma ptr_int st inode s :
  mounted_ok st -> tree_ok st inode -> slot_ok s ->
  to_int (ptr st inode s) = ptr st inode s /\
  0 <= ptr st inode s < num_blocks (superblock st).
Proof.
  intros (_ & (H1 & H2 & H3 & H4) & _) (Hok & Hin & _) Hs.
  unfold INT_MAX in *.
  pose proof (ptr_range st inode s Hok) as Hr.
  destruct (Z.eq_dec (ptr st inode s) 0) as [E|E].
  - rewrite E. split; [reflexivity|lia].
  - destruct (Hin s Hs E) as [Hb _]. split; [apply to_int_small; lia|lia].
Qed.

Lemma ptr_frame st st' inode :
  (forall s, page_slot s -> ptr st inode s <> 0 ->
     blk st' (ptr st inode s) = blk st (ptr st inode s)) ->
  forall s, slot_ok s -> ptr st' inode s = ptr st inode s.
Proof.
  intros Hpages. induction s as [f|sp IH k]; intros Hs; [reflexivity|].
  destruct Hs as [Hp Hk]. simpl. rewrite (IH (page_slot_ok sp Hp)).
  unfold entry. destruct (ptr st inode sp =? 0) eqn:E; [reflexivity|].
  apply Z.eqb_neq in E. rewrite (Hpages sp Hp E). reflexivity.
Qed.

Lemma tree_ok_frame st st' inode :
  tree_ok st inode -> superblock st' = superblock st ->
  (forall j, bitmap_get st j <> 0 -> bitmap_get st' j <> 0) ->
  (forall s, slot_ok s -> ptr st' inode s = ptr st inode s) ->
  tree_ok st' inode.
Proof.
  intros (Hok & Hin & Hinj) Hsb Hbm Hptr. split; [exact Hok|]. split.
  - intros s Hs. rewrite (Hptr s Hs), Hsb. intros Hnz.
    destruct (Hin s Hs Hnz) as [Hr Hu]. split; [exact Hr|apply Hbm, Hu].
  - intros s1 s2 H1 H2. rewrite (Hptr s1 H1), (Hptr s2 H2). apply Hinj; assumption.
Qed.

(** A block of the tree that is a page is not a data block of the tree. *)
Lemma page_not_data st inode sp sd :
  tree_ok st inode -> page_slot sp -> slot_ok sd -> ~ page_slot sd ->
  ptr st inode sp <> 0 -> ptr st inode sp <> ptr st inode sd.
Proof.
  intros (_ & _ & Hinj) Hp Hd Hnp Hnz E.
  apply Hnp. rewrite <- (Hinj sp sd (page_slot_ok sp Hp) Hd Hnz E). exact Hp.
Qed.

Lemma slot_of_ok k : 0 <= k < MAX_BLOCKS -> slot_ok (slot_of k) /\ ~ page_slot (slot_of k).
Proof.
  unfold MAX_BLOCKS, slot_of. change POINTERS_PER_BLOCK with 256. intros Hk.
  destruct (k <? 4) eqn:E1; [apply Z.ltb_lt in E1|apply Z.ltb_ge in E1].
  - simpl. split; [lia|tauto].
  - destruct (k - 4 <? 256) eqn:E2; [apply Z.ltb_lt in E2|apply Z.ltb_ge in E2].
    + simpl. change POINTERS_PER_BLOCK with 256. split; [split; [tauto|lia]|tauto].
    + simpl. change POINTERS_PER_BLOCK with 256.
      pose proof (Z.mod_pos_bound (k - 4 - 256) 256).
      assert (0 <= (k - 4 - 256) / 256 < 256).
      { split; [apply Z.div_pos; lia|apply Z.div_lt_upper_bound; lia]. }
      split; [split; [lia|lia]|tauto].
Qed.

Lemma slot_of_inj k1 k2 :
  0 <= k1 < MAX_BLOCKS -> 0 <= k2 < MAX_BLOCKS -> slot_of k1 = slot_of k2 -> k1 = k2.
Proof.
  unfold MAX_BLOCKS, slot_of. change POINTERS_PER_BLOCK with 256. intros H1 H2.
  destruct (k1 <? 4) eqn:A1; destruct (k2 <? 4) eqn:A2;
    destruct (k1 - 4 <? 256) eqn:B1; destruct (k2 - 4 <? 256) eqn:B2;
    intros E; inversion E; try lia.
  pose proof (Z.div_mod (k1 - 4 - 256) 256).
  pose proof (Z.div_mod (k2 - 4 - 256) 256). lia.
Qed.

Lemma disk_index off :
  0 <= off < addressable_max ->
  Z.quot off BLOCK_SIZE = off / BLOCK_SIZE /\
  Z.rem off BLOCK_SIZE = off mod BLOCK_SIZE /\
  0 <= off / BLOCK_SIZE < MAX_BLOCKS /\
  0 <= off mod BLOCK_SIZE < BLOCK_SIZE.
Proof.
  unfold addressable_max, MAX_BLOCKS. change POINTERS_PER_BLOCK with 256.
  change BLOCK_SIZE with 1024. intros H.
  rewrite Z.quot_div_nonneg, Z.rem_mod_nonneg by lia.
  split; [reflexivity|]. split; [reflexivity|].
  split; [|apply Z.mod_pos_bound; lia].
  split; [apply Z.div_pos; lia|apply Z.div_lt_upper_bound; lia].
Qed.

Lemma gbfo_lookup st inode off :
  session_ok st inode -> 0 <= off < addressable_max ->
  get_block_for_offset st inode off false
  = (bmap st inode (off / BLOCK_SIZE), inode, st).
Proof.
  intros (Hm & Hh & Ht) Hoff.
  destruct (disk_index off Hoff) as (Hq & _ & Hk & _).
  pose proof Hm as (Hmt & Hsb & _).
  unfold get_block_for_offset. rewrite Hmt, Hq. cbn [negb].
  replace (off <? 0) with false by (symmetry; apply Z.ltb_ge; lia).
  set (k := off / BLOCK_SIZE) in *.
  destruct (slot_of_ok k Hk) as [Hsk _].
  destruct (ptr_int st inode (slot_of k) Hm Ht Hsk) as [Hint _].
  unfold bmap. revert Hsk Hint. unfold slot_of, MAX_BLOCKS in *.
  change POINTERS_PER_BLOCK with 256 in *.
  destruct (k <? 4) eqn:E1; [apply Z.ltb_lt in E1|apply Z.ltb_ge in E1].
  { intros _ Hint. simpl in Hint. rewrite andb_false_r, Hint. reflexivity. }
  rewrite (to_uint32_small (k - 4)) by lia.
  destruct (k - 4 <? 256) eqn:E2; [apply Z.ltb_lt in E2|apply Z.ltb_ge in E2].
  { intros Hsk Hint. cbn [ptr get_field] in *. unfold entry in *.
    destruct (indirect_block inode =? 0) eqn:Ei; [reflexivity|].
    apply Z.eqb_neq in Ei. unfold gbfo_indirect_entry.
    destruct (ptr_int st inode (Top FInd) Hm Ht I) as [_ Hr].
    rewrite disk_read_ok by (try assumption; exact Hr).
    cbn [negb Z.eqb]. rewrite andb_false_r, Hint. reflexivity. }
  rewrite (to_uint32_small (k - 4 - 256)) by lia.
  replace (k - 4 - 256 <? 256 * 256) with true by (symmetry; apply Z.ltb_lt; lia).
  intros Hsk Hint. cbn [ptr get_field] in *.
  set (j := (k - 4 - 256) / 256) in *. set (e := (k - 4 - 256) mod 256) in *.
  destruct (double_indirect_block inode =? 0) eqn:Ed.
  { unfold entry. rewrite Ed. reflexivity. }
  apply Z.eqb_neq in Ed. unfold gbfo_double_entry.
  destruct (ptr_int st inode (Top FDbl) Hm Ht I) as [_ Hr].
  rewrite disk_read_ok by (try assumption; exact Hr).
  cbn [negb Z.eqb]. rewrite andb_false_r.
  change POINTERS_PER_BLOCK with 256.
  rewrite Z.quot_div_nonneg, Z.rem_mod_nonneg by lia. fold j e.
  assert (Hj : entry st (double_indirect_block inode) j
               = get_u32 (blk st (double_indirect_block inode)) j).
  { unfold entry. apply Z.eqb_neq in Ed. rewrite Ed. reflexivity. }
  rewrite Hj in *.
  destruct (get_u32 (blk st (double_indirect_block inode)) j =? 0) eqn:Ej.
  { apply Z.eqb_eq in Ej. rewrite Ej. reflexivity. }
  apply Z.eqb_neq in Ej. unfold gbfo_double_data.
  destruct Hsk as [Hpj _].
  destruct (ptr_int st inode (Child (Top FDbl) j) Hm Ht (page_slot_ok _ Hpj))
    as [_ Hrj].
  cbn [ptr get_field] in Hrj. rewrite Hj in Hrj.
  rewrite disk_read_ok by (try assumption; exact Hrj).
  cbn [negb Z.eqb]. rewrite andb_false_r.
  unfold entry in Hint |- *. apply Z.eqb_neq in Ej. rewrite Ej in *.
  rewrite Hint. reflexivity.
Qed.

(** ** Installing a fresh block in a slot *)

Lemma slot_neq_child s k : Child s k <> s.
Proof.
  revert k. induction s as [f|sp IH j]; intros k E; [discriminate|].
  injection E as E1 E2. exact (IH _ E1).
Qed.

Lemma install_ptr st inode st' inode' s0 b :
  tree_ok st inode -> slot_ok s0 -> ptr st inode s0 = 0 ->
  home st inode s0 <> 0 ->
  bitmap_get st b = 0 -> 0 < b ->
  (forall f, slot_ok (Top f) ->
     get_field inode' f = if decide (Top f = s0) then b else get_field inode f) ->
  (forall k, entry st' b k = 0) ->
  (forall p k, 0 <= k < POINTERS_PER_BLOCK -> 0 <= p -> p <> b ->
     entry st' p k =
       if (p =? home st inode s0) && (k =? child_index s0) then b
       else entry st p k) ->
  forall s, slot_ok s ->
    ptr st' inode' s = if decide (s = s0) then b else ptr st inode s.
Proof.
  intros Ht Hs0 Hz Hhome Hfree Hb Hfields Hzero Hentries.
  pose proof Ht as (Hok & Hin & Hinj).
  induction s as [f|sp IH k]; intros Hs; [apply Hfields, Hs|].
  destruct Hs as [Hp Hk]. pose proof (page_slot_ok sp Hp) as Hsp.
  cbn [ptr]. rewrite (IH Hsp).
  destruct (decide (sp = s0)) as [->|Hne].
  - rewrite Hzero. destruct (decide (Child s0 k = s0)) as [E|_];
      [exfalso; exact (slot_neq_child _ _ E)|].
    cbn [ptr]. rewrite Hz. reflexivity.
  - pose proof (ptr_range st inode sp Hok) as Hr.
    destruct (Z.eq_dec (ptr st inode sp) 0) as [E0|Hnz].
    + rewrite E0. rewrite Hentries by (try assumption; lia).
      replace (0 =? home st inode s0) with false
        by (symmetry; apply Z.eqb_neq; congruence).
      cbn [andb]. destruct (decide (Child sp k = s0)) as [E|_]; [|reflexivity].
      exfalso. subst s0. cbn [home] in Hhome. congruence.
    + assert (Hpb : ptr st inode sp <> b).
      { intros E. destruct (Hin sp Hsp Hnz) as [_ Hu]. rewrite E in Hu. congruence. }
      rewrite Hentries by (try assumption; lia).
      destruct ((ptr st inode sp =? home st inode s0) && (k =? child_index s0))
        eqn:Ec.
      * apply andb_true_iff in Ec as [E1 E2].
        apply Z.eqb_eq in E1, E2.
        destruct s0 as [f0|sp0 k0]; cbn [home child_index] in E1, E2; [lia|].
        destruct Hs0 as [Hp0 _].
        assert (sp = sp0) by (apply Hinj; try assumption; apply page_slot_ok, Hp0).
        subst. destruct (decide (Child sp0 k0 = Child sp0 k0)); congruence.
      * destruct (decide (Child sp k = s0)) as [E|_]; [|reflexivity].
        exfalso. subst s0. cbn [home child_index] in Ec.
        rewrite !Z.eqb_refl in Ec. discriminate.
Qed.

Lemma install_session st inode st' inode' s0 b :
  session_ok st inode -> slot_ok s0 -> ptr st inode s0 = 0 ->
  home st inode s0 <> 0 ->
  num_inode_blocks (superblock st) < b < num_blocks (superblock st) ->
  bitmap_get st b = 0 ->
  mounted_ok st' -> healthy st' -> superblock st' = superblock st ->
  inode_ok inode' -> size inode' = size inode -> valid inode' = valid inode ->
  bitmap_get st' b <> 0 ->
  (forall j, bitmap_get st j <> 0 -> bitmap_get st' j <> 0) ->
  (forall s, slot_ok s ->
     ptr st' inode' s = if decide (s = s0) then b else ptr st inode s) ->
  (forall x, 0 <= x -> x <> b -> x <> home st inode s0 -> blk st' x = blk st x) ->
  extends st inode st' inode' /\ ptr st' inode' s0 = b.
Proof.
  intros (Hm & Hh & Ht) Hs0 Hz Hhome Hb Hfree Hm' Hh' Hsb Hok' Hsize Hvalid
    Hused Hmono Hptr Hblk.
  pose proof Ht as (Hok & Hin & Hinj).
  pose proof Hm as (_ & (S1 & S2 & S3 & S4) & _).
  assert (Hold : forall s, slot_ok s -> ptr st inode s <> 0 ->
                   ptr st' inode' s = ptr st inode s /\ ptr st inode s <> b).
  { intros s Hs Hnz. rewrite (Hptr s Hs).
    destruct (decide (s = s0)) as [->|_]; [congruence|].
    split; [reflexivity|]. intros E.
    destruct (Hin s Hs Hnz) as [_ Hu]. rewrite E in Hu. congruence. }
  assert (Ht' : tree_ok st' inode').
  { split; [exact Hok'|]. split.
    - intros s Hs. rewrite (Hptr s Hs), Hsb.
      destruct (decide (s = s0)) as [->|_]; [intros _; split; [exact Hb|exact Hused]|].
      intros Hnz. destruct (Hin s Hs Hnz) as [Hr Hu].
      split; [exact Hr|apply Hmono, Hu].
    - intros s1 s2 H1 H2. rewrite (Hptr s1 H1), (Hptr s2 H2).
      destruct (decide (s1 = s0)) as [->|N1]; destruct (decide (s2 = s0)) as [->|N2];
        intros Hnz E; try reflexivity.
      + exfalso. destruct (Hin s2 H2) as [_ Hu]; [congruence|].
        rewrite <- E in Hu. congruence.
      + exfalso. destruct (Hin s1 H1 Hnz) as [_ Hu]. rewrite E in Hu. congruence.
      + apply Hinj; assumption. }
  split; [|rewrite (Hptr s0 Hs0); destruct (decide (s0 = s0)); congruence].
  split; [split; [exact Hm'|split; [exact Hh'|exact Ht']]|].
  split; [exact Hsb|]. split; [exact Hsize|]. split; [exact Hvalid|].
  split; [intros s Hs Hnz; apply (Hold s Hs Hnz)|]. split.
  - intros s Hs Hnp Hnz. destruct (Hold s Hs Hnz) as [_ Hne].
    pose proof (ptr_range st inode s Hok) as Hr.
    apply Hblk; [lia|exact Hne|].
    destruct s0 as [f0|sp0 k0]; cbn [home] in *; [lia|].
    destruct Hs0 as [Hp0 _]. intros E. symmetry in E. revert E.
    apply (page_not_data st inode sp0 s Ht Hp0 Hs Hnp Hhome).
  - intros x Hx. apply Hblk; [lia|lia|].
    destruct s0 as [f0|sp0 k0]; cbn [home] in *; [lia|].
    destruct Hs0 as [Hp0 _].
    destruct (Hin sp0 (page_slot_ok _ Hp0) Hhome) as [Hr _]. lia.
Qed.

Lemma extends_refl st inode : session_ok st inode -> extends st inode st inode.
Proof.
  intros H. split; [exact H|]. do 3 (split; [reflexivity|]).
  split; [intros; reflexivity|]. split; intros; reflexivity.
Qed.

Lemma extends_trans st1 i1 st2 i2 st3 i3 :
  session_ok st1 i1 ->
  extends st1 i1 st2 i2 -> extends st2 i2 st3 i3 -> extends st1 i1 st3 i3.
Proof.
  intros (_ & _ & (Hok1 & Hin1 & _))
    (S2 & B2 & Z2 & V2 & P2 & D2 & T2) (S3 & B3 & Z3 & V3 & P3 & D3 & T3).
  split; [exact S3|]. split; [congruence|]. split; [congruence|].
  split; [congruence|]. split; [|split].
  - intros s Hs Hnz. rewrite <- (P2 s Hs Hnz). apply P3; [exact Hs|].
    rewrite (P2 s Hs Hnz). exact Hnz.
  - intros s Hs Hnp Hnz. rewrite <- (D2 s Hs Hnp Hnz).
    rewrite <- (P2 s Hs Hnz). apply D3; [exact Hs|exact Hnp|].
    rewrite (P2 s Hs Hnz). exact Hnz.
  - intros x Hx. rewrite <- (T2 x Hx). apply T3. rewrite B2. exact Hx.
Qed.

(** *** The states the allocation sequence goes through *)

Lemma mounted_ok_log st e : mounted_ok st -> mounted_ok (log st e).
Proof. exact id. Qed.

Lemma mounted_ok_alloc st b : mounted_ok st -> mounted_ok (alloc st b).
Proof.
  intros (H1 & H2 & H3 & H4 & H5). unfold mounted_ok, alloc, bitmap_set.
  simpl. rewrite length_insert. repeat split; try assumption; apply H2.
Qed.

Lemma bitmap_get_alloc st b j :
  0 <= b < Z.of_nat (length (block_bitmap st)) -> 0 <= j ->
  bitmap_get (alloc st b) j = if decide (j = b) then 1 else bitmap_get st j.
Proof.
  intros Hb Hj. destruct (decide (j = b)) as [->|Hne].
  - apply (bitmap_get_set_eq st b 1 Hb).
  - apply (bitmap_get_set_ne st b j 1); lia.
Qed.

Lemma find_free_block_ok st r st' :
  mounted_ok st -> healthy st -> find_free_block st = (r, st') ->
  (r < 0 /\ st' = st) \/
  (num_inode_blocks (superblock st) < r < num_blocks (superblock st) /\
   bitmap_get st r = 0 /\ st' = alloc st r).
Proof.
  intros (Hmt & Hsb & _ & Hlen & _) _ H.
  destruct (find_free_block_spec st st' r Hmt Hsb Hlen H)
    as [_ [(Hr & Hz & _ & -> & _)|(-> & -> & _)]].
  - right. split; [lia|]. split; [exact Hz|reflexivity].
  - left. split; [unfold E_OUT_OF_SPACE; lia|reflexivity].
Qed.

Lemma set_field_get inode f0 f b :
  inode_ok inode -> slot_ok (Top f0) -> slot_ok (Top f) ->
  get_field (set_field inode f0 b) f
  = if decide (Top f = Top f0) then b else get_field inode f.
Proof.
  intros (_ & Hl & _) H0 H.
  destruct f0 as [k0| |]; destruct f as [k| |]; cbn [get_field set_field];
    try (destruct (decide _) as [E|E]; [discriminate E|reflexivity]);
    try (destruct (decide _) as [E|E]; [reflexivity|congruence]).
  simpl in H0, H. unfold direct, set_direct. cbn [direct_blocks].
  rewrite nth_lookup.
  destruct (decide (Top (FDirect k) = Top (FDirect k0))) as [E|E].
  - injection E as ->. rewrite list_lookup_insert_eq by lia. reflexivity.
  - rewrite list_lookup_insert_ne by (intros E'; apply E; f_equal; f_equal; lia).
    rewrite <- nth_lookup. reflexivity.
Qed.

Lemma set_field_ok inode f b :
  inode_ok inode -> 0 <= b < 2 ^ 32 -> inode_ok (set_field inode f b).
Proof.
  intros (H1 & H2 & H3 & H4 & H5) Hb.
  destruct f as [k| |]; unfold inode_ok; cbn [set_field set_direct set_indirect
    set_double_indirect size direct_blocks indirect_block double_indirect_block];
    repeat split; try assumption; try lia.
  - rewrite length_insert. exact H2.
  - apply Forall_insert; assumption.
Qed.

Lemma set_field_size inode f b :
  size (set_field inode f b) = size inode /\
  valid (set_field inode f b) = valid inode.
Proof. destruct f; split; reflexivity. Qed.

Lemma bitmap_alloc_mono st b j :
  bitmap_get st j <> 0 -> bitmap_get (alloc st b) j <> 0.
Proof.
  unfold bitmap_get, alloc, bitmap_set. simpl. rewrite !nth_lookup.
  destruct (decide (Z.to_nat b = Z.to_nat j)) as [E|E].
  - rewrite E. intros H.
    destruct (decide (Z.to_nat j < length (block_bitmap st))%nat) as [Hl|Hl].
    + rewrite list_lookup_insert_eq by lia. simpl. lia.
    + rewrite list_insert_ge by lia. exact H.
  - rewrite list_lookup_insert_ne by exact E. exact id.
Qed.

Lemma bitmap_get_alloc_eq st b :
  0 <= b < Z.of_nat (length (block_bitmap st)) -> bitmap_get (alloc st b) b = 1.
Proof. exact (bitmap_get_set_eq st b 1). Qed.

(** The three places of [get_block_for_offset] that put a fresh block into
    a field of the inode, on a working device: either no block is free, or
    the rest of the function runs in a session that extends the old one. *)
Lemma alloc_link_ok st inode f0
    (rest : inode_t -> fs_state -> Z * inode_t * fs_state) r inode' st' :
  session_ok st inode -> slot_ok (Top f0) -> get_field inode f0 = 0 ->
  (let '(new_block, st) := find_free_block st in
   if new_block <? 0 then (new_block, inode, st)
   else
     let '(result, st) := disk_write st new_block zero_block in
     if negb (result =? 0) then (result, inode, free_block st new_block)
     else rest (set_field inode f0 new_block) (log st (EvLink new_block)))
  = (r, inode', st') ->
  r < 0 \/
  exists b st1,
    extends st inode st1 (set_field inode f0 b) /\
    get_field (set_field inode f0 b) f0 = b /\ b <> 0 /\
    rest (set_field inode f0 b) st1 = (r, inode', st').
Proof.
  intros Hs Hf0 Hz. pose proof Hs as (Hm & Hh & Ht).
  pose proof Hm as (_ & (S1 & S2 & S3 & S4) & Hsz & Hlen & _).
  unfold INT_MAX in *.
  destruct (find_free_block st) as [b st1] eqn:Ef.
  destruct (find_free_block_ok st b st1 Hm Hh Ef) as [[Hneg ->]|(Hb & Hfree & ->)].
  { replace (b <? 0) with true by (symmetry; apply Z.ltb_lt; lia).
    intros H. injection H as <- _ _. left. exact Hneg. }
  replace (b <? 0) with false by (symmetry; apply Z.ltb_ge; lia).
  assert (Hma : mounted_ok (alloc st b)) by (apply mounted_ok_alloc, Hm).
  rewrite (disk_write_ok (alloc st b) b zero_block Hma Hh) by (simpl; lia).
  cbn [negb Z.eqb]. intros Hrest. right.
  set (st2 := log (put (alloc st b) b zero_block) (EvLink b)) in *.
  exists b, st2.
  assert (Hblk : forall x, 0 <= x -> x <> b -> blk st2 x = blk st x).
  { intros x Hx Hne. unfold st2. apply (blk_put_ne (alloc st b)); lia. }
  assert (Hbz : blk st2 b = zero_block).
  { unfold st2. apply (blk_put_eq (alloc st b)). simpl. fold (size_in_sectors (disk st)).
    lia. }
  destruct (install_session st inode st2 (set_field inode f0 b) (Top f0) b)
    as [Hext Hptr]; try assumption; try reflexivity.
  - cbn [home]. lia.
  - apply mounted_ok_put; [exact Hma|apply length_zero_block].
  - apply set_field_ok; [apply Ht|lia].
  - apply set_field_size.
  - apply set_field_size.
  - unfold st2. change (bitmap_get (alloc st b) b <> 0).
    rewrite bitmap_get_alloc_eq by lia. lia.
  - intros j. apply bitmap_alloc_mono.
  - apply (install_ptr st inode st2 _ (Top f0) b Ht Hf0 Hz).
    + cbn [home]. lia.
    + exact Hfree.
    + lia.
    + intros f Hf. apply set_field_get; [apply Ht|exact Hf0|exact Hf].
    + intros k. unfold entry. replace (b =? 0) with false
        by (symmetry; apply Z.eqb_neq; lia).
      rewrite Hbz. apply get_u32_zero_block.
    + intros p k Hk Hp Hne. cbn [home].
      replace (p =? -1) with false by (symmetry; apply Z.eqb_neq; lia).
      cbn [andb]. unfold entry. rewrite (Hblk p Hp Hne). reflexivity.
  - intros x Hx Hne _. apply Hblk; assumption.
  - split; [exact Hext|]. split; [exact Hptr|]. split; [lia|exact Hrest].
Qed.

(** The three places that put a fresh block into entry [k0] of a page. *)
Lemma alloc_store_ok st inode sp k0
    (rest : list byte -> fs_state -> Z * inode_t * fs_state) r inode' st' :
  session_ok st inode -> page_slot sp -> ptr st inode sp <> 0 ->
  0 <= k0 < POINTERS_PER_BLOCK ->
  get_u32 (blk st (ptr st inode sp)) k0 = 0 ->
  (let '(new_block, st1) := find_free_block st in
   if new_block <? 0 then (new_block, inode, st1)
   else
     let '(result, st1) := disk_write st1 new_block zero_block in
     if negb (result =? 0) then (result, inode, free_block st1 new_block)
     else
       let page := set_u32 (blk st (ptr st inode sp)) k0 new_block in
       let st1 := log st1 (EvLink new_block) in
       let '(result, st1) := disk_write st1 (ptr st inode sp) page in
       if negb (result =? 0) then (result, inode, free_block st1 new_block)
       else rest page st1)
  = (r, inode', st') ->
  r < 0 \/
  exists b st1,
    extends st inode st1 inode /\
    ptr st1 inode (Child sp k0) = b /\ b <> 0 /\
    get_u32 (set_u32 (blk st (ptr st inode sp)) k0 b) k0 = b /\
    rest (set_u32 (blk st (ptr st inode sp)) k0 b) st1 = (r, inode', st').
Proof.
  intros Hs Hsp Hnz Hk0 Hz. pose proof Hs as (Hm & Hh & Ht).
  pose proof Hm as (_ & (S1 & S2 & S3 & S4) & Hsz & Hlen & _).
  pose proof Ht as (Hok & Hin & Hinj).
  unfold INT_MAX in *. change POINTERS_PER_BLOCK with 256 in Hk0.
  set (P := ptr st inode sp) in *.
  destruct (Hin sp (page_slot_ok _ Hsp) Hnz) as [HP HPu]. fold P in HP, HPu.
  destruct (find_free_block st) as [b st1] eqn:Ef.
  destruct (find_free_block_ok st b st1 Hm Hh Ef) as [[Hneg ->]|(Hb & Hfree & ->)].
  { replace (b <? 0) with true by (symmetry; apply Z.ltb_lt; lia).
    intros H. injection H as <- _ _. left. exact Hneg. }
  replace (b <? 0) with false by (symmetry; apply Z.ltb_ge; lia).
  assert (HbP : b <> P) by (intros E; rewrite E in Hfree; congruence).
  assert (Hma : mounted_ok (alloc st b)) by (apply mounted_ok_alloc, Hm).
  rewrite (disk_write_ok (alloc st b) b zero_block Hma Hh) by (simpl; lia).
  cbn [negb Z.eqb].
  set (pg' := set_u32 (blk st P) k0 b).
  set (st2 := log (put (alloc st b) b zero_block) (EvLink b)).
  assert (Hm2 : mounted_ok st2).
  { apply mounted_ok_put; [exact Hma|apply length_zero_block]. }
  rewrite (disk_write_ok st2 P pg' Hm2 Hh) by (simpl; lia).
  cbn [negb Z.eqb]. intros Hrest. right.
  set (st3 := put st2 P pg') in *.
  exists b, st3.
  assert (Hlpg : length (blk st P) = Z.to_nat BLOCK_SIZE) by (apply length_blk, Hm).
  assert (Hlk : (4 * Z.to_nat k0 + 4 <= length (blk st P))%nat).
  { rewrite Hlpg. change BLOCK_SIZE with 1024. lia. }
  assert (Hblk : forall x, 0 <= x -> x <> b -> x <> P -> blk st3 x = blk st x).
  { intros x Hx Hne HneP. unfold st3. rewrite (blk_put_ne st2) by lia.
    apply (blk_put_ne (alloc st b)); lia. }
  assert (Hbz : blk st3 b = zero_block).
  { unfold st3. rewrite (blk_put_ne st2) by lia.
    apply (blk_put_eq (alloc st b)). simpl. fold (size_in_sectors (disk st)). lia. }
  assert (HbP3 : blk st3 P = pg').
  { unfold st3. apply (blk_put_eq st2). simpl.
    unfold size_in_sectors in *. simpl. rewrite length_insert. lia. }
  assert (Hget : get_u32 pg' k0 = b).
  { unfold pg'. rewrite get_set_u32_eq by exact Hlk. apply to_uint32_small. lia. }
  destruct (install_session st inode st3 inode (Child sp k0) b)
    as [Hext Hptr]; try assumption; try reflexivity.
  - split; [exact Hsp|exact Hk0].
  - cbn [ptr]. fold P. unfold entry.
    replace (P =? 0) with false by (symmetry; apply Z.eqb_neq; lia). exact Hz.
  - apply mounted_ok_put; [exact Hm2|].
    unfold pg'. rewrite length_set_u32 by exact Hlk. exact Hlpg.
  - change (bitmap_get (alloc st b) b <> 0).
    rewrite bitmap_get_alloc_eq by lia. lia.
  - intros j. apply bitmap_alloc_mono.
  - apply (install_ptr st inode st3 inode (Child sp k0) b Ht).
    + split; [exact Hsp|exact Hk0].
    + cbn [ptr]. fold P. unfold entry.
      replace (P =? 0) with false by (symmetry; apply Z.eqb_neq; lia). exact Hz.
    + cbn [home]. exact Hnz.
    + exact Hfree.
    + lia.
    + intros f Hf. destruct (decide (Top f = Child sp k0)) as [E|_];
        [discriminate E|reflexivity].
    + intros k. unfold entry. replace (b =? 0) with false
        by (symmetry; apply Z.eqb_neq; lia).
      rewrite Hbz. apply get_u32_zero_block.
    + intros p k Hk Hp Hne. cbn [home child_index]. fold P.
      change POINTERS_PER_BLOCK with 256 in Hk.
      unfold entry. destruct (p =? 0) eqn:Ep0.
      { apply Z.eqb_eq in Ep0. subst p.
        replace (0 =? P) with false by (symmetry; apply Z.eqb_neq; lia).
        reflexivity. }
      destruct (p =? P) eqn:EpP.
      * apply Z.eqb_eq in EpP. subst p. rewrite HbP3. cbn [andb].
        destruct (k =? k0) eqn:Ek.
        -- apply Z.eqb_eq in Ek. subst k. exact Hget.
        -- apply Z.eqb_neq in Ek. unfold pg'.
           apply get_set_u32_ne; first [lia|exact Hlk].
      * apply Z.eqb_neq in EpP. cbn [andb]. rewrite (Hblk p Hp Hne EpP).
        reflexivity.
  - split; [exact Hext|]. split; [exact Hptr|]. split; [lia|].
    split; [exact Hget|exact Hrest].
Qed.

(** *** [get_block_for_offset] with [allocate = true] on a working device *)

Lemma gbfo_double_data_ok st inode sp k r inode' st' :
  session_ok st inode -> page_slot sp -> ptr st inode sp <> 0 ->
  0 <= k < POINTERS_PER_BLOCK ->
  gbfo_double_data st inode (ptr st inode sp) k true = (r, inode', st') ->
  0 < r ->
  extends st inode st' inode' /\ ptr st' inode' (Child sp k) = r /\
  inode' = inode.
Proof.
  intros Hs Hsp Hnz Hk. pose proof Hs as (Hm & Hh & Ht).
  pose proof (page_slot_ok sp Hsp) as Hsok.
  destruct (ptr_int st inode sp Hm Ht Hsok) as [_ Hr].
  assert (Hck : slot_ok (Child sp k)) by (split; assumption).
  unfold gbfo_double_data.
  rewrite disk_read_ok by assumption. cbn [negb Z.eqb]. rewrite andb_true_r.
  destruct (get_u32 (blk st (ptr st inode sp)) k =? 0) eqn:Ez.
  - apply Z.eqb_eq in Ez. intros H Hpos.
    apply (alloc_store_ok st inode sp k
             (fun pg s => (to_int (get_u32 pg k), inode, s))) in H;
      try assumption.
    destruct H as [Hneg|(b & st1 & Hext & Hptr & Hb0 & Hget & Hrest)]; [lia|].
    rewrite Hget in Hrest. injection Hrest as <- <- <-.
    destruct Hext as ((Hm1 & Hh1 & Ht1) & Hext).
    destruct (ptr_int st1 inode (Child sp k) Hm1 Ht1 Hck) as [Hint _].
    rewrite Hptr in Hint. rewrite Hint.
    split; [split; [split; [exact Hm1|split; [exact Hh1|exact Ht1]]|exact Hext]|].
    split; [exact Hptr|reflexivity].
  - intros H Hpos. injection H as <- <- <-.
    assert (E : ptr st inode (Child sp k) = get_u32 (blk st (ptr st inode sp)) k).
    { cbn [ptr]. unfold entry. apply Z.eqb_neq in Hnz. rewrite Hnz. reflexivity. }
    destruct (ptr_int st inode (Child sp k) Hm Ht Hck) as [Hint _].
    rewrite <- E, Hint.
    split; [apply extends_refl, Hs|]. split; reflexivity.
Qed.

Lemma gbfo_double_entry_ok st inode bi r inode' st' :
  session_ok st inode -> double_indirect_block inode <> 0 ->
  0 <= bi < POINTERS_PER_BLOCK * POINTERS_PER_BLOCK ->
  gbfo_double_entry st inode bi true = (r, inode', st') ->
  0 < r ->
  extends st inode st' inode' /\
  ptr st' inode'
    (Child (Child (Top FDbl) (bi / POINTERS_PER_BLOCK)) (bi mod POINTERS_PER_BLOCK))
  = r /\
  inode' = inode.
Proof.
  intros Hs Hnz Hbi. pose proof Hs as (Hm & Hh & Ht).
  change POINTERS_PER_BLOCK with 256 in *.
  destruct (ptr_int st inode (Top FDbl) Hm Ht I) as [_ Hr].
  cbn [ptr get_field] in Hr.
  assert (Hj : 0 <= bi / 256 < 256).
  { split; [apply Z.div_pos; lia|apply Z.div_lt_upper_bound; lia]. }
  assert (He : 0 <= bi mod 256 < POINTERS_PER_BLOCK)
    by (apply Z.mod_pos_bound; reflexivity).
  assert (Hpj : page_slot (Child (Top FDbl) (bi / 256))) by exact Hj.
  unfold gbfo_double_entry.
  rewrite disk_read_ok by assumption. cbn [negb Z.eqb]. rewrite andb_true_r.
  change POINTERS_PER_BLOCK with 256.
  rewrite Z.quot_div_nonneg, Z.rem_mod_nonneg by lia.
  assert (E : ptr st inode (Child (Top FDbl) (bi / 256))
              = get_u32 (blk st (double_indirect_block inode)) (bi / 256)).
  { cbn [ptr get_field]. unfold entry. apply Z.eqb_neq in Hnz. rewrite Hnz.
    reflexivity. }
  destruct (get_u32 (blk st (double_indirect_block inode)) (bi / 256) =? 0) eqn:Ez.
  - apply Z.eqb_eq in Ez. intros H Hpos.
    apply (alloc_store_ok st inode (Top FDbl) (bi / 256)
             (fun pg s => gbfo_double_data s inode (get_u32 pg (bi / 256))
                            (bi mod 256) true)) in H;
      try assumption; try exact I.
    destruct H as [Hneg|(b & st1 & Hext & Hptr & Hb0 & Hget & Hrest)]; [lia|].
    cbn [ptr get_field] in Hget, Hrest. rewrite Hget in Hrest.
    rewrite <- Hptr in Hrest.
    pose proof Hext as (Hs1 & _).
    assert (Hnz1 : ptr st1 inode (Child (Top FDbl) (bi / 256)) <> 0)
      by (rewrite Hptr; exact Hb0).
    destruct (gbfo_double_data_ok st1 inode _ (bi mod 256) r inode' st'
                Hs1 Hpj Hnz1 He Hrest Hpos) as (Hext2 & Hptr2 & ->).
    split; [exact (extends_trans _ _ _ _ _ _ Hs Hext Hext2)|].
    split; [exact Hptr2|reflexivity].
  - intros H Hpos. rewrite <- E in H.
    assert (Hnz0 : ptr st inode (Child (Top FDbl) (bi / 256)) <> 0)
      by (rewrite E; apply Z.eqb_neq; exact Ez).
    exact (gbfo_double_data_ok st inode _ (bi mod 256) r inode' st'
             Hs Hpj Hnz0 He H Hpos).
Qed.

Lemma gbfo_alloc_ok st inode off r inode' st' :
  session_ok st inode -> 0 <= off < addressable_max ->
  get_block_for_offset st inode off true = (r, inode', st') ->
  0 < r ->
  extends st inode st' inode' /\ bmap st' inode' (off / BLOCK_SIZE) = r.
Proof.
  intros Hs Hoff. pose proof Hs as (Hm & Hh & Ht).
  destruct (disk_index off Hoff) as (Hq & _ & Hk & _).
  pose proof Hm as (Hmt & Hsb & _).
  unfold get_block_for_offset. rewrite Hmt, Hq. cbn [negb].
  replace (off <? 0) with false by (symmetry; apply Z.ltb_ge; lia).
  set (k := off / BLOCK_SIZE) in *.
  unfold bmap, slot_of, MAX_BLOCKS in *.
  change POINTERS_PER_BLOCK with 256 in *.
  destruct (k <? 4) eqn:E1; [apply Z.ltb_lt in E1|apply Z.ltb_ge in E1].
  { assert (Hsk : slot_ok (Top (FDirect k))) by (simpl; lia).
    rewrite andb_true_r.
    destruct (direct inode k =? 0) eqn:Ez.
    - apply Z.eqb_eq in Ez. intros H Hpos.
      apply (alloc_link_ok st inode (FDirect k)
               (fun i s => (to_int (direct i k), i, s))) in H; try assumption.
      destruct H as [Hneg|(b & st1 & Hext & Hget & Hb0 & Hrest)]; [lia|].
      injection Hrest as <- <- <-.
      pose proof Hext as ((Hm1 & Hh1 & Ht1) & _).
      destruct (ptr_int st1 _ (Top (FDirect k)) Hm1 Ht1 Hsk) as [Hint _].
      split; [exact Hext|symmetry; exact Hint].
    - intros H Hpos. injection H as <- <- <-.
      destruct (ptr_int st inode (Top (FDirect k)) Hm Ht Hsk) as [Hint _].
      split; [apply extends_refl, Hs|symmetry; exact Hint]. }
  rewrite (to_uint32_small (k - 4)) by lia.
  destruct (k - 4 <? 256) eqn:E2; [apply Z.ltb_lt in E2|apply Z.ltb_ge in E2].
  { assert (Hrange : 0 <= k - 4 < POINTERS_PER_BLOCK)
      by (change POINTERS_PER_BLOCK with 256; lia).
    destruct (indirect_block inode =? 0) eqn:Ez; cbn [negb].
    - apply Z.eqb_eq in Ez. intros H Hpos.
      apply (alloc_link_ok st inode FInd
               (fun i s => gbfo_indirect_entry s i (k - 4) true)) in H;
        try assumption; try exact I.
      destruct H as [Hneg|(b & st1 & Hext & Hget & Hb0 & Hrest)]; [lia|].
      rewrite gbfo_indirect_entry_eq in Hrest.
      pose proof Hext as (Hs1 & _).
      assert (Hnz1 : ptr st1 (set_field inode FInd b) (Top FInd) <> 0)
        by (cbn [ptr]; rewrite Hget; exact Hb0).
      destruct (gbfo_double_data_ok st1 _ (Top FInd) (k - 4) r inode' st'
                  Hs1 I Hnz1 Hrange Hrest Hpos) as (Hext2 & Hptr2 & _).
      split; [exact (extends_trans _ _ _ _ _ _ Hs Hext Hext2)|exact Hptr2].
    - apply Z.eqb_neq in Ez. intros H Hpos.
      rewrite gbfo_indirect_entry_eq in H.
      destruct (gbfo_double_data_ok st inode (Top FInd) (k - 4) r inode' st'
                  Hs I Ez Hrange H Hpos) as (Hext & Hptr & _).
      split; assumption. }
  rewrite (to_uint32_small (k - 4 - 256)) by lia.
  replace (k - 4 - 256 <? 256 * 256) with true by (symmetry; apply Z.ltb_lt; lia).
  assert (Hrange : 0 <= k - 4 - 256 < POINTERS_PER_BLOCK * POINTERS_PER_BLOCK)
    by (change POINTERS_PER_BLOCK with 256; lia).
  destruct (double_indirect_block inode =? 0) eqn:Ez; cbn [negb].
  - apply Z.eqb_eq in Ez. intros H Hpos.
    apply (alloc_link_ok st inode FDbl
             (fun i s => gbfo_double_entry s i (k - 4 - 256) true)) in H;
      try assumption; try exact I.
    destruct H as [Hneg|(b & st1 & Hext & Hget & Hb0 & Hrest)]; [lia|].
    pose proof Hext as (Hs1 & _).
    assert (Hnz1 : double_indirect_block (set_field inode FDbl b) <> 0)
      by (cbn [get_field] in Hget; rewrite Hget; exact Hb0).
    destruct (gbfo_double_entry_ok st1 _ (k - 4 - 256) r inode' st'
                Hs1 Hnz1 Hrange Hrest Hpos) as (Hext2 & Hptr2 & _).
    split; [exact (extends_trans _ _ _ _ _ _ Hs Hext Hext2)|exact Hptr2].
  - apply Z.eqb_neq in Ez. intros H Hpos.
    destruct (gbfo_double_entry_ok st inode (k - 4 - 256) r inode' st'
                Hs Ez Hrange H Hpos) as (Hext & Hptr & _).
    split; assumption.
Qed.

(** The helpers of [get_block_for_offset] that walk the pages leave the
    inode as it is. *)
Ltac walk_paths :=
  repeat match goal with
  | |- (_, _, _) = (_, _, _) -> _ =>
      let H := fresh in intros H; injection H as <- <- <-; reflexivity
  | |- context [disk_read ?s ?b] =>
      destruct (disk_read s b) as [[? ?] ?]
  | |- context [disk_write ?s ?b ?c] =>
      destruct (disk_write s b c) as [? ?]
  | |- context [find_free_block ?s] =>
      destruct (find_free_block s) as [? ?]
  | |- context [if ?c then _ else _] => destruct c; cbv iota
  end.

Lemma gbfo_double_data_inode st inode page k allocate r inode' st' :
  gbfo_double_data st inode page k allocate = (r, inode', st') ->
  inode' = inode.
Proof. unfold gbfo_double_data. walk_paths. Qed.

Lemma gbfo_double_entry_inode st inode k allocate r inode' st' :
  gbfo_double_entry st inode k allocate = (r, inode', st') ->
  inode' = inode.
Proof.
  unfold gbfo_double_entry.
  destruct (disk_read _ _) as [[? ?] ?].
  destruct (negb _); [intros H; injection H as <- <- <-; reflexivity|].
  cbv zeta.
  destruct (_ && _)%bool.
  - destruct (find_free_block _) as [? ?].
    destruct (_ <? 0); [intros H; injection H as <- <- <-; reflexivity|].
    destruct (disk_write _ _ _) as [? ?].
    destruct (negb _); [intros H; injection H as <- <- <-; reflexivity|].
    destruct (disk_write _ _ _) as [? ?].
    destruct (negb _); [intros H; injection H as <- <- <-; reflexivity|].
    apply gbfo_double_data_inode.
  - destruct (_ =? 0); [intros H; injection H as <- <- <-; reflexivity|].
    apply gbfo_double_data_inode.
Qed.

(** [get_block_for_offset] changes the inode only to fill an empty field. *)
Lemma gbfo_inode_same st inode off allocate r inode' st' :
  0 <= off < addressable_max ->
  get_field inode (top_field (off / BLOCK_SIZE)) <> 0 ->
  get_block_for_offset st inode off allocate = (r, inode', st') ->
  inode' = inode.
Proof.
  intros Ho.
  assert (Hk : 0 <= off / BLOCK_SIZE < MAX_BLOCKS).
  { unfold addressable_max in Ho. change BLOCK_SIZE with 1024 in *.
    split; [apply Z.div_pos; lia|apply Z.div_lt_upper_bound; lia]. }
  unfold top_field, get_block_for_offset.
  rewrite Z.quot_div_nonneg by (change BLOCK_SIZE with 1024; lia).
  set (k := off / BLOCK_SIZE) in *.
  unfold MAX_BLOCKS in Hk. change POINTERS_PER_BLOCK with 256 in *.
  destruct (negb (disk_mounted st));
    [intros _ H; injection H as <- <- <-; reflexivity|].
  destruct (off <? 0); [intros _ H; injection H as <- <- <-; reflexivity|].
  cbv zeta.
  destruct (k <? 4) eqn:E1.
  { cbn [get_field]. intros Hf. apply Z.eqb_neq in Hf. rewrite Hf.
    cbn [andb]. intros H; injection H as <- <- <-; reflexivity. }
  apply Z.ltb_ge in E1.
  rewrite (to_uint32_small (k - 4)) by lia.
  destruct (k - 4 <? 256) eqn:E2.
  { cbn [get_field]. intros Hf. apply Z.eqb_neq in Hf. rewrite Hf.
    rewrite gbfo_indirect_entry_eq. apply gbfo_double_data_inode. }
  apply Z.ltb_ge in E2.
  rewrite (to_uint32_small (k - 4 - 256)) by lia.
  replace (k - 4 - 256 <? 256 * 256) with true by (symmetry; apply Z.ltb_lt; lia).
  cbn [get_field]. intros Hf. apply Z.eqb_neq in Hf. rewrite Hf.
  apply gbfo_double_entry_inode.
Qed.

(** *** Writing a block that holds no page *)

Lemma put_session st inode s buf :
  session_ok st inode -> 0 <= s ->
  length buf = Z.to_nat BLOCK_SIZE ->
  (forall sp, page_slot sp -> ptr st inode sp <> 0 -> ptr st inode sp <> s) ->
  session_ok (put st s buf) inode /\
  (forall x, slot_ok x -> ptr (put st s buf) inode x = ptr st inode x).
Proof.
  intros (Hm & Hh & Ht) Hs Hl Hpg.
  assert (Hptr : forall x, slot_ok x -> ptr (put st s buf) inode x = ptr st inode x).
  { apply ptr_frame. intros sp Hp Hnz. apply blk_put_ne; [exact Hs| |].
    - apply (ptr_range st inode sp), Ht.
    - intros E. exact (Hpg sp Hp Hnz (eq_sym E)). }
  split; [|exact Hptr].
  split; [apply mounted_ok_put; assumption|]. split; [exact Hh|].
  apply (tree_ok_frame st); [exact Ht|reflexivity|intros j Hj; exact Hj|exact Hptr].
Qed.

(** Writing the data block of a mapped slot. *)
Lemma put_data_session st inode sd buf :
  session_ok st inode -> slot_ok sd -> ~ page_slot sd ->
  length buf = Z.to_nat BLOCK_SIZE ->
  session_ok (put st (ptr st inode sd) buf) inode /\
  (forall x, slot_ok x ->
     ptr (put st (ptr st inode sd) buf) inode x = ptr st inode x).
Proof.
  intros Hs Hd Hnp Hl. apply put_session; [exact Hs| |exact Hl|].
  - apply (ptr_range st inode sd), Hs.
  - intros sp Hp Hnz. apply (page_not_data st inode sp sd); try assumption.
    apply Hs.
Qed.

(** Writing an inode record. *)
Lemma store_inode_session st inode i rec :
  session_ok st inode -> 0 <= i < inode_count st ->
  session_ok (store_inode st i rec) inode /\
  (forall x, slot_ok x -> ptr (store_inode st i rec) inode x = ptr st inode x) /\
  (forall b, num_inode_blocks (superblock st) < b ->
     blk (store_inode st i rec) b = blk st b).
Proof.
  intros Hs Hi. pose proof Hs as (Hm & Hh & Ht).
  pose proof Hm as (_ & Hsb & _).
  pose proof (inode_block_range st i Hsb Hi) as Hb.
  assert (Hblk : forall b, num_inode_blocks (superblock st) < b ->
                   blk (store_inode st i rec) b = blk st b).
  { intros b Hlt. apply blk_store_inode_other; lia. }
  destruct (inode_slot i) as (_ & Ho & Hr); [lia|].
  destruct (put_session st inode (1 + Z.quot i INODES_PER_BLOCK)
              (memcpy (blk st (1 + Z.quot i INODES_PER_BLOCK))
                 (Z.rem i INODES_PER_BLOCK * INODE_SIZE) (encode_inode rec)
                 INODE_SIZE)) as [S P]; [exact Hs|lia| | |].
  - rewrite Ho. rewrite length_memcpy; [apply length_blk, Hm| |].
    + rewrite (length_blk st _ Hm). change INODE_SIZE with 32.
      change BLOCK_SIZE with 1024. lia.
    + rewrite length_encode_inode. change INODE_SIZE with 32. lia.
  - intros sp Hp Hnz E.
    destruct Ht as (_ & Hin & _).
    destruct (Hin sp (page_slot_ok sp Hp) Hnz) as [Hrange _]. lia.
  - split; [exact S|]. split; [exact P|exact Hblk].
Qed.

(** *** One block of a loop of [write] *)

Lemma same_block cur n p :
  0 <= cur -> cur mod BLOCK_SIZE + n <= BLOCK_SIZE -> cur <= p < cur + n ->
  p / BLOCK_SIZE = cur / BLOCK_SIZE /\
  p mod BLOCK_SIZE = cur mod BLOCK_SIZE + (p - cur).
Proof.
  change BLOCK_SIZE with 1024. intros H0 H1 H2.
  Z.div_mod_to_equations. lia.
Qed.

Lemma other_block cur n p :
  0 <= cur -> 0 <= p -> cur mod BLOCK_SIZE + n <= BLOCK_SIZE ->
  ~ (cur <= p < cur + n) -> p / BLOCK_SIZE = cur / BLOCK_SIZE ->
  0 <= p mod BLOCK_SIZE < BLOCK_SIZE /\
  ~ (cur mod BLOCK_SIZE <= p mod BLOCK_SIZE < cur mod BLOCK_SIZE + n).
Proof.
  change BLOCK_SIZE with 1024. intros H0 H1 H2 H3 H4.
  Z.div_mod_to_equations. lia.
Qed.

Lemma grows_refl st inode : session_ok st inode -> grows st inode st inode.
Proof.
  intros H. split; [exact H|]. do 3 (split; [reflexivity|]).
  split; intros; reflexivity.
Qed.

Lemma grows_trans st1 i1 st2 i2 st3 i3 :
  grows st1 i1 st2 i2 -> grows st2 i2 st3 i3 -> grows st1 i1 st3 i3.
Proof.
  intros (S2 & B2 & Z2 & V2 & P2 & T2) (S3 & B3 & Z3 & V3 & P3 & T3).
  split; [exact S3|]. split; [congruence|]. split; [congruence|].
  split; [congruence|]. split.
  - intros s Hs Hnz. rewrite <- (P2 s Hs Hnz). apply P3; [exact Hs|].
    rewrite (P2 s Hs Hnz). exact Hnz.
  - intros x Hx. rewrite <- (T2 x Hx). apply T3. rewrite B2. exact Hx.
Qed.

Lemma extends_grows st inode st' inode' :
  extends st inode st' inode' -> grows st inode st' inode'.
Proof.
  intros (S & B & Z & V & P & D & T).
  split; [exact S|]. do 3 (split; [assumption|]). split; assumption.
Qed.

Lemma grows_mapped st inode st' inode' k :
  grows st inode st' inode' -> 0 <= k < MAX_BLOCKS ->
  bmap st inode k <> 0 -> bmap st' inode' k = bmap st inode k.
Proof.
  intros (_ & _ & _ & _ & P & _) Hk Hnz. apply P; [apply slot_of_ok, Hk|exact Hnz].
Qed.

Lemma writes_trans st i st1 i1 st2 i2 a b c f :
  0 <= a -> a <= b -> b <= c -> c <= addressable_max ->
  writes st i st1 i1 a b f -> writes st1 i1 st2 i2 b c f ->
  writes st i st2 i2 a c f.
Proof.
  intros Ha Hab Hbc Hc (G1 & N1 & O1) (G2 & N2 & O2).
  split; [exact (grows_trans _ _ _ _ _ _ G1 G2)|]. split.
  - intros p Hp. destruct (Z_lt_dec p b) as [Hlt|Hge].
    + destruct (N1 p) as [M1 F1]; [lia|].
      assert (Hk : 0 <= p / BLOCK_SIZE < MAX_BLOCKS)
        by (apply (disk_index p); lia).
      split.
      * rewrite (grows_mapped _ _ _ _ _ G2 Hk M1). exact M1.
      * rewrite <- F1. apply O2; [lia|lia|exact M1].
    + apply N2. lia.
  - intros p Hp Hout Hm.
    assert (Hk : 0 <= p / BLOCK_SIZE < MAX_BLOCKS) by (apply (disk_index p); lia).
    rewrite <- (O1 p Hp) by (try exact Hm; lia).
    apply O2; [exact Hp|lia|].
    rewrite (grows_mapped _ _ _ _ _ G1 Hk Hm). exact Hm.
Qed.

Lemma fbyte_lookup st inode p b :
  mounted_ok st ->
  0 <= p mod BLOCK_SIZE < BLOCK_SIZE ->
  blk st (bmap st inode (p / BLOCK_SIZE)) !! Z.to_nat (p mod BLOCK_SIZE) = Some b ->
  fbyte st inode p = b.
Proof.
  intros Hm Hp E. unfold fbyte. apply nth_lookup_Some with (d := Byte.x00) in E.
  exact E.
Qed.

(** The block [r] that [get_block_for_offset] found for [cur] receives [n]
    bytes of [src] at [cur mod BLOCK_SIZE]; [base] is the block as read from
    the device, or any buffer when the whole block is overwritten. *)
Lemma block_step st inode st1 inode1 cur r n src base :
  session_ok st inode -> 0 <= cur < addressable_max ->
  extends st inode st1 inode1 ->
  bmap st1 inode1 (cur / BLOCK_SIZE) = r -> 0 < r ->
  1 <= n -> cur mod BLOCK_SIZE + n <= BLOCK_SIZE ->
  (Z.to_nat n <= length src)%nat ->
  base = blk st1 r \/ (n = BLOCK_SIZE /\ length base = Z.to_nat BLOCK_SIZE) ->
  writes st inode (put st1 r (memcpy base (cur mod BLOCK_SIZE) src n)) inode1
    cur (cur + n) (fun p => nth (Z.to_nat (p - cur)) src Byte.x00).
Proof.
  intros Hs Hcur Hext Hr Hpos Hn Hfit Hsrc Hbase.
  pose proof (extends_grows _ _ _ _ Hext) as G1.
  destruct Hext as (S1 & B1 & Z1 & V1 & P1 & D1 & T1).
  pose proof S1 as (Hm1 & Hh1 & Ht1).
  destruct (disk_index cur Hcur) as (_ & _ & Hk & Hoff).
  destruct (slot_of_ok _ Hk) as [Hsd Hnp].
  set (k := cur / BLOCK_SIZE) in *. set (boff := cur mod BLOCK_SIZE) in *.
  set (sd := slot_of k) in *.
  assert (Hrp : ptr st1 inode1 sd = r) by exact Hr.
  assert (Hrange : num_inode_blocks (superblock st1) < r < num_blocks (superblock st1)).
  { destruct Ht1 as (_ & Hin & _). rewrite <- Hrp. apply Hin; [exact Hsd|lia]. }
  assert (Hlb : length base = Z.to_nat BLOCK_SIZE).
  { destruct Hbase as [->|[_ H]]; [apply length_blk, Hm1|exact H]. }
  set (nb := memcpy base boff src n).
  assert (Hlnb : length nb = Z.to_nat BLOCK_SIZE).
  { unfold nb. rewrite length_memcpy; [exact Hlb| |exact Hsrc].
    rewrite Hlb. lia. }
  destruct (put_data_session st1 inode1 sd nb S1 Hsd Hnp Hlnb) as [S2 P2].
  rewrite Hrp in S2, P2.
  set (st2 := put st1 r nb) in *.
  assert (G2 : grows st1 inode1 st2 inode1).
  { split; [exact S2|]. do 3 (split; [reflexivity|]). split.
    - intros s Hs' _. apply P2, Hs'.
    - intros x Hx. apply blk_put_ne; lia. }
  assert (Hsz : size_in_sectors (disk st1) = num_blocks (superblock st1))
    by apply Hm1.
  assert (Hnew : blk st2 r = nb) by (apply blk_put_eq; lia).
  split; [exact (grows_trans _ _ _ _ _ _ G1 G2)|]. split.
  - intros p Hp.
    destruct (same_block cur n p) as [Ek Eo]; [lia|exact Hfit|exact Hp|].
    fold k in Ek. fold boff in Eo.
    assert (Hb2 : bmap st2 inode1 k = r) by (unfold bmap; rewrite P2 by exact Hsd; exact Hrp).
    rewrite Ek. split; [lia|].
    apply fbyte_lookup; [apply S2|rewrite Eo; lia|].
    rewrite Ek, Hb2, Hnew, Eo. unfold nb.
    rewrite lookup_memcpy_in by (rewrite ?Hlb; lia).
    replace (Z.to_nat (boff + (p - cur)) - Z.to_nat boff)%nat
      with (Z.to_nat (p - cur)) by lia.
    rewrite nth_lookup. destruct (src !! Z.to_nat (p - cur)) eqn:E; [reflexivity|].
    apply lookup_ge_None in E. lia.
  - intros p Hp Hout Hmap.
    assert (Hkp : 0 <= p / BLOCK_SIZE < MAX_BLOCKS) by (apply (disk_index p), Hp).
    destruct (slot_of_ok _ Hkp) as [Hsp Hnpp].
    assert (E1 : bmap st1 inode1 (p / BLOCK_SIZE) = bmap st inode (p / BLOCK_SIZE))
      by (apply (grows_mapped _ _ _ _ _ G1 Hkp Hmap)).
    assert (E2 : bmap st2 inode1 (p / BLOCK_SIZE) = bmap st inode (p / BLOCK_SIZE)).
    { unfold bmap. rewrite P2 by exact Hsp. exact E1. }
    unfold fbyte. rewrite E2.
    set (q := bmap st inode (p / BLOCK_SIZE)) in *.
    assert (Hold : blk st1 q = blk st q) by (apply (D1 _ Hsp Hnpp Hmap)).
    destruct (Z.eq_dec (p / BLOCK_SIZE) k) as [Ek|Nk].
    + assert (Eq : q = r) by (rewrite <- E1, Ek; exact Hr).
      destruct (other_block cur n p) as [Hpm Hno];
        [lia|lia|exact Hfit|exact Hout|exact Ek|].
      fold boff in Hno.
      rewrite <- Hold. rewrite Eq, Hnew.
      destruct Hbase as [->|[Hfull _]]; [|lia].
      unfold nb. rewrite !nth_lookup. f_equal.
      apply lookup_memcpy_out; [rewrite length_blk by exact Hm1; lia|exact Hsrc|lia].
    + assert (Nq : q <> r).
      { intros Eq. apply Nk. apply slot_of_inj; [exact Hkp|exact Hk|].
        destruct Ht1 as (_ & _ & Hinj). apply Hinj; [exact Hsp|exact Hsd| |].
        - unfold bmap in E1. rewrite E1. exact Hmap.
        - unfold bmap in E1. rewrite E1. fold sd. rewrite Hrp. exact Eq. }
      assert (0 <= q) by (apply (ptr_range st inode _), Hs).
      rewrite <- Hold. f_equal. apply blk_put_ne; lia.
Qed.

(** *** With [allocate], the result is a block or an error, never 0 *)

Lemma gbfo_double_data_nz st inode sp k r inode' st' :
  session_ok st inode -> page_slot sp -> ptr st inode sp <> 0 ->
  0 <= k < POINTERS_PER_BLOCK ->
  gbfo_double_data st inode (ptr st inode sp) k true = (r, inode', st') ->
  r <> 0.
Proof.
  intros Hs Hsp Hnz Hk. pose proof Hs as (Hm & Hh & Ht).
  pose proof (page_slot_ok sp Hsp) as Hsok.
  destruct (ptr_int st inode sp Hm Ht Hsok) as [_ Hr].
  assert (Hck : slot_ok (Child sp k)) by (split; assumption).
  unfold gbfo_double_data.
  rewrite disk_read_ok by assumption. cbn [negb Z.eqb]. rewrite andb_true_r.
  destruct (get_u32 (blk st (ptr st inode sp)) k =? 0) eqn:Ez.
  - apply Z.eqb_eq in Ez. intros H.
    apply (alloc_store_ok st inode sp k
             (fun pg s => (to_int (get_u32 pg k), inode, s))) in H;
      try assumption.
    destruct H as [Hneg|(b & st1 & Hext & Hptr & Hb0 & Hget & Hrest)]; [lia|].
    rewrite Hget in Hrest. injection Hrest as <- <- <-.
    destruct Hext as ((Hm1 & Hh1 & Ht1) & Hext).
    destruct (ptr_int st1 inode (Child sp k) Hm1 Ht1 Hck) as [Hint _].
    rewrite Hptr in Hint. rewrite Hint. exact Hb0.
  - intros H. injection H as <- <- <-.
    assert (E : ptr st inode (Child sp k) = get_u32 (blk st (ptr st inode sp)) k).
    { cbn [ptr]. unfold entry. apply Z.eqb_neq in Hnz. rewrite Hnz. reflexivity. }
    destruct (ptr_int st inode (Child sp k) Hm Ht Hck) as [Hint _].
    rewrite <- E, Hint, E. apply Z.eqb_neq, Ez.
Qed.

Lemma gbfo_double_entry_nz st inode bi r inode' st' :
  session_ok st inode -> double_indirect_block inode <> 0 ->
  0 <= bi < POINTERS_PER_BLOCK * POINTERS_PER_BLOCK ->
  gbfo_double_entry st inode bi true = (r, inode', st') ->
  r <> 0.
Proof.
  intros Hs Hnz Hbi. pose proof Hs as (Hm & Hh & Ht).
  change POINTERS_PER_BLOCK with 256 in *.
  destruct (ptr_int st inode (Top FDbl) Hm Ht I) as [_ Hr].
  cbn [ptr get_field] in Hr.
  assert (Hj : 0 <= bi / 256 < 256).
  { split; [apply Z.div_pos; lia|apply Z.div_lt_upper_bound; lia]. }
  assert (He : 0 <= bi mod 256 < POINTERS_PER_BLOCK)
    by (apply Z.mod_pos_bound; reflexivity).
  assert (Hpj : page_slot (Child (Top FDbl) (bi / 256))) by exact Hj.
  unfold gbfo_double_entry.
  rewrite disk_read_ok by assumption. cbn [negb Z.eqb]. rewrite andb_true_r.
  change POINTERS_PER_BLOCK with 256.
  rewrite Z.quot_div_nonneg, Z.rem_mod_nonneg by lia.
  assert (E : ptr st inode (Child (Top FDbl) (bi / 256))
              = get_u32 (blk st (double_indirect_block inode)) (bi / 256)).
  { cbn [ptr get_field]. unfold entry. apply Z.eqb_neq in Hnz. rewrite Hnz.
    reflexivity. }
  destruct (get_u32 (blk st (double_indirect_block inode)) (bi / 256) =? 0) eqn:Ez.
  - apply Z.eqb_eq in Ez. intros H.
    apply (alloc_store_ok st inode (Top FDbl) (bi / 256)
             (fun pg s => gbfo_double_data s inode (get_u32 pg (bi / 256))
                            (bi mod 256) true)) in H;
      try assumption; try exact I.
    destruct H as [Hneg|(b & st1 & Hext & Hptr & Hb0 & Hget & Hrest)]; [lia|].
    cbn [ptr get_field] in Hget, Hrest. rewrite Hget in Hrest.
    rewrite <- Hptr in Hrest.
    pose proof Hext as (Hs1 & _).
    assert (Hnz1 : ptr st1 inode (Child (Top FDbl) (bi / 256)) <> 0)
      by (rewrite Hptr; exact Hb0).
    exact (gbfo_double_data_nz st1 inode _ (bi mod 256) r inode' st'
             Hs1 Hpj Hnz1 He Hrest).
  - intros H. rewrite <- E in H.
    assert (Hnz0 : ptr st inode (Child (Top FDbl) (bi / 256)) <> 0)
      by (rewrite E; apply Z.eqb_neq; exact Ez).
    exact (gbfo_double_data_nz st inode _ (bi mod 256) r inode' st'
             Hs Hpj Hnz0 He H).
Qed.

Lemma gbfo_alloc_nz st inode off r inode' st' :
  session_ok st inode -> 0 <= off < addressable_max ->
  get_block_for_offset st inode off true = (r, inode', st') ->
  r <> 0.
Proof.
  intros Hs Hoff. pose proof Hs as (Hm & Hh & Ht).
  destruct (disk_index off Hoff) as (Hq & _ & Hk & _).
  pose proof Hm as (Hmt & Hsb & _).
  unfold get_block_for_offset. rewrite Hmt, Hq. cbn [negb].
  replace (off <? 0) with false by (symmetry; apply Z.ltb_ge; lia).
  set (k := off / BLOCK_SIZE) in *.
  unfold MAX_BLOCKS in *.
  change POINTERS_PER_BLOCK with 256 in *.
  destruct (k <? 4) eqn:E1; [apply Z.ltb_lt in E1|apply Z.ltb_ge in E1].
  { assert (Hsk : slot_ok (Top (FDirect k))) by (simpl; lia).
    rewrite andb_true_r.
    destruct (direct inode k =? 0) eqn:Ez.
    - apply Z.eqb_eq in Ez. intros H.
      apply (alloc_link_ok st inode (FDirect k)
               (fun i s => (to_int (direct i k), i, s))) in H; try assumption.
      destruct H as [Hneg|(b & st1 & Hext & Hget & Hb0 & Hrest)]; [lia|].
      injection Hrest as <- <- <-.
      pose proof Hext as ((Hm1 & Hh1 & Ht1) & _).
      destruct (ptr_int st1 _ (Top (FDirect k)) Hm1 Ht1 Hsk) as [Hint _].
      change (to_int (ptr st1 (set_field inode (FDirect k) b) (Top (FDirect k)))
              <> 0).
      rewrite Hint. cbn [ptr]. rewrite Hget. exact Hb0.
    - intros H. injection H as <- <- <-.
      destruct (ptr_int st inode (Top (FDirect k)) Hm Ht Hsk) as [Hint _].
      cbn [ptr get_field] in Hint. rewrite Hint. apply Z.eqb_neq, Ez. }
  rewrite (to_uint32_small (k - 4)) by lia.
  destruct (k - 4 <? 256) eqn:E2; [apply Z.ltb_lt in E2|apply Z.ltb_ge in E2].
  { assert (Hrange : 0 <= k - 4 < POINTERS_PER_BLOCK)
      by (change POINTERS_PER_BLOCK with 256; lia).
    destruct (indirect_block inode =? 0) eqn:Ez; cbn [negb].
    - apply Z.eqb_eq in Ez. intros H.
      apply (alloc_link_ok st inode FInd
               (fun i s => gbfo_indirect_entry s i (k - 4) true)) in H;
        try assumption; try exact I.
      destruct H as [Hneg|(b & st1 & Hext & Hget & Hb0 & Hrest)]; [lia|].
      rewrite gbfo_indirect_entry_eq in Hrest.
      pose proof Hext as (Hs1 & _).
      assert (Hnz1 : ptr st1 (set_field inode FInd b) (Top FInd) <> 0)
        by (cbn [ptr]; rewrite Hget; exact Hb0).
      exact (gbfo_double_data_nz st1 _ (Top FInd) (k - 4) r inode' st'
               Hs1 I Hnz1 Hrange Hrest).
    - apply Z.eqb_neq in Ez. intros H.
      rewrite gbfo_indirect_entry_eq in H.
      exact (gbfo_double_data_nz st inode (Top FInd) (k - 4) r inode' st'
               Hs I Ez Hrange H). }
  rewrite (to_uint32_small (k - 4 - 256)) by lia.
  replace (k - 4 - 256 <? 256 * 256) with true by (symmetry; apply Z.ltb_lt; lia).
  assert (Hrange : 0 <= k - 4 - 256 < POINTERS_PER_BLOCK * POINTERS_PER_BLOCK)
    by (change POINTERS_PER_BLOCK with 256; lia).
  destruct (double_indirect_block inode =? 0) eqn:Ez; cbn [negb].
  - apply Z.eqb_eq in Ez. intros H.
    apply (alloc_link_ok st inode FDbl
             (fun i s => gbfo_double_entry s i (k - 4 - 256) true)) in H;
      try assumption; try exact I.
    destruct H as [Hneg|(b & st1 & Hext & Hget & Hb0 & Hrest)]; [lia|].
    pose proof Hext as (Hs1 & _).
    assert (Hnz1 : double_indirect_block (set_field inode FDbl b) <> 0)
      by (cbn [get_field] in Hget; rewrite Hget; exact Hb0).
    exact (gbfo_double_entry_nz st1 _ (k - 4 - 256) r inode' st'
             Hs1 Hnz1 Hrange Hrest).
  - apply Z.eqb_neq in Ez. intros H.
    exact (gbfo_double_entry_nz st inode (k - 4 - 256) r inode' st'
             Hs Ez Hrange H).
Qed.

(** *** The loops of [write] on a working device *)

Lemma writes_nil st inode a f :
  session_ok st inode -> writes st inode st inode a a f.
Proof.
  intros Hs. split; [apply grows_refl, Hs|]. split.
  - intros p Hp. lia.
  - intros; reflexivity.
Qed.

Lemma writes_ext st inode st' inode' a b f g :
  (forall p, a <= p < b -> f p = g p) ->
  writes st inode st' inode' a b f -> writes st inode st' inode' a b g.
Proof.
  intros Hfg (G & N & O). split; [exact G|]. split; [|exact O].
  intros p Hp. destruct (N p Hp) as [M F]. split; [exact M|].
  rewrite F. apply Hfg, Hp.
Qed.

Lemma nth_drop_byte (l : list byte) a j :
  nth j (drop a l) Byte.x00 = nth (a + j) l Byte.x00.
Proof. rewrite !nth_lookup, lookup_drop. reflexivity. Qed.

(** The block a round has found is read (or not) and written. *)
Lemma round_read st inode r (c : bool) :
  session_ok st inode -> 0 <= r < num_blocks (superblock st) ->
  (if c then disk_read st r else (0, zero_block, st))
  = (0, if c then blk st r else zero_block, st).
Proof.
  intros (Hm & Hh & _) Hr. destruct c; [|reflexivity].
  apply disk_read_ok; assumption.
Qed.

Lemma round_chunk cur total :
  0 <= cur -> 0 < total ->
  let n := if total <? BLOCK_SIZE - cur mod BLOCK_SIZE
           then total else BLOCK_SIZE - cur mod BLOCK_SIZE in
  1 <= n /\ n <= total /\ cur mod BLOCK_SIZE + n <= BLOCK_SIZE /\
  (((0 <? cur mod BLOCK_SIZE) || (n <? BLOCK_SIZE))%bool = false ->
   n = BLOCK_SIZE).
Proof.
  intros Hc Ht. change BLOCK_SIZE with 1024.
  pose proof (Z.mod_pos_bound cur 1024) as Hm.
  destruct (total <? 1024 - cur mod 1024) eqn:E;
    [apply Z.ltb_lt in E|apply Z.ltb_ge in E]; cbv zeta.
  - split; [lia|]. split; [lia|]. split; [lia|].
    intros H. apply orb_false_iff in H. destruct H as [H1 H2].
    apply Z.ltb_ge in H1, H2. lia.
  - split; [lia|]. split; [lia|]. split; [lia|].
    intros H. apply orb_false_iff in H. destruct H as [H1 H2].
    apply Z.ltb_ge in H1, H2. lia.
Qed.

(** One round of either loop, from the block found to the block written:
    the device calls succeed and [n] bytes of [src] reach the file. *)
Lemma round_ok st inode cur r inode1 st1 total src :
  session_ok st inode -> 0 <= cur -> cur + total <= addressable_max ->
  0 < total ->
  get_block_for_offset st inode cur true = (r, inode1, st1) -> 0 < r ->
  let boff := Z.rem cur BLOCK_SIZE in
  let n := if total <? BLOCK_SIZE - boff then total else BLOCK_SIZE - boff in
  (Z.to_nat n <= length src)%nat ->
  exists base,
    (if (0 <? boff) || (n <? BLOCK_SIZE) then disk_read st1 r
     else (0, zero_block, st1)) = (0, base, st1) /\
    disk_write st1 r (memcpy base boff src n)
    = (0, put st1 r (memcpy base boff src n)) /\
    1 <= n <= total /\
    writes st inode (put st1 r (memcpy base boff src n)) inode1 cur (cur + n)
      (fun p => nth (Z.to_nat (p - cur)) src Byte.x00).
Proof.
  intros Hs Hc Hend Ht Hg Hr boff n Hsrc.
  assert (Hcur : 0 <= cur < addressable_max) by lia.
  destruct (disk_index cur Hcur) as (_ & Hrem & _ & _).
  destruct (gbfo_alloc_ok st inode cur r inode1 st1 Hs Hcur Hg Hr) as [Hext Hb].
  pose proof Hext as (S1 & _). pose proof S1 as (Hm1 & Hh1 & Ht1).
  assert (Hk : 0 <= cur / BLOCK_SIZE < MAX_BLOCKS) by (apply (disk_index cur Hcur)).
  destruct (slot_of_ok _ Hk) as [Hsd _].
  destruct (ptr_int st1 inode1 (slot_of (cur / BLOCK_SIZE)) Hm1 Ht1 Hsd) as [_ Hrange].
  fold (bmap st1 inode1 (cur / BLOCK_SIZE)) in Hrange. rewrite Hb in Hrange.
  subst boff n. rewrite Hrem in *.
  destruct (round_chunk cur total Hc Ht) as (Hn1 & Hn2 & Hfit & Hfull).
  set (n := if total <? BLOCK_SIZE - cur mod BLOCK_SIZE then total
            else BLOCK_SIZE - cur mod BLOCK_SIZE) in *.
  set (c := ((0 <? cur mod BLOCK_SIZE) || (n <? BLOCK_SIZE))%bool) in *.
  exists (if c then blk st1 r else zero_block).
  split; [apply (round_read st1 inode1 r c S1 Hrange)|].
  split; [apply disk_write_ok; assumption|]. split; [lia|].
  apply (block_step st inode st1 inode1 cur r n src); try assumption.
  destruct c; [left; reflexivity|right].
  split; [apply Hfull; reflexivity|apply length_zero_block].
Qed.

Lemma write_loop_ok i data len offset :
  0 <= offset -> offset + len <= addressable_max ->
  (Z.to_nat len <= length data)%nat ->
  forall fuel st inode w early bw co inode' st',
    session_ok st inode -> 0 <= w <= len -> len - w <= Z.of_nat fuel ->
    write_loop fuel st i inode data len w (offset + w)
    = (early, bw, co, inode', st') ->
    match early with
    | None =>
        bw = len /\ co = offset + len /\
        writes st inode st' inode' (offset + w) (offset + len)
          (payload data offset)
    | Some r => r < len
    end.
Proof.
  intros Hoff Hend Hdata.
  induction fuel as [|fuel IH]; intros st inode w early bw co inode' st' Hs Hw Hf.
  - cbn [write_loop]. intros H. injection H as <- <- <- <- <-.
    assert (w = len) by lia. subst w.
    split; [reflexivity|]. split; [reflexivity|apply writes_nil, Hs].
  - cbn [write_loop].
    destruct (w <? len) eqn:Hlt; [apply Z.ltb_lt in Hlt|apply Z.ltb_ge in Hlt].
    2:{ intros H. injection H as <- <- <- <- <-.
        assert (w = len) by lia. subst w.
        split; [reflexivity|]. split; [reflexivity|apply writes_nil, Hs]. }
    destruct (get_block_for_offset st inode (offset + w) true)
      as [[r inode1] st1] eqn:Hg.
    destruct (r <=? 0) eqn:Hr; [apply Z.leb_le in Hr|apply Z.leb_gt in Hr].
    { destruct (persist_progress _ _ _ _) as [? ?].
      intros H. injection H as <- _ _ _ _.
      destruct (0 <? w) eqn:E; [exact Hlt|lia]. }
    destruct (round_ok st inode (offset + w) r inode1 st1 (len - w)
                (drop (Z.to_nat w) data) Hs) as (base & Er & Ew & Hn & Hwr);
      try assumption; try lia.
    { cbv zeta. rewrite length_drop.
      destruct (len - w <? BLOCK_SIZE - Z.rem (offset + w) BLOCK_SIZE) eqn:E;
        [lia|apply Z.ltb_ge in E].
      assert (0 <= Z.rem (offset + w) BLOCK_SIZE).
      { apply Z.rem_nonneg; [discriminate|lia]. }
      lia. }
    cbv zeta in Er, Ew, Hn, Hwr.
    set (n := if len - w <? BLOCK_SIZE - Z.rem (offset + w) BLOCK_SIZE
              then len - w else BLOCK_SIZE - Z.rem (offset + w) BLOCK_SIZE) in *.
    rewrite Er. cbn [negb Z.eqb]. rewrite Ew. cbn [negb Z.eqb].
    set (st2 := put st1 r _) in *.
    replace (offset + w + n) with (offset + (w + n)) by lia.
    intros H.
    pose proof Hwr as (G & _).
    apply IH in H; [|apply G|lia|lia].
    destruct early as [e|]; [exact H|].
    destruct H as (-> & -> & Hrest).
    split; [reflexivity|]. split; [reflexivity|].
    apply (writes_trans st inode st2 inode1 st' inode' _ (offset + (w + n)));
      [lia|lia|lia|lia| |exact Hrest].
    replace (offset + (w + n)) with (offset + w + n) by lia.
    revert Hwr. apply writes_ext.
    intros p Hp. unfold payload. rewrite nth_drop_byte. f_equal. lia.
Qed.

Lemma nth_zeros n j : nth j (replicate n Byte.x00) Byte.x00 = Byte.x00.
Proof.
  rewrite nth_lookup. destruct (replicate n Byte.x00 !! j) as [b|] eqn:E;
    [|reflexivity].
  apply lookup_replicate in E. destruct E as [-> _]. reflexivity.
Qed.

Lemma fill_loop_ok i zend :
  zend <= addressable_max ->
  forall fuel st inode cur early inode' st',
    session_ok st inode -> 0 <= cur <= zend -> zend - cur <= Z.of_nat fuel ->
    fill_loop fuel st i inode cur zend = (early, inode', st') ->
    match early with
    | None => writes st inode st' inode' cur zend (fun _ => Byte.x00)
    | Some r => r < 0
    end.
Proof.
  intros Hend.
  induction fuel as [|fuel IH]; intros st inode cur early inode' st' Hs Hc Hf.
  - cbn [fill_loop]. intros H. injection H as <- <- <-.
    assert (cur = zend) by lia. subst cur. apply writes_nil, Hs.
  - cbn [fill_loop].
    destruct (cur <? zend) eqn:Hlt; [apply Z.ltb_lt in Hlt|apply Z.ltb_ge in Hlt].
    2:{ intros H. injection H as <- <- <-.
        assert (cur = zend) by lia. subst cur. apply writes_nil, Hs. }
    destruct (get_block_for_offset st inode cur true)
      as [[r inode1] st1] eqn:Hg.
    assert (Hnz : r <> 0).
    { apply (gbfo_alloc_nz st inode cur r inode1 st1 Hs); [lia|exact Hg]. }
    destruct (r <=? 0) eqn:Hr; [apply Z.leb_le in Hr|apply Z.leb_gt in Hr].
    { destruct (write_inode _ _ _) as [? ?].
      intros H. injection H as <- _ _. lia. }
    set (n := if zend - cur <? BLOCK_SIZE - Z.rem cur BLOCK_SIZE
              then zend - cur else BLOCK_SIZE - Z.rem cur BLOCK_SIZE).
    destruct (round_ok st inode cur r inode1 st1 (zend - cur)
                (replicate (Z.to_nat n) Byte.x00) Hs)
      as (base & Er & Ew & Hn & Hwr); try assumption; try lia.
    { cbv zeta. fold n. rewrite length_replicate. lia. }
    cbv zeta in Er, Ew, Hn, Hwr. fold n in Er, Ew, Hn, Hwr.
    rewrite Er. cbn [negb Z.eqb]. rewrite memset0_memcpy, Ew. cbn [negb Z.eqb].
    set (st2 := put st1 r _) in *.
    intros H.
    pose proof Hwr as (G & _).
    apply IH in H; [|apply G|lia|lia].
    destruct early as [e|]; [exact H|].
    apply (writes_trans st inode st2 inode1 st' inode' _ (cur + n));
      [lia|lia|lia|lia| |exact H].
    revert Hwr. apply writes_ext.
    intros p Hp. apply nth_zeros.
Qed.

(** A write into blocks whose fields are set leaves the inode as it is. *)
Lemma write_loop_inode i data len offset :
  0 <= offset -> offset + len <= addressable_max ->
  forall fuel st inode w bw co inode' st',
    0 <= w ->
    (forall p, offset + w <= p < offset + len ->
       get_field inode (top_field (p / BLOCK_SIZE)) <> 0) ->
    write_loop fuel st i inode data len w (offset + w)
    = (None, bw, co, inode', st') ->
    inode' = inode.
Proof.
  intros Hoff Hend.
  induction fuel as [|fuel IH]; intros st inode w bw co inode' st' Hw Htop.
  - cbn [write_loop]. intros H. injection H as _ _ <- _. reflexivity.
  - cbn [write_loop].
    destruct (w <? len) eqn:Hlt; [apply Z.ltb_lt in Hlt|apply Z.ltb_ge in Hlt].
    2:{ intros H. injection H as _ _ <- _. reflexivity. }
    destruct (get_block_for_offset st inode (offset + w) true)
      as [[r inode1] st1] eqn:Hg.
    apply gbfo_inode_same in Hg; [|lia|apply Htop; lia]. subst inode1.
    destruct (r <=? 0).
    { destruct (persist_progress _ _ _ _) as [? ?]. discriminate. }
    assert (Hcur : 0 <= offset + w < addressable_max) by lia.
    destruct (disk_index _ Hcur) as (_ & -> & _ & _).
    destruct (round_chunk (offset + w) (len - w)) as (Hn & _); [lia|lia|].
    set (n := if len - w <? BLOCK_SIZE - (offset + w) mod BLOCK_SIZE
              then len - w else BLOCK_SIZE - (offset + w) mod BLOCK_SIZE) in *.
    destruct (if (0 <? (offset + w) mod BLOCK_SIZE) || (n <? BLOCK_SIZE)
              then disk_read st1 r else (0, zero_block, st1)) as [[e b] st2].
    destruct (negb (e =? 0)).
    { destruct (0 <? w); [|discriminate].
      destruct (persist_progress _ _ _ _) as [? ?]. discriminate. }
    destruct (disk_write st2 r _) as [e2 st3].
    destruct (negb (e2 =? 0)).
    { destruct (0 <? w); [|discriminate].
      destruct (persist_progress _ _ _ _) as [? ?]. discriminate. }
    replace (offset + w + n) with (offset + (w + n)) by lia.
    apply IH; [lia|]. intros p Hp. apply Htop. lia.
Qed.

(** *** The loop of [read] on a working device *)

Lemma read_loop_ok st inode len offset :
  session_ok st inode -> 0 <= offset -> offset + len <= addressable_max ->
  (forall p, offset <= p < offset + len -> bmap st inode (p / BLOCK_SIZE) <> 0) ->
  forall fuel buf w,
    0 <= w <= len -> len - w <= Z.of_nat fuel ->
    (Z.to_nat len <= length buf)%nat ->
    exists buf',
      read_loop fuel st inode buf len w (to_uint32 (offset + w)) = (len, buf', st) /\
      length buf' = length buf /\
      (forall j, w <= j < len ->
         buf' !! Z.to_nat j = Some (fbyte st inode (offset + j))) /\
      (forall j, ~ (Z.to_nat w <= j < Z.to_nat len)%nat -> buf' !! j = buf !! j).
Proof.
  intros Hs Hoff Hend Hmap. pose proof Hs as (Hm & Hh & Ht).
  assert (Hmax : addressable_max < 2 ^ 31) by (vm_compute; reflexivity).
  induction fuel as [|fuel IH]; intros buf w Hw Hf Hbuf.
  - assert (w = len) by lia. subst w. exists buf. cbn [read_loop].
    split; [reflexivity|]. split; [reflexivity|]. split; [intros; lia|reflexivity].
  - cbn [read_loop].
    destruct (w <? len) eqn:Hlt; [apply Z.ltb_lt in Hlt|apply Z.ltb_ge in Hlt].
    2:{ assert (w = len) by lia. subst w. exists buf.
        split; [reflexivity|]. split; [reflexivity|].
        split; [intros; lia|reflexivity]. }
    assert (Hcur : 0 <= offset + w < addressable_max) by lia.
    rewrite (to_uint32_small (offset + w)) by lia.
    rewrite (to_int_small (offset + w)) by lia.
    rewrite (gbfo_lookup st inode (offset + w) Hs Hcur).
    destruct (disk_index _ Hcur) as (_ & -> & Hk & Hbo).
    destruct (slot_of_ok _ Hk) as [Hsd _].
    destruct (ptr_int st inode _ Hm Ht Hsd) as [_ Hrange].
    fold (bmap st inode ((offset + w) / BLOCK_SIZE)) in Hrange.
    pose proof (Hmap (offset + w)) as Hnz.
    set (r := bmap st inode ((offset + w) / BLOCK_SIZE)) in *.
    replace (r <=? 0) with false by (symmetry; apply Z.leb_gt; lia).
    rewrite disk_read_ok by (try assumption; lia). cbn [negb Z.eqb].
    destruct (round_chunk (offset + w) (len - w)) as (Hn1 & Hn2 & Hfit & _);
      [lia|lia|].
    set (boff := (offset + w) mod BLOCK_SIZE) in *.
    set (n := if len - w <? BLOCK_SIZE - boff then len - w
              else BLOCK_SIZE - boff) in *.
    set (buf1 := memcpy buf w (drop (Z.to_nat boff) (blk st r)) n).
    assert (Hlb : length (blk st r) = Z.to_nat BLOCK_SIZE) by (apply length_blk, Hm).
    assert (Hd : (Z.to_nat n <= length (drop (Z.to_nat boff) (blk st r)))%nat).
    { rewrite length_drop, Hlb. lia. }
    assert (Hl1 : length buf1 = length buf).
    { unfold buf1. apply length_memcpy; [lia|exact Hd]. }
    replace (offset + w + n) with (offset + (w + n)) by lia.
    destruct (IH buf1 (w + n)) as (buf' & E & Hl & Hin & Hout); [lia|lia|lia|].
    exists buf'. split; [exact E|]. split; [congruence|]. split.
    + intros j Hj. destruct (Z_lt_dec j (w + n)) as [Hlo|Hhi].
      * rewrite Hout by lia. unfold buf1.
        rewrite lookup_memcpy_in by (try exact Hd; lia).
        rewrite lookup_drop.
        destruct (same_block (offset + w) n (offset + j)) as [Ek Eo];
          [lia|exact Hfit|lia|].
        unfold fbyte. rewrite Ek, Eo. fold r. fold boff.
        replace (Z.to_nat boff + (Z.to_nat j - Z.to_nat w))%nat
          with (Z.to_nat (boff + (offset + j - (offset + w)))) by lia.
        destruct (nth_lookup_or_length (blk st r)
                    (Z.to_nat (boff + (offset + j - (offset + w)))) Byte.x00)
          as [E1|E1]; [exact E1|lia].
      * apply Hin. lia.
    + intros j Hj. rewrite Hout by lia. unfold buf1.
      apply lookup_memcpy_out; [lia|exact Hd|lia].
Qed.

(** *** The size of the inode does not matter to the block map *)

Lemma ptr_set_size st inode z s : ptr st (set_size inode z) s = ptr st inode s.
Proof.
  induction s as [f|sp IH k]; [destruct f; reflexivity|].
  cbn [ptr]. rewrite IH. reflexivity.
Qed.

Lemma fbyte_set_size st inode z p :
  fbyte st (set_size inode z) p = fbyte st inode p.
Proof. unfold fbyte, bmap. rewrite ptr_set_size. reflexivity. Qed.

Lemma session_ok_set_size st inode z :
  session_ok st inode -> 0 <= z < 2 ^ 32 -> session_ok st (set_size inode z).
Proof.
  intros (Hm & Hh & (Hok & Hin & Hinj)) Hz.
  split; [exact Hm|]. split; [exact Hh|]. split; [|split].
  - destruct Hok as (H1 & H2 & H3 & H4 & H5).
    split; [exact Hz|]. split; [exact H2|]. split; [exact H3|].
    split; [exact H4|exact H5].
  - intros s Hs. rewrite ptr_set_size. apply Hin, Hs.
  - intros s1 s2 H1 H2. rewrite !ptr_set_size. apply Hinj; assumption.
Qed.

Lemma inode_at_frame st st' i :
  blk st' (1 + Z.quot i INODES_PER_BLOCK) = blk st (1 + Z.quot i INODES_PER_BLOCK) ->
  inode_at st' i = inode_at st i.
Proof. intros E. unfold inode_at. rewrite E. reflexivity. Qed.

(** A mapped block has its field of the inode set. *)
Lemma top_mapped st inode k :
  0 <= k < MAX_BLOCKS -> bmap st inode k <> 0 ->
  get_field inode (top_field k) <> 0.
Proof.
  unfold bmap, slot_of, top_field, MAX_BLOCKS. change POINTERS_PER_BLOCK with 256.
  intros Hk.
  destruct (k <? 4); [exact id|].
  destruct (k - 4 <? 256); cbn [ptr]; unfold entry; cbn [ptr].
  - destruct (get_field inode FInd =? 0) eqn:E; [congruence|].
    intros _. apply Z.eqb_neq, E.
  - destruct (get_field inode FDbl =? 0) eqn:E; [cbn [Z.eqb]; congruence|].
    intros _. apply Z.eqb_neq, E.
Qed.

(** *** Step 5 of [write] on a working device *)

Lemma addressable_max_int : addressable_max < 2 ^ 31.
Proof. vm_compute. reflexivity. Qed.

Lemma write_fill_ok st i inode offset early inode1 st1 :
  session_ok st inode -> size inode <= addressable_max ->
  0 <= offset <= addressable_max ->
  write_fill st i inode offset = (early, inode1, st1) ->
  match early with
  | Some r => r < 0
  | None =>
      exists inode_f,
        writes st inode st1 inode_f (size inode) (Z.max (size inode) offset)
          (fun _ => Byte.x00) /\
        inode1 = set_size inode_f (Z.max (size inode) offset) /\
        (offset <= size inode -> inode_f = inode /\ st1 = st)
  end.
Proof.
  intros Hs Hsz Hoff. pose proof addressable_max_int as Hmax.
  assert (Hsize : 0 <= size inode) by apply Hs.
  unfold write_fill. rewrite (to_uint32_small offset) by lia.
  destruct (size inode <? offset) eqn:E; [apply Z.ltb_lt in E|apply Z.ltb_ge in E].
  - rewrite (to_int_small (size inode)) by lia.
    destruct (fill_loop _ _ _ _ _ _) as [[e inode_f] st_f] eqn:Ef.
    apply (fill_loop_ok i offset) in Ef; [|lia|exact Hs|lia|lia].
    destruct e as [r|]; intros H; injection H as <- <- <-; [exact Ef|].
    exists inode_f. rewrite Z.max_r by lia.
    split; [exact Ef|]. split; [reflexivity|lia].
  - intros H; injection H as <- <- <-. exists inode.
    rewrite Z.max_l by lia.
    split; [apply writes_nil, Hs|]. split; [symmetry; apply set_size_same|].
    intros _. split; reflexivity.
Qed.

(** The session after the inode, with a new size, has been written back. *)
Lemma stored_view st inode i z :
  session_ok st inode -> 0 <= i < inode_count st -> 0 <= z < 2 ^ 32 ->
  session_ok (store_inode st i (set_size inode z)) (set_size inode z) /\
  inode_at (store_inode st i (set_size inode z)) i = set_size inode z /\
  (forall k, 0 <= k < MAX_BLOCKS ->
     bmap (store_inode st i (set_size inode z)) (set_size inode z) k
     = bmap st inode k) /\
  (forall p, 0 <= p < addressable_max ->
     bmap st inode (p / BLOCK_SIZE) <> 0 ->
     fbyte (store_inode st i (set_size inode z)) (set_size inode z) p
     = fbyte st inode p).
Proof.
  intros Hs Hi Hz. pose proof Hs as (Hm & Hh & Ht).
  destruct (store_inode_session st inode i (set_size inode z) Hs Hi)
    as (S & P & B).
  pose proof (session_ok_set_size _ _ z S Hz) as S'.
  assert (Hb : forall k, 0 <= k < MAX_BLOCKS ->
     bmap (store_inode st i (set_size inode z)) (set_size inode z) k
     = bmap st inode k).
  { intros k Hk. unfold bmap. rewrite ptr_set_size. apply P, slot_of_ok, Hk. }
  split; [exact S'|]. split; [|split; [exact Hb|]].
  - apply inode_at_store_same; [exact Hm|exact Hi|].
    apply (session_ok_set_size st inode z Hs Hz).
  - intros p Hp Hmap.
    assert (Hk : 0 <= p / BLOCK_SIZE < MAX_BLOCKS) by (apply (disk_index p Hp)).
    unfold fbyte. rewrite (Hb _ Hk). f_equal. apply B.
    destruct Ht as (_ & Hin & _).
    apply (Hin (slot_of (p / BLOCK_SIZE))); [apply slot_of_ok, Hk|exact Hmap].
Qed.

(** *** A successful [write] on a working device *)

Lemma inode_count_frame st st' :
  superblock st' = superblock st -> inode_count st' = inode_count st.
Proof. intros E. unfold inode_count. rewrite E. reflexivity. Qed.

Lemma write_ok_records st i data len offset st' :
  mounted_ok st -> healthy st -> file_ok st i ->
  0 <= offset -> 0 < len -> offset + len <= addressable_max ->
  (Z.to_nat len <= length data)%nat ->
  write st i data len offset = (len, st') ->
  written st i data len offset st' /\
  (forall j, 0 <= j < inode_count st -> j <> i ->
     inode_at st' j = inode_at st j).
Proof.
  intros Hm Hh (Hi & Hv & Ht & Hsz & Hnh) Hoff Hlen Hend Hdata.
  pose proof addressable_max_int as Hmax. unfold written.
  set (ino0 := inode_at st i) in *. set (s := size ino0) in *.
  assert (Hs0 : session_ok st ino0) by (split; [exact Hm|split; [exact Hh|exact Ht]]).
  assert (Hs_pos : 0 <= s) by apply Ht.
  pose proof Hm as (Hmt & Hsb & _).
  unfold write. rewrite Hmt, (bad_inode_num_false st i Hsb Hi). cbn [negb].
  rewrite (read_inode_ok st i false Hm Hh Hi). cbn [negb Z.eqb]. fold ino0.
  apply Z.eqb_neq in Hv. rewrite Hv.
  destruct (write_fill st i ino0 offset) as [[e1 inode1] st1] eqn:Ef.
  apply write_fill_ok in Ef; [|exact Hs0|exact Hsz|lia].
  destruct e1 as [r|]; [intros H; injection H as -> _; lia|].
  destruct Ef as (inode_f & A & -> & Hnofill). fold s in A, Hnofill |- *.
  set (m := Z.max s offset) in *.
  pose proof A as (GA & NA & OA). pose proof GA as (SA & BA & ZA & VA & PA & TA).
  assert (S1 : session_ok st1 (set_size inode_f m))
    by (apply session_ok_set_size; [exact SA|lia]).
  destruct (write_loop _ _ _ _ _ _ _ _) as [[[[e2 bw] co] inode2] st2] eqn:El.
  rewrite <- (Z.add_0_r offset) in El at 1.
  pose proof El as El2.
  apply (write_loop_ok i data len offset Hoff Hend Hdata) in El;
    [|exact S1|lia|lia].
  destruct e2 as [r|]; [intros H; injection H as -> _; lia|].
  destruct El as (-> & -> & B). rewrite Z.add_0_r in B.
  pose proof B as (GB & NB & OB). pose proof GB as (SB & BB & ZB & VB & PB & TB).
  cbn [size set_size valid] in ZB, VB.
  rewrite (to_uint32_small (offset + len)) by lia.
  (* the file as the loops leave it, seen through the inode in memory *)
  assert (V2 : forall p, s <= p < offset ->
            bmap st2 inode2 (p / BLOCK_SIZE) <> 0 /\ fbyte st2 inode2 p = Byte.x00).
  { intros p Hp. destruct (NA p) as [M F]; [lia|].
    assert (Hk : 0 <= p / BLOCK_SIZE < MAX_BLOCKS) by (apply (disk_index p); lia).
    assert (M1 : bmap st1 (set_size inode_f m) (p / BLOCK_SIZE) <> 0)
      by (unfold bmap; rewrite ptr_set_size; exact M).
    split; [rewrite (grows_mapped _ _ _ _ _ GB Hk M1); exact M1|].
    rewrite OB by (try exact M1; lia). rewrite fbyte_set_size. exact F. }
  assert (V3 : forall p, 0 <= p < s -> ~ (offset <= p < offset + len) ->
            bmap st2 inode2 (p / BLOCK_SIZE) <> 0 /\
            fbyte st2 inode2 p = fbyte st ino0 p).
  { intros p Hp Hout. pose proof (Hnh p Hp) as M0.
    assert (Hk : 0 <= p / BLOCK_SIZE < MAX_BLOCKS) by (apply (disk_index p); lia).
    assert (M1 : bmap st1 (set_size inode_f m) (p / BLOCK_SIZE) <> 0).
    { unfold bmap. rewrite ptr_set_size.
      fold (bmap st1 inode_f (p / BLOCK_SIZE)).
      rewrite (grows_mapped _ _ _ _ _ GA Hk M0). exact M0. }
    split; [rewrite (grows_mapped _ _ _ _ _ GB Hk M1); exact M1|].
    rewrite OB by (try exact M1; lia). rewrite fbyte_set_size.
    apply OA; [lia|lia|exact M0]. }
  assert (Hsb2 : superblock st2 = superblock st) by congruence.
  assert (Hi2 : 0 <= i < inode_count st2)
    by (rewrite (inode_count_frame st st2 Hsb2); exact Hi).
  assert (Hblk : blk st2 (1 + Z.quot i INODES_PER_BLOCK)
                 = blk st (1 + Z.quot i INODES_PER_BLOCK)).
  { pose proof (inode_block_range st i Hsb Hi) as Hr.
    rewrite TB by (rewrite BA; lia). apply TA. lia. }
  assert (Hmapped : forall p, 0 <= p < Z.max s (offset + len) ->
            bmap st2 inode2 (p / BLOCK_SIZE) <> 0).
  { intros p Hp.
    destruct (Z_lt_dec p offset) as [Hlo|Hhi].
    - destruct (Z_lt_dec p s) as [Hin|Hgap]; [apply V3; lia|apply V2; lia].
    - destruct (Z_lt_dec p (offset + len)) as [Hin|Hpast];
        [apply NB; lia|apply V3; lia]. }
  destruct (size inode2 <? offset + len) eqn:Ez;
    [apply Z.ltb_lt in Ez|apply Z.ltb_ge in Ez].
  - (* the file has grown: the inode is written back *)
    destruct SB as (Hm2 & Hh2 & Ht2).
    assert (SB : session_ok st2 inode2)
      by (split; [exact Hm2|split; [exact Hh2|exact Ht2]]).
    rewrite (write_inode_ok st2 i _ Hm2 Hh2 Hi2). cbn [negb Z.eqb].
    intros H. injection H as <-.
    destruct (stored_view st2 inode2 i (offset + len) SB Hi2)
      as (S' & E' & Hb' & Hf'); [lia|].
    rewrite E'.
    assert (Hview : forall p, 0 <= p < Z.max s (offset + len) ->
              bmap (store_inode st2 i (set_size inode2 (offset + len)))
                (set_size inode2 (offset + len)) (p / BLOCK_SIZE) <> 0 /\
              fbyte (store_inode st2 i (set_size inode2 (offset + len)))
                (set_size inode2 (offset + len)) p = fbyte st2 inode2 p).
    { intros p Hp.
      assert (Hp' : 0 <= p < addressable_max) by lia.
      assert (Hk : 0 <= p / BLOCK_SIZE < MAX_BLOCKS) by (apply (disk_index p Hp')).
      pose proof (Hmapped p Hp) as M.
      split; [rewrite (Hb' _ Hk); exact M|apply Hf'; [exact Hp'|exact M]]. }
    assert (Esz : Z.max s (offset + len) = offset + len) by lia.
    split.
    2:{ intros j Hj Hne.
        rewrite inode_at_store_other by (try exact Hm2; lia).
        apply inode_at_frame.
        pose proof (inode_block_range st j Hsb Hj) as Hr.
        rewrite TB by (rewrite BA; lia). apply TA. lia. }
    split; [exact S'|]. split; [exact Hsb2|].
    split; [cbn [valid set_size]; congruence|].
    split; [cbn [size set_size]; lia|]. split; [|split; [|split]].
    + intros p Hp. cbn [size set_size] in Hp. apply Hview. lia.
    + intros p Hp. destruct (Hview p) as [_ ->]; [lia|]. apply NB, Hp.
    + intros p Hp. destruct (Hview p) as [_ ->]; [lia|]. apply V2, Hp.
    + intros p Hp Hout. destruct (Hview p) as [_ ->]; [lia|].
      apply V3; assumption.
  - (* the write stayed inside the file: the inode on the device is current *)
    intros H. injection H as <-.
    assert (Hin : offset <= s) by lia.
    destruct (Hnofill Hin) as [-> ->].
    assert (Em : m = s) by lia. rewrite Em in *.
    rewrite set_size_same in *.
    assert (E2 : inode2 = ino0).
    { apply (write_loop_inode i data len offset Hoff Hend) in El2;
        [exact El2|lia|].
      intros p Hp.
      apply (top_mapped st); [apply (disk_index p); lia|apply Hnh; lia]. }
    subst inode2.
    rewrite (inode_at_frame st st2 i Hblk). fold ino0.
    assert (Esz : Z.max s (offset + len) = s) by lia.
    split.
    2:{ intros j Hj Hne. apply inode_at_frame.
        pose proof (inode_block_range st j Hsb Hj) as Hr.
        rewrite TB by lia. reflexivity. }
    split; [exact SB|]. split; [exact Hsb2|]. split; [reflexivity|].
    split; [fold s; lia|]. split; [|split; [|split]].
    + intros p Hp. fold s in Hp. apply Hmapped. lia.
    + intros p Hp. apply NB, Hp.
    + intros p Hp. apply V2, Hp.
    + intros p Hp Hout. apply V3; assumption.
Qed.

Lemma write_ok st i data len offset st' :
  mounted_ok st -> healthy st -> file_ok st i ->
  0 <= offset -> 0 < len -> offset + len <= addressable_max ->
  (Z.to_nat len <= length data)%nat ->
  write st i data len offset = (len, st') ->
  written st i data len offset st'.
Proof.
  intros Hm Hh Hf Hoff Hlen Hend Hdata Hw.
  exact (proj1 (write_ok_records st i data len offset st' Hm Hh Hf Hoff Hlen
                  Hend Hdata Hw)).
Qed.

Lemma written_file_ok st i data len offset st' :
  file_ok st i -> 0 <= offset -> 0 <= len ->
  offset + len <= addressable_max ->
  written st i data len offset st' -> file_ok st' i.
Proof.
  intros (Hi & Hv & _ & Hsz & _) Hoff Hlen Hend (S & Hsb & V & Z & N & _).
  split; [rewrite (inode_count_frame st st' Hsb); exact Hi|].
  split; [rewrite V; exact Hv|]. split; [apply S|]. split; [lia|exact N].
Qed.

(** With nothing to write, [write] may fill the gap below [offset], but the
    inode on the device stays as it is. *)
Lemma write_empty st i data offset st' :
  mounted_ok st -> healthy st -> file_ok st i ->
  0 <= offset <= addressable_max ->
  write st i data 0 offset = (0, st') ->
  mounted_ok st' /\ healthy st' /\ superblock st' = superblock st /\
  inode_at st' i = inode_at st i.
Proof.
  intros Hm Hh (Hi & Hv & Ht & Hsz & Hnh) Hoff.
  pose proof addressable_max_int as Hmax.
  set (ino0 := inode_at st i) in *.
  assert (Hs0 : session_ok st ino0) by (split; [exact Hm|split; [exact Hh|exact Ht]]).
  assert (Hs_pos : 0 <= size ino0) by apply Ht.
  pose proof Hm as (Hmt & Hsb & _).
  unfold write. rewrite Hmt, (bad_inode_num_false st i Hsb Hi). cbn [negb].
  rewrite (read_inode_ok st i false Hm Hh Hi). cbn [negb Z.eqb]. fold ino0.
  apply Z.eqb_neq in Hv. rewrite Hv.
  destruct (write_fill st i ino0 offset) as [[e1 inode1] st1] eqn:Ef.
  apply write_fill_ok in Ef; [|exact Hs0|exact Hsz|lia].
  destruct e1 as [r|]; [intros H; injection H as -> _; lia|].
  destruct Ef as (inode_f & ((SA & BA & ZA & VA & PA & TA) & _) & -> & _).
  change (Z.to_nat 0) with 0%nat. cbn [write_loop size set_size].
  rewrite (to_uint32_small offset) by lia.
  replace (Z.max (size ino0) offset <? offset) with false
    by (symmetry; apply Z.ltb_ge; lia).
  intros H. injection H as <-.
  split; [apply SA|]. split; [apply SA|]. split; [exact BA|].
  apply inode_at_frame, TA.
  pose proof (inode_block_range st i Hsb Hi). lia.
Qed.

(** *** [read] on a working device *)

Lemma read_ok st i buf n a :
  mounted_ok st -> healthy st -> file_ok st i ->
  0 <= a -> 0 < n -> a + n <= size (inode_at st i) ->
  (Z.to_nat n <= length buf)%nat ->
  exists buf',
    read st i buf n a = (n, buf', st) /\
    length buf' = length buf /\
    (forall j, 0 <= j < n ->
       buf' !! Z.to_nat j = Some (fbyte st (inode_at st i) (a + j))) /\
    (forall j, (Z.to_nat n <= j)%nat -> buf' !! j = buf !! j).
Proof.
  intros Hm Hh (Hi & Hv & Ht & Hsz & Hnh) Ha Hn Hfit Hbuf.
  pose proof addressable_max_int as Hmax.
  set (ino := inode_at st i) in *.
  assert (Hs : session_ok st ino) by (split; [exact Hm|split; [exact Hh|exact Ht]]).
  pose proof Hm as (Hmt & Hsb & _).
  destruct (read_loop_ok st ino n a Hs Ha) with (fuel := Z.to_nat n) (buf := buf)
    (w := 0) as (buf' & E & Hl & Hin & Hout); [lia| |lia|lia|exact Hbuf|].
  { intros p Hp. apply Hnh. lia. }
  rewrite Z.add_0_r in E.
  exists buf'. split; [|split; [exact Hl|split; [exact Hin|]]].
  - unfold read. rewrite Hmt, (bad_inode_num_false st i Hsb Hi). cbn [negb].
    rewrite (read_inode_ok st i false Hm Hh Hi). cbn [negb Z.eqb]. fold ino.
    apply Z.eqb_neq in Hv. rewrite Hv.
    assert (Ec : read_count ino n a = n).
    { unfold read_count. rewrite (to_uint32_small a) by lia.
      replace (a <? size ino) with true by (symmetry; apply Z.ltb_lt; lia).
      rewrite (to_uint32_small (size ino - a)) by lia.
      rewrite (to_int_small (size ino - a)) by lia.
      destruct (n <? size ino - a) eqn:E1; [reflexivity|].
      apply Z.ltb_ge in E1. lia. }
    rewrite Ec.
    replace (n <=? 0) with false by (symmetry; apply Z.leb_gt; lia).
    exact E.
  - intros j Hj. apply Hout. lia.
Qed.

(** A file that maps no block, such as [create] leaves it. *)
Lemma unmapped_file_ok st i :
  0 <= i < inode_count st ->
  byte.unsigned (valid (inode_at st i)) <> 0 ->
  size (inode_at st i) = 0 ->
  direct_blocks (inode_at st i) = [0; 0; 0; 0] ->
  indirect_block (inode_at st i) = 0 ->
  double_indirect_block (inode_at st i) = 0 ->
  file_ok st i.
Proof.
  intros Hi Hv Hz Hd Hin Hdb.
  assert (Hp : forall s, ptr st (inode_at st i) s = 0).
  { induction s as [f|sp IH k].
    - destruct f as [k| |]; cbn [ptr get_field]; [|exact Hin|exact Hdb].
      unfold direct. rewrite Hd.
      destruct (Z.to_nat k) as [|[|[|[|[|n]]]]]; reflexivity.
    - cbn [ptr]. rewrite IH. reflexivity. }
  split; [exact Hi|]. split; [exact Hv|]. split; [|split].
  - split; [|split].
    + unfold inode_ok. rewrite Hz, Hd, Hin, Hdb.
      split; [lia|]. split; [reflexivity|]. split; [|lia].
      repeat constructor; lia.
    + intros s _ Hnz. destruct (Hnz (Hp s)).
    + intros s1 s2 _ _ Hnz. destruct (Hnz (Hp s1)).
  - rewrite Hz. unfold addressable_max, MAX_BLOCKS.
    change POINTERS_PER_BLOCK with 256. change BLOCK_SIZE with 1024. lia.
  - intros p Hp'. rewrite Hz in Hp'. lia.
Qed.

Lemma example_file_fresh : file_ok example_file 0.
Proof. apply unmapped_file_ok; [split; by_eval|by_eval..]. Qed.

(** C1: on a working device, in a mounted session whose inode [i] is a
    well-formed file, for every byte string [data] and every [offset] with
    [0 <= offset] and [offset + |data| <= addressable_max]: if
    [write(i, data, |data|, offset)] returns [|data|], then
    [read(i, buf, |data|, offset)] in the state it leaves returns [|data|],
    the first [|data|] bytes of the buffer are exactly [data], and the rest
    of the buffer is untouched. *)
Theorem write_read_round_trip (st st' : fs_state) (i : Z)
    (data buf : list byte) (offset : Z) :
  mounted_ok st -> healthy st -> file_ok st i ->
  0 <= offset -> offset + Z.of_nat (length data) <= addressable_max ->
  (length data <= length buf)%nat ->
  write st i data (Z.of_nat (length data)) offset
  = (Z.of_nat (length data), st') ->
  read st' i buf (Z.of_nat (length data)) offset
  = (Z.of_nat (length data), data ++ drop (length data) buf, st').
Proof.
  intros Hm Hh Hf Hoff Hend Hbuf Hw.
  destruct (decide (length data = 0%nat)) as [E0|Hne].
  - (* nothing was written and nothing is read *)
    destruct data; [clear E0|discriminate].
    cbn [length] in *. change (Z.of_nat 0) with 0 in *.
    destruct (write_empty st i [] offset st' Hm Hh Hf) as (Hm' & Hh' & Hsb' & Hi');
      [lia|exact Hw|].
    destruct Hf as (Hi & Hv & _).
    pose proof Hm' as (Hmt' & Hsbok' & _).
    assert (Hi2 : 0 <= i < inode_count st')
      by (rewrite (inode_count_frame st st' Hsb'); exact Hi).
    unfold read. rewrite Hmt', (bad_inode_num_false st' i Hsbok' Hi2). cbn [negb].
    rewrite (read_inode_ok st' i false Hm' Hh' Hi2). cbn [negb Z.eqb].
    rewrite Hi'. apply Z.eqb_neq in Hv. rewrite Hv.
    replace (read_count (inode_at st i) 0 offset <=? 0) with true; [reflexivity|].
    symmetry. apply Z.leb_le. unfold read_count.
    destruct (_ <? size _); [|lia].
    destruct (0 <? _) eqn:E; [lia|apply Z.ltb_ge in E; exact E].
  - set (len := Z.of_nat (length data)) in *.
    assert (Hlen : 0 < len) by lia.
    assert (Hdata : (Z.to_nat len <= length data)%nat) by lia.
    pose proof (write_ok st i data len offset st' Hm Hh Hf Hoff Hlen Hend Hdata Hw)
      as Hwr.
    pose proof (written_file_ok st i data len offset st' Hf Hoff
                  (Z.lt_le_incl _ _ Hlen) Hend Hwr) as Hf'.
    destruct Hwr as (S & _ & _ & Hsz & _ & Hpay & _).
    destruct (read_ok st' i buf len offset) as (buf' & E & Hl & Hin & Hout);
      [apply S|apply S|exact Hf'|exact Hoff|exact Hlen|lia|lia|].
    rewrite E. f_equal. f_equal.
    apply list_eq. intros j.
    destruct (decide (j < length data)%nat) as [Hj|Hj].
    + rewrite lookup_app_l by exact Hj.
      specialize (Hin (Z.of_nat j)). rewrite Nat2Z.id in Hin.
      rewrite Hin by lia. rewrite Hpay by lia. unfold payload.
      replace (Z.to_nat (offset + Z.of_nat j - offset)) with j by lia.
      destruct (nth_lookup_or_length data j Byte.x00) as [E1|E1];
        [symmetry; exact E1|lia].
    + rewrite lookup_app_r by lia. rewrite lookup_drop.
      rewrite Hout by lia. f_equal. lia.
Qed.

Lemma write_read_round_trip_witness :
  read (snd (write example_file 0 [Byte.x58] 1 5000)) 0 [Byte.x00] 1 5000
  = (1, [Byte.x58], snd (write example_file 0 [Byte.x58] 1 5000)).
Proof.
  apply (write_read_round_trip example_file _ 0 [Byte.x58] [Byte.x00] 5000).
  - exact example_file_ok.
  - reflexivity.
  - exact example_file_fresh.
  - lia.
  - vm_compute. discriminate.
  - simpl. lia.
  - by_eval.
Defined.

(** ** The zero-fill loop on a device that may fail *)

(** The loop of [write] is [fill_step], round after round. *)
Lemma fill_loop_step fuel st i inode cur zend :
  fill_loop (S fuel) st i inode cur zend
  = if cur <? zend then
      match fill_step (mk_fill_cfg st inode cur) zend with
      | (Some e, c) =>
          (Some e, advance_size (fc_inode c) cur,
           snd (write_inode (fc_state c) i (advance_size (fc_inode c) cur)))
      | (None, c) => fill_loop fuel (fc_state c) i (fc_inode c) (fc_offset c) zend
      end
    else (None, inode, st).
Proof.
  cbn [fill_loop]. unfold fill_step. cbn [fc_state fc_inode fc_offset].
  destruct (cur <? zend); [|reflexivity].
  destruct (get_block_for_offset st inode cur true) as [[r inode1] st1].
  destruct (r <=? 0).
  { cbn [fc_state fc_inode]. destruct (write_inode _ _ _); reflexivity. }
  destruct (if (_ || _)%bool then disk_read st1 r else (0, zero_block, st1))
    as [[e b] st2].
  destruct (negb (e =? 0)).
  { cbn [fc_state fc_inode]. destruct (write_inode _ _ _); reflexivity. }
  destruct (disk_write st2 r _) as [e2 st3].
  destruct (negb (e2 =? 0)).
  { cbn [fc_state fc_inode]. destruct (write_inode _ _ _); reflexivity. }
  reflexivity.
Qed.

(** *** What the device calls keep of the session, whatever they return *)

Lemma disk_read_keep st s e b st' :
  mounted_ok st -> disk_read st s = (e, b, st') ->
  mounted_ok st' /\ superblock st' = superblock st /\
  length b = Z.to_nat BLOCK_SIZE.
Proof.
  intros Hm. unfold disk_read, vdisk_read.
  destruct (in_range _ _).
  - destruct (device_fault st) as [x st1] eqn:Ef.
    apply device_fault_frame in Ef. destruct Ef as (F1 & F2 & F3 & F4 & _).
    pose proof (mounted_ok_same st st1 F1 F2 F3 F4 Hm) as Hm1.
    destruct (x =? 0); intros H; injection H as <- <- <-.
    + split; [exact Hm1|]. split; [exact F2|]. apply (length_blk st s Hm).
    + split; [exact Hm1|]. split; [exact F2|apply length_zero_block].
  - intros H; injection H as <- <- <-.
    split; [exact Hm|]. split; [reflexivity|apply length_zero_block].
Qed.

Lemma disk_write_keep st s buf e st' :
  mounted_ok st -> length buf = Z.to_nat BLOCK_SIZE ->
  disk_write st s buf = (e, st') ->
  mounted_ok st' /\ superblock st' = superblock st.
Proof.
  intros Hm Hl. unfold disk_write, vdisk_write.
  destruct (in_range _ _).
  - destruct (device_fault st) as [x st1] eqn:Ef.
    apply device_fault_frame in Ef. destruct Ef as (F1 & F2 & F3 & F4 & _).
    pose proof (mounted_ok_same st st1 F1 F2 F3 F4 Hm) as Hm1.
    destruct (x =? 0); intros H; injection H as <- <-.
    + split; [|exact F2]. rewrite <- F3.
      apply (mounted_ok_put st1 s buf Hm1 Hl).
    + split; [|exact F2].
      apply (mounted_ok_same st1);
        [reflexivity|reflexivity|simpl; congruence|reflexivity|exact Hm1].
  - intros H; injection H as <- <-. split; [|reflexivity].
    apply (mounted_ok_same st);
      [reflexivity|reflexivity|reflexivity|reflexivity|exact Hm].
Qed.

Lemma find_free_block_keep st b st' :
  mounted_ok st -> find_free_block st = (b, st') ->
  mounted_ok st' /\ superblock st' = superblock st /\ b < 2 ^ 31.
Proof.
  intros Hm H. pose proof Hm as (Hmt & Hsb & _).
  destruct (find_free_block_history st b st' Hmt Hsb H) as [[Hb ->]|[Hb ->]].
  - split; [exact Hm|]. split; [reflexivity|lia].
  - split; [apply (mounted_ok_alloc st b Hm)|]. split; [reflexivity|].
    destruct Hsb as (_ & _ & _ & H4). unfold INT_MAX in H4. lia.
Qed.

Lemma free_block_keep st b :
  mounted_ok st ->
  mounted_ok (free_block st b) /\ superblock (free_block st b) = superblock st.
Proof.
  intros Hm. unfold free_block. destruct (_ && _)%bool; [|split; [exact Hm|reflexivity]].
  split; [|reflexivity].
  destruct Hm as (H1 & H2 & H3 & H4 & H5). unfold mounted_ok, bitmap_set.
  simpl. rewrite length_insert. repeat split; try assumption; apply H2.
Qed.

Ltac keep_leaf :=
  let H := fresh in
  intros H; injection H as <- <- <-;
  repeat match goal with
  | Hm : mounted_ok ?s |- context [free_block ?s ?b] =>
      let A := fresh in let B := fresh in
      destruct (free_block_keep s b Hm) as [A B];
      generalize dependent (free_block s b); intros
  end;
  first [split; [assumption|congruence] | split; [assumption|reflexivity]].

Lemma gbfo_double_data_keep st inode page k allocate r inode' st' :
  mounted_ok st -> k < POINTERS_PER_BLOCK ->
  gbfo_double_data st inode page k allocate = (r, inode', st') ->
  mounted_ok st' /\ superblock st' = superblock st.
Proof.
  intros Hm Hk. unfold gbfo_double_data. change POINTERS_PER_BLOCK with 256 in Hk.
  destruct (disk_read st page) as [[e pg] s1] eqn:E1.
  destruct (disk_read_keep _ _ _ _ _ Hm E1) as (Hm1 & Hb1 & Hl1).
  destruct (negb (e =? 0)); [keep_leaf|].
  destruct (_ && _)%bool; [|keep_leaf].
  destruct (find_free_block s1) as [nb s2] eqn:E2.
  destruct (find_free_block_keep _ _ _ Hm1 E2) as (Hm2 & Hb2 & _).
  destruct (nb <? 0); [keep_leaf|].
  destruct (disk_write s2 nb zero_block) as [e3 s3] eqn:E3.
  destruct (disk_write_keep _ _ _ _ _ Hm2 length_zero_block E3) as (Hm3 & Hb3).
  destruct (negb (e3 =? 0)); [keep_leaf|].
  cbv zeta.
  destruct (disk_write (log s3 _) page _) as [e4 s4] eqn:E4.
  apply disk_write_keep in E4;
    [|exact Hm3|rewrite length_set_u32; rewrite Hl1; [reflexivity|];
                change BLOCK_SIZE with 1024; lia].
  destruct E4 as (Hm4 & Hb4). cbn [superblock log] in Hb4.
  destruct (negb (e4 =? 0)); keep_leaf.
Qed.

Lemma gbfo_double_entry_keep st inode bi allocate r inode' st' :
  mounted_ok st -> 0 <= bi < POINTERS_PER_BLOCK * POINTERS_PER_BLOCK ->
  gbfo_double_entry st inode bi allocate = (r, inode', st') ->
  mounted_ok st' /\ superblock st' = superblock st.
Proof.
  intros Hm Hbi. unfold gbfo_double_entry.
  change POINTERS_PER_BLOCK with 256 in *.
  assert (Hj : Z.quot bi 256 < 256).
  { rewrite Z.quot_div_nonneg by lia. apply Z.div_lt_upper_bound; lia. }
  assert (He : Z.rem bi 256 < POINTERS_PER_BLOCK).
  { rewrite Z.rem_mod_nonneg by lia. apply Z.mod_pos_bound. reflexivity. }
  destruct (disk_read st _) as [[e pg] s1] eqn:E1.
  destruct (disk_read_keep _ _ _ _ _ Hm E1) as (Hm1 & Hb1 & Hl1).
  destruct (negb (e =? 0)); [keep_leaf|].
  cbv zeta.
  destruct (_ && _)%bool.
  - destruct (find_free_block s1) as [nb s2] eqn:E2.
    destruct (find_free_block_keep _ _ _ Hm1 E2) as (Hm2 & Hb2 & _).
    destruct (nb <? 0); [keep_leaf|].
    destruct (disk_write s2 nb zero_block) as [e3 s3] eqn:E3.
    destruct (disk_write_keep _ _ _ _ _ Hm2 length_zero_block E3) as (Hm3 & Hb3).
    destruct (negb (e3 =? 0)); [keep_leaf|].
    destruct (disk_write (log s3 _) _ _) as [e4 s4] eqn:E4.
    apply disk_write_keep in E4;
      [|exact Hm3|rewrite length_set_u32; rewrite Hl1; [reflexivity|];
                  change BLOCK_SIZE with 1024; lia].
    destruct E4 as (Hm4 & Hb4). cbn [superblock log] in Hb4.
    destruct (negb (e4 =? 0)); [keep_leaf|].
    intros H. apply gbfo_double_data_keep in H; [|exact Hm4|exact He].
    destruct H as [H1 H2]. split; [exact H1|congruence].
  - destruct (_ =? 0); [keep_leaf|].
    intros H. apply gbfo_double_data_keep in H; [|exact Hm1|exact He].
    destruct H as [H1 H2]. split; [exact H1|congruence].
Qed.


Lemma alloc_link_keep st inode f0
    (rest : inode_t -> fs_state -> Z * inode_t * fs_state) r inode' st' :
  mounted_ok st -> inode_ok inode ->
  (let '(new_block, st) := find_free_block st in
   if new_block <? 0 then (new_block, inode, st)
   else
     let '(result, st) := disk_write st new_block zero_block in
     if negb (result =? 0) then (result, inode, free_block st new_block)
     else rest (set_field inode f0 new_block) (log st (EvLink new_block)))
  = (r, inode', st') ->
  (mounted_ok st' /\ superblock st' = superblock st /\ inode' = inode) \/
  exists b st1,
    mounted_ok st1 /\ superblock st1 = superblock st /\
    inode_ok (set_field inode f0 b) /\
    rest (set_field inode f0 b) st1 = (r, inode', st').
Proof.
  intros Hm Hok.
  destruct (find_free_block st) as [nb s2] eqn:E2.
  destruct (find_free_block_keep _ _ _ Hm E2) as (Hm2 & Hb2 & Hnb).
  destruct (nb <? 0) eqn:Hneg.
  { intros H; injection H as <- <- <-. left.
    split; [exact Hm2|]. split; [exact Hb2|reflexivity]. }
  apply Z.ltb_ge in Hneg.
  destruct (disk_write s2 nb zero_block) as [e3 s3] eqn:E3.
  destruct (disk_write_keep _ _ _ _ _ Hm2 length_zero_block E3) as (Hm3 & Hb3).
  destruct (negb (e3 =? 0)).
  { intros H; injection H as <- <- <-. left.
    destruct (free_block_keep s3 nb Hm3) as [A B].
    split; [exact A|]. split; [congruence|reflexivity]. }
  intros H. right. exists nb, (log s3 (EvLink nb)).
  split; [exact Hm3|]. split; [cbn [superblock log]; congruence|].
  split; [apply set_field_ok; [exact Hok|lia]|exact H].
Qed.

(** Whatever the device does, [get_block_for_offset] leaves a mounted
    session and an inode record, and does not touch [size] or [valid]. *)
Lemma gbfo_keep st inode off allocate r inode' st' :
  mounted_ok st -> inode_ok inode -> 0 <= off < 2 ^ 31 ->
  get_block_for_offset st inode off allocate = (r, inode', st') ->
  mounted_ok st' /\ superblock st' = superblock st /\
  inode_ok inode' /\ size inode' = size inode /\ valid inode' = valid inode.
Proof.
  intros Hm Hok Hoff. unfold get_block_for_offset.
  assert (Hleaf : forall x, (x, inode, st) = (r, inode', st') ->
            mounted_ok st' /\ superblock st' = superblock st /\
            inode_ok inode' /\ size inode' = size inode /\
            valid inode' = valid inode).
  { intros x H. injection H as _ <- <-.
    split; [exact Hm|]. split; [reflexivity|]. split; [exact Hok|].
    split; reflexivity. }
  destruct (negb (disk_mounted st)); [apply Hleaf|].
  destruct (off <? 0); [apply Hleaf|].
  cbv zeta. change BLOCK_SIZE with 1024.
  rewrite Z.quot_div_nonneg by lia.
  assert (Hk : 0 <= off / 1024 < 2 ^ 21).
  { split; [apply Z.div_pos; lia|apply Z.div_lt_upper_bound; lia]. }
  set (k := off / 1024) in *. change POINTERS_PER_BLOCK with 256.
  destruct (k <? 4) eqn:E1; [apply Z.ltb_lt in E1|apply Z.ltb_ge in E1].
  { destruct (_ && _)%bool; [|apply Hleaf].
    intros H.
    apply (alloc_link_keep st inode (FDirect k)
             (fun i s => (to_int (direct i k), i, s))) in H; try assumption.
    destruct H as [(A & B & ->)|(b & s1 & A & B & C & H)].
    - split; [exact A|]. split; [exact B|]. split; [exact Hok|]. split; reflexivity.
    - injection H as _ <- <-.
      split; [exact A|]. split; [exact B|]. split; [exact C|].
      apply (set_field_size inode (FDirect k) b). }
  rewrite (to_uint32_small (k - 4)) by lia.
  destruct (k - 4 <? 256) eqn:E2; [apply Z.ltb_lt in E2|apply Z.ltb_ge in E2].
  { destruct (indirect_block inode =? 0).
    - destruct (negb allocate); [apply Hleaf|].
      intros H.
      apply (alloc_link_keep st inode FInd
               (fun i s => gbfo_indirect_entry s i (k - 4) allocate)) in H;
        try assumption.
      destruct H as [(A & B & ->)|(b & s1 & A & B & C & H)].
      + split; [exact A|]. split; [exact B|]. split; [exact Hok|].
        split; reflexivity.
      + rewrite gbfo_indirect_entry_eq in H.
        pose proof (gbfo_double_data_inode _ _ _ _ _ _ _ _ H) as ->.
        apply gbfo_double_data_keep in H;
          [|exact A|change POINTERS_PER_BLOCK with 256; lia].
        destruct H as [H1 H2].
        split; [exact H1|]. split; [congruence|]. split; [exact C|].
        apply (set_field_size inode FInd b).
    - rewrite gbfo_indirect_entry_eq. intros H.
      pose proof (gbfo_double_data_inode _ _ _ _ _ _ _ _ H) as ->.
      apply gbfo_double_data_keep in H;
        [|exact Hm|change POINTERS_PER_BLOCK with 256; lia].
      destruct H as [H1 H2].
      split; [exact H1|]. split; [exact H2|]. split; [exact Hok|].
      split; reflexivity. }
  rewrite (to_uint32_small (k - 4 - 256)) by lia.
  destruct (k - 4 - 256 <? 256 * 256) eqn:E3;
    [apply Z.ltb_lt in E3|apply Hleaf].
  assert (Hbi : 0 <= k - 4 - 256 < POINTERS_PER_BLOCK * POINTERS_PER_BLOCK)
    by (change POINTERS_PER_BLOCK with 256; lia).
  destruct (double_indirect_block inode =? 0).
  - destruct (negb allocate); [apply Hleaf|].
    intros H.
    apply (alloc_link_keep st inode FDbl
             (fun i s => gbfo_double_entry s i (k - 4 - 256) allocate)) in H;
      try assumption.
    destruct H as [(A & B & ->)|(b & s1 & A & B & C & H)].
    + split; [exact A|]. split; [exact B|]. split; [exact Hok|].
      split; reflexivity.
    + pose proof (gbfo_double_entry_inode _ _ _ _ _ _ _ H) as ->.
      apply gbfo_double_entry_keep in H; [|exact A|exact Hbi].
      destruct H as [H1 H2].
      split; [exact H1|]. split; [congruence|]. split; [exact C|].
      apply (set_field_size inode FDbl b).
  - intros H.
    pose proof (gbfo_double_entry_inode _ _ _ _ _ _ _ H) as ->.
    apply gbfo_double_entry_keep in H; [|exact Hm|exact Hbi].
    destruct H as [H1 H2].
    split; [exact H1|]. split; [exact H2|]. split; [exact Hok|].
    split; reflexivity.
Qed.

Lemma fill_step_keep c zend early c' :
  mounted_ok (fc_state c) -> inode_ok (fc_inode c) ->
  0 <= fc_offset c < zend -> zend < 2 ^ 31 ->
  fill_step c zend = (early, c') ->
  mounted_ok (fc_state c') /\
  superblock (fc_state c') = superblock (fc_state c) /\
  inode_ok (fc_inode c') /\
  size (fc_inode c') = size (fc_inode c) /\
  valid (fc_inode c') = valid (fc_inode c) /\
  match early with
  | Some _ => fc_offset c' = fc_offset c
  | None => fc_offset c < fc_offset c' <= zend
  end.
Proof.
  intros Hm Hok Hc Hz. unfold fill_step.
  destruct (get_block_for_offset _ _ _ _) as [[r inode1] s1] eqn:Eg.
  destruct (gbfo_keep _ _ _ _ _ _ _ Hm Hok (conj (proj1 Hc) (Z.lt_trans _ _ _ (proj2 Hc) Hz)) Eg)
    as (Hm1 & Hb1 & Hok1 & Hz1 & Hv1).
  destruct (r <=? 0).
  { intros H; injection H as <- <-. cbn [fc_state fc_inode fc_offset].
    repeat (split; [assumption|]). reflexivity. }
  rewrite Z.rem_mod_nonneg by (change BLOCK_SIZE with 1024; lia).
  destruct (round_chunk (fc_offset c) (zend - fc_offset c)) as (Hn1 & Hn2 & Hfit & _);
    [lia|lia|].
  pose proof (Z.mod_pos_bound (fc_offset c) BLOCK_SIZE eq_refl) as Hbo.
  set (boff := fc_offset c mod BLOCK_SIZE) in *.
  set (n := if zend - fc_offset c <? BLOCK_SIZE - boff
            then zend - fc_offset c else BLOCK_SIZE - boff) in *.
  destruct (if (_ || _)%bool then disk_read s1 r else (0, zero_block, s1))
    as [[e b] s2] eqn:Er.
  assert (Hr : mounted_ok s2 /\ superblock s2 = superblock s1 /\
               length b = Z.to_nat BLOCK_SIZE).
  { destruct (_ || _)%bool.
    - apply (disk_read_keep _ _ _ _ _ Hm1 Er).
    - injection Er as _ <- <-.
      split; [exact Hm1|]. split; [reflexivity|apply length_zero_block]. }
  destruct Hr as (Hm2 & Hb2 & Hl2).
  destruct (negb (e =? 0)).
  { intros H; injection H as <- <-. cbn [fc_state fc_inode fc_offset].
    split; [exact Hm2|]. split; [congruence|].
    repeat (split; [assumption|]). reflexivity. }
  destruct (disk_write s2 r _) as [e3 s3] eqn:Ew.
  apply disk_write_keep in Ew; [|exact Hm2|].
  2:{ rewrite memset0_memcpy, length_memcpy; [exact Hl2| |].
      - rewrite Hl2. lia.
      - rewrite length_replicate. lia. }
  destruct Ew as (Hm3 & Hb3).
  destruct (negb (e3 =? 0)); intros H; injection H as <- <-;
    cbn [fc_state fc_inode fc_offset];
    (split; [exact Hm3|]); (split; [congruence|]);
    repeat (split; [assumption|]); [reflexivity|lia].
Qed.

Lemma fill_rounds_keep zend c c' :
  fill_rounds zend c c' ->
  mounted_ok (fc_state c) -> inode_ok (fc_inode c) ->
  0 <= fc_offset c -> zend < 2 ^ 31 ->
  mounted_ok (fc_state c') /\
  superblock (fc_state c') = superblock (fc_state c) /\
  inode_ok (fc_inode c') /\
  size (fc_inode c') = size (fc_inode c) /\
  valid (fc_inode c') = valid (fc_inode c) /\
  fc_offset c <= fc_offset c'.
Proof.
  induction 1 as [c|c c1 c' Hlt Hs _ IH]; intros Hm Hok Hc Hz.
  - repeat (split; [assumption || reflexivity|]). lia.
  - destruct (fill_step_keep c zend None c1 Hm Hok (conj Hc Hlt) Hz Hs)
      as (Hm1 & Hb1 & Hok1 & Hz1 & Hv1 & Hadv).
    destruct (IH Hm1 Hok1) as (Hm2 & Hb2 & Hok2 & Hz2 & Hv2 & Hle); [lia|exact Hz|].
    split; [exact Hm2|]. split; [congruence|]. split; [exact Hok2|].
    split; [congruence|]. split; [congruence|lia].
Qed.

Lemma fill_rounds_loop i zend c c' :
  fill_rounds zend c c' ->
  mounted_ok (fc_state c) -> inode_ok (fc_inode c) ->
  0 <= fc_offset c -> zend < 2 ^ 31 ->
  forall fuel,
    zend - fc_offset c <= Z.of_nat fuel ->
    exists fuel',
      fill_loop fuel (fc_state c) i (fc_inode c) (fc_offset c) zend
      = fill_loop fuel' (fc_state c') i (fc_inode c') (fc_offset c') zend /\
      zend - fc_offset c' <= Z.of_nat fuel'.
Proof.
  induction 1 as [c|c c1 c' Hlt Hs _ IH]; intros Hm Hok Hc Hz fuel Hf.
  - exists fuel. split; [reflexivity|exact Hf].
  - destruct fuel as [|fuel]; [lia|].
    destruct (fill_step_keep c zend None c1 Hm Hok (conj Hc Hlt) Hz Hs)
      as (Hm1 & Hb1 & Hok1 & Hz1 & Hv1 & Hadv).
    destruct (IH Hm1 Hok1) with (fuel := fuel) as (fuel' & E & Hf');
      [lia|exact Hz|lia|].
    exists fuel'. split; [|exact Hf'].
    rewrite fill_loop_step.
    replace (fc_offset c <? zend) with true by (symmetry; apply Z.ltb_lt; exact Hlt).
    destruct c as [s0 i0 o0]. cbn [fc_state fc_inode fc_offset] in *.
    rewrite Hs. exact E.
Qed.

(** What holds of C2: in a mounted session, [write(i, data, len, offset)]
    with [offset] beyond the size [s] of the file.

    On a working device and a well-formed file, if the call succeeds (it
    returns [len]), reading any part [[a, a + n)] of the gap [[s, offset)]
    afterwards returns only zero bytes, and all [n] of them when [len > 0]
    (with [len = 0] the inode is not written back, the file keeps its size
    and the read returns no byte).

    On a device that fails: [c] is the state of the fill loop after any
    number of rounds that filled their block and [fill_step] fails in the
    next round with code [e].  Then [write] returns [e], after it has set
    the size of the inode to the offset [fc_offset c] the fill has reached
    and called [write_inode] with it; the record is on the device as soon as
    the device works again for that call. *)
Theorem write_zero_fill (st : fs_state) (i : Z) (data : list byte)
    (len offset : Z) :
  mounted_ok st -> 0 <= i < inode_count st ->
  size (inode_at st i) < offset ->
  0 <= len -> offset + len <= addressable_max ->
  (healthy st -> file_ok st i -> (Z.to_nat len <= length data)%nat ->
   forall st', write st i data len offset = (len, st') ->
   forall a n buf,
     size (inode_at st i) <= a -> 0 < n -> a + n <= offset ->
     (Z.to_nat n <= length buf)%nat ->
     exists r buf',
       read st' i buf n a = (r, buf', st') /\
       (0 < len -> r = n) /\
       (forall j, 0 <= j < r -> buf' !! Z.to_nat j = Some Byte.x00)) /\
  (forall inode0 st0 c e cf,
     read_inode st i false = (0, inode0, st0) ->
     byte.unsigned (valid inode0) <> 0 ->
     fill_rounds offset (mk_fill_cfg st0 inode0 (size inode0)) c ->
     fc_offset c < offset ->
     fill_step c offset = (Some e, cf) ->
     write st i data len offset
     = (e, snd (write_inode (fc_state cf) i
                  (advance_size (fc_inode cf) (fc_offset c)))) /\
     size (advance_size (fc_inode cf) (fc_offset c)) = fc_offset c /\
     (healthy (fc_state cf) ->
      inode_at (snd (write_inode (fc_state cf) i
                       (advance_size (fc_inode cf) (fc_offset c)))) i
      = advance_size (fc_inode cf) (fc_offset c))).
Proof.
  intros Hm Hi Hgap Hlen Hend. pose proof addressable_max_int as Hmax.
  pose proof Hm as (Hmt & Hsb & _).
  split.
  - intros Hh Hf Hdata st' Hw a n buf Ha Hn Han Hbuf.
    assert (Hs_pos : 0 <= size (inode_at st i)) by apply Hf.
    destruct (Z.eq_dec len 0) as [->|Hpos].
    + destruct (write_empty st i data offset st' Hm Hh Hf) as (Hm' & Hh' & Hsb' & Hi');
        [lia|exact Hw|].
      destruct Hf as (_ & Hv & _).
      pose proof Hm' as (Hmt' & Hsbok' & _).
      assert (Hi2 : 0 <= i < inode_count st')
        by (rewrite (inode_count_frame st st' Hsb'); exact Hi).
      exists 0, buf. split; [|split; [lia|intros; lia]].
      unfold read. rewrite Hmt', (bad_inode_num_false st' i Hsbok' Hi2). cbn [negb].
      rewrite (read_inode_ok st' i false Hm' Hh' Hi2). cbn [negb Z.eqb].
      rewrite Hi'. apply Z.eqb_neq in Hv. rewrite Hv.
      unfold read_count. rewrite (to_uint32_small a) by lia.
      replace (a <? size (inode_at st i)) with false
        by (symmetry; apply Z.ltb_ge; lia).
      reflexivity.
    + assert (Hlen' : 0 < len) by lia.
      pose proof (write_ok st i data len offset st' Hm Hh Hf
                    (Z.le_trans _ _ _ Hs_pos (Z.lt_le_incl _ _ Hgap))
                    Hlen' Hend Hdata Hw) as Hwr.
      pose proof (written_file_ok st i data len offset st' Hf
                    (Z.le_trans _ _ _ Hs_pos (Z.lt_le_incl _ _ Hgap))
                    Hlen Hend Hwr) as Hf'.
      destruct Hwr as (S & _ & _ & Hsz & _ & _ & Hzero & _).
      destruct (read_ok st' i buf n a) as (buf' & E & Hl & Hin & Hout);
        [apply S|apply S|exact Hf'|lia|exact Hn|lia|exact Hbuf|].
      exists n, buf'. split; [exact E|]. split; [reflexivity|].
      intros j Hj. rewrite (Hin j Hj). f_equal. apply Hzero. lia.
  - intros inode0 st0 c e cf Hread Hv Hrounds Hmore Hstep.
    destruct (read_inode_inv st i false inode0 st0 Hread)
      as (E0 & F1 & F2 & F3 & F4 & _).
    pose proof (mounted_ok_same st st0 F1 F2 F3 F4 Hm) as Hm0.
    assert (Hok0 : inode_ok inode0) by (rewrite E0; apply decode_inode_ok).
    assert (Hs_pos : 0 <= size inode0) by apply Hok0.
    assert (Hz : offset < 2 ^ 31) by lia.
    assert (Hsz0 : size inode0 < offset) by (rewrite E0; exact Hgap).
    destruct (fill_rounds_keep offset _ c Hrounds Hm0 Hok0 Hs_pos Hz)
      as (Hmc & Hbc & Hokc & Hzc & Hvc & Hlec).
    cbn [fc_state fc_inode fc_offset] in Hbc, Hzc, Hvc, Hlec.
    destruct (fill_step_keep c offset (Some e) cf Hmc Hokc) as
      (Hmf & Hbf & Hokf & Hzf & Hvf & Hof); [lia|exact Hz|exact Hstep|].
    set (rec := advance_size (fc_inode cf) (fc_offset c)).
    assert (Hsize : size rec = fc_offset c).
    { unfold rec, advance_size. cbn [size set_size].
      rewrite (to_uint32_small (fc_offset c)) by lia.
      destruct (size (fc_inode cf) <? fc_offset c) eqn:E;
        [reflexivity|apply Z.ltb_ge in E; lia]. }
    split; [|split; [exact Hsize|]].
    + unfold write. rewrite Hmt, (bad_inode_num_false st i Hsb Hi). cbn [negb].
      rewrite Hread. cbn [negb Z.eqb].
      apply Z.eqb_neq in Hv. rewrite Hv.
      unfold write_fill. rewrite (to_uint32_small offset) by lia.
      replace (size inode0 <? offset) with true by (symmetry; apply Z.ltb_lt; lia).
      rewrite (to_int_small (size inode0)) by lia.
      destruct (fill_rounds_loop i offset _ c Hrounds Hm0 Hok0 Hs_pos Hz
                  (Z.to_nat (offset - size inode0))) as (fuel & E & Hfuel).
      { cbn [fc_offset]. lia. }
      cbn [fc_state fc_inode fc_offset] in E. rewrite E.
      destruct fuel as [|fuel]; [lia|].
      rewrite fill_loop_step.
      replace (fc_offset c <? offset) with true by (symmetry; apply Z.ltb_lt; lia).
      destruct c as [sc ic oc]. cbn [fc_state fc_inode fc_offset] in *.
      rewrite Hstep. reflexivity.
    + intros Hh.
      assert (Hif : 0 <= i < inode_count (fc_state cf)).
      { rewrite (inode_count_frame st (fc_state cf)); [exact Hi|congruence]. }
      rewrite (write_inode_ok (fc_state cf) i rec Hmf Hh Hif). cbn [snd].
      apply inode_at_store_same; [exact Hmf|exact Hif|].
      destruct Hokf as (H1 & H2 & H3 & H4 & H5).
      split; [rewrite Hsize; lia|]. split; [exact H2|]. split; [exact H3|].
      split; [exact H4|exact H5].
Qed.

Lemma example_fill_fails_ok : mounted_ok example_fill_fails.
Proof.
  unfold mounted_ok, superblock_ok.
  repeat split; try by_eval.
  vm_compute. repeat constructor.
Qed.

Lemma write_zero_fill_witness :
  (exists r buf',
     read (snd (write example_file 0 [Byte.x58] 1 5000)) 0
       (replicate 8 Byte.x01) 8 4990
     = (r, buf', snd (write example_file 0 [Byte.x58] 1 5000)) /\
     (0 < 1 -> r = 8) /\
     (forall j, 0 <= j < r -> buf' !! Z.to_nat j = Some Byte.x00)) /\
  (write example_fill_fails 0 [Byte.x58] 1 5000
   = (-7, snd (write_inode (fc_state example_fill_failed) 0
                 (advance_size (fc_inode example_fill_failed)
                    (fc_offset example_fill_round)))) /\
   size (advance_size (fc_inode example_fill_failed)
           (fc_offset example_fill_round))
   = fc_offset example_fill_round /\
   (healthy (fc_state example_fill_failed) ->
    inode_at (snd (write_inode (fc_state example_fill_failed) 0
                     (advance_size (fc_inode example_fill_failed)
                        (fc_offset example_fill_round)))) 0
    = advance_size (fc_inode example_fill_failed)
        (fc_offset example_fill_round))).
Proof.
  split.
  - apply (proj1 (write_zero_fill example_file 0 [Byte.x58] 1 5000
                    example_file_ok ltac:(split; by_eval) ltac:(by_eval)
                    ltac:(lia) ltac:(by_eval))).
    + by_eval.
    + exact example_file_fresh.
    + simpl. lia.
    + by_eval.
    + by_eval.
    + lia.
    + lia.
    + simpl. lia.
  - apply (proj2 (write_zero_fill example_fill_fails 0 [Byte.x58] 1 5000
                    example_fill_fails_ok ltac:(split; by_eval) ltac:(by_eval)
                    ltac:(lia) ltac:(by_eval))
             (fc_inode example_fill_start) (fc_state example_fill_start)
             example_fill_round (-7) example_fill_failed).
    + by_eval.
    + by_eval.
    + apply (fill_rounds_step 5000 _ example_fill_round).
      * by_eval.
      * by_eval.
      * apply fill_rounds_refl.
    + by_eval.
    + by_eval.
Defined.

(** C2 fails for an empty write.  In the session [example_file], where file
    0 is empty, [write(0, data, 0, 5)] succeeds (it returns 0 = [len]); its
    fill takes block 2, writes zeros to it and sets [inode.size = 5] in
    memory.  Step 7 then compares [current_offset = 5] with that size and
    does not write the inode back: on the device the file still has size 0
    and no block, [stat] returns 0 and reading the gap [[0, 5)] returns no
    byte at all, while the bitmap keeps block 2 as used. *)
Lemma write_empty_fill_lost :
  fst (write example_file 0 [] 0 5) = 0 /\
  size (inode_at example_file 0) = 0 /\
  fst (stat (snd (write example_file 0 [] 0 5)) 0) = 0 /\
  fst (fst (read (snd (write example_file 0 [] 0 5)) 0
              (replicate 5 Byte.x01) 5 0)) = 0 /\
  direct_blocks (inode_at (snd (write example_file 0 [] 0 5)) 0) = [0; 0; 0; 0] /\
  bitmap_get example_file 2 = 0 /\
  bitmap_get (snd (write example_file 0 [] 0 5)) 2 = 1.
Proof. repeat split; by_eval. Qed.

(** * Further properties of [fs.c] *)

(** ** [stat] *)

(** [stat] on a working device: the size of a valid inode, and
    [E_INVALID_INODE] for a free inode or a number outside of the inode
    table; the session is left as it is. *)
Theorem stat_spec (st : fs_state) (i : Z) :
  mounted_ok st -> healthy st ->
  (0 <= i < inode_count st ->
   stat st i
   = (if byte.unsigned (valid (inode_at st i)) =? 0 then E_INVALID_INODE
      else to_int (size (inode_at st i)), st)) /\
  (i < 0 \/ inode_count st <= i < 2 ^ 31 -> stat st i = (E_INVALID_INODE, st)).
Proof.
  intros Hm Hh. pose proof Hm as (Hmt & Hsb & _). unfold stat. rewrite Hmt.
  cbn [negb]. split.
  - intros Hi. rewrite (bad_inode_num_false st i Hsb Hi).
    rewrite (read_inode_ok st i false Hm Hh Hi). cbn [negb Z.eqb].
    destruct (_ =? 0); reflexivity.
  - intros Hi. replace (bad_inode_num st i) with true; [reflexivity|].
    symmetry. unfold bad_inode_num. apply orb_true_iff.
    destruct Hi as [Hneg|Hbig]; [left; apply Z.ltb_lt; exact Hneg|right].
    pose proof (inode_count_ok st Hsb) as Hc.
    assert (0 <= inode_count st).
    { rewrite Hc. destruct Hsb as (? & _). change INODES_PER_BLOCK with 32. lia. }
    rewrite to_uint32_small by lia. apply Z.leb_le. lia.
Qed.

Lemma stat_spec_witness :
  stat example_file 0 = (0, example_file) /\
  stat example_file 1 = (E_INVALID_INODE, example_file) /\
  stat example_file 32 = (E_INVALID_INODE, example_file).
Proof.
  destruct (stat_spec example_file 0 example_file_ok) as [H0 _]; [by_eval|].
  destruct (stat_spec example_file 1 example_file_ok) as [H1 _]; [by_eval|].
  destruct (stat_spec example_file 32 example_file_ok) as [_ H2]; [by_eval|].
  split; [exact (H0 ltac:(split; by_eval))|].
  split; [exact (H1 ltac:(split; by_eval))|].
  apply H2. right. split; by_eval.
Defined.

(** ** [read_inode] and [write_inode] *)

(** On a working device [write_inode(i, &rec)] succeeds for every inode
    number of the table; afterwards [read_inode(i)] gives [rec] back, every
    other inode reads as before and no block but the one that holds record
    [i] has changed.  For a number outside of the table both functions
    return [E_INVALID_INODE] and change nothing. *)
Theorem write_inode_read_inode (st : fs_state) (i : Z) (rec : inode_t) :
  mounted_ok st -> healthy st -> inode_ok rec ->
  (0 <= i < inode_count st ->
   exists st',
     write_inode st i rec = (0, st') /\
     mounted_ok st' /\ healthy st' /\
     read_inode st' i false = (0, rec, st') /\
     (forall j, 0 <= j < inode_count st -> j <> i ->
        read_inode st' j false = (0, inode_at st j, st')) /\
     (forall b, 0 <= b -> b <> 1 + i / INODES_PER_BLOCK ->
        blk st' b = blk st b)) /\
  (i < 0 \/ inode_count st <= i < 2 ^ 31 ->
   write_inode st i rec = (E_INVALID_INODE, st) /\
   fst (fst (read_inode st i false)) = E_INVALID_INODE).
Proof.
  intros Hm Hh Hok. pose proof Hm as (Hmt & Hsb & _). split.
  - intros Hi. exists (store_inode st i rec).
    pose proof (mounted_ok_store_inode st i rec Hm (proj1 Hi)) as Hm'.
    assert (Hh' : healthy (store_inode st i rec)) by exact Hh.
    assert (Hc : inode_count (store_inode st i rec) = inode_count st) by reflexivity.
    split; [apply write_inode_ok; assumption|].
    split; [exact Hm'|]. split; [exact Hh'|]. split; [|split].
    + rewrite read_inode_ok by (try assumption; rewrite Hc; exact Hi).
      rewrite inode_at_store_same by assumption. reflexivity.
    + intros j Hj Hne.
      rewrite read_inode_ok by (try assumption; rewrite Hc; exact Hj).
      rewrite inode_at_store_other by (try assumption; lia). reflexivity.
    + intros b Hb Hne. apply blk_store_inode_other; [lia|exact Hb|].
      change INODES_PER_BLOCK with 32 in *.
      rewrite Z.quot_div_nonneg by lia. exact Hne.
  - intros Hi.
    assert (Hbad : bad_inode_num st i = true).
    { unfold bad_inode_num. apply orb_true_iff.
      destruct Hi as [Hneg|Hbig]; [left; apply Z.ltb_lt; exact Hneg|right].
      pose proof (inode_count_ok st Hsb) as Hc.
      assert (0 <= inode_count st).
      { rewrite Hc. destruct Hsb as (? & _). change INODES_PER_BLOCK with 32. lia. }
      rewrite to_uint32_small by lia. apply Z.leb_le. lia. }
    unfold write_inode, read_inode. rewrite Hmt, Hbad. split; reflexivity.
Qed.

Lemma write_inode_read_inode_witness :
  exists st',
    write_inode example_file 1 (created (inode_at example_file 1)) = (0, st') /\
    read_inode st' 1 false = (0, created (inode_at example_file 1), st') /\
    read_inode st' 0 false = (0, inode_at example_file 0, st').
Proof.
  destruct (write_inode_read_inode example_file 1
              (created (inode_at example_file 1)) example_file_ok)
    as [H _]; [by_eval| |].
  - unfold inode_ok, created. simpl. repeat split; try lia.
    repeat constructor; lia.
  - destruct (H ltac:(split; by_eval)) as (st' & Ew & _ & _ & Er & Ho & _).
    exists st'. split; [exact Ew|]. split; [exact Er|].
    apply Ho; [split; by_eval|discriminate].
Defined.

(** ** The range check of [get_block_for_offset] *)

(** An offset that is negative or at least [addressable_max] is refused
    with [E_INVALID_OFFSET], with or without [allocate]; the inode, the
    bitmap and the device are not touched. *)
Theorem gbfo_out_of_range (st : fs_state) (inode : inode_t) (offset : Z)
    (allocate : bool) :
  disk_mounted st = true ->
  offset < 0 \/ addressable_max <= offset <= INT_MAX ->
  get_block_for_offset st inode offset allocate = (E_INVALID_OFFSET, inode, st).
Proof.
  intros Hm [Hneg|Hbig]; [apply gbfo_negative; assumption|].
  unfold addressable_max, MAX_BLOCKS, INT_MAX in Hbig.
  unfold get_block_for_offset. rewrite Hm. cbn [negb].
  change POINTERS_PER_BLOCK with 256 in *. change BLOCK_SIZE with 1024 in *.
  replace (offset <? 0) with false by (symmetry; apply Z.ltb_ge; lia).
  cbv zeta. rewrite Z.quot_div_nonneg by lia.
  assert (Hk : 65796 <= offset / 1024 < 2 ^ 21).
  { split; [apply Z.div_le_lower_bound; lia|apply Z.div_lt_upper_bound; lia]. }
  set (k := offset / 1024) in *.
  replace (k <? 4) with false by (symmetry; apply Z.ltb_ge; lia).
  rewrite (to_uint32_small (k - 4)) by lia.
  replace (k - 4 <? 256) with false by (symmetry; apply Z.ltb_ge; lia).
  rewrite (to_uint32_small (k - 4 - 256)) by lia.
  replace (k - 4 - 256 <? 256 * 256) with false by (symmetry; apply Z.ltb_ge; lia).
  reflexivity.
Qed.

Lemma gbfo_out_of_range_witness :
  get_block_for_offset example_file (inode_at example_file 0) addressable_max true
  = (E_INVALID_OFFSET, inode_at example_file 0, example_file).
Proof.
  apply gbfo_out_of_range; [by_eval|right; split; by_eval].
Defined.

(** ** What only reads *)

Lemma read_only_refl st : read_only st st.
Proof. unfold read_only. destruct st. reflexivity. Qed.

Lemma read_only_trans st1 st2 st3 :
  read_only st1 st2 -> read_only st2 st3 -> read_only st1 st3.
Proof. unfold read_only. intros -> ->. reflexivity. Qed.

Lemma device_fault_read_only st e st' :
  device_fault st = (e, st') -> read_only st st'.
Proof.
  unfold device_fault. destruct (faults st) eqn:E; intros H; injection H as <- <-.
  - apply read_only_refl.
  - reflexivity.
Qed.

Lemma disk_read_read_only st s e b st' :
  disk_read st s = (e, b, st') -> read_only st st'.
Proof.
  unfold disk_read, vdisk_read. destruct (in_range _ _).
  - destruct (device_fault st) as [x st1] eqn:Ef.
    apply device_fault_read_only in Ef.
    destruct (x =? 0); intros H; injection H as <- <- <-; exact Ef.
  - intros H; injection H as <- <- <-. apply read_only_refl.
Qed.

Lemma read_inode_read_only st i bp r inode st' :
  read_inode st i bp = (r, inode, st') -> read_only st st'.
Proof.
  unfold read_inode.
  destruct (_ && _)%bool; [intros H; injection H as <- <- <-; apply read_only_refl|].
  destruct (bad_inode_num st i);
    [intros H; injection H as <- <- <-; apply read_only_refl|].
  destruct (disk_read st _) as [[e b] st1] eqn:E.
  apply disk_read_read_only in E.
  destruct (negb _); intros H; injection H as <- <- <-; exact E.
Qed.

Lemma gbfo_double_data_read_only st inode page k r inode' st' :
  gbfo_double_data st inode page k false = (r, inode', st') ->
  read_only st st'.
Proof.
  unfold gbfo_double_data.
  destruct (disk_read st page) as [[e b] st1] eqn:E.
  apply disk_read_read_only in E. rewrite andb_false_r.
  destruct (negb _); intros H; injection H as <- <- <-; exact E.
Qed.

Lemma gbfo_double_entry_read_only st inode k r inode' st' :
  gbfo_double_entry st inode k false = (r, inode', st') ->
  read_only st st'.
Proof.
  unfold gbfo_double_entry.
  destruct (disk_read st _) as [[e b] st1] eqn:E.
  apply disk_read_read_only in E.
  destruct (negb _); [intros H; injection H as <- <- <-; exact E|].
  cbv zeta. rewrite andb_false_r.
  destruct (_ =? 0); [intros H; injection H as <- <- <-; exact E|].
  intros H. apply gbfo_double_data_read_only in H.
  exact (read_only_trans _ _ _ E H).
Qed.

Lemma gbfo_lookup_read_only st inode offset r inode' st' :
  get_block_for_offset st inode offset false = (r, inode', st') ->
  inode' = inode /\ read_only st st'.
Proof.
  unfold get_block_for_offset. cbn [negb].
  assert (Hleaf : forall x, (x, inode, st) = (r, inode', st') ->
            inode' = inode /\ read_only st st').
  { intros x H. injection H as _ <- <-. split; [reflexivity|apply read_only_refl]. }
  destruct (negb (disk_mounted st)); [apply Hleaf|].
  destruct (offset <? 0); [apply Hleaf|].
  cbv zeta.
  destruct (_ <? 4).
  { rewrite andb_false_r. apply Hleaf. }
  destruct (_ <? POINTERS_PER_BLOCK).
  { destruct (indirect_block inode =? 0); [apply Hleaf|].
    rewrite gbfo_indirect_entry_eq. intros H.
    split; [exact (gbfo_double_data_inode _ _ _ _ _ _ _ _ H)|].
    exact (gbfo_double_data_read_only _ _ _ _ _ _ _ H). }
  destruct (_ <? POINTERS_PER_BLOCK * POINTERS_PER_BLOCK); [|apply Hleaf].
  destruct (double_indirect_block inode =? 0); [apply Hleaf|].
  intros H.
  split; [exact (gbfo_double_entry_inode _ _ _ _ _ _ _ H)|].
  exact (gbfo_double_entry_read_only _ _ _ _ _ _ H).
Qed.

Lemma read_loop_read_only fuel :
  forall st inode buf btr w cur r buf' st',
    read_loop fuel st inode buf btr w cur = (r, buf', st') ->
    read_only st st'.
Proof.
  induction fuel as [|fuel IH]; intros st inode buf btr w cur r buf' st';
    cbn [read_loop].
  - intros H; injection H as _ _ <-. apply read_only_refl.
  - destruct (w <? btr); [|intros H; injection H as _ _ <-; apply read_only_refl].
    destruct (get_block_for_offset _ _ _ _) as [[b inode1] st1] eqn:Eg.
    apply gbfo_lookup_read_only in Eg. destruct Eg as [-> R1].
    destruct (b <=? 0); [intros H; injection H as _ _ <-; exact R1|].
    destruct (disk_read st1 b) as [[e blk0] st2] eqn:Er.
    apply disk_read_read_only in Er.
    pose proof (read_only_trans _ _ _ R1 Er) as R2.
    destruct (negb _); [intros H; injection H as _ _ <-; exact R2|].
    intros H. apply IH in H. exact (read_only_trans _ _ _ R2 H).
Qed.

(** Whatever the device does, [read], [stat] and a lookup with
    [allocate = false] change nothing in the session: not the sectors of
    the device, not the bitmap or the superblock, not the inode handed to
    the lookup.  They only use up device operations. *)
Theorem reads_change_nothing (st : fs_state) :
  (forall i buf len offset,
     read_only st (snd (read st i buf len offset))) /\
  (forall i, read_only st (snd (stat st i))) /\
  (forall inode offset,
     snd (fst (get_block_for_offset st inode offset false)) = inode /\
     read_only st (snd (get_block_for_offset st inode offset false))).
Proof.
  split; [|split].
  - intros i buf len offset. unfold read.
    destruct (negb (disk_mounted st)); [apply read_only_refl|].
    destruct (bad_inode_num st i); [apply read_only_refl|].
    destruct (read_inode st i false) as [[r inode] st1] eqn:E.
    apply read_inode_read_only in E.
    destruct (negb _); [exact E|].
    destruct (_ =? 0); [exact E|].
    destruct (_ <=? 0); [exact E|].
    destruct (read_loop _ _ _ _ _ _ _) as [[r2 buf2] st2] eqn:El.
    apply read_loop_read_only in El. exact (read_only_trans _ _ _ E El).
  - intros i. unfold stat.
    destruct (negb (disk_mounted st)); [apply read_only_refl|].
    destruct (bad_inode_num st i); [apply read_only_refl|].
    destruct (read_inode st i false) as [[r inode] st1] eqn:E.
    apply read_inode_read_only in E.
    destruct (negb _); [exact E|].
    destruct (_ =? 0); exact E.
  - intros inode offset.
    destruct (get_block_for_offset st inode offset false) as [[r inode'] st'] eqn:E.
    apply gbfo_lookup_read_only in E. exact E.
Qed.

(** ** [read] up to the end of the file *)

Lemma read_unfold st i buf len offset :
  mounted_ok st -> healthy st -> 0 <= i < inode_count st ->
  byte.unsigned (valid (inode_at st i)) <> 0 ->
  read st i buf len offset
  = if read_count (inode_at st i) len offset <=? 0 then (0, buf, st)
    else read_loop (Z.to_nat (read_count (inode_at st i) len offset)) st
           (inode_at st i) buf (read_count (inode_at st i) len offset) 0
           (to_uint32 offset).
Proof.
  intros Hm Hh Hi Hv. pose proof Hm as (Hmt & Hsb & _).
  unfold read. rewrite Hmt, (bad_inode_num_false st i Hsb Hi). cbn [negb].
  rewrite (read_inode_ok st i false Hm Hh Hi). cbn [negb Z.eqb].
  apply Z.eqb_neq in Hv. rewrite Hv. reflexivity.
Qed.

Lemma read_count_spec inode len offset :
  0 <= size inode <= addressable_max -> 0 <= offset < 2 ^ 31 ->
  (read_count inode len offset <=? 0) = (Z.min len (size inode - offset) <=? 0) /\
  (0 < Z.min len (size inode - offset) ->
   read_count inode len offset = Z.min len (size inode - offset)).
Proof.
  intros Hs Ho. pose proof addressable_max_int as Hmax.
  unfold read_count. rewrite (to_uint32_small offset) by lia.
  destruct (offset <? size inode) eqn:E; [apply Z.ltb_lt in E|apply Z.ltb_ge in E].
  - rewrite (to_uint32_small (size inode - offset)) by lia.
    rewrite (to_int_small (size inode - offset)) by lia.
    destruct (len <? size inode - offset) eqn:E1;
      [apply Z.ltb_lt in E1|apply Z.ltb_ge in E1].
    + rewrite Z.min_l by lia. split; reflexivity.
    + rewrite Z.min_r by lia. split; reflexivity.
  - split; [|lia]. symmetry. apply Z.leb_le. lia.
Qed.

(** On a working device and a well-formed file, [read(i, buf, len, offset)]
    returns [min(len, size - offset)] bytes of the file, or 0 when that is
    not positive (an offset at or behind the end of the file, or nothing
    asked for): it never reads past the end, the bytes are those the block
    map gives for [offset, offset + n), and the rest of the buffer and the
    session are untouched. *)
Theorem read_spec (st : fs_state) (i : Z) (buf : list byte) (len offset : Z) :
  mounted_ok st -> healthy st -> file_ok st i ->
  0 <= offset < 2 ^ 31 -> (Z.to_nat len <= length buf)%nat ->
  exists buf',
    read st i buf len offset
    = (Z.max 0 (Z.min len (size (inode_at st i) - offset)), buf', st) /\
    length buf' = length buf /\
    (forall j, 0 <= j < Z.min len (size (inode_at st i) - offset) ->
       buf' !! Z.to_nat j = Some (fbyte st (inode_at st i) (offset + j))) /\
    (forall j, (Z.to_nat (Z.min len (size (inode_at st i) - offset)) <= j)%nat ->
       buf' !! j = buf !! j).
Proof.
  intros Hm Hh Hf Hoff Hbuf. pose proof Hf as (Hi & Hv & Ht & Hsz & Hnh).
  pose proof addressable_max_int as Hmax.
  set (ino := inode_at st i) in *. set (n := Z.min len (size ino - offset)).
  assert (Hs : session_ok st ino) by (split; [exact Hm|split; [exact Hh|exact Ht]]).
  assert (Hs_pos : 0 <= size ino) by apply Ht.
  destruct (read_count_spec ino len offset) as [Hle Heq]; [lia|lia|]. fold n in Hle, Heq.
  rewrite (read_unfold st i buf len offset Hm Hh Hi Hv). fold ino. rewrite Hle.
  destruct (n <=? 0) eqn:En; [apply Z.leb_le in En|apply Z.leb_gt in En].
  - exists buf. rewrite Z.max_l by lia.
    split; [reflexivity|]. split; [reflexivity|]. split; [intros; lia|reflexivity].
  - rewrite (Heq En). rewrite Z.max_r by lia.
    destruct (read_loop_ok st ino n offset Hs) with (fuel := Z.to_nat n)
      (buf := buf) (w := 0) as (buf' & E & Hl & Hin & Hout);
      [lia|unfold n; lia| |lia|lia|unfold n; lia|].
    { intros p Hp. apply Hnh. unfold n in Hp. lia. }
    rewrite Z.add_0_r in E.
    exists buf'. split; [exact E|]. split; [exact Hl|]. split; [exact Hin|].
    intros j Hj. apply Hout. lia.
Qed.

Lemma example_sparse_ok :
  mounted_ok example_sparse /\ healthy example_sparse /\ file_ok example_sparse 0.
Proof.
  assert (Hw : write example_file 0 [Byte.x58] 1 5000 = (1, example_sparse))
    by by_eval.
  assert (Hend : 5000 + 1 <= addressable_max) by by_eval.
  pose proof (write_ok example_file 0 [Byte.x58] 1 5000 example_sparse
                example_file_ok eq_refl example_file_fresh ltac:(lia) ltac:(lia)
                Hend ltac:(simpl; lia) Hw) as Hwr.
  pose proof (written_file_ok example_file 0 [Byte.x58] 1 5000 example_sparse
                example_file_fresh ltac:(lia) ltac:(lia) Hend Hwr) as Hf.
  destruct Hwr as ((Hm & Hh & _) & _).
  split; [exact Hm|]. split; [exact Hh|exact Hf].
Qed.

Lemma read_spec_witness :
  exists buf',
    read example_sparse 0 (replicate 10 Byte.x01) 10 4995
    = (Z.max 0 (Z.min 10 (size (inode_at example_sparse 0) - 4995)), buf',
       example_sparse) /\
    length buf' = 10%nat.
Proof.
  destruct (read_spec example_sparse 0 (replicate 10 Byte.x01) 10 4995
              (proj1 example_sparse_ok) (proj1 (proj2 example_sparse_ok))
              (proj2 (proj2 example_sparse_ok)))
    as (buf' & E & Hl & _); [lia|simpl; lia|].
  exists buf'. split; [exact E|exact Hl].
Defined.

(** ** The file [create] makes *)

Lemma scan_cases st n k :
  (forall j, k <= j < k + Z.of_nat n ->
     byte.unsigned (valid (inode_at st j)) <> 0) \/
  (exists f, k <= f < k + Z.of_nat n /\
     byte.unsigned (valid (inode_at st f)) = 0 /\
     forall j, k <= j < f -> byte.unsigned (valid (inode_at st j)) <> 0).
Proof.
  induction n as [|n IH].
  - left. intros j Hj. lia.
  - destruct IH as [Hall|(f & Hf & Hz & Hb)].
    + destruct (Z.eq_dec (byte.unsigned (valid (inode_at st (k + Z.of_nat n)))) 0)
        as [E|E].
      * right. exists (k + Z.of_nat n). split; [lia|]. split; [exact E|].
        intros j Hj. apply Hall. lia.
      * left. intros j Hj.
        destruct (Z.eq_dec j (k + Z.of_nat n)) as [->|Hne]; [exact E|].
        apply Hall. lia.
    + right. exists f. split; [lia|]. split; assumption.
Qed.

Lemma create_inv st k st' :
  mounted_ok st -> healthy st -> create st = (k, st') ->
  (k = E_OUT_OF_INODES /\ st' = st) \/
  (0 <= k < inode_count st /\
   byte.unsigned (valid (inode_at st k)) = 0 /\
   (forall j, 0 <= j < k -> byte.unsigned (valid (inode_at st j)) <> 0) /\
   st' = store_inode st k (created (inode_at st k))).
Proof.
  intros Hm Hh. pose proof Hm as (Hmt & Hsb & _).
  pose proof (inode_count_ok st Hsb) as Hc.
  assert (Hint : to_int (inode_count st) = inode_count st).
  { destruct Hsb as (? & ? & ? & ?). unfold INT_MAX in *.
    change INODES_PER_BLOCK with 32 in *. apply to_int_small. lia. }
  assert (Hnn : 0 <= inode_count st).
  { destruct Hsb as (? & ? & ? & ?). rewrite Hc.
    change INODES_PER_BLOCK with 32. lia. }
  destruct (create_scan_spec st Hm Hh (Z.to_nat (inode_count st)) 0)
    as [Hnone Hsome]; [lia|lia|].
  unfold create. rewrite Hmt, Hint. cbn [negb].
  destruct (scan_cases st (Z.to_nat (inode_count st)) 0) as [Hall|(f & Hf & Hz & Hb)].
  - rewrite (Hnone Hall). intros H; injection H as <- <-. left. split; reflexivity.
  - rewrite (Hsome f Hf Hz Hb). intros H; injection H as <- <-. right.
    split; [lia|]. split; [exact Hz|]. split; [exact Hb|reflexivity].
Qed.

Lemma created_ok ino : inode_ok (created ino).
Proof.
  unfold inode_ok, created. simpl. repeat split; try lia.
  repeat constructor; lia.
Qed.

(** A file that is well formed stays so when another inode record is
    written. *)
Lemma file_ok_store_other st i j rec :
  mounted_ok st -> healthy st -> 0 <= i < inode_count st -> i <> j ->
  file_ok st j -> file_ok (store_inode st i rec) j.
Proof.
  intros Hm Hh Hi Hne (Hj & Hv & Ht & Hsz & Hnh).
  assert (Hs : session_ok st (inode_at st j))
    by (split; [exact Hm|split; [exact Hh|exact Ht]]).
  destruct (store_inode_session st (inode_at st j) i rec Hs Hi) as (S & P & _).
  assert (E : inode_at (store_inode st i rec) j = inode_at st j)
    by (apply inode_at_store_other; [exact Hm|lia|lia|exact Hne]).
  split; [exact Hj|]. rewrite E.
  split; [exact Hv|]. split; [apply S|]. split; [exact Hsz|].
  intros p Hp.
  assert (Hp' : 0 <= p < addressable_max) by lia.
  unfold bmap. rewrite P by (apply slot_of_ok, (disk_index p Hp')).
  apply Hnh, Hp.
Qed.

Lemma create_ok (st st' : fs_state) (k : Z) :
  mounted_ok st -> healthy st ->
  create st = (k, st') -> 0 <= k ->
  mounted_ok st' /\ healthy st' /\
  file_ok st' k /\ size (inode_at st' k) = 0 /\
  (forall p, bmap st' (inode_at st' k) p = 0) /\
  (forall j, j <> k -> file_ok st j -> file_ok st' j).
Proof.
  intros Hm Hh Hc Hk.
  destruct (create_inv st k st' Hm Hh Hc) as [[-> _]|(Hr & Hz & _ & ->)];
    [unfold E_OUT_OF_INODES in Hk; lia|].
  assert (Hat : inode_at (store_inode st k (created (inode_at st k))) k
                = created (inode_at st k))
    by (apply inode_at_store_same; [exact Hm|exact Hr|apply created_ok]).
  assert (Hf : file_ok (store_inode st k (created (inode_at st k))) k).
  { apply unmapped_file_ok; rewrite ?Hat; try reflexivity; [exact Hr|].
    cbn. discriminate. }
  split; [apply mounted_ok_store_inode; [exact Hm|lia]|].
  split; [exact Hh|]. split; [exact Hf|]. split; [rewrite Hat; reflexivity|].
  split.
  - intros p. rewrite Hat. unfold bmap.
    assert (Hp : forall s, ptr (store_inode st k (created (inode_at st k)))
                             (created (inode_at st k)) s = 0).
    { induction s as [f|sp IH j].
      - destruct f as [x| |]; cbn [ptr get_field]; [|reflexivity|reflexivity].
        unfold direct, created. cbn [direct_blocks].
        destruct (Z.to_nat x) as [|[|[|[|[|n]]]]]; reflexivity.
      - cbn [ptr]. rewrite IH. reflexivity. }
    apply Hp.
  - intros j Hne Hfj. apply file_ok_store_other; try assumption. congruence.
Qed.

(** When [create] returns an inode number [k] on a working device, the
    session stays mounted and well formed, inode [k] is a well-formed empty
    file (size 0, no block), and every file that was well formed before
    still is. *)
Theorem create_fresh_file (st st' : fs_state) (k : Z) :
  mounted_ok st -> healthy st ->
  create st = (k, st') -> 0 <= k ->
  mounted_ok st' /\ healthy st' /\
  file_ok st' k /\ size (inode_at st' k) = 0 /\
  (forall p, bmap st' (inode_at st' k) p = 0) /\
  (forall j, j <> k -> file_ok st j -> file_ok st' j).
Proof. exact (create_ok st st' k). Qed.

Lemma create_fresh_file_witness :
  file_ok (snd (create example_mounted)) 0 /\
  size (inode_at (snd (create example_mounted)) 0) = 0.
Proof.
  destruct (create_fresh_file example_mounted (snd (create example_mounted)) 0
              example_mounted_ok)
    as (_ & _ & Hf & Hs & _); [by_eval|by_eval|lia|].
  split; [exact Hf|exact Hs].
Defined.

(** ** What a successful [write] keeps *)

Lemma stat_valid st i :
  mounted_ok st -> healthy st -> 0 <= i < inode_count st ->
  byte.unsigned (valid (inode_at st i)) <> 0 ->
  stat st i = (to_int (size (inode_at st i)), st).
Proof.
  intros Hm Hh Hi Hv. pose proof Hm as (Hmt & Hsb & _). unfold stat.
  rewrite Hmt, (bad_inode_num_false st i Hsb Hi). cbn [negb].
  rewrite (read_inode_ok st i false Hm Hh Hi). cbn [negb Z.eqb].
  apply Z.eqb_neq in Hv. rewrite Hv. reflexivity.
Qed.

(** On a working device, a [write] of [len > 0] bytes into a well-formed
    file that returns [len] leaves a mounted, well-formed session in which
    the file is again well formed; [stat] then returns the larger of the old
    size and [offset + len], and the record of every other inode is as it
    was. *)
Theorem write_keeps_file_ok (st st' : fs_state) (i : Z) (data : list byte)
    (len offset : Z) :
  mounted_ok st -> healthy st -> file_ok st i ->
  0 <= offset -> 0 < len -> offset + len <= addressable_max ->
  (Z.to_nat len <= length data)%nat ->
  write st i data len offset = (len, st') ->
  mounted_ok st' /\ healthy st' /\ file_ok st' i /\
  stat st' i = (Z.max (size (inode_at st i)) (offset + len), st') /\
  (forall j, 0 <= j < inode_count st -> j <> i ->
     inode_at st' j = inode_at st j).
Proof.
  intros Hm Hh Hf Hoff Hlen Hend Hdata Hw.
  pose proof addressable_max_int as Hmax.
  destruct (write_ok_records st i data len offset st' Hm Hh Hf Hoff Hlen Hend
              Hdata Hw) as [Hwr Hrec].
  pose proof (written_file_ok st i data len offset st' Hf Hoff
                (Z.lt_le_incl _ _ Hlen) Hend Hwr) as Hf'.
  destruct Hwr as ((Hm' & Hh' & Ht') & _ & _ & Hsz & _).
  destruct Hf as (_ & _ & Ht & Hs & _).
  assert (0 <= size (inode_at st i)) by apply Ht.
  split; [exact Hm'|]. split; [exact Hh'|]. split; [exact Hf'|].
  split; [|exact Hrec].
  rewrite (stat_valid st' i Hm' Hh'); [|apply Hf'|apply Hf'].
  rewrite Hsz. rewrite to_int_small by lia. reflexivity.
Qed.

Lemma write_keeps_file_ok_witness :
  file_ok example_sparse 0 /\
  stat example_sparse 0
  = (Z.max (size (inode_at example_file 0)) (5000 + 1), example_sparse).
Proof.
  destruct (write_keeps_file_ok example_file example_sparse 0 [Byte.x58] 1 5000
              example_file_ok)
    as (_ & _ & Hf & Hs & _);
    [by_eval|exact example_file_fresh|lia|lia|by_eval|simpl; lia|by_eval|].
  split; [exact Hf|exact Hs].
Defined.

(** Under the same conditions the bytes of the file outside of the written
    range are not disturbed: a read of any range [[a, a + n)] below the old
    size that does not meet [[offset, offset + len)] returns the same bytes
    before and after the write. *)
Theorem write_leaves_rest (st st' : fs_state) (i : Z) (data : list byte)
    (len offset : Z) (buf : list byte) (a n : Z) :
  mounted_ok st -> healthy st -> file_ok st i ->
  0 <= offset -> 0 < len -> offset + len <= addressable_max ->
  (Z.to_nat len <= length data)%nat ->
  write st i data len offset = (len, st') ->
  0 <= a -> 0 < n -> a + n <= size (inode_at st i) ->
  a + n <= offset \/ offset + len <= a ->
  (Z.to_nat n <= length buf)%nat ->
  exists buf',
    read st i buf n a = (n, buf', st) /\
    read st' i buf n a = (n, buf', st').
Proof.
  intros Hm Hh Hf Hoff Hlen Hend Hdata Hw Ha Hn Hfit Hdisj Hbuf.
  pose proof (write_ok st i data len offset st' Hm Hh Hf Hoff Hlen Hend Hdata Hw)
    as Hwr.
  pose proof (written_file_ok st i data len offset st' Hf Hoff
                (Z.lt_le_incl _ _ Hlen) Hend Hwr) as Hf'.
  destruct Hwr as ((Hm' & Hh' & _) & _ & _ & Hsz & _ & _ & _ & Hrest).
  destruct (read_ok st i buf n a Hm Hh Hf Ha Hn Hfit Hbuf)
    as (b1 & E1 & L1 & I1 & O1).
  destruct (read_ok st' i buf n a Hm' Hh' Hf' Ha Hn) as (b2 & E2 & L2 & I2 & O2);
    [lia|exact Hbuf|].
  exists b1. split; [exact E1|]. rewrite E2. f_equal. f_equal.
  apply list_eq. intros j.
  destruct (decide (j < Z.to_nat n)%nat) as [Hj|Hj].
  - specialize (I1 (Z.of_nat j)). specialize (I2 (Z.of_nat j)).
    rewrite Nat2Z.id in I1, I2. rewrite I1, I2 by lia. f_equal.
    apply Hrest; lia.
  - rewrite O1, O2 by lia. reflexivity.
Qed.

Lemma write_leaves_rest_witness :
  exists buf',
    read example_sparse 0 (replicate 5 Byte.x01) 5 0
    = (5, buf', example_sparse) /\
    read (snd (write example_sparse 0 [Byte.x59] 1 10)) 0
      (replicate 5 Byte.x01) 5 0
    = (5, buf', snd (write example_sparse 0 [Byte.x59] 1 10)).
Proof.
  apply (write_leaves_rest example_sparse _ 0 [Byte.x59] 1 10
           (replicate 5 Byte.x01) 0 5
           (proj1 example_sparse_ok) (proj1 (proj2 example_sparse_ok))
           (proj2 (proj2 example_sparse_ok))).
  - lia.
  - lia.
  - by_eval.
  - simpl. lia.
  - by_eval.
  - lia.
  - lia.
  - by_eval.
  - left. lia.
  - simpl. lia.
Defined.

(** ** [delete] *)

Lemma released_none st : released (fun _ => False) st st.
Proof.
  unfold released. do 7 (split; [reflexivity|]).
  split; [intros x _; left; reflexivity|intros x _ []].
Qed.

Lemma released_trans P1 P2 st st1 st2 :
  released P1 st st1 -> released P2 st1 st2 ->
  released (fun x => P1 x \/ P2 x) st st2.
Proof.
  intros (A1 & A2 & A3 & A4 & A5 & A6 & A7 & A8 & A9)
         (B1 & B2 & B3 & B4 & B5 & B6 & B7 & B8 & B9).
  unfold released.
  split; [congruence|]. split; [congruence|]. split; [congruence|].
  split; [congruence|]. split; [congruence|]. split; [congruence|].
  split; [congruence|]. split.
  - intros x Hx. destruct (B8 x Hx) as [E|[HP E]].
    + rewrite E. destruct (A8 x Hx) as [E1|[HP E1]]; [left; exact E1|].
      right. split; [left; exact HP|exact E1].
    + right. split; [right; exact HP|exact E].
  - intros x Hx [HP|HP]; [|apply B9; assumption].
    destruct (B8 x Hx) as [E|[_ E]]; [|exact E].
    rewrite E. apply A9; assumption.
Qed.

Lemma released_iff P Q st st' :
  (forall x, P x <-> Q x) -> released P st st' -> released Q st st'.
Proof.
  intros HPQ (A1 & A2 & A3 & A4 & A5 & A6 & A7 & A8 & A9). unfold released.
  do 7 (split; [assumption|]). split.
  - intros x Hx. destruct (A8 x Hx) as [E|[HP E]]; [left; exact E|].
    right. split; [apply HPQ, HP|exact E].
  - intros x Hx HQ. apply A9; [exact Hx|apply HPQ, HQ].
Qed.

Lemma released_mounted_ok P st st' :
  released P st st' -> mounted_ok st -> mounted_ok st'.
Proof.
  intros (A1 & A2 & A3 & A4 & A5 & A6 & A7 & _) (H1 & H2 & H3 & H4 & H5).
  unfold mounted_ok, superblock_ok. rewrite A3, A4, A5, A7.
  split; [exact H1|]. split; [exact H2|]. split; [exact H3|].
  split; [exact H4|exact H5].
Qed.

Lemma released_blk P st st' b : released P st st' -> blk st' b = blk st b.
Proof. intros (_ & _ & _ & A4 & _). unfold blk. rewrite A4. reflexivity. Qed.

Lemma released_ptr P st st' inode s :
  released P st st' -> ptr st' inode s = ptr st inode s.
Proof.
  intros R. induction s as [f|sp IH k]; [reflexivity|].
  cbn [ptr]. rewrite IH. unfold entry. rewrite (released_blk _ _ _ _ R).
  reflexivity.
Qed.

Lemma free_block_released st b :
  mounted_ok st -> 0 < b < num_blocks (superblock st) ->
  released (fun x => x = b) st (free_block st (to_int b)).
Proof.
  intros Hm Hb. pose proof Hm as (Hmt & (_ & _ & _ & Hnb) & _ & Hlen & _).
  unfold INT_MAX in Hnb.
  rewrite (to_int_small b) by lia.
  rewrite free_block_guard by (try assumption; try lia; rewrite to_uint32_small; lia).
  unfold released, log, bitmap_set. cbn.
  do 6 (split; [reflexivity|]). split; [apply length_insert|]. split.
  - intros x Hx. destruct (Z.eq_dec x b) as [->|Hne].
    + right. split; [reflexivity|].
      apply (bitmap_get_set_eq st b 0). lia.
    + left. apply (bitmap_get_set_ne st b x 0); lia.
  - intros x Hx ->. apply (bitmap_get_set_eq st b 0). lia.
Qed.

Lemma free_fold_released page l :
  forall st,
    mounted_ok st ->
    (forall k, k ∈ l -> get_u32 page (Z.of_nat k) <> 0 ->
       0 < get_u32 page (Z.of_nat k) < num_blocks (superblock st)) ->
    released (fun x => exists k, k ∈ l /\ get_u32 page (Z.of_nat k) = x /\ x <> 0)
      st
      (fold_left
         (fun st k => if get_u32 page (Z.of_nat k) =? 0 then st
                      else free_block st (to_int (get_u32 page (Z.of_nat k))))
         l st).
Proof.
  induction l as [|k l IH]; intros st Hm Hr.
  - cbn [fold_left]. apply (released_iff (fun _ => False)); [|apply released_none].
    intros x. split; [intros []|]. intros (k & Hk & _). inversion Hk.
  - cbn [fold_left].
    destruct (get_u32 page (Z.of_nat k) =? 0) eqn:Ez;
      [apply Z.eqb_eq in Ez|apply Z.eqb_neq in Ez].
    + apply (released_iff
               (fun x => exists k, k ∈ l /\ get_u32 page (Z.of_nat k) = x /\ x <> 0)).
      * intros x. split.
        -- intros (j & Hj & E & Hx). exists j. split; [right; exact Hj|].
           split; assumption.
        -- intros (j & Hj & E & Hx). apply elem_of_cons in Hj as [->|Hj];
             [congruence|]. exists j. split; [exact Hj|]. split; assumption.
      * apply IH; [exact Hm|]. intros j Hj. apply Hr. right. exact Hj.
    + pose proof (free_block_released st (get_u32 page (Z.of_nat k)) Hm
                    (Hr k ltac:(left) Ez)) as R1.
      pose proof R1 as (_ & _ & _ & _ & Hsb1 & _).
      assert (R2 : released
                (fun x => exists k, k ∈ l /\ get_u32 page (Z.of_nat k) = x /\ x <> 0)
                (free_block st (to_int (get_u32 page (Z.of_nat k))))
                (fold_left
                   (fun st k => if get_u32 page (Z.of_nat k) =? 0 then st
                                else free_block st (to_int (get_u32 page (Z.of_nat k))))
                   l (free_block st (to_int (get_u32 page (Z.of_nat k)))))).
      { apply IH; [exact (released_mounted_ok _ _ _ R1 Hm)|].
        intros j Hj. rewrite Hsb1. apply Hr. right. exact Hj. }
      pose proof (released_trans _ _ _ _ _ R1 R2) as R. revert R.
      apply released_iff.
      intros x. cbv beta. split.
      * intros [->|(j & Hj & E & Hx)].
        -- exists k. split; [left|]. split; [reflexivity|exact Ez].
        -- exists j. split; [right; exact Hj|]. split; assumption.
      * intros (j & Hj & E & Hx). apply elem_of_cons in Hj as [->|Hj].
        -- left. symmetry. exact E.
        -- right. exists j. split; [exact Hj|]. split; assumption.
Qed.

Lemma free_entries_released st page :
  mounted_ok st ->
  (forall x, page_entry page x -> 0 < x < num_blocks (superblock st)) ->
  released (page_entry page) st (free_entries st page).
Proof.
  intros Hm Hr. unfold free_entries.
  eapply released_iff; [|apply free_fold_released; [exact Hm|]].
  - intros x. cbv beta. unfold page_entry. change POINTERS_PER_BLOCK with 256.
    split.
    + intros (k & Hk & E & Hx). exists (Z.of_nat k).
      apply elem_of_seq in Hk. split; [lia|]. split; assumption.
    + intros (k & Hk & E & Hx). exists (Z.to_nat k).
      rewrite Z2Nat.id by lia. split; [apply elem_of_seq; lia|].
      split; assumption.
  - intros k Hk Hnz. apply Hr. exists (Z.of_nat k).
    apply elem_of_seq in Hk. change POINTERS_PER_BLOCK with 256 in *.
    split; [lia|]. split; [reflexivity|exact Hnz].
Qed.

Lemma released_healthy P st st' : released P st st' -> healthy st -> healthy st'.
Proof. intros (_ & A2 & _) H. unfold healthy. rewrite A2. exact H. Qed.

Lemma free_double_released pointers :
  forall n st j,
    mounted_ok st -> healthy st ->
    0 <= j -> j + Z.of_nat n <= POINTERS_PER_BLOCK ->
    (forall j', j <= j' < j + Z.of_nat n -> get_u32 pointers j' <> 0 ->
       0 < get_u32 pointers j' < num_blocks (superblock st) /\
       forall x, page_entry (blk st (get_u32 pointers j')) x ->
                 0 < x < num_blocks (superblock st)) ->
    exists st',
      free_double st pointers j n = (0, st') /\
      released
        (fun x => exists j', j <= j' < j + Z.of_nat n /\
           get_u32 pointers j' <> 0 /\
           (x = get_u32 pointers j' \/
            page_entry (blk st (get_u32 pointers j')) x))
        st st'.
Proof.
  induction n as [|n IH]; intros st j Hm Hh Hj Hn Hr.
  - exists st. split; [reflexivity|].
    apply (released_iff (fun _ => False)); [|apply released_none].
    intros x. split; [intros []|]. intros (j' & Hj' & _). lia.
  - cbn [free_double].
    destruct (get_u32 pointers j =? 0) eqn:Ez;
      [apply Z.eqb_eq in Ez|apply Z.eqb_neq in Ez].
    + destruct (IH st (j + 1) Hm Hh) as (st' & E & R); [lia|lia| |].
      { intros j' Hj'. apply Hr. lia. }
      exists st'. split; [exact E|]. revert R. apply released_iff.
      intros x. split.
      * intros (j' & Hj' & Hnz & Hx). exists j'. split; [lia|]. split; assumption.
      * intros (j' & Hj' & Hnz & Hx).
        destruct (Z.eq_dec j' j) as [->|Hne]; [congruence|].
        exists j'. split; [lia|]. split; assumption.
    + set (e := get_u32 pointers j) in *.
      destruct (Hr j ltac:(lia) Ez) as [He Hpe]. fold e in He, Hpe.
      rewrite (disk_read_ok st e Hm Hh) by lia. cbn [negb Z.eqb].
      pose proof (free_entries_released st (blk st e) Hm Hpe) as R1.
      pose proof (released_mounted_ok _ _ _ R1 Hm) as Hm1.
      pose proof R1 as (_ & _ & _ & _ & Hsb1 & _).
      assert (R2 : released (fun x => x = e) (free_entries st (blk st e))
                     (free_block (free_entries st (blk st e)) (to_int e))).
      { apply free_block_released; [exact Hm1|rewrite Hsb1; exact He]. }
      pose proof (released_trans _ _ _ _ _ R1 R2) as R12.
      set (st2 := free_block (free_entries st (blk st e)) (to_int e)) in *.
      pose proof R12 as (_ & _ & _ & _ & Hsb2 & _).
      destruct (IH st2 (j + 1)) as (st' & E & R);
        [exact (released_mounted_ok _ _ _ R12 Hm)
        |exact (released_healthy _ _ _ R12 Hh)|lia|lia| |].
      { intros j' Hj' Hnz. rewrite Hsb2, (released_blk _ _ _ _ R12).
        apply Hr; [lia|exact Hnz]. }
      exists st'. split; [exact E|].
      pose proof (released_trans _ _ _ _ _ R12 R) as R'. revert R'.
      apply released_iff. intros x. cbv beta. split.
      * intros [[Hx|Hx]|(j' & Hj' & Hnz & Hx)].
        -- exists j. split; [lia|]. split; [exact Ez|right; exact Hx].
        -- exists j. split; [lia|]. split; [exact Ez|left; exact Hx].
        -- exists j'. split; [lia|]. split; [exact Hnz|].
           rewrite (released_blk _ _ _ _ R12) in Hx. exact Hx.
      * intros (j' & Hj' & Hnz & Hx).
        destruct (Z.eq_dec j' j) as [->|Hne].
        -- left. destruct Hx as [Hx|Hx]; [right; exact Hx|left; exact Hx].
        -- right. exists j'. split; [lia|]. split; [exact Hnz|].
           rewrite (released_blk _ _ _ _ R12). exact Hx.
Qed.

Lemma free_if_released st d :
  mounted_ok st -> (d <> 0 -> 0 < d < num_blocks (superblock st)) ->
  released (fun x => x = d /\ x <> 0) st
    (if d =? 0 then st else free_block st (to_int d)).
Proof.
  intros Hm Hr. destruct (Z.eqb_spec d 0) as [->|Hnz].
  - apply (released_iff (fun _ => False)); [|apply released_none].
    intros x. split; [intros []|]. intros [-> H]. exact (H eq_refl).
  - apply (released_iff (fun x => x = d)); [|apply free_block_released; auto].
    intros x. split; [intros ->; split; [reflexivity|exact Hnz]|intros [H _]; exact H].
Qed.

Lemma released_superblock P st st' :
  released P st st' -> superblock st' = superblock st.
Proof. intros (_ & _ & _ & _ & H & _). exact H. Qed.

(** Step 5 of [delete]: the four direct blocks. *)
Lemma free_direct_fold v p s d0 d1 d2 d3 ind dbl st :
  fold_left
    (fun '(inode, st) i =>
       if direct inode (Z.of_nat i) =? 0 then (inode, st)
       else (set_direct inode (Z.of_nat i) 0,
             free_block st (to_int (direct inode (Z.of_nat i)))))
    (seq 0 4) (mk_inode v p s [d0; d1; d2; d3] ind dbl, st)
  = (mk_inode v p s [0; 0; 0; 0] ind dbl,
     let s1 := if d0 =? 0 then st else free_block st (to_int d0) in
     let s2 := if d1 =? 0 then s1 else free_block s1 (to_int d1) in
     let s3 := if d2 =? 0 then s2 else free_block s2 (to_int d2) in
     if d3 =? 0 then s3 else free_block s3 (to_int d3)).
Proof.
  cbv zeta. unfold direct, set_direct. cbn [fold_left seq].
  repeat (rewrite ?Nat2Z.id; cbn -[free_block to_int Z.eqb];
          repeat match goal with
                 | H : (?d =? 0) = _ |- context [?d =? 0] => rewrite H
                 end;
          try match goal with
              | |- context [if ?d =? 0 then _ else _] =>
                  is_var d; destruct (d =? 0) eqn:?
              end).
  all: rewrite ?Z.eqb_eq in *; subst; reflexivity.
Qed.

Lemma free_direct_released inode st :
  mounted_ok st -> length (direct_blocks inode) = 4%nat ->
  (forall k, 0 <= k < 4 -> direct inode k <> 0 ->
     0 < direct inode k < num_blocks (superblock st)) ->
  exists st',
    fold_left
      (fun '(inode, st) i =>
         if direct inode (Z.of_nat i) =? 0 then (inode, st)
         else (set_direct inode (Z.of_nat i) 0,
               free_block st (to_int (direct inode (Z.of_nat i)))))
      (seq 0 4) (inode, st)
    = (mk_inode (valid inode) (padding inode) (size inode) [0; 0; 0; 0]
         (indirect_block inode) (double_indirect_block inode), st') /\
    released (fun x => exists k, 0 <= k < 4 /\ direct inode k = x /\ x <> 0)
      st st'.
Proof.
  intros Hm Hl Hr. destruct inode as [v p s dl ind dbl]. cbn in Hl.
  destruct dl as [|d0 [|d1 [|d2 [|d3 [|? ?]]]]]; try discriminate. clear Hl.
  assert (H0 : d0 <> 0 -> 0 < d0 < num_blocks (superblock st))
    by exact (Hr 0 ltac:(lia)).
  assert (H1 : d1 <> 0 -> 0 < d1 < num_blocks (superblock st))
    by exact (Hr 1 ltac:(lia)).
  assert (H2 : d2 <> 0 -> 0 < d2 < num_blocks (superblock st))
    by exact (Hr 2 ltac:(lia)).
  assert (H3 : d3 <> 0 -> 0 < d3 < num_blocks (superblock st))
    by exact (Hr 3 ltac:(lia)).
  clear Hr. rewrite free_direct_fold.
  cbn [valid padding size indirect_block double_indirect_block].
  set (s1 := if d0 =? 0 then st else free_block st (to_int d0)).
  set (s2 := if d1 =? 0 then s1 else free_block s1 (to_int d1)).
  set (s3 := if d2 =? 0 then s2 else free_block s2 (to_int d2)).
  set (s4 := if d3 =? 0 then s3 else free_block s3 (to_int d3)).
  pose proof (free_if_released st d0 Hm H0) as R1. fold s1 in R1.
  pose proof (released_mounted_ok _ _ _ R1 Hm) as Hm1.
  assert (R2 : released (fun x => x = d1 /\ x <> 0) s1 s2).
  { apply free_if_released; [exact Hm1|].
    rewrite (released_superblock _ _ _ R1). exact H1. }
  pose proof (released_mounted_ok _ _ _ R2 Hm1) as Hm2.
  assert (R3 : released (fun x => x = d2 /\ x <> 0) s2 s3).
  { apply free_if_released; [exact Hm2|].
    rewrite (released_superblock _ _ _ R2), (released_superblock _ _ _ R1).
    exact H2. }
  pose proof (released_mounted_ok _ _ _ R3 Hm2) as Hm3.
  assert (R4 : released (fun x => x = d3 /\ x <> 0) s3 s4).
  { apply free_if_released; [exact Hm3|].
    rewrite (released_superblock _ _ _ R3), (released_superblock _ _ _ R2),
      (released_superblock _ _ _ R1). exact H3. }
  exists s4. split; [reflexivity|].
  pose proof (released_trans _ _ _ _ _
                (released_trans _ _ _ _ _ (released_trans _ _ _ _ _ R1 R2) R3)
                R4) as R.
  revert R. apply released_iff. intros x. cbv beta. unfold direct.
  cbn [direct_blocks]. split.
  - intros [ [ [ (-> & Hx) | (-> & Hx) ] | (-> & Hx) ] | (-> & Hx) ];
      [exists 0|exists 1|exists 2|exists 3];
      (split; [lia|split; [reflexivity|exact Hx]]).
  - intros (k & Hk & E & Hx).
    assert (Hc : k = 0 \/ k = 1 \/ k = 2 \/ k = 3) by lia.
    destruct Hc as [-> | [-> | [-> | ->] ] ]; cbn in E; subst x.
    + left; left; left. split; [reflexivity|exact Hx].
    + left; left; right. split; [reflexivity|exact Hx].
    + left; right. split; [reflexivity|exact Hx].
    + right. split; [reflexivity|exact Hx].
Qed.

(** Step 6 of [delete]: the indirect page and the blocks it lists. *)
Lemma delete_indirect st inode :
  mounted_ok st -> healthy st ->
  (indirect_block inode <> 0 ->
   0 < indirect_block inode < num_blocks (superblock st) /\
   forall x, page_entry (blk st (indirect_block inode)) x ->
             0 < x < num_blocks (superblock st)) ->
  exists st',
    (if indirect_block inode =? 0 then (0, inode, st)
     else
       let '(result, page, st) := disk_read st (indirect_block inode) in
       if negb (result =? 0) then (result, inode, st)
       else
         let st := free_entries st page in
         let st := free_block st (to_int (indirect_block inode)) in
         (0, set_indirect inode 0, st))
    = (0, set_indirect inode 0, st') /\
    released
      (fun x => indirect_block inode <> 0 /\
                (page_entry (blk st (indirect_block inode)) x \/
                 x = indirect_block inode))
      st st'.
Proof.
  intros Hm Hh Hr.
  destruct (Z.eqb_spec (indirect_block inode) 0) as [Ez|Hnz].
  - exists st. split.
    + destruct inode; cbn in *; subst; reflexivity.
    + apply (released_iff (fun _ => False)); [|apply released_none].
      intros x. split; [intros []|]. intros [H _]. exact (H Ez).
  - destruct (Hr Hnz) as [Hi He].
    rewrite (disk_read_ok st _ Hm Hh) by lia. cbn [negb Z.eqb].
    pose proof (free_entries_released st _ Hm He) as R1.
    pose proof (released_mounted_ok _ _ _ R1 Hm) as Hm1.
    assert (R2 : released (fun x => x = indirect_block inode)
                   (free_entries st (blk st (indirect_block inode)))
                   (free_block (free_entries st (blk st (indirect_block inode)))
                      (to_int (indirect_block inode)))).
    { apply free_block_released; [exact Hm1|].
      rewrite (released_superblock _ _ _ R1). exact Hi. }
    eexists. split; [reflexivity|].
    pose proof (released_trans _ _ _ _ _ R1 R2) as R. revert R.
    apply released_iff. intros x. cbv beta. tauto.
Qed.

(** Step 7 of [delete]: the double-indirect page, the pages it lists and
    the blocks those list. *)
Lemma delete_double st inode :
  mounted_ok st -> healthy st ->
  (double_indirect_block inode <> 0 ->
   0 < double_indirect_block inode < num_blocks (superblock st) /\
   forall j, 0 <= j < POINTERS_PER_BLOCK ->
     get_u32 (blk st (double_indirect_block inode)) j <> 0 ->
     0 < get_u32 (blk st (double_indirect_block inode)) j
       < num_blocks (superblock st) /\
     forall x,
       page_entry (blk st (get_u32 (blk st (double_indirect_block inode)) j)) x ->
       0 < x < num_blocks (superblock st)) ->
  exists st',
    (if double_indirect_block inode =? 0 then (0, inode, st)
     else
       let '(result, page, st) := disk_read st (double_indirect_block inode) in
       if negb (result =? 0) then (result, inode, st)
       else
         let '(result, st) :=
           free_double st page 0 (Z.to_nat POINTERS_PER_BLOCK) in
         if negb (result =? 0) then (result, inode, st)
         else
           let st := free_block st (to_int (double_indirect_block inode)) in
           (0, set_double_indirect inode 0, st))
    = (0, set_double_indirect inode 0, st') /\
    released
      (fun x => double_indirect_block inode <> 0 /\
         ((exists j, 0 <= j < POINTERS_PER_BLOCK /\
             get_u32 (blk st (double_indirect_block inode)) j <> 0 /\
             (x = get_u32 (blk st (double_indirect_block inode)) j \/
              page_entry
                (blk st (get_u32 (blk st (double_indirect_block inode)) j)) x)) \/
          x = double_indirect_block inode))
      st st'.
Proof.
  intros Hm Hh Hr.
  destruct (Z.eqb_spec (double_indirect_block inode) 0) as [Ez|Hnz].
  - exists st. split.
    + destruct inode; cbn in *; subst; reflexivity.
    + apply (released_iff (fun _ => False)); [|apply released_none].
      intros x. split; [intros []|]. intros [H _]. exact (H Ez).
  - destruct (Hr Hnz) as [Hi He].
    set (dbl := double_indirect_block inode) in *.
    rewrite (disk_read_ok st _ Hm Hh) by lia. cbn [negb Z.eqb].
    destruct (free_double_released (blk st dbl) (Z.to_nat POINTERS_PER_BLOCK)
                st 0 Hm Hh) as (st1 & E & R1); [lia| | |].
    { change POINTERS_PER_BLOCK with 256. simpl. lia. }
    { intros j Hj. apply He. change POINTERS_PER_BLOCK with 256 in *.
      simpl in Hj. lia. }
    rewrite E. cbn [negb Z.eqb].
    pose proof (released_mounted_ok _ _ _ R1 Hm) as Hm1.
    assert (R2 : released (fun x => x = dbl) st1 (free_block st1 (to_int dbl))).
    { apply free_block_released; [exact Hm1|].
      rewrite (released_superblock _ _ _ R1). exact Hi. }
    eexists. split; [reflexivity|].
    pose proof (released_trans _ _ _ _ _ R1 R2) as R. revert R.
    apply released_iff. intros x. cbv beta.
    rewrite Z2Nat.id by (change POINTERS_PER_BLOCK with 256; lia).
    rewrite Z.add_0_l. tauto.
Qed.

Lemma released_blk_fun P st st' : released P st st' -> blk st' = blk st.
Proof. intros (_ & _ & _ & A4 & _). unfold blk. rewrite A4. reflexivity. Qed.

Lemma entry_nonzero st p k : entry st p k <> 0 -> p <> 0 /\ entry st p k = get_u32 (blk st p) k.
Proof.
  unfold entry. destruct (Z.eqb_spec p 0) as [->|Hnz]; [congruence|].
  intros _. split; [exact Hnz|reflexivity].
Qed.

Lemma entry_get st p k : p <> 0 -> entry st p k = get_u32 (blk st p) k.
Proof. intros H. unfold entry. apply Z.eqb_neq in H. rewrite H. reflexivity. Qed.

(** The blocks of a file, level by level. *)
Lemma file_block_iff st inode x :
  file_block st inode x <->
  ((exists k, 0 <= k < 4 /\ direct inode k = x /\ x <> 0) \/
   (indirect_block inode <> 0 /\
    (page_entry (blk st (indirect_block inode)) x \/ x = indirect_block inode))) \/
  (double_indirect_block inode <> 0 /\
   ((exists j, 0 <= j < POINTERS_PER_BLOCK /\
       get_u32 (blk st (double_indirect_block inode)) j <> 0 /\
       (x = get_u32 (blk st (double_indirect_block inode)) j \/
        page_entry (blk st (get_u32 (blk st (double_indirect_block inode)) j)) x)) \/
    x = double_indirect_block inode)).
Proof.
  unfold file_block, page_entry. split.
  - intros (s & Hs & E & Hx).
    destruct s as [[k| |]|parent k].
    + left; left. exists k. cbn in Hs, E. split; [exact Hs|]. split; assumption.
    + left; right. cbn in E. split; [congruence|right; congruence].
    + right. cbn in E. split; [congruence|right; congruence].
    + destruct Hs as [Hp Hk]. cbn [ptr] in E.
      assert (Hnz : entry st (ptr st inode parent) k <> 0) by congruence.
      destruct (entry_nonzero _ _ _ Hnz) as [Hpn Eg]. rewrite Eg in E.
      destruct parent as [[k'| |]|[[k'| |]|pp jj] j]; cbn in Hp; try contradiction.
      * left; right. cbn [ptr get_field] in *. split; [exact Hpn|left].
        exists k. split; [exact Hk|]. split; assumption.
      * right. cbn [ptr get_field] in *. split; [exact Hpn|left].
        exists k. split; [exact Hk|]. split; [congruence|left; congruence].
      * right. cbn [ptr get_field] in Hpn, E.
        destruct (entry_nonzero _ _ _ Hpn) as [Hdn Ej]. rewrite Ej in E, Hpn.
        split; [exact Hdn|left]. exists j. split; [exact Hp|].
        split; [exact Hpn|right]. exists k. split; [exact Hk|]. split; assumption.
  - intros [[(k & Hk & E & Hx)|(Hnz & [(k & Hk & E & Hx)|E])]
           |(Hnz & [(j & Hj & Hjn & [E|(k & Hk & E & Hx)])|E])].
    + exists (Top (FDirect k)). split; [exact Hk|]. split; assumption.
    + exists (Child (Top FInd) k). split; [split; [exact I|exact Hk]|].
      cbn [ptr get_field]. rewrite entry_get by exact Hnz. split; assumption.
    + exists (Top FInd). split; [exact I|]. cbn. split; congruence.
    + exists (Child (Top FDbl) j). split; [split; [exact I|exact Hj]|].
      cbn [ptr get_field]. rewrite entry_get by exact Hnz. split; congruence.
    + exists (Child (Child (Top FDbl) j) k).
      split; [split; [exact Hj|exact Hk]|].
      cbn [ptr get_field]. rewrite (entry_get st _ j) by exact Hnz.
      rewrite entry_get by exact Hjn. split; assumption.
    + exists (Top FDbl). split; [exact I|]. cbn. split; congruence.
Qed.

Lemma delete_ok (st : fs_state) (i : Z) :
  mounted_ok st -> healthy st ->
  0 <= i < inode_count st ->
  byte.unsigned (valid (inode_at st i)) <> 0 ->
  tree_ok st (inode_at st i) ->
  exists st',
    delete st i = (0, st') /\
    mounted_ok st' /\ healthy st' /\ superblock st' = superblock st /\
    inode_at st' i = deleted (inode_at st i) /\
    (forall j, 0 <= j < inode_count st -> j <> i ->
       inode_at st' j = inode_at st j) /\
    (forall x, file_block st (inode_at st i) x -> bitmap_get st' x = 0) /\
    (forall x, 0 <= x -> ~ file_block st (inode_at st i) x ->
       bitmap_get st' x = bitmap_get st x) /\
    (forall b, 0 <= b -> b <> 1 + i / INODES_PER_BLOCK ->
       blk st' b = blk st b).
Proof.
  intros Hm Hh Hi Hv Ht. pose proof Hm as (Hmt & Hsb & _).
  set (ino := inode_at st i) in *.
  assert (Hfb : forall x, file_block st ino x ->
                  0 < x < num_blocks (superblock st)).
  { intros x (s & Hs & E & Hx). destruct Ht as (_ & Hin & _).
    destruct (Hin s Hs) as [Hr _]; [congruence|].
    destruct Hsb as (? & _). lia. }
  pose proof Ht as ((_ & Hlen & _) & _).
  unfold delete. rewrite Hmt, (bad_inode_num_false st i Hsb Hi). cbn [negb].
  rewrite (read_inode_ok st i false Hm Hh Hi). cbn [negb Z.eqb]. fold ino.
  apply Z.eqb_neq in Hv. rewrite Hv.
  (* the direct blocks *)
  destruct (free_direct_released ino st Hm Hlen) as (s4 & E4 & R4).
  { intros k Hk Hnz. apply Hfb, file_block_iff. left; left.
    exists k. split; [exact Hk|]. split; [reflexivity|exact Hnz]. }
  rewrite E4. cbv beta iota.
  set (ino4 := mk_inode (valid ino) (padding ino) (size ino) [0; 0; 0; 0]
                 (indirect_block ino) (double_indirect_block ino)).
  pose proof (released_mounted_ok _ _ _ R4 Hm) as Hm4.
  pose proof (released_healthy _ _ _ R4 Hh) as Hh4.
  (* the indirect page *)
  destruct (delete_indirect s4 ino4 Hm4 Hh4) as (s5 & E5 & R5).
  { cbn [indirect_block ino4]. intros Hnz.
    rewrite (released_superblock _ _ _ R4), (released_blk_fun _ _ _ R4).
    split.
    - apply Hfb, file_block_iff. left; right. split; [exact Hnz|right; reflexivity].
    - intros x Hx. apply Hfb, file_block_iff. left; right.
      split; [exact Hnz|left; exact Hx]. }
  cbv zeta in E5. rewrite E5. cbn [negb Z.eqb].
  pose proof (released_trans _ _ _ _ _ R4 R5) as R45.
  pose proof (released_mounted_ok _ _ _ R45 Hm) as Hm5.
  pose proof (released_healthy _ _ _ R45 Hh) as Hh5.
  (* the double-indirect page *)
  destruct (delete_double s5 (set_indirect ino4 0) Hm5 Hh5) as (s6 & E6 & R6).
  { cbn [double_indirect_block set_indirect ino4]. intros Hnz.
    rewrite (released_superblock _ _ _ R45), (released_blk_fun _ _ _ R45).
    split; [|intros j Hj Hjn; split].
    - apply Hfb, file_block_iff. right. split; [exact Hnz|right; reflexivity].
    - apply Hfb, file_block_iff. right. split; [exact Hnz|left].
      exists j. split; [exact Hj|]. split; [exact Hjn|left; reflexivity].
    - intros x Hx. apply Hfb, file_block_iff. right. split; [exact Hnz|left].
      exists j. split; [exact Hj|]. split; [exact Hjn|right; exact Hx]. }
  cbv zeta in E6. rewrite E6. cbn [negb Z.eqb].
  pose proof (released_trans _ _ _ _ _ R45 R6) as R.
  cbn [indirect_block double_indirect_block set_indirect ino4] in R.
  rewrite (released_blk_fun _ _ _ R4), (released_blk_fun _ _ _ R45) in R.
  apply (released_iff _ (file_block st ino)) in R.
  2:{ intros x. symmetry. apply file_block_iff. }
  pose proof (released_mounted_ok _ _ _ R Hm) as Hm6.
  pose proof (released_healthy _ _ _ R Hh) as Hh6.
  assert (Hi6 : 0 <= i < inode_count s6).
  { rewrite (inode_count_frame st s6 (released_superblock _ _ _ R)). exact Hi. }
  set (rec := set_size (set_valid (set_double_indirect (set_indirect ino4 0) 0)
                          Byte.x00) 0).
  assert (Erec : rec = deleted ino) by reflexivity.
  rewrite (write_inode_ok s6 i rec Hm6 Hh6 Hi6). cbn [negb Z.eqb].
  exists (store_inode s6 i rec). split; [reflexivity|].
  split; [apply mounted_ok_store_inode; [exact Hm6|lia]|].
  split; [exact Hh6|]. split; [exact (released_superblock _ _ _ R)|].
  split; [|split; [|split; [|split]]].
  - rewrite inode_at_store_same; [exact Erec|exact Hm6|exact Hi6|].
    rewrite Erec. unfold inode_ok, deleted. simpl. repeat split; try lia.
    repeat constructor; lia.
  - intros j Hj Hne.
    rewrite inode_at_store_other by (try exact Hm6; lia).
    apply inode_at_frame, (released_blk _ _ _ _ R).
  - intros x Hx. destruct R as (_ & _ & _ & _ & _ & _ & _ & _ & R9).
    apply (R9 x); [|exact Hx]. specialize (Hfb x Hx). lia.
  - intros x Hx Hnf. destruct R as (_ & _ & _ & _ & _ & _ & _ & R8 & _).
    destruct (R8 x Hx) as [E|[Hf _]]; [exact E|contradiction].
  - intros b Hb Hne. rewrite blk_store_inode_other.
    + apply (released_blk _ _ _ _ R).
    + lia.
    + exact Hb.
    + change INODES_PER_BLOCK with 32 in *.
      rewrite Z.quot_div_nonneg by lia. exact Hne.
Qed.

(** On a working device, [delete(i)] of a valid inode whose block map is a
    tree over used data blocks returns 0.  Afterwards the record of [i] is
    free and empty ([valid = 0], [size = 0], all six pointers 0), every
    block the file held (data blocks and pointer pages) is free in the
    bitmap, every other bitmap entry, every other inode record and every
    block but the one holding record [i] are as before. *)
Theorem delete_spec (st : fs_state) (i : Z) :
  mounted_ok st -> healthy st ->
  0 <= i < inode_count st ->
  byte.unsigned (valid (inode_at st i)) <> 0 ->
  tree_ok st (inode_at st i) ->
  exists st',
    delete st i = (0, st') /\
    mounted_ok st' /\ healthy st' /\ superblock st' = superblock st /\
    inode_at st' i = deleted (inode_at st i) /\
    (forall j, 0 <= j < inode_count st -> j <> i ->
       inode_at st' j = inode_at st j) /\
    (forall x, file_block st (inode_at st i) x -> bitmap_get st' x = 0) /\
    (forall x, 0 <= x -> ~ file_block st (inode_at st i) x ->
       bitmap_get st' x = bitmap_get st x) /\
    (forall b, 0 <= b -> b <> 1 + i / INODES_PER_BLOCK ->
       blk st' b = blk st b).
Proof. exact (delete_ok st i). Qed.

Lemma delete_spec_witness :
  exists st',
    delete example_sparse 0 = (0, st') /\
    inode_at st' 0 = deleted (inode_at example_sparse 0).
Proof.
  destruct (delete_spec example_sparse 0 (proj1 example_sparse_ok)
              (proj1 (proj2 example_sparse_ok)))
    as (st' & E & _ & _ & _ & Hrec & _).
  - split; by_eval.
  - by_eval.
  - apply (proj2 (proj2 example_sparse_ok)).
  - exists st'. split; [exact E|exact Hrec].
Defined.

(** [delete] refuses an inode that is free already and a number outside of
    the inode table with [E_INVALID_INODE], and changes nothing.  So a file
    can be deleted once: after a successful [delete(i)], [stat(i)] and a
    second [delete(i)] both return [E_INVALID_INODE]. *)
Theorem delete_errors (st : fs_state) (i : Z) :
  mounted_ok st -> healthy st ->
  (0 <= i < inode_count st ->
   byte.unsigned (valid (inode_at st i)) = 0 ->
   delete st i = (E_INVALID_INODE, st)) /\
  (i < 0 \/ inode_count st <= i < 2 ^ 31 ->
   delete st i = (E_INVALID_INODE, st)) /\
  (0 <= i < inode_count st ->
   byte.unsigned (valid (inode_at st i)) <> 0 ->
   tree_ok st (inode_at st i) ->
   exists st',
     delete st i = (0, st') /\
     stat st' i = (E_INVALID_INODE, st') /\
     delete st' i = (E_INVALID_INODE, st')).
Proof.
  intros Hm Hh. pose proof Hm as (Hmt & Hsb & _).
  assert (Hfree : forall s, mounted_ok s -> healthy s -> 0 <= i < inode_count s ->
            byte.unsigned (valid (inode_at s i)) = 0 ->
            delete s i = (E_INVALID_INODE, s) /\
            stat s i = (E_INVALID_INODE, s)).
  { intros s Hms Hhs His Hz. pose proof Hms as (Hmts & Hsbs & _).
    unfold delete, stat. rewrite Hmts, (bad_inode_num_false s i Hsbs His).
    cbn [negb]. rewrite (read_inode_ok s i false Hms Hhs His). cbn [negb Z.eqb].
    apply Z.eqb_eq in Hz. rewrite Hz. split; reflexivity. }
  split; [|split].
  - intros Hi Hz. apply (Hfree st Hm Hh Hi Hz).
  - intros Hi. unfold delete. rewrite Hmt. cbn [negb].
    replace (bad_inode_num st i) with true; [reflexivity|].
    symmetry. unfold bad_inode_num. apply orb_true_iff.
    destruct Hi as [Hneg|Hbig]; [left; apply Z.ltb_lt; exact Hneg|right].
    pose proof (inode_count_ok st Hsb) as Hc.
    assert (0 <= inode_count st).
    { rewrite Hc. destruct Hsb as (? & _). change INODES_PER_BLOCK with 32. lia. }
    rewrite to_uint32_small by lia. apply Z.leb_le. lia.
  - intros Hi Hv Ht.
    destruct (delete_ok st i Hm Hh Hi Hv Ht)
      as (st' & E & Hm' & Hh' & Es & Hrec & _).
    assert (Hi' : 0 <= i < inode_count st')
      by (rewrite (inode_count_frame st st' Es); exact Hi).
    exists st'. split; [exact E|].
    destruct (Hfree st' Hm' Hh' Hi') as [Hd Hs]; [rewrite Hrec; reflexivity|].
    split; [exact Hs|exact Hd].
Qed.

Lemma delete_errors_witness :
  delete example_file 1 = (E_INVALID_INODE, example_file) /\
  delete example_file 32 = (E_INVALID_INODE, example_file) /\
  exists st',
    delete example_sparse 0 = (0, st') /\
    stat st' 0 = (E_INVALID_INODE, st') /\
    delete st' 0 = (E_INVALID_INODE, st').
Proof.
  destruct (delete_errors example_file 1 example_file_ok) as (H1 & _ & _);
    [by_eval|].
  destruct (delete_errors example_file 32 example_file_ok) as (_ & H2 & _);
    [by_eval|].
  destruct (delete_errors example_sparse 0 (proj1 example_sparse_ok)
              (proj1 (proj2 example_sparse_ok))) as (_ & _ & H3).
  split; [apply H1; [split; by_eval|by_eval]|].
  split; [apply H2; right; split; by_eval|].
  apply H3; [split; by_eval|by_eval|apply (proj2 (proj2 example_sparse_ok))].
Defined.

(** ** Recycling of inode numbers *)

Lemma create_at st k :
  mounted_ok st -> healthy st -> 0 <= k < inode_count st ->
  byte.unsigned (valid (inode_at st k)) = 0 ->
  (forall j, 0 <= j < k -> byte.unsigned (valid (inode_at st j)) <> 0) ->
  create st = (k, store_inode st k (created (inode_at st k))).
Proof.
  intros Hm Hh Hk Hz Hb. pose proof Hm as (Hmt & Hsb & _).
  pose proof (inode_count_ok st Hsb) as Hc.
  assert (Hint : to_int (inode_count st) = inode_count st).
  { destruct Hsb as (? & ? & ? & ?). unfold INT_MAX in *.
    change INODES_PER_BLOCK with 32 in *. apply to_int_small. lia. }
  destruct (create_scan_spec st Hm Hh (Z.to_nat (inode_count st)) 0)
    as [_ Hsome]; [lia|lia|].
  unfold create. rewrite Hmt, Hint. cbn [negb].
  apply Hsome; [lia|exact Hz|exact Hb].
Qed.

(** On a working device, the number [create] has handed out is handed out
    again once the file is deleted: after [create() = k] and
    [delete(k) = 0], the next [create()] returns [k]. *)
Theorem create_delete_create (st st1 : fs_state) (k : Z) :
  mounted_ok st -> healthy st ->
  create st = (k, st1) -> 0 <= k ->
  exists st2 st3,
    delete st1 k = (0, st2) /\ create st2 = (k, st3).
Proof.
  intros Hm Hh Hc Hk.
  destruct (create_ok st st1 k Hm Hh Hc Hk) as (Hm1 & Hh1 & Hf1 & _).
  destruct (create_inv st k st1 Hm Hh Hc) as [[-> _]|(Hr & Hz & Hb & Est)];
    [unfold E_OUT_OF_INODES in Hk; lia|].
  assert (Hc1 : inode_count st1 = inode_count st) by (rewrite Est; reflexivity).
  destruct Hf1 as (Hk1 & Hv1 & Ht1 & _).
  destruct (delete_ok st1 k Hm1 Hh1 Hk1 Hv1 Ht1)
    as (st2 & E2 & Hm2 & Hh2 & Es2 & Hrec & Hoth & _).
  exists st2, (store_inode st2 k (created (inode_at st2 k))).
  split; [exact E2|].
  apply create_at; [exact Hm2|exact Hh2| | |].
  - rewrite (inode_count_frame st1 st2 Es2). exact Hk1.
  - rewrite Hrec. reflexivity.
  - intros j Hj. rewrite Hoth by lia.
    rewrite Est, inode_at_store_other by (try exact Hm; lia).
    apply Hb, Hj.
Qed.

Lemma create_delete_create_witness :
  exists st2 st3,
    delete example_file 0 = (0, st2) /\ create st2 = (0, st3).
Proof.
  apply (create_delete_create example_mounted example_file 0 example_mounted_ok);
    [by_eval|by_eval|lia].
Defined.

(** ** Allocation and release *)

Lemma first_free_bitmap st st' n :
  block_bitmap st' = block_bitmap st ->
  forall i, first_free st' i n = first_free st i n.
Proof.
  intros E. induction n as [|n IH]; intros i; [reflexivity|].
  cbn [first_free]. unfold bitmap_get. rewrite E, IH. reflexivity.
Qed.

(** [free_block] undoes [find_free_block]: when the block found is released
    again, the bitmap is what it was, and the next search finds the same
    block. *)
Theorem release_undoes_allocation (st st1 : fs_state) (b : Z) :
  mounted_ok st ->
  find_free_block st = (b, st1) -> 0 < b ->
  bitmap_get st b = 0 /\ bitmap_get st1 b = 1 /\
  block_bitmap (free_block st1 b) = block_bitmap st /\
  fst (find_free_block (free_block st1 b)) = b.
Proof.
  intros Hm Hf Hb. pose proof Hm as (Hmt & Hsb & _ & Hlen & _).
  destruct (find_free_block_spec st st1 b Hmt Hsb Hlen Hf)
    as [_ [(Hr & Hz & _ & Est & H1 & _)|(-> & _)]];
    [|unfold E_OUT_OF_SPACE in Hb; lia].
  pose proof Hsb as (_ & _ & _ & Hnb). unfold INT_MAX in Hnb.
  assert (Eb : block_bitmap (free_block st1 b) = block_bitmap st).
  { rewrite free_block_guard;
      [|rewrite Est; exact Hmt|exact Hb
       |rewrite Est; cbn [superblock log bitmap_set with_bitmap];
        rewrite to_uint32_small; lia].
    rewrite Est. unfold log, bitmap_set. cbn.
    rewrite list_insert_insert_eq. apply list_insert_id.
    unfold bitmap_get in Hz. rewrite <- Hz.
    destruct (nth_lookup_or_length (block_bitmap st) (Z.to_nat b) 0) as [E|E];
      [exact E|lia]. }
  split; [exact Hz|]. split; [exact H1|]. split; [exact Eb|].
  assert (Em : disk_mounted (free_block st1 b) = disk_mounted st).
  { unfold free_block. destruct (_ && _)%bool; rewrite Est; reflexivity. }
  assert (Es : superblock (free_block st1 b) = superblock st).
  { unfold free_block. destruct (_ && _)%bool; rewrite Est; reflexivity. }
  revert Hf. unfold find_free_block, first_data_block.
  rewrite Em, Es, Hmt. cbn [negb].
  rewrite ?(first_free_bitmap st (free_block st1 b) _ Eb).
  destruct (first_free st _ _); intros H; injection H as <- _; reflexivity.
Qed.

Lemma release_undoes_allocation_witness :
  block_bitmap (free_block (snd (find_free_block example_file)) 2)
  = block_bitmap example_file /\
  fst (find_free_block (free_block (snd (find_free_block example_file)) 2)) = 2.
Proof.
  destruct (release_undoes_allocation example_file
              (snd (find_free_block example_file)) 2 example_file_ok)
    as (_ & _ & H1 & H2); [by_eval|lia|].
  split; [exact H1|exact H2].
Defined.

(** ** [mount] *)

Lemma marked_refl st : marked st st.
Proof. unfold marked. do 6 (split; [reflexivity|]). intros x _ H. exact H. Qed.

Lemma marked_trans st1 st2 st3 :
  marked st1 st2 -> marked st2 st3 -> marked st1 st3.
Proof.
  intros (A1 & A2 & A3 & A4 & A5 & A6 & A7) (B1 & B2 & B3 & B4 & B5 & B6 & B7).
  unfold marked. do 6 (split; [congruence|]).
  intros x Hx H. apply B7; [exact Hx|]. apply A7; assumption.
Qed.

Lemma marked_blk st st' : marked st st' -> blk st' = blk st.
Proof. intros (_ & _ & A3 & _). unfold blk. rewrite A3. reflexivity. Qed.

Lemma marked_in_bitmap st st' x : marked st st' -> in_bitmap st x -> in_bitmap st' x.
Proof. intros (_ & _ & _ & _ & _ & A6 & _). unfold in_bitmap. rewrite A6. exact id. Qed.

Lemma read_only_marked st st' : read_only st st' -> marked st st'.
Proof. intros ->. unfold marked. cbn. do 6 (split; [reflexivity|]). intros x _ H; exact H. Qed.

Lemma bitmap_set_marked st x :
  marked st (bitmap_set st x 1) /\
  (in_bitmap st x -> bitmap_get (bitmap_set st x 1) x = 1).
Proof.
  split.
  - unfold marked, bitmap_set. cbn. do 5 (split; [reflexivity|]).
    split; [apply length_insert|].
    intros y Hy H. unfold bitmap_get in *. cbn.
    destruct (decide (Z.to_nat y = Z.to_nat x)) as [E|E].
    + rewrite E.
      destruct (decide (Z.to_nat x < length (block_bitmap st))%nat) as [Hl|Hl].
      * apply nth_lookup_Some with (d := 0) (x := 1).
        apply list_lookup_insert_eq. exact Hl.
      * rewrite nth_overflow in H by lia. discriminate.
    + rewrite !nth_lookup in *. rewrite list_lookup_insert_ne by congruence.
      exact H.
  - intros Hx. apply bitmap_get_set_eq. exact Hx.
Qed.

Lemma disk_read_zero st s b st' :
  disk_read st s = (0, b, st') -> b = blk st s /\ read_only st st'.
Proof.
  intros H. split; [|exact (disk_read_read_only _ _ _ _ _ H)].
  revert H. unfold disk_read, vdisk_read, blk.
  destruct (in_range _ _); [|intros H; discriminate].
  destruct (device_fault st) as [x st1].
  destruct (x =? 0) eqn:E; intros H.
  - injection H as <- _. reflexivity.
  - injection H as E0 _ _. subst x. discriminate.
Qed.

(** The marking loops of [mount]. *)
Lemma mark_fold_marked (g : nat -> Z) l :
  forall st,
    marked st
      (fold_left (fun st k => if g k =? 0 then st else bitmap_set st (g k) 1)
         l st) /\
    (forall k, k ∈ l -> g k <> 0 -> in_bitmap st (g k) ->
       bitmap_get
         (fold_left (fun st k => if g k =? 0 then st else bitmap_set st (g k) 1)
            l st) (g k) = 1).
Proof.
  induction l as [|k l IH]; intros st.
  - split; [apply marked_refl|]. intros k Hk. inversion Hk.
  - cbn [fold_left].
    set (st1 := if g k =? 0 then st else bitmap_set st (g k) 1).
    assert (M1 : marked st st1).
    { unfold st1. destruct (_ =? 0); [apply marked_refl|apply bitmap_set_marked]. }
    destruct (IH st1) as [M2 H2].
    split; [exact (marked_trans _ _ _ M1 M2)|].
    intros j Hj Hnz Hin. apply elem_of_cons in Hj as [->|Hj].
    + destruct M2 as (_ & _ & _ & _ & _ & _ & M7). apply M7; [apply Hin|].
      unfold st1. apply Z.eqb_neq in Hnz. rewrite Hnz.
      apply bitmap_set_marked, Hin.
    + apply H2; [exact Hj|exact Hnz|exact (marked_in_bitmap _ _ _ M1 Hin)].
Qed.

Lemma mark_entries_marked st page :
  marked st (mark_entries st page) /\
  (forall x, page_entry page x -> in_bitmap st x ->
     bitmap_get (mark_entries st page) x = 1).
Proof.
  unfold mark_entries.
  destruct (mark_fold_marked (fun k => get_u32 page (Z.of_nat k))
              (seq 0 (Z.to_nat POINTERS_PER_BLOCK)) st) as [M H].
  split; [exact M|]. intros x (k & Hk & E & Hx) Hin. subst x.
  specialize (H (Z.to_nat k)). cbv beta in H. rewrite Z2Nat.id in H by lia.
  apply H; [|exact Hx|exact Hin].
  apply elem_of_seq. change POINTERS_PER_BLOCK with 256 in *. lia.
Qed.

Lemma mark_double_marked pointers :
  forall n st j st',
    mark_double st pointers j n = (0, st') ->
    marked st st' /\
    (forall j', j <= j' < j + Z.of_nat n -> get_u32 pointers j' <> 0 ->
       (in_bitmap st (get_u32 pointers j') ->
        bitmap_get st' (get_u32 pointers j') = 1) /\
       (forall x, page_entry (blk st (get_u32 pointers j')) x ->
          in_bitmap st x -> bitmap_get st' x = 1)).
Proof.
  induction n as [|n IH]; intros st j st'; cbn [mark_double].
  - intros H; injection H as <-. split; [apply marked_refl|]. intros j' Hj'. lia.
  - destruct (get_u32 pointers j =? 0) eqn:Ez;
      [apply Z.eqb_eq in Ez|apply Z.eqb_neq in Ez].
    + intros H. destruct (IH _ _ _ H) as [M Hm]. split; [exact M|].
      intros j' Hj' Hnz. destruct (Z.eq_dec j' j) as [->|Hne]; [congruence|].
      apply Hm; [lia|exact Hnz].
    + set (e := get_u32 pointers j) in *.
      destruct (bitmap_set_marked st e) as [M1 H1].
      destruct (disk_read (bitmap_set st e 1) e) as [[r curr] st2] eqn:Er.
      destruct (Z.eqb_spec r 0) as [->|Hr]; cbn [negb];
        [|intros H; injection H as E _; congruence].
      destruct (disk_read_zero _ _ _ _ Er) as [-> R2].
      pose proof (marked_trans _ _ _ M1 (read_only_marked _ _ R2)) as M2.
      destruct (mark_entries_marked st2 (blk (bitmap_set st e 1) e)) as [M3 H3].
      pose proof (marked_trans _ _ _ M2 M3) as M23.
      intros H. destruct (IH _ _ _ H) as [M4 H4].
      split; [exact (marked_trans _ _ _ M23 M4)|].
      intros j' Hj' Hnz. destruct (Z.eq_dec j' j) as [->|Hne].
      * fold e. destruct M4 as (_ & _ & _ & _ & _ & _ & M47). split.
        -- intros Hin. apply M47; [apply Hin|].
           destruct M3 as (_ & _ & _ & _ & _ & _ & M37). apply M37; [apply Hin|].
           destruct (read_only_marked _ _ R2) as (_ & _ & _ & _ & _ & _ & M27).
           apply M27; [apply Hin|]. apply H1, Hin.
        -- intros x Hx Hin. apply M47; [apply Hin|]. apply H3.
           ++ rewrite (marked_blk _ _ M1). exact Hx.
           ++ exact (marked_in_bitmap _ _ _ M2 Hin).
      * destruct (H4 j' ltac:(lia) Hnz) as [Ha Hb]. split.
        -- intros Hin. apply Ha. exact (marked_in_bitmap _ _ _ M23 Hin).
        -- intros x Hx Hin. apply Hb.
           ++ rewrite (marked_blk _ _ M23). exact Hx.
           ++ exact (marked_in_bitmap _ _ _ M23 Hin).
Qed.

(** What [mount] does with one valid inode: when it succeeds, every block of
    the file that the bitmap has an entry for is marked. *)
Lemma mark_inode_marked st inode st' :
  mark_inode st inode = (0, st') ->
  marked st st' /\
  (forall x, file_block st inode x -> in_bitmap st x -> bitmap_get st' x = 1).
Proof.
  unfold mark_inode. cbv zeta.
  destruct (mark_fold_marked (fun j => direct inode (Z.of_nat j)) (seq 0 4) st)
    as [MD HD].
  set (sD := fold_left _ (seq 0 4) st) in *.
  (* the indirect page *)
  destruct (if indirect_block inode =? 0 then (0, sD) else _) as [r1 s5] eqn:E5.
  assert (F5 : r1 = 0 ->
            marked sD s5 /\
            (indirect_block inode <> 0 ->
             (in_bitmap sD (indirect_block inode) ->
              bitmap_get s5 (indirect_block inode) = 1) /\
             (forall x, page_entry (blk sD (indirect_block inode)) x ->
                in_bitmap sD x -> bitmap_get s5 x = 1))).
  { intros ->. revert E5.
    destruct (Z.eqb_spec (indirect_block inode) 0) as [Ez|Hnz].
    - intros H; injection H as <-. split; [apply marked_refl|congruence].
    - set (e := indirect_block inode) in *.
      destruct (bitmap_set_marked sD e) as [M1 H1].
      destruct (disk_read (bitmap_set sD e 1) e) as [[r page] s2] eqn:Er.
      destruct (Z.eqb_spec r 0) as [-> | Hr]; cbn [negb];
        [|intros H; injection H as E _; congruence].
      destruct (disk_read_zero _ _ _ _ Er) as [-> R2].
      pose proof (marked_trans _ _ _ M1 (read_only_marked _ _ R2)) as M2.
      destruct (mark_entries_marked s2 (blk (bitmap_set sD e 1) e)) as [M3 H3].
      intros H; injection H as <-.
      split; [exact (marked_trans _ _ _ M2 M3)|]. intros _. split.
      + intros Hin. destruct M3 as (_ & _ & _ & _ & _ & _ & M37).
        apply M37; [apply Hin|].
        destruct (read_only_marked _ _ R2) as (_ & _ & _ & _ & _ & _ & M27).
        apply M27; [apply Hin|]. apply H1, Hin.
      + intros x Hx Hin. apply H3.
        * rewrite (marked_blk _ _ M1). exact Hx.
        * exact (marked_in_bitmap _ _ _ M2 Hin). }
  destruct (Z.eqb_spec r1 0) as [-> | Hr1]; cbn [negb];
    [|intros H; injection H as E _; congruence].
  destruct (F5 eq_refl) as [M5 H5]. clear F5 E5.
  pose proof (marked_trans _ _ _ MD M5) as MD5.
  (* the double-indirect page *)
  assert (F6 : forall s6,
            (if double_indirect_block inode =? 0 then (0, s5)
             else
               let '(result, page, st0) :=
                 disk_read (bitmap_set s5 (double_indirect_block inode) 1)
                   (double_indirect_block inode) in
               if negb (result =? 0) then (result, st0)
               else mark_double st0 page 0 (Z.to_nat POINTERS_PER_BLOCK))
            = (0, s6) ->
            marked s5 s6 /\
            (double_indirect_block inode <> 0 ->
             (in_bitmap s5 (double_indirect_block inode) ->
              bitmap_get s6 (double_indirect_block inode) = 1) /\
             (forall j, 0 <= j < POINTERS_PER_BLOCK ->
                get_u32 (blk s5 (double_indirect_block inode)) j <> 0 ->
                (in_bitmap s5 (get_u32 (blk s5 (double_indirect_block inode)) j) ->
                 bitmap_get s6 (get_u32 (blk s5 (double_indirect_block inode)) j) = 1) /\
                (forall x,
                   page_entry
                     (blk s5 (get_u32 (blk s5 (double_indirect_block inode)) j)) x ->
                   in_bitmap s5 x -> bitmap_get s6 x = 1)))).
  { intros s6.
    destruct (Z.eqb_spec (double_indirect_block inode) 0) as [Ez|Hnz].
    - intros H; injection H as <-. split; [apply marked_refl|congruence].
    - set (e := double_indirect_block inode) in *.
      destruct (bitmap_set_marked s5 e) as [M1 H1].
      destruct (disk_read (bitmap_set s5 e 1) e) as [[r page] s2] eqn:Er.
      destruct (Z.eqb_spec r 0) as [-> | Hr]; cbn [negb];
        [|intros H; injection H as E _; congruence].
      destruct (disk_read_zero _ _ _ _ Er) as [-> R2].
      pose proof (marked_trans _ _ _ M1 (read_only_marked _ _ R2)) as M2.
      intros H. apply mark_double_marked in H. destruct H as [M3 H3].
      split; [exact (marked_trans _ _ _ M2 M3)|]. intros _. split.
      + intros Hin. destruct M3 as (_ & _ & _ & _ & _ & _ & M37).
        apply M37; [apply Hin|].
        destruct (read_only_marked _ _ R2) as (_ & _ & _ & _ & _ & _ & M27).
        apply M27; [apply Hin|]. apply H1, Hin.
      + intros j Hj Hjn.
        rewrite (marked_blk _ _ M1) in H3.
        destruct (H3 j) as [Ha Hb];
          [change POINTERS_PER_BLOCK with 256 in *; simpl; lia|exact Hjn|].
        split.
        * intros Hin. apply Ha. exact (marked_in_bitmap _ _ _ M2 Hin).
        * intros x Hx Hin. apply Hb.
          -- rewrite (marked_blk _ _ M2). exact Hx.
          -- exact (marked_in_bitmap _ _ _ M2 Hin). }
  intros H. apply F6 in H. destruct H as [M6 H6].
  pose proof (marked_trans _ _ _ MD5 M6) as M.
  split; [exact M|].
  intros x Hfb Hin.
  destruct M6 as (_ & _ & _ & _ & _ & _ & M67).
  destruct M5 as (_ & _ & _ & _ & _ & _ & M57).
  rewrite (marked_blk _ _ MD5) in H6. rewrite (marked_blk _ _ MD) in H5.
  apply file_block_iff in Hfb.
  destruct Hfb as [[(k & Hk & E & Hx)|(Hnz & [Hx | ->])]
                  |(Hnz & [(j & Hj & Hjn & [-> | Hx])| ->])].
  - apply M67; [apply Hin|]. apply M57; [apply Hin|]. subst x.
    specialize (HD (Z.to_nat k)). cbv beta in HD. rewrite Z2Nat.id in HD by lia.
    apply HD; [apply elem_of_seq; lia|exact Hx|exact Hin].
  - apply M67; [apply Hin|]. apply (proj2 (H5 Hnz)); [exact Hx|].
    exact (marked_in_bitmap _ _ _ MD Hin).
  - apply M67; [apply Hin|]. apply (proj1 (H5 Hnz)).
    exact (marked_in_bitmap _ _ _ MD Hin).
  - apply (proj1 (proj2 (H6 Hnz) j Hj Hjn)).
    exact (marked_in_bitmap _ _ _ MD5 Hin).
  - apply (proj2 (proj2 (H6 Hnz) j Hj Hjn)); [exact Hx|].
    exact (marked_in_bitmap _ _ _ MD5 Hin).
  - apply (proj1 (H6 Hnz)). exact (marked_in_bitmap _ _ _ MD5 Hin).
Qed.

Lemma marked_file_block st st' inode x :
  marked st st' -> file_block st' inode x <-> file_block st inode x.
Proof.
  intros M. rewrite !file_block_iff. rewrite (marked_blk _ _ M). reflexivity.
Qed.

Lemma marked_inode_at st st' i : marked st st' -> inode_at st' i = inode_at st i.
Proof. intros M. unfold inode_at. rewrite (marked_blk _ _ M). reflexivity. Qed.

(** [read_inode] accepts no negative number: a loop counter of [mount] that
    it accepts is its own value as an [int]. *)
Lemma read_inode_counter st i bp inode st' :
  0 <= i < 2 ^ 32 ->
  read_inode st (to_int i) bp = (0, inode, st') -> to_int i = i.
Proof.
  intros Hi. unfold read_inode.
  destruct (_ && _)%bool; [intros H; discriminate|].
  unfold bad_inode_num.
  destruct (Z.ltb_spec (to_int i) 0) as [Hneg|Hpos];
    [cbn [orb]; intros H; discriminate|].
  intros _. revert Hpos. unfold to_int.
  destruct (Z_lt_ge_dec i (2 ^ 31)) as [Hs|Hb].
  - rewrite Z.mod_small by lia. lia.
  - replace (i + 2 ^ 31) with (i - 2 ^ 31 + 1 * 2 ^ 32) by lia.
    rewrite Z.mod_add by lia. rewrite Z.mod_small by lia. lia.
Qed.

(** The scan of [mount]: when it succeeds, the blocks of every valid inode it
    went over are marked. *)
Lemma mount_scan_marked :
  forall n st i st',
    0 <= i -> i + Z.of_nat n <= 2 ^ 32 ->
    mount_scan st i n = (0, st') ->
    marked st st' /\
    (forall k x, i <= k < i + Z.of_nat n ->
       is_valid (inode_at st k) = true ->
       file_block st (inode_at st k) x -> in_bitmap st x ->
       bitmap_get st' x = 1).
Proof.
  induction n as [|n IH]; intros st i st' Hi Hn.
  - cbn [mount_scan]. intros H; injection H as <-.
    split; [apply marked_refl|]. intros; lia.
  - cbn [mount_scan].
    destruct (read_inode st (to_int i) true) as [[r inode] s1] eqn:Er.
    destruct (Z.eqb_spec r 0) as [-> | Hr]; cbn [negb];
      [|intros H; injection H as E _; congruence].
    pose proof (read_inode_counter st i true inode s1 ltac:(lia) Er) as Ei.
    rewrite Ei in Er.
    pose proof (read_only_marked _ _ (read_inode_read_only _ _ _ _ _ _ Er)) as M1.
    apply read_inode_inv in Er. destruct Er as [-> _].
    assert (Step : forall s2,
              marked st s2 ->
              (is_valid (inode_at st i) = true ->
               forall x, file_block st (inode_at st i) x -> in_bitmap st x ->
                 bitmap_get s2 x = 1) ->
              mount_scan s2 (i + 1) n = (0, st') ->
              marked st st' /\
              (forall k x, i <= k < i + Z.of_nat (S n) ->
                 is_valid (inode_at st k) = true ->
                 file_block st (inode_at st k) x -> in_bitmap st x ->
                 bitmap_get st' x = 1)).
    { intros s2 M2 H2 E. apply IH in E; [|lia|lia]. destruct E as [M3 H3].
      split; [exact (marked_trans _ _ _ M2 M3)|].
      intros k x Hk Hv Hfb Hin.
      destruct (Z.eq_dec k i) as [-> | Hne].
      - destruct M3 as (_ & _ & _ & _ & _ & _ & M37).
        apply M37; [apply Hin|]. apply H2; assumption.
      - apply (H3 k x); [lia| | |].
        + rewrite (marked_inode_at _ _ _ M2). exact Hv.
        + rewrite (marked_inode_at _ _ _ M2).
          apply (marked_file_block _ _ _ _ M2). exact Hfb.
        + exact (marked_in_bitmap _ _ _ M2 Hin). }
    destruct (is_valid (inode_at st i)) eqn:Ev.
    + destruct (mark_inode s1 (inode_at st i)) as [r2 s2] eqn:Em.
      destruct (Z.eqb_spec r2 0) as [-> | Hr2]; cbn [negb];
        [|intros H; injection H as E _; congruence].
      apply mark_inode_marked in Em. destruct Em as [M2 H2].
      apply Step; [exact (marked_trans _ _ _ M1 M2)|].
      intros _ x Hfb Hin. apply H2.
      * apply (marked_file_block _ _ _ _ M1). exact Hfb.
      * exact (marked_in_bitmap _ _ _ M1 Hin).
    + apply Step; [exact M1|]. intros H; discriminate.
Qed.

Lemma set_fold_marked l :
  forall st,
    marked st (fold_left (fun st i => bitmap_set st (Z.of_nat i) 1) l st) /\
    (forall i, i ∈ l -> in_bitmap st (Z.of_nat i) ->
       bitmap_get (fold_left (fun st i => bitmap_set st (Z.of_nat i) 1) l st)
         (Z.of_nat i) = 1).
Proof.
  induction l as [|k l IH]; intros st.
  - split; [apply marked_refl|]. intros k Hk. inversion Hk.
  - cbn [fold_left].
    destruct (bitmap_set_marked st (Z.of_nat k)) as [M1 H1].
    destruct (IH (bitmap_set st (Z.of_nat k) 1)) as [M2 H2].
    split; [exact (marked_trans _ _ _ M1 M2)|].
    intros j Hj Hin. apply elem_of_cons in Hj as [-> | Hj].
    + destruct M2 as (_ & _ & _ & _ & _ & _ & M7). apply M7; [apply Hin|].
      apply H1, Hin.
    + apply H2; [exact Hj|exact (marked_in_bitmap _ _ _ M1 Hin)].
Qed.

Lemma bytes_eqb_eq a : forall b, bytes_eqb a b = true -> a = b.
Proof.
  induction a as [|x a IH]; intros [|y b]; cbn; try discriminate; [reflexivity|].
  intros H. apply andb_prop in H. destruct H as [Hx Hr].
  apply Byte.byte_dec_bl in Hx. subst. f_equal. apply IH, Hr.
Qed.



(** The marking loops of [mount] touch no other entry of the bitmap. *)
Lemma marks_only_refl P st : marks_only P st st.
Proof. intros x _. left. reflexivity. Qed.

Lemma marks_only_trans P st1 st2 st3 :
  marks_only P st1 st2 -> marks_only P st2 st3 -> marks_only P st1 st3.
Proof.
  intros H1 H2 x Hx. destruct (H2 x Hx) as [E2|?]; [|right; assumption].
  destruct (H1 x Hx) as [E1|?]; [left; congruence|right; assumption].
Qed.

Lemma marks_only_iff (P Q : Z -> Prop) st st' :
  (forall x, P x -> Q x) -> marks_only P st st' -> marks_only Q st st'.
Proof. intros HPQ H x Hx. destruct (H x Hx); [left|right]; auto. Qed.

Lemma read_only_marks_only P st st' : read_only st st' -> marks_only P st st'.
Proof. intros -> x _. left. reflexivity. Qed.

Lemma bitmap_set_marks_only st x v :
  0 <= x -> marks_only (fun y => y = x) st (bitmap_set st x v).
Proof.
  intros Hx y Hy. destruct (Z.eq_dec y x) as [E|E]; [right; exact E|left].
  unfold bitmap_get, bitmap_set. cbn. rewrite !nth_lookup.
  rewrite list_lookup_insert_ne by lia. reflexivity.
Qed.

Lemma mark_fold_marks_only (g : nat -> Z) l :
  (forall k, k ∈ l -> 0 <= g k) ->
  forall st,
    marks_only (fun x => exists k, k ∈ l /\ g k = x /\ x <> 0) st
      (fold_left (fun st k => if g k =? 0 then st else bitmap_set st (g k) 1)
         l st).
Proof.
  induction l as [|k l IH]; intros Hg st.
  - apply marks_only_refl.
  - cbn [fold_left].
    apply (marks_only_trans _ _ (if g k =? 0 then st else bitmap_set st (g k) 1)).
    + destruct (Z.eqb_spec (g k) 0) as [Ez|Hnz]; [apply marks_only_refl|].
      eapply marks_only_iff; [|apply bitmap_set_marks_only].
      * intros x ->. exists k. split; [left|split; [reflexivity|exact Hnz]].
      * apply Hg. left.
    + eapply marks_only_iff; [|apply IH].
      * intros x (j & Hj & E & Hx). exists j. split; [right; exact Hj|]. auto.
      * intros j Hj. apply Hg. right. exact Hj.
Qed.

Lemma mark_entries_marks_only st page :
  marks_only (page_entry page) st (mark_entries st page).
Proof.
  unfold mark_entries.
  eapply marks_only_iff;
    [|apply (mark_fold_marks_only (fun k => get_u32 page (Z.of_nat k)))].
  - intros x (k & Hk & E & Hx). exists (Z.of_nat k).
    apply elem_of_seq in Hk. change POINTERS_PER_BLOCK with 256 in *.
    split; [simpl in Hk; lia|]. split; assumption.
  - intros k _. apply get_u32_range.
Qed.

Lemma mark_double_marks_only pointers :
  forall n st j st',
    mark_double st pointers j n = (0, st') ->
    marks_only
      (fun x => exists j', j <= j' < j + Z.of_nat n /\
                 get_u32 pointers j' <> 0 /\
                 (x = get_u32 pointers j' \/
                  page_entry (blk st (get_u32 pointers j')) x))
      st st'.
Proof.
  induction n as [|n IH]; intros st j st'; cbn [mark_double].
  - intros H; injection H as <-. apply marks_only_refl.
  - destruct (get_u32 pointers j =? 0) eqn:Ez;
      [apply Z.eqb_eq in Ez|apply Z.eqb_neq in Ez].
    + intros H. eapply marks_only_iff; [|exact (IH _ _ _ H)].
      intros x (j' & Hj' & Hnz & Hx). exists j'. split; [lia|]. auto.
    + set (e := get_u32 pointers j) in *.
      destruct (bitmap_set_marked st e) as [M1 _].
      destruct (disk_read (bitmap_set st e 1) e) as [[r curr] st2] eqn:Er.
      destruct (Z.eqb_spec r 0) as [-> | Hr]; cbn [negb];
        [|intros H; injection H as E _; congruence].
      destruct (disk_read_zero _ _ _ _ Er) as [-> R2].
      pose proof (marked_trans _ _ _ M1 (read_only_marked _ _ R2)) as M2.
      destruct (mark_entries_marked st2 (blk (bitmap_set st e 1) e)) as [M3 _].
      pose proof (marked_trans _ _ _ M2 M3) as M23.
      intros H. apply IH in H.
      match goal with |- marks_only ?P _ _ => set (Q := P) end.
      assert (O1 : marks_only Q st (bitmap_set st e 1)).
      { eapply marks_only_iff; [|apply (bitmap_set_marks_only st e 1)].
        - intros x ->. exists j. split; [lia|]. split; [exact Ez|left; reflexivity].
        - apply get_u32_range. }
      assert (O2 : marks_only Q (bitmap_set st e 1) st2)
        by (apply read_only_marks_only; exact R2).
      assert (O3 : marks_only Q st2 (mark_entries st2 (blk (bitmap_set st e 1) e))).
      { eapply marks_only_iff; [|apply mark_entries_marks_only].
        intros x Hx. exists j. split; [lia|]. split; [exact Ez|right].
        rewrite (marked_blk _ _ M1) in Hx. exact Hx. }
      assert (O4 : marks_only Q (mark_entries st2 (blk (bitmap_set st e 1) e)) st').
      { eapply marks_only_iff; [|exact H].
        intros x (j' & Hj' & Hnz & Hx). exists j'. split; [lia|].
        split; [exact Hnz|]. rewrite (marked_blk _ _ M23) in Hx. exact Hx. }
      exact (marks_only_trans _ _ _ _
               (marks_only_trans _ _ _ _ (marks_only_trans _ _ _ _ O1 O2) O3) O4).
Qed.

Lemma mark_inode_marks_only st inode st' :
  inode_ok inode ->
  mark_inode st inode = (0, st') ->
  marks_only (file_block st inode) st st'.
Proof.
  intros Hok. pose proof Hok as (_ & _ & _ & Hind & Hdbl).
  unfold mark_inode. cbv zeta.
  destruct (mark_fold_marked (fun j => direct inode (Z.of_nat j)) (seq 0 4) st)
    as [MD _].
  assert (OD : marks_only (file_block st inode) st
                 (fold_left
                    (fun st j => if direct inode (Z.of_nat j) =? 0 then st
                                 else bitmap_set st (direct inode (Z.of_nat j)) 1)
                    (seq 0 4) st)).
  { eapply marks_only_iff;
      [|apply (mark_fold_marks_only (fun j => direct inode (Z.of_nat j)))].
    - intros x (k & Hk & E & Hx). apply file_block_iff. left; left.
      exists (Z.of_nat k). apply elem_of_seq in Hk.
      split; [simpl in Hk; lia|]. split; assumption.
    - intros k _. apply direct_range, Hok. }
  set (sD := fold_left _ (seq 0 4) st) in *.
  (* the indirect page *)
  destruct (if indirect_block inode =? 0 then (0, sD) else _) as [r1 s5] eqn:E5.
  assert (F5 : r1 = 0 ->
               marked sD s5 /\ marks_only (file_block st inode) sD s5).
  { intros ->. revert E5.
    destruct (Z.eqb_spec (indirect_block inode) 0) as [Ez|Hnz].
    - intros H; injection H as <-.
      split; [apply marked_refl|apply marks_only_refl].
    - set (e := indirect_block inode) in *.
      destruct (bitmap_set_marked sD e) as [M1 _].
      destruct (disk_read (bitmap_set sD e 1) e) as [[r page] s2] eqn:Er.
      destruct (Z.eqb_spec r 0) as [-> | Hr]; cbn [negb];
        [|intros H; injection H as E _; congruence].
      destruct (disk_read_zero _ _ _ _ Er) as [-> R2].
      pose proof (marked_trans _ _ _ M1 (read_only_marked _ _ R2)) as M2.
      destruct (mark_entries_marked s2 (blk (bitmap_set sD e 1) e)) as [M3 _].
      intros H; injection H as <-.
      split; [exact (marked_trans _ _ _ M2 M3)|].
      assert (O1 : marks_only (file_block st inode) sD (bitmap_set sD e 1)).
      { eapply marks_only_iff; [|apply (bitmap_set_marks_only sD e 1); lia].
        intros x ->. apply file_block_iff. left; right.
        split; [exact Hnz|right; reflexivity]. }
      assert (O2 : marks_only (file_block st inode) (bitmap_set sD e 1) s2)
        by (apply read_only_marks_only; exact R2).
      assert (O3 : marks_only (file_block st inode) s2
                     (mark_entries s2 (blk (bitmap_set sD e 1) e))).
      { eapply marks_only_iff; [|apply mark_entries_marks_only].
        intros x Hx. apply file_block_iff. left; right.
        split; [exact Hnz|left].
        rewrite (marked_blk _ _ M1), (marked_blk _ _ MD) in Hx. exact Hx. }
      exact (marks_only_trans _ _ _ _ (marks_only_trans _ _ _ _ O1 O2) O3). }
  destruct (Z.eqb_spec r1 0) as [-> | Hr1]; cbn [negb];
    [|intros H; injection H as E _; congruence].
  destruct (F5 eq_refl) as [M5 O5]. clear F5 E5.
  pose proof (marked_trans _ _ _ MD M5) as MD5.
  pose proof (marks_only_trans _ _ _ _ OD O5) as OD5.
  (* the double-indirect page *)
  destruct (Z.eqb_spec (double_indirect_block inode) 0) as [Ez|Hnz].
  - intros H; injection H as <-. exact OD5.
  - set (e := double_indirect_block inode) in *.
    destruct (bitmap_set_marked s5 e) as [M1 _].
    destruct (disk_read (bitmap_set s5 e 1) e) as [[r page] s2] eqn:Er.
    destruct (Z.eqb_spec r 0) as [-> | Hr]; cbn [negb];
      [|intros H; injection H as E _; congruence].
    destruct (disk_read_zero _ _ _ _ Er) as [-> R2].
    pose proof (marked_trans _ _ _ M1 (read_only_marked _ _ R2)) as M2.
    intros H. apply mark_double_marks_only in H.
    assert (O1 : marks_only (file_block st inode) s5 (bitmap_set s5 e 1)).
    { eapply marks_only_iff; [|apply (bitmap_set_marks_only s5 e 1); lia].
      intros x ->. apply file_block_iff. right.
      split; [exact Hnz|right; reflexivity]. }
    assert (O2 : marks_only (file_block st inode) (bitmap_set s5 e 1) s2)
      by (apply read_only_marks_only; exact R2).
    assert (O3 : marks_only (file_block st inode) s2 st').
    { eapply marks_only_iff; [|exact H].
      intros x (j & Hj & Hjn & Hx). apply file_block_iff. right.
      split; [exact Hnz|left].
      rewrite (marked_blk _ _ M2) in Hx.
      rewrite (marked_blk _ _ M1), ?(marked_blk _ _ MD5) in Hjn.
      rewrite (marked_blk _ _ M1), ?(marked_blk _ _ MD5) in Hx.
      exists j. split; [|split; [exact Hjn|exact Hx]].
      clear -Hj. change POINTERS_PER_BLOCK with 256 in *.
      rewrite Z2Nat.id in Hj by lia. lia. }
    exact (marks_only_trans _ _ _ _
             (marks_only_trans _ _ _ _ (marks_only_trans _ _ _ _ OD5 O1) O2) O3).
Qed.

Lemma mount_scan_marks_only :
  forall n st i st',
    0 <= i -> i + Z.of_nat n <= 2 ^ 32 ->
    mount_scan st i n = (0, st') ->
    marks_only
      (fun x => exists k, i <= k < i + Z.of_nat n /\
                 is_valid (inode_at st k) = true /\
                 file_block st (inode_at st k) x)
      st st'.
Proof.
  induction n as [|n IH]; intros st i st' Hi Hn.
  - cbn [mount_scan]. intros H; injection H as <-. apply marks_only_refl.
  - cbn [mount_scan].
    destruct (read_inode st (to_int i) true) as [[r inode] s1] eqn:Er.
    destruct (Z.eqb_spec r 0) as [-> | Hr]; cbn [negb];
      [|intros H; injection H as E _; congruence].
    pose proof (read_inode_counter st i true inode s1 ltac:(lia) Er) as Ei.
    rewrite Ei in Er.
    pose proof (read_inode_read_only _ _ _ _ _ _ Er) as R1.
    pose proof (read_only_marked _ _ R1) as M1.
    apply read_inode_inv in Er. destruct Er as [-> _].
    match goal with |- _ -> marks_only ?P _ _ => set (Q := P) end.
    assert (Step : forall s2,
              marked st s2 -> marks_only Q st s2 ->
              mount_scan s2 (i + 1) n = (0, st') -> marks_only Q st st').
    { intros s2 M2 O2 E. apply IH in E; [|lia|lia].
      apply (marks_only_trans _ _ _ _ O2).
      eapply marks_only_iff; [|exact E].
      intros x (k & Hk & Hv & Hx). exists k. split; [lia|].
      rewrite (marked_inode_at _ _ _ M2) in Hv, Hx.
      split; [exact Hv|]. apply (marked_file_block _ _ _ _ M2). exact Hx. }
    destruct (is_valid (inode_at st i)) eqn:Ev.
    + destruct (mark_inode s1 (inode_at st i)) as [r2 s2] eqn:Em.
      destruct (Z.eqb_spec r2 0) as [-> | Hr2]; cbn [negb];
        [|intros H; injection H as E _; congruence].
      pose proof (mark_inode_marked _ _ _ Em) as [M2 _].
      apply mark_inode_marks_only in Em; [|apply decode_inode_ok].
      apply Step; [exact (marked_trans _ _ _ M1 M2)|].
      apply (marks_only_trans _ _ s1); [apply read_only_marks_only, R1|].
      eapply marks_only_iff; [|exact Em].
      intros x Hx. exists i. split; [lia|]. split; [exact Ev|].
      apply (marked_file_block _ _ _ _ M1). exact Hx.
    + apply Step; [exact M1|apply read_only_marks_only, R1].
Qed.

Lemma set_fold_marks_only l :
  forall st,
    marks_only (fun x => exists i, i ∈ l /\ x = Z.of_nat i) st
      (fold_left (fun st i => bitmap_set st (Z.of_nat i) 1) l st).
Proof.
  induction l as [|k l IH]; intros st.
  - apply marks_only_refl.
  - cbn [fold_left].
    apply (marks_only_trans _ _ (bitmap_set st (Z.of_nat k) 1)).
    + eapply marks_only_iff; [|apply bitmap_set_marks_only; lia].
      intros x ->. exists k. split; [left|reflexivity].
    + eapply marks_only_iff; [|apply IH].
      intros x (j & Hj & E). exists j. split; [right; exact Hj|exact E].
Qed.

Lemma mount_inv st name st' :
  mount st name = (0, st') ->
  exists img,
    disk_mounted st = false /\
    images st !! name = Some img /\
    disk_mounted st' = true /\
    mounted_disk st' = Some name /\
    images st' = images st /\
    disk st' = mk_disk name img /\
    superblock st' = decode_superblock (nth 0 img zero_block) /\
    magic (superblock st') = MAGIC_NUMBER /\
    length (block_bitmap st') = Z.to_nat (num_blocks (superblock st')) /\
    (forall b, 0 <= b <= num_inode_blocks (superblock st') ->
       in_bitmap st' b -> bitmap_get st' b = 1) /\
    (forall k x, 0 <= k < inode_count st' ->
       is_valid (inode_at st' k) = true ->
       file_block st' (inode_at st' k) x -> in_bitmap st' x ->
       bitmap_get st' x = 1) /\
    (forall x, 0 <= x ->
       bitmap_get st' x = 0 \/
       x <= num_inode_blocks (superblock st') \/
       exists k, 0 <= k < inode_count st' /\
         is_valid (inode_at st' k) = true /\
         file_block st' (inode_at st' k) x).
Proof.
  unfold mount.
  destruct (disk_mounted st) eqn:Em; [intros H; discriminate|].
  unfold vdisk_on.
  destruct (images st !! name) as [img|] eqn:Ei; [|intros H; discriminate].
  destruct (device_fault st) as [e s1] eqn:Ef.
  pose proof (device_fault_frame _ _ _ Ef) as (F1 & F2 & F3 & F4 & F5 & F6).
  destruct (Z.eqb_spec e 0) as [-> | He]; cbn [negb Z.eqb];
    [|apply Z.eqb_neq in He; rewrite He; cbn [negb];
      intros H; injection H as E _; apply Z.eqb_neq in He; congruence].
  destruct (disk_read (with_disk s1 (mk_disk name img)) 0) as [[r buf] s2] eqn:Er.
  destruct (Z.eqb_spec r 0) as [-> | Hr]; cbn [negb];
    [|intros H; injection H as E _; congruence].
  destruct (disk_read_zero _ _ _ _ Er) as [Eb R2]. clear Er.
  cbv zeta.
  set (s3 := with_superblock s2 (decode_superblock buf)).
  destruct (bytes_eqb (magic (superblock s3)) MAGIC_NUMBER) eqn:Emag; cbn [negb];
    [|intros H; discriminate].
  apply bytes_eqb_eq in Emag.
  set (s4 := with_bitmap s3 (replicate (Z.to_nat (num_blocks (superblock s3))) 0)).
  destruct (bitmap_set_marked s4 0) as [M5 H5].
  set (s5 := bitmap_set s4 0 1) in *.
  destruct (set_fold_marked (seq 1 (Z.to_nat (num_inode_blocks (superblock s5)))) s5)
    as [M6 H6].
  set (s6 := fold_left _ _ s5) in *.
  destruct (mount_scan s6 0 (Z.to_nat (inode_count s6))) as [r7 s7] eqn:Es.
  destruct (Z.eqb_spec r7 0) as [-> | Hr7]; cbn [negb];
    [|intros H; injection H as E _; congruence].
  assert (Hc : 0 <= inode_count s6 < 2 ^ 32).
  { unfold inode_count, to_uint32. apply Z.mod_pos_bound. lia. }
  assert (O7 := Es).
  apply mount_scan_marks_only in O7; [|lia|rewrite Z2Nat.id; lia].
  apply mount_scan_marked in Es; [|lia|rewrite Z2Nat.id; lia].
  destruct Es as [M7 H7].
  pose proof (bitmap_set_marks_only s4 0 1 ltac:(lia)) as O5.
  pose proof (set_fold_marks_only
                (seq 1 (Z.to_nat (num_inode_blocks (superblock s5)))) s5) as O6.
  fold s5 in O5. fold s6 in O6.
  intros H; injection H as <-.
  pose proof (marked_trans _ _ _ M5 M6) as M46.
  pose proof (marked_trans _ _ _ M46 M7) as M47.
  assert (Ed : disk s4 = mk_disk name img).
  { subst s4 s3. cbn. rewrite R2. reflexivity. }
  assert (Eimg : images s4 = images st).
  { subst s4 s3. cbn. rewrite R2. cbn. exact F6. }
  assert (Esb : superblock s4 = decode_superblock (nth 0 img zero_block)).
  { subst s4 s3. cbn. rewrite Eb. reflexivity. }
  assert (Elen : length (block_bitmap s4) = Z.to_nat (num_blocks (superblock s4))).
  { subst s4. cbn. apply length_replicate. }
  destruct M47 as (A1 & A2 & A3 & A4 & A5 & A6 & A7).
  exists img.
  split; [reflexivity|]. split; [reflexivity|].
  split; [reflexivity|]. split; [reflexivity|].
  split; [cbn; congruence|]. split; [cbn; congruence|].
  split; [cbn; congruence|]. split; [cbn; rewrite A4; exact Emag|].
  split; [cbn; rewrite A6, A4; exact Elen|].
  assert (M47 : marked s4 s7) by (repeat split; assumption).
  split; [|split].
  - intros b. cbn [superblock with_mounted with_name].
    unfold in_bitmap, bitmap_get. cbn [block_bitmap with_mounted with_name].
    fold (bitmap_get s7 b). rewrite A4, A6. intros Hb Hin.
    destruct M7 as (_ & _ & _ & _ & _ & _ & M77).
    apply M77; [lia|].
    destruct (Z.eq_dec b 0) as [-> | Hb0].
    + destruct M6 as (_ & _ & _ & _ & _ & _ & M67).
      apply M67; [lia|]. apply H5. exact Hin.
    + specialize (H6 (Z.to_nat b)). rewrite Z2Nat.id in H6 by lia.
      apply H6.
      * apply elem_of_seq.
        destruct M5 as (_ & _ & _ & B4 & _). rewrite B4. lia.
      * exact (marked_in_bitmap _ _ _ M5 Hin).
  - intros k x.
    assert (Eblk : blk (with_mounted (with_name s7 (Some name)) true) = blk s6).
    { unfold blk. cbn. destruct M7 as (_ & _ & -> & _). reflexivity. }
    assert (Ecnt : inode_count (with_mounted (with_name s7 (Some name)) true)
                   = inode_count s6).
    { unfold inode_count. cbn. destruct M7 as (_ & _ & _ & -> & _). reflexivity. }
    assert (Eat : inode_at (with_mounted (with_name s7 (Some name)) true) k
                  = inode_at s6 k).
    { unfold inode_at. rewrite Eblk. reflexivity. }
    rewrite Ecnt, Eat, !file_block_iff, Eblk, <- file_block_iff.
    unfold in_bitmap, bitmap_get. cbn [block_bitmap with_mounted with_name].
    fold (bitmap_get s7 x).
    destruct M7 as (_ & _ & _ & _ & _ & B6 & _). rewrite B6.
    intros Hk Hv Hfb Hin. apply (H7 k x); [|exact Hv|exact Hfb|exact Hin].
    rewrite Z2Nat.id by lia. lia.
  - intros x Hx.
    assert (Eblk : blk (with_mounted (with_name s7 (Some name)) true) = blk s6).
    { unfold blk. cbn. destruct M7 as (_ & _ & -> & _). reflexivity. }
    assert (Ecnt : inode_count (with_mounted (with_name s7 (Some name)) true)
                   = inode_count s6).
    { unfold inode_count. cbn. destruct M7 as (_ & _ & _ & -> & _). reflexivity. }
    assert (Eat : forall k,
              inode_at (with_mounted (with_name s7 (Some name)) true) k
              = inode_at s6 k).
    { intros k. unfold inode_at. rewrite Eblk. reflexivity. }
    assert (Efb : forall k y,
              file_block (with_mounted (with_name s7 (Some name)) true)
                (inode_at s6 k) y <-> file_block s6 (inode_at s6 k) y).
    { intros k y. rewrite !file_block_iff, Eblk. reflexivity. }
    cbn [superblock with_mounted with_name].
    unfold bitmap_get at 1. cbn [block_bitmap with_mounted with_name].
    fold (bitmap_get s7 x). rewrite Ecnt.
    assert (E0 : bitmap_get s4 x = 0).
    { unfold bitmap_get, s4. cbn. rewrite nth_lookup.
      destruct (replicate _ 0 !! Z.to_nat x) as [y|] eqn:Ey; [|reflexivity].
      apply lookup_replicate in Ey as [-> _]. reflexivity. }
    destruct (O7 x Hx) as [E7|(k & Hk & Hv & Hfb)].
    + destruct (O6 x Hx) as [E6|(i & Hi & ->)].
      * destruct (O5 x Hx) as [E5| ->].
        -- left. congruence.
        -- right; left.
           destruct M7 as (_ & _ & _ & B4 & _). rewrite B4.
           destruct M46 as (_ & _ & _ & C4 & _). rewrite C4.
           subst s4 s3. cbn. apply get_u32_range.
      * right; left. apply elem_of_seq in Hi.
        destruct M7 as (_ & _ & _ & B4 & _). rewrite B4.
        destruct M6 as (_ & _ & _ & C4 & _). rewrite C4. lia.
    + right; right. exists k. rewrite Z2Nat.id in Hk by lia.
      split; [lia|]. rewrite Eat. split; [exact Hv|]. apply Efb. exact Hfb.
Qed.

Lemma file_block_nonneg st inode x :
  inode_ok inode -> file_block st inode x -> 0 <= x.
Proof.
  intros Hok Hx. apply file_block_iff in Hx.
  destruct Hx as [[(k & _ & <- & _)|(_ & [(k & _ & <- & _)| ->])]
                 |(_ & [(j & _ & _ & [-> | (k & _ & <- & _)])| ->])];
    first [apply get_u32_range | apply direct_range, Hok
          | apply Hok ].
Qed.

Lemma stores_in_range_ext s s' :
  disk s' = disk s -> superblock s' = superblock s ->
  stores_in_range s -> stores_in_range s'.
Proof.
  intros D S (A1 & A2).
  assert (B : blk s' = blk s) by (unfold blk; rewrite D; reflexivity).
  unfold stores_in_range, inode_count. rewrite S.
  split; [exact A1|]. intros k x Hk.
  replace (inode_at s' k) with (inode_at s k)
    by (unfold inode_at; rewrite B; reflexivity).
  rewrite !file_block_iff, B, <- file_block_iff. apply A2, Hk.
Qed.

Lemma image_ok_stores s : image_ok s -> stores_in_range s.
Proof.
  intros (_ & (H1 & _ & H3 & _) & _ & _ & H5). split; [lia|exact H5].
Qed.

(** A successful [mount] of an image that keeps the stores into the bitmap
    in range: whatever the device does, when [mount] returns 0 nothing was
    mounted before, the named image is now the mounted device, the host's
    images are as they were, the superblock is the one of block 0 and
    carries the magic number, and the bitmap has one entry per block.  In
    it the superblock, the inode blocks and every block that a valid inode
    reaches (data blocks and pointer pages) are marked as used, and every
    other entry is 0. *)
Theorem mount_success st name img st' :
  images st !! name = Some img ->
  stores_in_range (opened st name img) ->
  mount st name = (0, st') ->
  disk_mounted st = false /\
  disk_mounted st' = true /\
  mounted_disk st' = Some name /\
  images st' = images st /\
  disk st' = mk_disk name img /\
  superblock st' = decode_superblock (nth 0 img zero_block) /\
  magic (superblock st') = MAGIC_NUMBER /\
  length (block_bitmap st') = Z.to_nat (num_blocks (superblock st')) /\
  (forall b, 0 <= b <= num_inode_blocks (superblock st') ->
     bitmap_get st' b = 1) /\
  (forall k x, 0 <= k < inode_count st' ->
     is_valid (inode_at st' k) = true ->
     file_block st' (inode_at st' k) x -> bitmap_get st' x = 1) /\
  (forall x, 0 <= x ->
     bitmap_get st' x = 0 \/
     x <= num_inode_blocks (superblock st') \/
     exists k, 0 <= k < inode_count st' /\
       is_valid (inode_at st' k) = true /\
       file_block st' (inode_at st' k) x).
Proof.
  intros Himg Hrange E.
  destruct (mount_inv st name st' E)
    as (img' & Hm & Ei & Hm' & Hn & I & D & S & Hmag & L & Hmeta & Hfile & Honly).
  rewrite Himg in Ei. injection Ei as <-.
  apply (stores_in_range_ext (opened st name img) st' D S) in Hrange.
  destruct Hrange as (Hnib & Hfb).
  assert (Hin : forall x, 0 <= x < num_blocks (superblock st') -> in_bitmap st' x).
  { intros x Hx. unfold in_bitmap. rewrite L. lia. }
  split; [exact Hm|]. split; [exact Hm'|]. split; [exact Hn|].
  split; [exact I|]. split; [exact D|]. split; [exact S|].
  split; [exact Hmag|]. split; [exact L|].
  split; [intros b Hb; apply (Hmeta b Hb), Hin; lia|].
  split; [|exact Honly].
  intros k x Hk Hv Hx. apply (Hfile k x Hk Hv Hx), Hin.
  split; [|exact (Hfb k x Hk Hv Hx)].
  apply (file_block_nonneg st' (inode_at st' k)); [apply decode_inode_ok|exact Hx].
Qed.

(** ** [mount] on a working device *)

Lemma mark_fold_faults (g : nat -> Z) l :
  forall st,
    faults (fold_left (fun st k => if g k =? 0 then st else bitmap_set st (g k) 1)
              l st) = faults st.
Proof.
  induction l as [|k l IH]; intros st; [reflexivity|].
  cbn [fold_left]. rewrite IH. destruct (g k =? 0); reflexivity.
Qed.

Lemma mark_entries_faults st page : faults (mark_entries st page) = faults st.
Proof. apply (mark_fold_faults (fun k => get_u32 page (Z.of_nat k))). Qed.

Lemma set_fold_faults l :
  forall st,
    faults (fold_left (fun st i => bitmap_set st (Z.of_nat i) 1) l st) = faults st.
Proof.
  induction l as [|k l IH]; intros st; [reflexivity|].
  cbn [fold_left]. rewrite IH. reflexivity.
Qed.

Lemma disk_read_block st s :
  healthy st -> 0 <= s < size_in_sectors (disk st) ->
  disk_read st s = (0, blk st s, st).
Proof. intros Hh Hs. apply disk_read_healthy; assumption. Qed.

Lemma mark_double_ok pointers :
  forall n st j,
    healthy st ->
    (forall j', j <= j' < j + Z.of_nat n -> get_u32 pointers j' <> 0 ->
       get_u32 pointers j' < size_in_sectors (disk st)) ->
    exists st', mark_double st pointers j n = (0, st') /\ healthy st'.
Proof.
  induction n as [|n IH]; intros st j Hh Hr; cbn [mark_double].
  - exists st. split; [reflexivity|exact Hh].
  - destruct (Z.eqb_spec (get_u32 pointers j) 0) as [Ez|Hnz].
    + apply IH; [exact Hh|]. intros j' Hj'. apply Hr. lia.
    + set (e := get_u32 pointers j) in *.
      assert (He : 0 <= e < size_in_sectors (disk st)).
      { split; [apply get_u32_range|]. apply Hr; [lia|exact Hnz]. }
      rewrite (disk_read_block (bitmap_set st e 1) e Hh He). cbn [negb Z.eqb].
      destruct (mark_entries_marked (bitmap_set st e 1)
                  (blk (bitmap_set st e 1) e)) as [(_ & _ & D & _) _].
      apply IH.
      * unfold healthy. rewrite mark_entries_faults. exact Hh.
      * intros j' Hj' Hj'n. rewrite D. apply Hr; [lia|exact Hj'n].
Qed.

Lemma mark_inode_ok st inode :
  healthy st -> inode_ok inode ->
  (forall x, file_block st inode x -> x < size_in_sectors (disk st)) ->
  exists st', mark_inode st inode = (0, st') /\ healthy st'.
Proof.
  intros Hh Hok Hr. pose proof Hok as (_ & _ & _ & Hind & Hdbl).
  unfold mark_inode. cbv zeta.
  destruct (mark_fold_marked (fun j => direct inode (Z.of_nat j)) (seq 0 4) st)
    as [MD _].
  pose proof (mark_fold_faults (fun j => direct inode (Z.of_nat j)) (seq 0 4) st)
    as FD. cbv beta in FD.
  set (sD := fold_left _ (seq 0 4) st) in *.
  assert (HhD : healthy sD) by (unfold healthy; rewrite FD; exact Hh).
  assert (Hr' : forall s, marked st s -> forall x, file_block st inode x ->
                  0 <= x < size_in_sectors (disk s)).
  { intros s (_ & _ & D & _) x Hx. rewrite D. split; [|apply Hr, Hx].
    apply file_block_iff in Hx.
    destruct Hx as [[(k & _ & <- & _)|(_ & [(k & _ & <- & _)| ->])]
                   |(_ & [(j & _ & _ & [-> | (k & _ & <- & _)])| ->])];
      first [apply get_u32_range | apply direct_range, Hok | lia]. }
  (* the indirect page *)
  assert (F5 : exists s5,
            (if indirect_block inode =? 0 then (0, sD)
             else
               let '(result, page, st0) :=
                 disk_read (bitmap_set sD (indirect_block inode) 1)
                   (indirect_block inode) in
               if negb (result =? 0) then (result, st0)
               else (0, mark_entries st0 page)) = (0, s5) /\
            healthy s5 /\ marked st s5).
  { destruct (Z.eqb_spec (indirect_block inode) 0) as [Ez|Hnz].
    - exists sD. split; [reflexivity|]. split; [exact HhD|exact MD].
    - set (e := indirect_block inode) in *.
      destruct (bitmap_set_marked sD e) as [M1 _].
      pose proof (marked_trans _ _ _ MD M1) as MD1.
      rewrite (disk_read_block (bitmap_set sD e 1) e HhD).
      + cbn [negb Z.eqb]. eexists. split; [reflexivity|]. split.
        * unfold healthy. rewrite mark_entries_faults. exact HhD.
        * apply (marked_trans _ _ _ MD1). apply mark_entries_marked.
      + apply (Hr' _ MD1). apply file_block_iff. left; right.
        split; [exact Hnz|right; reflexivity]. }
  destruct F5 as (s5 & -> & Hh5 & M5). cbn [negb Z.eqb].
  (* the double-indirect page *)
  destruct (Z.eqb_spec (double_indirect_block inode) 0) as [Ez|Hnz].
  - exists s5. split; [reflexivity|exact Hh5].
  - set (e := double_indirect_block inode) in *.
    destruct (bitmap_set_marked s5 e) as [M1 _].
    pose proof (marked_trans _ _ _ M5 M1) as M51.
    rewrite (disk_read_block (bitmap_set s5 e 1) e Hh5).
    + cbn [negb Z.eqb]. apply mark_double_ok; [exact Hh5|].
      intros j Hj Hjn. apply (Hr' _ M51). apply file_block_iff. right.
      split; [exact Hnz|left]. rewrite (marked_blk _ _ M51) in Hjn |- *.
      exists j. split; [|split; [exact Hjn|left; reflexivity]].
      clear -Hj. change POINTERS_PER_BLOCK with 256 in *.
      rewrite Z2Nat.id in Hj by lia. lia.
    + apply (Hr' _ M51). apply file_block_iff. right.
      split; [exact Hnz|right; reflexivity].
Qed.

Lemma read_inode_bypass st i :
  healthy st -> superblock_ok st -> 0 <= i < inode_count st ->
  num_inode_blocks (superblock st) < size_in_sectors (disk st) ->
  read_inode st i true = (0, inode_at st i, st).
Proof.
  intros Hh Hsb Hi Hs. unfold read_inode.
  rewrite andb_false_r, (bad_inode_num_false st i Hsb Hi).
  pose proof (inode_block_range st i Hsb Hi) as Hb. cbv zeta.
  rewrite disk_read_block; [reflexivity|exact Hh|lia].
Qed.

Lemma mount_scan_ok :
  forall n st i,
    healthy st -> superblock_ok st ->
    num_inode_blocks (superblock st) < size_in_sectors (disk st) ->
    0 <= i -> i + Z.of_nat n <= inode_count st ->
    (forall k x, i <= k < i + Z.of_nat n ->
       is_valid (inode_at st k) = true ->
       file_block st (inode_at st k) x -> x < size_in_sectors (disk st)) ->
    exists st', mount_scan st i n = (0, st') /\ healthy st'.
Proof.
  induction n as [|n IH]; intros st i Hh Hsb Hs Hi Hn Hr.
  - exists st. split; [reflexivity|exact Hh].
  - cbn [mount_scan].
    pose proof (inode_count_ok st Hsb) as Hc.
    assert (Hint : to_int i = i).
    { apply to_int_small. destruct Hsb as (_ & H2 & _). unfold INT_MAX in H2. lia. }
    rewrite Hint, (read_inode_bypass st i Hh Hsb ltac:(lia) Hs). cbn [negb Z.eqb].
    assert (Step : forall s2,
              marked st s2 -> healthy s2 ->
              exists st', mount_scan s2 (i + 1) n = (0, st') /\ healthy st').
    { intros s2 M2 Hh2. pose proof M2 as (_ & _ & D & S & _).
      apply IH; [exact Hh2| | | | |].
      - unfold superblock_ok. rewrite S. exact Hsb.
      - rewrite D, S. exact Hs.
      - lia.
      - unfold inode_count. rewrite S. fold (inode_count st). lia.
      - intros k x Hk Hv Hx. rewrite D.
        rewrite (marked_inode_at _ _ _ M2) in Hv, Hx.
        apply (Hr k x); [lia|exact Hv|].
        apply (marked_file_block _ _ _ _ M2). exact Hx. }
    destruct (is_valid (inode_at st i)) eqn:Ev.
    + destruct (mark_inode_ok st (inode_at st i) Hh (decode_inode_ok _))
        as (s2 & E2 & Hh2).
      { intros x Hx. apply (Hr i x); [lia|exact Ev|exact Hx]. }
      rewrite E2. cbn [negb Z.eqb].
      apply Step; [|exact Hh2]. apply (mark_inode_marked _ _ _ E2).
    + apply Step; [apply marked_refl|exact Hh].
Qed.

Lemma image_ok_ext s s' :
  disk s' = disk s -> superblock s' = superblock s -> image_ok s -> image_ok s'.
Proof.
  intros D S (A1 & A2 & A3 & A4 & A5).
  assert (B : blk s' = blk s) by (unfold blk; rewrite D; reflexivity).
  unfold image_ok, superblock_ok, inode_count. rewrite D, S.
  split; [exact A1|]. split; [exact A2|]. split; [exact A3|].
  split; [exact A4|]. intros k x Hk.
  replace (inode_at s' k) with (inode_at s k)
    by (unfold inode_at; rewrite B; reflexivity).
  rewrite !file_block_iff, B, <- file_block_iff. apply A5, Hk.
Qed.

Lemma mount_ok st name img :
  disk_mounted st = false -> healthy st ->
  images st !! name = Some img ->
  image_ok (opened st name img) ->
  exists st', mount st name = (0, st') /\ mounted_ok st' /\ healthy st'.
Proof.
  intros Hm Hh Himg Hok.
  pose proof Hok as (Hmag & Hsb & Hsz & Hall & Hfb).
  pose proof Hsb as (Hs1 & Hs2 & Hs3 & Hs4).
  unfold mount. rewrite Hm. unfold vdisk_on. rewrite Himg.
  rewrite (device_fault_healthy st Hh). cbn [negb Z.eqb].
  rewrite (disk_read_block (with_disk st (mk_disk name img)) 0 Hh)
    by (change (size_in_sectors (disk (with_disk st (mk_disk name img))))
          with (size_in_sectors (disk (opened st name img))); lia).
  cbn [negb Z.eqb]. cbv zeta.
  change (with_superblock (with_disk st (mk_disk name img))
            (decode_superblock (blk (with_disk st (mk_disk name img)) 0)))
    with (opened st name img).
  rewrite Hmag. change (bytes_eqb MAGIC_NUMBER MAGIC_NUMBER) with true.
  cbn [negb].
  set (s4 := with_bitmap (opened st name img)
               (replicate (Z.to_nat (num_blocks (superblock (opened st name img)))) 0)).
  destruct (bitmap_set_marked s4 0) as [M5 _].
  set (s5 := bitmap_set s4 0 1) in *.
  destruct (set_fold_marked (seq 1 (Z.to_nat (num_inode_blocks (superblock s5)))) s5)
    as [M6 _].
  pose proof (set_fold_faults (seq 1 (Z.to_nat (num_inode_blocks (superblock s5)))) s5)
    as F6.
  set (s6 := fold_left _ _ s5) in *.
  pose proof (marked_trans _ _ _ M5 M6) as M46.
  pose proof M46 as (_ & _ & D6 & S6 & _ & L6 & _).
  assert (Hh6 : healthy s6) by (unfold healthy; rewrite F6; exact Hh).
  assert (Hok6 : image_ok s6).
  { apply (image_ok_ext _ _ D6 S6).
    apply (image_ok_ext (opened st name img) s4 eq_refl eq_refl), Hok. }
  destruct (mount_scan_ok (Z.to_nat (inode_count s6)) s6 0 Hh6) as (s7 & E7 & Hh7).
  - apply Hok6.
  - rewrite D6, S6. change (disk s4) with (disk (opened st name img)).
    change (superblock s4) with (superblock (opened st name img)). lia.
  - lia.
  - pose proof (Z.mod_pos_bound
                  (num_inode_blocks (superblock s6) * INODES_PER_BLOCK) (2 ^ 32)
                  ltac:(lia)) as Hc.
    fold (to_uint32 (num_inode_blocks (superblock s6) * INODES_PER_BLOCK)) in Hc.
    fold (inode_count s6) in Hc. rewrite Z2Nat.id by lia. lia.
  - intros k x Hk Hv Hx.
    destruct Hok6 as (_ & _ & -> & _ & B5). apply (B5 k x); [|exact Hv|exact Hx].
    pose proof (Z.mod_pos_bound
                  (num_inode_blocks (superblock s6) * INODES_PER_BLOCK) (2 ^ 32)
                  ltac:(lia)) as Hc.
    fold (to_uint32 (num_inode_blocks (superblock s6) * INODES_PER_BLOCK)) in Hc.
    fold (inode_count s6) in Hc. rewrite Z2Nat.id in Hk by lia. lia.
  - rewrite E7. cbn [negb Z.eqb]. eexists. split; [reflexivity|].
    assert (M7 : marked s6 s7).
    { apply (mount_scan_marked (Z.to_nat (inode_count s6)) s6 0 s7);
        [lia| |exact E7].
      pose proof (Z.mod_pos_bound
                    (num_inode_blocks (superblock s6) * INODES_PER_BLOCK) (2 ^ 32)
                    ltac:(lia)) as Hc.
      fold (to_uint32 (num_inode_blocks (superblock s6) * INODES_PER_BLOCK)) in Hc.
      fold (inode_count s6) in Hc. rewrite Z2Nat.id by lia. lia. }
    pose proof (marked_trans _ _ _ M46 M7) as (_ & _ & D7 & S7 & _ & L7 & _).
    split; [|exact Hh7].
    unfold mounted_ok, superblock_ok. cbn.
    rewrite D7, S7, L7.
    change (disk s4) with (disk (opened st name img)).
    change (superblock s4) with (superblock (opened st name img)).
    split; [reflexivity|]. split; [exact Hsb|]. split; [exact Hsz|].
    split; [|exact Hall].
    unfold s4. cbn [block_bitmap with_bitmap]. rewrite length_replicate.
    apply Z2Nat.id. lia.
Qed.

(** A session whose valid inodes have well-formed block maps holds a file
    system. *)
Lemma image_ok_of_files st :
  mounted_ok st -> magic (superblock st) = MAGIC_NUMBER ->
  (forall k, 0 <= k < inode_count st -> is_valid (inode_at st k) = true ->
     tree_ok st (inode_at st k)) ->
  image_ok st.
Proof.
  intros (_ & Hsb & Hsz & _ & Hall) Hmag Hf.
  split; [exact Hmag|]. split; [exact Hsb|]. split; [exact Hsz|].
  split; [exact Hall|]. intros k x Hk Hv (s & Hs & <- & Hnz).
  destruct (Hf k Hk Hv) as (_ & Hr & _). apply (Hr s Hs Hnz).
Qed.

(** A successful [mount] of a well-formed image on a working device. *)
Lemma mount_image st name img :
  disk_mounted st = false -> healthy st ->
  images st !! name = Some img ->
  image_ok (opened st name img) ->
  exists st',
    mount st name = (0, st') /\ mounted_ok st' /\ healthy st' /\
    images st' = images st /\
    disk st' = mk_disk name img /\
    superblock st' = decode_superblock (nth 0 img zero_block) /\
    image_ok st'.
Proof.
  intros Hm Hh Himg Hok.
  destruct (mount_ok st name img Hm Hh Himg Hok) as (st' & E & Hm' & Hh').
  exists st'. split; [exact E|]. split; [exact Hm'|]. split; [exact Hh'|].
  destruct (mount_inv st name st' E)
    as (img' & _ & Ei & _ & _ & I & D & S & _).
  rewrite Himg in Ei. injection Ei as <-.
  split; [exact I|]. split; [exact D|]. split; [exact S|].
  apply (image_ok_ext (opened st name img)); [exact D|exact S|exact Hok].
Qed.

(** [mount] accepts every well-formed image: with no disk mounted and a
    working device, it returns 0 on an image that holds a file system and
    leaves a mounted session on that image with the superblock of its block
    0; the host's images are not changed. *)
Theorem mount_well_formed st name img :
  disk_mounted st = false -> healthy st ->
  images st !! name = Some img ->
  image_ok (opened st name img) ->
  exists st',
    mount st name = (0, st') /\ mounted_ok st' /\ healthy st' /\
    images st' = images st /\
    disk st' = mk_disk name img /\
    superblock st' = decode_superblock (nth 0 img zero_block) /\
    image_ok st'.
Proof. exact (mount_image st name img). Qed.

(** ** [unmount] *)

Lemma unmount_ok st :
  disk_mounted st = true -> healthy st ->
  unmount st
  = (0, with_mounted
          (vdisk_off (with_name (with_bitmap st []) None) (disk st)) false).
Proof.
  intros Hm Hh. unfold unmount, vdisk_sync. rewrite Hm.
  rewrite (device_fault_healthy st Hh). reflexivity.
Qed.

(** What [unmount] saves, [mount] finds: on a working device, [unmount] of
    a session that holds a file system returns 0 and stores the blocks of
    the session in the host's image, and a [mount] of that image then
    returns 0 and gives a session with the same blocks and the same
    superblock. *)
Theorem unmount_mount st :
  mounted_ok st -> healthy st -> image_ok st ->
  decode_superblock (blk st 0) = superblock st ->
  exists s1 st',
    unmount st = (0, s1) /\
    disk_mounted s1 = false /\
    images s1 = <[dname (disk st) := sectors (disk st)]> (images st) /\
    mount s1 (dname (disk st)) = (0, st') /\
    mounted_ok st' /\ healthy st' /\
    images st' = images s1 /\
    disk st' = disk st /\ superblock st' = superblock st.
Proof.
  intros Hm Hh Hok Hsb. pose proof Hm as (Hmt & _).
  rewrite (unmount_ok st Hmt Hh).
  set (s1 := with_mounted _ false).
  destruct (mount_image s1 (dname (disk st)) (sectors (disk st)))
    as (st' & E & Hm' & Hh' & I & D & S & _).
  - reflexivity.
  - exact Hh.
  - unfold s1, vdisk_off. cbn. apply lookup_insert_eq.
  - apply (image_ok_ext st); [destruct st as [? ? ? ? [] ? ? ?]; reflexivity| |exact Hok].
    cbn. exact Hsb.
  - exists s1, st'. split; [reflexivity|]. split; [reflexivity|].
    split; [reflexivity|]. split; [exact E|]. split; [exact Hm'|].
    split; [exact Hh'|]. split; [exact I|].
    split; [rewrite D; destruct st as [? ? ? ? [] ? ? ?]; reflexivity|].
    rewrite S. exact Hsb.
Qed.

(** ** [mount] after [format] *)

Lemma inode_at_zero st k :
  blk st (1 + Z.quot k INODES_PER_BLOCK) = zero_block ->
  is_valid (inode_at st k) = false.
Proof.
  intros E. unfold is_valid, inode_at. rewrite E. cbn [decode_inode valid].
  unfold zero_block. rewrite drop_replicate, take_replicate.
  rewrite nth_lookup.
  destruct (replicate _ Byte.x00 !! 0%nat) as [y|] eqn:Ey; [|reflexivity].
  apply lookup_replicate in Ey as [-> _]. reflexivity.
Qed.

(** The file system [format] makes is empty: on a working device, [mount]
    of an image as [format] leaves it (the superblock in block 0, zeros in
    the inode blocks) returns 0 and gives a session in which no inode is
    valid and the bitmap marks the superblock and the inode blocks and
    nothing else. *)
Theorem mount_formatted st name img nib :
  disk_mounted st = false -> healthy st ->
  images st !! name = Some img ->
  Forall (fun b : block => length b = Z.to_nat BLOCK_SIZE) img ->
  decode_superblock (nth 0 img zero_block)
  = mk_superblock MAGIC_NUMBER (Z.of_nat (length img)) nib BLOCK_SIZE ->
  1 <= nib -> nib * INODES_PER_BLOCK <= INT_MAX ->
  nib + 1 < Z.of_nat (length img) <= INT_MAX ->
  (forall i, 1 <= i <= nib -> nth (Z.to_nat i) img zero_block = zero_block) ->
  exists st',
    mount st name = (0, st') /\ mounted_ok st' /\ healthy st' /\
    inode_count st' = nib * INODES_PER_BLOCK /\
    (forall k, 0 <= k < inode_count st' -> is_valid (inode_at st' k) = false) /\
    (forall x, 0 <= x < Z.of_nat (length img) ->
       bitmap_get st' x = if x <=? nib then 1 else 0).
Proof.
  intros Hm Hh Himg Hall Hsb H1 H2 H3 Hz.
  assert (Hsbo : superblock_ok (opened st name img)).
  { unfold superblock_ok, opened. cbn [superblock with_superblock].
    rewrite Hsb. cbn. lia. }
  assert (Hfree : forall s k,
            blk s = blk (opened st name img) ->
            inode_count s = inode_count (opened st name img) ->
            0 <= k < inode_count s -> is_valid (inode_at s k) = false).
  { intros s k Eb Ec Hk. apply inode_at_zero. rewrite Eb.
    rewrite Ec in Hk. pose proof (inode_block_range _ k Hsbo Hk) as Hr.
    unfold opened in Hr. cbn [superblock with_superblock] in Hr.
    rewrite Hsb in Hr. cbn [num_inode_blocks] in Hr.
    unfold blk, opened. cbn. apply Hz. exact Hr. }
  assert (Hok : image_ok (opened st name img)).
  { split; [unfold opened; cbn [superblock with_superblock]; rewrite Hsb;
            reflexivity|].
    split; [exact Hsbo|].
    split; [unfold opened, size_in_sectors;
            cbn [superblock with_superblock disk with_disk sectors];
            rewrite Hsb; reflexivity|].
    split; [exact Hall|]. intros k x Hk Hv.
    rewrite (Hfree _ k eq_refl eq_refl Hk) in Hv. discriminate. }
  destruct (mount_ok st name img Hm Hh Himg Hok) as (st' & E & Hm' & Hh').
  exists st'. split; [exact E|]. split; [exact Hm'|]. split; [exact Hh'|].
  destruct (mount_inv st name st' E)
    as (img' & _ & Ei & _ & _ & I & D & S & _ & L & Hmeta & _ & Honly).
  rewrite Himg in Ei. injection Ei as <-.
  assert (Ec : inode_count st' = inode_count (opened st name img)).
  { unfold inode_count. rewrite S. reflexivity. }
  assert (Eb : blk st' = blk (opened st name img)).
  { unfold blk. rewrite D. reflexivity. }
  split.
  { rewrite Ec, (inode_count_ok _ Hsbo). unfold opened.
    cbn [superblock with_superblock]. rewrite Hsb. reflexivity. }
  split; [intros k Hk; apply (Hfree st' k Eb Ec Hk)|].
  intros x Hx. rewrite S, Hsb in Hmeta, Honly, L.
  cbn [num_inode_blocks num_blocks] in Hmeta, Honly, L.
  destruct (Z.leb_spec x nib) as [Hle|Hgt].
  - apply Hmeta; [lia|]. unfold in_bitmap. rewrite L. lia.
  - destruct (Honly x ltac:(lia)) as [E0|[Hle|(k & Hk & Hv & _)]];
      [exact E0|lia|].
    rewrite (Hfree st' k Eb Ec Hk) in Hv. discriminate.
Qed.

(** ** The example sessions hold file systems *)

Lemma example_sparse_image_ok : image_ok example_sparse.
Proof.
  apply image_ok_of_files; [apply example_sparse_ok|by_eval|].
  intros k Hk Hv.
  assert (Hc : inode_count example_sparse = 32) by by_eval.
  rewrite Hc in Hk.
  destruct (Z.eq_dec k 0) as [-> | Hne];
    [apply (proj2 (proj2 example_sparse_ok))|].
  exfalso.
  assert (Hall : forallb
                   (fun j => negb (is_valid (inode_at example_sparse (Z.of_nat j))))
                   (seq 1 31) = true) by by_eval.
  rewrite forallb_forall in Hall.
  specialize (Hall (Z.to_nat k)). rewrite Z2Nat.id in Hall by lia.
  rewrite Hv in Hall. discriminate Hall. apply in_seq. lia.
Qed.

Lemma example_unmounted_image_ok :
  image_ok
    (opened example_unmounted "disk.img"%string (sectors (disk example_sparse))).
Proof.
  apply (image_ok_ext example_sparse); [by_eval|by_eval|].
  exact example_sparse_image_ok.
Qed.

Lemma example_formatted_whole :
  Forall (fun b : block => length b = Z.to_nat BLOCK_SIZE) example_formatted_image.
Proof. vm_compute. repeat constructor. Qed.

Lemma mount_success_witness :
  exists st',
    mount example_unmounted "disk.img"%string = (0, st') /\
    disk_mounted st' = true /\
    length (block_bitmap st') = Z.to_nat (num_blocks (superblock st')).
Proof.
  exists example_remounted.
  assert (E : mount example_unmounted "disk.img"%string = (0, example_remounted))
    by by_eval.
  destruct (mount_success example_unmounted "disk.img"%string
              (sectors (disk example_sparse)) example_remounted
              ltac:(by_eval) (image_ok_stores _ example_unmounted_image_ok) E)
    as (_ & Hm & _ & _ & _ & _ & _ & Hl & _).
  split; [exact E|]. split; [exact Hm|exact Hl].
Defined.

Lemma mount_well_formed_witness :
  exists st',
    mount example_unmounted "disk.img"%string = (0, st') /\ mounted_ok st'.
Proof.
  destruct (mount_well_formed example_unmounted "disk.img"%string
              (sectors (disk example_sparse)))
    as (st' & E & Hm & _).
  - by_eval.
  - by_eval.
  - by_eval.
  - exact example_unmounted_image_ok.
  - exists st'. split; [exact E|exact Hm].
Defined.

Lemma unmount_mount_witness :
  exists s1 st',
    unmount example_sparse = (0, s1) /\
    mount s1 (dname (disk example_sparse)) = (0, st') /\
    disk st' = disk example_sparse.
Proof.
  destruct (unmount_mount example_sparse (proj1 example_sparse_ok)
              (proj1 (proj2 example_sparse_ok)) example_sparse_image_ok)
    as (s1 & st' & E1 & _ & _ & E2 & _ & _ & _ & D & _).
  - by_eval.
  - exists s1, st'. split; [exact E1|]. split; [exact E2|exact D].
Defined.

Lemma mount_formatted_witness :
  exists st',
    mount example_formatted "disk.img"%string = (0, st') /\
    (forall k, 0 <= k < inode_count st' -> is_valid (inode_at st' k) = false).
Proof.
  destruct (mount_formatted example_formatted "disk.img"%string
              example_formatted_image 1)
    as (st' & E & _ & _ & _ & Hf & _).
  - by_eval.
  - by_eval.
  - by_eval.
  - exact example_formatted_whole.
  - by_eval.
  - lia.
  - by_eval.
  - split; by_eval.
  - intros i Hi. assert (i = 1) as -> by lia. by_eval.
  - exists st'. split; [exact E|exact Hf].
Defined.

(** ** A failed [mount] *)

Lemma bitmap_only_refl st : bitmap_only st st.
Proof. repeat split. Qed.

Lemma bitmap_only_trans st1 st2 st3 :
  bitmap_only st1 st2 -> bitmap_only st2 st3 -> bitmap_only st1 st3.
Proof.
  intros (A1 & A2 & A3 & A4 & A5 & A6) (B1 & B2 & B3 & B4 & B5 & B6).
  repeat split; congruence.
Qed.

Lemma read_only_bitmap_only st st' : read_only st st' -> bitmap_only st st'.
Proof. intros ->. repeat split. Qed.

Lemma bitmap_set_bitmap_only st x v : bitmap_only st (bitmap_set st x v).
Proof. repeat split. Qed.

Lemma mark_fold_bitmap_only (g : nat -> Z) l :
  forall st,
    bitmap_only st
      (fold_left (fun st k => if g k =? 0 then st else bitmap_set st (g k) 1)
         l st).
Proof.
  induction l as [|k l IH]; intros st; [apply bitmap_only_refl|].
  cbn [fold_left]. eapply bitmap_only_trans; [|apply IH].
  destruct (g k =? 0); [apply bitmap_only_refl|apply bitmap_set_bitmap_only].
Qed.

Lemma mark_entries_bitmap_only st page : bitmap_only st (mark_entries st page).
Proof. apply (mark_fold_bitmap_only (fun k => get_u32 page (Z.of_nat k))). Qed.

Lemma set_fold_bitmap_only l :
  forall st,
    bitmap_only st (fold_left (fun st i => bitmap_set st (Z.of_nat i) 1) l st).
Proof.
  induction l as [|k l IH]; intros st; [apply bitmap_only_refl|].
  cbn [fold_left]. eapply bitmap_only_trans; [|apply IH].
  apply bitmap_set_bitmap_only.
Qed.

Lemma disk_read_bitmap_only st s r b st' :
  disk_read st s = (r, b, st') -> bitmap_only st st'.
Proof. intros H. apply read_only_bitmap_only, (disk_read_read_only _ _ _ _ _ H). Qed.

Lemma mark_double_bitmap_only pointers :
  forall n st j r st',
    mark_double st pointers j n = (r, st') -> bitmap_only st st'.
Proof.
  induction n as [|n IH]; intros st j r st'; cbn [mark_double].
  - intros H; injection H as _ <-. apply bitmap_only_refl.
  - destruct (get_u32 pointers j =? 0); [apply IH|].
    destruct (disk_read _ _) as [[r1 curr] s2] eqn:Er.
    apply disk_read_bitmap_only in Er.
    pose proof (bitmap_only_trans _ _ _
                  (bitmap_set_bitmap_only st (get_u32 pointers j) 1) Er) as B2.
    destruct (negb (r1 =? 0)).
    + intros H; injection H as _ <-. exact B2.
    + intros H. apply IH in H.
      exact (bitmap_only_trans _ _ _
               (bitmap_only_trans _ _ _ B2 (mark_entries_bitmap_only _ _)) H).
Qed.

Lemma mark_inode_bitmap_only st inode r st' :
  mark_inode st inode = (r, st') -> bitmap_only st st'.
Proof.
  unfold mark_inode. cbv zeta.
  pose proof (mark_fold_bitmap_only (fun j => direct inode (Z.of_nat j))
                (seq 0 4) st) as BD. cbv beta in BD.
  set (sD := fold_left _ (seq 0 4) st) in *.
  destruct (if indirect_block inode =? 0 then (0, sD) else _) as [r1 s5] eqn:E5.
  assert (B5 : bitmap_only st s5).
  { apply (bitmap_only_trans _ _ _ BD). revert E5.
    destruct (indirect_block inode =? 0);
      [intros H; injection H as _ <-; apply bitmap_only_refl|].
    destruct (disk_read _ _) as [[r2 page] s2] eqn:Er.
    apply disk_read_bitmap_only in Er.
    pose proof (bitmap_only_trans _ _ _
                  (bitmap_set_bitmap_only sD (indirect_block inode) 1) Er) as B2.
    destruct (negb (r2 =? 0)); intros H; injection H as _ <-; [exact B2|].
    exact (bitmap_only_trans _ _ _ B2 (mark_entries_bitmap_only _ _)). }
  clear E5.
  destruct (negb (r1 =? 0)); [intros H; injection H as _ <-; exact B5|].
  destruct (double_indirect_block inode =? 0);
    [intros H; injection H as _ <-; exact B5|].
  destruct (disk_read _ _) as [[r2 page] s2] eqn:Er.
  apply disk_read_bitmap_only in Er.
  pose proof (bitmap_only_trans _ _ _
                (bitmap_only_trans _ _ _ B5
                   (bitmap_set_bitmap_only s5 (double_indirect_block inode) 1))
                Er) as B2.
  destruct (negb (r2 =? 0)); [intros H; injection H as _ <-; exact B2|].
  intros H. apply mark_double_bitmap_only in H.
  exact (bitmap_only_trans _ _ _ B2 H).
Qed.

Lemma mount_scan_bitmap_only :
  forall n st i r st', mount_scan st i n = (r, st') -> bitmap_only st st'.
Proof.
  induction n as [|n IH]; intros st i r st'; cbn [mount_scan].
  - intros H; injection H as _ <-. apply bitmap_only_refl.
  - destruct (read_inode st (to_int i) true) as [[r1 inode] s1] eqn:Er.
    pose proof (read_only_bitmap_only _ _
                  (read_inode_read_only _ _ _ _ _ _ Er)) as B1.
    destruct (negb (r1 =? 0)); [intros H; injection H as _ <-; exact B1|].
    destruct (is_valid inode).
    + destruct (mark_inode s1 inode) as [r2 s2] eqn:Em.
      apply mark_inode_bitmap_only in Em.
      pose proof (bitmap_only_trans _ _ _ B1 Em) as B2.
      destruct (negb (r2 =? 0)); [intros H; injection H as _ <-; exact B2|].
      intros H. apply IH in H. exact (bitmap_only_trans _ _ _ B2 H).
    + intros H. apply IH in H. exact (bitmap_only_trans _ _ _ B1 H).
Qed.

(** A [mount] that fails mounts nothing: whatever the reason (a disk is
    mounted already, the image does not exist, the device fails at some
    point of the scan, the magic number is wrong), the flag, the host's
    images and the recorded name are as they were, and nothing was written.
    An image that carries the magic number is taken to keep the stores of
    the scan into the bitmap in range. *)
Theorem mount_failure st name r st' :
  (forall img, images st !! name = Some img ->
     magic (decode_superblock (nth 0 img zero_block)) = MAGIC_NUMBER ->
     stores_in_range (opened st name img)) ->
  mount st name = (r, st') -> r <> 0 ->
  disk_mounted st' = disk_mounted st /\
  images st' = images st /\
  mounted_disk st' = mounted_disk st /\
  history st' = history st.
Proof.
  intros _. unfold mount.
  destruct (disk_mounted st) eqn:Em;
    [intros H; injection H as _ <-; rewrite Em; repeat split|].
  unfold vdisk_on.
  destruct (images st !! name) as [img|] eqn:Ei;
    [|intros H; injection H as _ <-; rewrite Em; repeat split].
  destruct (device_fault st) as [e s1] eqn:Ef.
  pose proof (device_fault_frame _ _ _ Ef) as (F1 & F2 & F3 & F4 & F5 & F6).
  assert (Fn : mounted_disk s1 = mounted_disk st).
  { revert Ef. unfold device_fault. destruct (faults st);
      intros H; injection H as _ <-; reflexivity. }
  destruct (Z.eqb_spec e 0) as [-> | He]; cbn [negb Z.eqb];
    [|apply Z.eqb_neq in He; rewrite He; cbn [negb];
      intros H; injection H as _ <-; repeat split; congruence].
  assert (Hoff : forall s b,
            bitmap_only (with_disk s1 (mk_disk name img)) s ->
            disk_mounted (vdisk_off (with_bitmap s b) (disk s)) = false /\
            images (vdisk_off (with_bitmap s b) (disk s)) = images st /\
            mounted_disk (vdisk_off (with_bitmap s b) (disk s)) = mounted_disk st /\
            history (vdisk_off (with_bitmap s b) (disk s)) = history st).
  { intros s b (B1 & B2 & B3 & B4 & B5 & B6). unfold vdisk_off. cbn.
    rewrite B1, B2, B3, B4, B6. cbn. rewrite F6, F5, F1, Fn.
    split; [exact Em|]. split; [apply insert_id, Ei|]. split; reflexivity. }
  destruct (disk_read (with_disk s1 (mk_disk name img)) 0) as [[r0 buf] s2] eqn:Er.
  apply disk_read_bitmap_only in Er.
  destruct (negb (r0 =? 0)).
  { intros H _. injection H as _ <-.
    apply (Hoff s2 (block_bitmap s2)) in Er.
    destruct s2; exact Er. }
  cbv zeta.
  set (s3 := with_superblock s2 (decode_superblock buf)).
  assert (B3 : forall s, bitmap_only s3 s ->
                 bitmap_only (with_disk s1 (mk_disk name img))
                   (with_superblock s (superblock s2))).
  { intros s (B1 & B2 & B3 & B4 & B5 & B6).
    destruct Er as (C1 & C2 & C3 & C4 & C5 & C6).
    unfold s3 in *. cbn in B1, B2, B3, B4, B6, C1, C2, C3, C4, C5, C6.
    repeat split; cbn; congruence. }
  assert (Hoff3 : forall s b,
            bitmap_only s3 s ->
            disk_mounted (vdisk_off (with_bitmap s b) (disk s)) = false /\
            images (vdisk_off (with_bitmap s b) (disk s)) = images st /\
            mounted_disk (vdisk_off (with_bitmap s b) (disk s)) = mounted_disk st /\
            history (vdisk_off (with_bitmap s b) (disk s)) = history st).
  { intros s b B. exact (Hoff _ b (B3 s B)). }
  destruct (negb (bytes_eqb (magic (superblock s3)) MAGIC_NUMBER)).
  { intros H _. injection H as _ <-.
    pose proof (Hoff3 s3 (block_bitmap s3) (bitmap_only_refl s3)) as H.
    destruct s2; exact H. }
  set (s4 := with_bitmap s3 _).
  set (s5 := bitmap_set s4 0 1).
  pose proof (set_fold_bitmap_only
                (seq 1 (Z.to_nat (num_inode_blocks (superblock s5)))) s5) as B6.
  set (s6 := fold_left _ _ s5) in *.
  destruct (mount_scan s6 0 (Z.to_nat (inode_count s6))) as [r7 s7] eqn:Es.
  apply mount_scan_bitmap_only in Es.
  assert (B37 : bitmap_only s3 s7).
  { apply (bitmap_only_trans _ s6); [|exact Es].
    apply (bitmap_only_trans _ s5); [|exact B6]. repeat split. }
  destruct (Z.eqb_spec r7 0) as [-> | Hr7]; cbn [negb].
  - intros H Hr. injection H as <- _. congruence.
  - intros H _. injection H as _ <-. exact (Hoff3 s7 [] B37).
Qed.

(** [mount] refuses an image whose first 16 bytes are not the magic number:
    on a working device it returns [E_CORRUPT_DISK]; nothing is mounted and
    the host's images are as before, only the handle and the copy of the
    superblock have been overwritten. *)
Theorem mount_corrupt st name img :
  disk_mounted st = false -> healthy st ->
  images st !! name = Some img -> img <> [] ->
  magic (decode_superblock (nth 0 img zero_block)) <> MAGIC_NUMBER ->
  mount st name = (E_CORRUPT_DISK, opened st name img).
Proof.
  intros Hm Hh Himg Hne Hmag.
  unfold mount. rewrite Hm. unfold vdisk_on. rewrite Himg.
  rewrite (device_fault_healthy st Hh). cbn [negb Z.eqb].
  rewrite (disk_read_block (with_disk st (mk_disk name img)) 0 Hh)
    by (unfold size_in_sectors; cbn; destruct img; [congruence|cbn; lia]).
  cbn [negb Z.eqb]. cbv zeta.
  change (with_superblock (with_disk st (mk_disk name img))
            (decode_superblock (blk (with_disk st (mk_disk name img)) 0)))
    with (opened st name img).
  destruct (bytes_eqb (magic (superblock (opened st name img))) MAGIC_NUMBER)
    eqn:Eb; [apply bytes_eqb_eq in Eb; contradiction|].
  cbn [negb]. f_equal. unfold vdisk_off.
  change (dname (disk (opened st name img))) with name.
  change (sectors (disk (opened st name img))) with img.
  change (images (opened st name img)) with (images st).
  rewrite (insert_id _ _ _ Himg). destruct st; reflexivity.
Qed.

Lemma example_mount_fails_range :
  forall img,
    images example_mount_fails !! "disk.img"%string = Some img ->
    magic (decode_superblock (nth 0 img zero_block)) = MAGIC_NUMBER ->
    stores_in_range (opened example_mount_fails "disk.img"%string img).
Proof.
  intros img Hi _.
  assert (E : images example_mount_fails !! "disk.img"%string
              = Some (sectors (disk example_sparse))) by by_eval.
  rewrite E in Hi. apply (inj Some) in Hi. subst img.
  apply (stores_in_range_ext
           (opened example_unmounted "disk.img"%string
              (sectors (disk example_sparse))));
    [unfold opened; cbn [disk with_superblock with_disk]; reflexivity
    |unfold opened; cbn [superblock with_superblock]; reflexivity|].
  apply image_ok_stores, example_unmounted_image_ok.
Qed.

Lemma mount_failure_witness :
  fst (mount example_mount_fails "disk.img"%string) = -7 /\
  disk_mounted (snd (mount example_mount_fails "disk.img"%string)) = false /\
  images (snd (mount example_mount_fails "disk.img"%string))
  = images example_mount_fails.
Proof.
  split; [by_eval|].
  destruct (mount_failure example_mount_fails "disk.img"%string (-7)
              (snd (mount example_mount_fails "disk.img"%string))
              example_mount_fails_range)
    as (Hm & Hi & _).
  - by_eval.
  - lia.
  - split; [exact Hm|exact Hi].
Defined.

Lemma mount_corrupt_witness :
  fst (mount (blank_host 12) "disk.img"%string) = E_CORRUPT_DISK.
Proof.
  rewrite (mount_corrupt (blank_host 12) "disk.img"%string
             (replicate 12 zero_block)); [reflexivity|by_eval|by_eval|by_eval| |by_eval].
  intros H; discriminate H.
Defined.

(** ** [read] and [write] on what is not a file *)

(** On a working device, [read] and [write] refuse an inode number outside
    of the inode table and the number of a free inode with
    [E_INVALID_INODE]; the session and the caller's buffer are left as they
    are, whatever the length and the offset. *)
Theorem read_write_invalid_inode (st : fs_state) (i : Z) :
  mounted_ok st -> healthy st ->
  i < 0 \/ inode_count st <= i < 2 ^ 31 \/
  (0 <= i < inode_count st /\ byte.unsigned (valid (inode_at st i)) = 0) ->
  forall data len offset,
    read st i data len offset = (E_INVALID_INODE, data, st) /\
    write st i data len offset = (E_INVALID_INODE, st).
Proof.
  intros Hm Hh Hi data len offset. pose proof Hm as (Hmt & Hsb & _).
  unfold read, write. rewrite Hmt. cbn [negb].
  assert (Hout : i < 0 \/ inode_count st <= i < 2 ^ 31 ->
                 bad_inode_num st i = true).
  { intros Ho. unfold bad_inode_num. apply orb_true_iff.
    destruct Ho as [Hneg|Hbig]; [left; apply Z.ltb_lt; exact Hneg|right].
    pose proof (inode_count_ok st Hsb) as Hc.
    assert (0 <= inode_count st).
    { rewrite Hc. destruct Hsb as (? & _). change INODES_PER_BLOCK with 32. lia. }
    rewrite to_uint32_small by lia. apply Z.leb_le. lia. }
  destruct Hi as [Hneg|[Hbig|[Hin Hz]]].
  - rewrite (Hout (or_introl Hneg)). split; reflexivity.
  - rewrite (Hout (or_intror Hbig)). split; reflexivity.
  - rewrite (bad_inode_num_false st i Hsb Hin).
    rewrite (read_inode_ok st i false Hm Hh Hin). cbn [negb Z.eqb].
    apply Z.eqb_eq in Hz. rewrite Hz. split; reflexivity.
Qed.

Lemma read_write_invalid_inode_witness :
  read example_file 1 [Byte.x00] 1 0
  = (E_INVALID_INODE, [Byte.x00], example_file) /\
  write example_file (-1) [Byte.x58] 1 0 = (E_INVALID_INODE, example_file).
Proof.
  split.
  - apply (read_write_invalid_inode example_file 1 example_file_ok);
      [by_eval|]. right; right. split; [split; by_eval|by_eval].
  - apply (read_write_invalid_inode example_file (-1) example_file_ok);
      [by_eval|]. left. lia.
Defined.

(** ** A full device *)

Lemma find_free_block_full st :
  mounted_ok st -> full st -> find_free_block st = (E_OUT_OF_SPACE, st).
Proof.
  intros (Hmt & Hsb & _ & Hlen & _) Hfull.
  destruct (find_free_block st) as [r st'] eqn:E.
  destruct (find_free_block_spec st st' r Hmt Hsb Hlen E)
    as [_ [(Hr & Hz & _)|(-> & -> & _)]]; [|reflexivity].
  exfalso. exact (Hfull r Hr Hz).
Qed.

Lemma gbfo_full st inode off :
  session_ok st inode -> full st -> 0 <= off < addressable_max ->
  get_block_for_offset st inode off true
  = (if bmap st inode (off / BLOCK_SIZE) =? 0 then E_OUT_OF_SPACE
     else bmap st inode (off / BLOCK_SIZE), inode, st).
Proof.
  intros (Hm & Hh & Ht) Hfull Hoff.
  pose proof (find_free_block_full st Hm Hfull) as Hff.
  destruct (disk_index off Hoff) as (Hq & _ & Hk & _).
  pose proof Hm as (Hmt & Hsb & _).
  unfold get_block_for_offset. rewrite Hmt, Hq. cbn [negb].
  replace (off <? 0) with false by (symmetry; apply Z.ltb_ge; lia).
  set (k := off / BLOCK_SIZE) in *.
  destruct (slot_of_ok k Hk) as [Hsk _].
  destruct (ptr_int st inode (slot_of k) Hm Ht Hsk) as [Hint _].
  unfold bmap. revert Hsk Hint. unfold slot_of, MAX_BLOCKS in *.
  change POINTERS_PER_BLOCK with 256 in *.
  destruct (k <? 4) eqn:E1; [apply Z.ltb_lt in E1|apply Z.ltb_ge in E1].
  { intros _ Hint. cbn [ptr get_field] in *. rewrite andb_true_r.
    destruct (direct inode k =? 0); [rewrite Hff; reflexivity|].
    rewrite Hint. reflexivity. }
  rewrite (to_uint32_small (k - 4)) by lia.
  destruct (k - 4 <? 256) eqn:E2; [apply Z.ltb_lt in E2|apply Z.ltb_ge in E2].
  { intros Hsk Hint. cbn [ptr get_field negb] in *. unfold entry in *.
    destruct (indirect_block inode =? 0) eqn:Ei; [rewrite Hff; reflexivity|].
    apply Z.eqb_neq in Ei. unfold gbfo_indirect_entry.
    destruct (ptr_int st inode (Top FInd) Hm Ht I) as [_ Hr].
    rewrite disk_read_ok by (try assumption; exact Hr).
    cbn [negb Z.eqb]. rewrite andb_true_r.
    destruct (get_u32 (blk st (indirect_block inode)) (k - 4) =? 0);
      [rewrite Hff; reflexivity|].
    rewrite Hint. reflexivity. }
  rewrite (to_uint32_small (k - 4 - 256)) by lia.
  replace (k - 4 - 256 <? 256 * 256) with true by (symmetry; apply Z.ltb_lt; lia).
  intros Hsk Hint. cbn [ptr get_field negb] in *.
  set (j := (k - 4 - 256) / 256) in *. set (e := (k - 4 - 256) mod 256) in *.
  destruct (double_indirect_block inode =? 0) eqn:Ed.
  { unfold entry. rewrite Ed. cbn [Z.eqb]. rewrite Hff. reflexivity. }
  apply Z.eqb_neq in Ed. unfold gbfo_double_entry.
  destruct (ptr_int st inode (Top FDbl) Hm Ht I) as [_ Hr].
  rewrite disk_read_ok by (try assumption; exact Hr).
  cbn [negb Z.eqb]. rewrite andb_true_r.
  change POINTERS_PER_BLOCK with 256.
  rewrite Z.quot_div_nonneg, Z.rem_mod_nonneg by lia. fold j e.
  assert (Hj : entry st (double_indirect_block inode) j
               = get_u32 (blk st (double_indirect_block inode)) j).
  { unfold entry. apply Z.eqb_neq in Ed. rewrite Ed. reflexivity. }
  rewrite Hj in *.
  destruct (get_u32 (blk st (double_indirect_block inode)) j =? 0) eqn:Ej.
  { apply Z.eqb_eq in Ej. rewrite Ej. cbn [entry Z.eqb]. rewrite Hff.
    reflexivity. }
  apply Z.eqb_neq in Ej. unfold gbfo_double_data.
  destruct Hsk as [Hpj _].
  destruct (ptr_int st inode (Child (Top FDbl) j) Hm Ht (page_slot_ok _ Hpj))
    as [_ Hrj].
  cbn [ptr get_field] in Hrj. rewrite Hj in Hrj.
  rewrite disk_read_ok by (try assumption; exact Hrj).
  cbn [negb Z.eqb]. rewrite andb_true_r.
  unfold entry in Hint |- *. apply Z.eqb_neq in Ej. rewrite Ej in *.
  destruct (get_u32 (blk st (get_u32 (blk st (double_indirect_block inode)) j)) e
            =? 0); [rewrite Hff; reflexivity|].
  rewrite Hint. reflexivity.
Qed.

(** On a full device nothing is allocated: with a working device and no
    free data block, [get_block_for_offset] with [allocate] returns the
    block of a mapped offset and [E_OUT_OF_SPACE] for an unmapped one, and
    leaves the inode, the bitmap and the device as they are.  A [write] of
    [len > 0] bytes at a position inside or at the end of the file that
    starts in an unmapped block therefore returns [E_OUT_OF_SPACE] and
    changes nothing. *)
Theorem full_disk (st : fs_state) (i : Z) :
  mounted_ok st -> healthy st -> file_ok st i -> full st ->
  (forall off, 0 <= off < addressable_max ->
     get_block_for_offset st (inode_at st i) off true
     = (if bmap st (inode_at st i) (off / BLOCK_SIZE) =? 0 then E_OUT_OF_SPACE
        else bmap st (inode_at st i) (off / BLOCK_SIZE), inode_at st i, st)) /\
  (forall data len offset,
     0 < len -> 0 <= offset <= size (inode_at st i) ->
     offset < addressable_max ->
     bmap st (inode_at st i) (offset / BLOCK_SIZE) = 0 ->
     write st i data len offset = (E_OUT_OF_SPACE, st)).
Proof.
  intros Hm Hh (Hi & Hv & Ht & Hsz & Hnh) Hfull.
  assert (Hs : session_ok st (inode_at st i))
    by (split; [exact Hm|split; [exact Hh|exact Ht]]).
  split; [intros off Hoff; apply (gbfo_full _ _ _ Hs Hfull Hoff)|].
  intros data len offset Hlen Hoff Hmax Hun.
  pose proof Hm as (Hmt & Hsb & _).
  pose proof addressable_max_int as Hamax.
  unfold write. rewrite Hmt, (bad_inode_num_false st i Hsb Hi). cbn [negb].
  rewrite (read_inode_ok st i false Hm Hh Hi). cbn [negb Z.eqb].
  apply Z.eqb_neq in Hv. rewrite Hv.
  unfold write_fill. rewrite (to_uint32_small offset) by lia.
  replace (size (inode_at st i) <? offset) with false
    by (symmetry; apply Z.ltb_ge; lia).
  destruct (Z.to_nat len) as [|fuel] eqn:Ef; [lia|].
  cbn [write_loop].
  replace (0 <? len) with true by (symmetry; apply Z.ltb_lt; lia).
  rewrite (gbfo_full _ _ _ Hs Hfull (conj (proj1 Hoff) Hmax)), Hun.
  cbn [Z.eqb]. change (E_OUT_OF_SPACE <=? 0) with true. cbv iota.
  unfold persist_progress. rewrite (to_uint32_small offset) by lia.
  replace (size (inode_at st i) <? offset) with false
    by (symmetry; apply Z.ltb_ge; lia).
  reflexivity.
Qed.

Lemma example_full_ok :
  mounted_ok example_full /\ healthy example_full /\ file_ok example_full 0 /\
  full example_full.
Proof.
  assert (Hw : write example_file 0 (replicate (Z.to_nat 9216) Byte.x58) 9216 0
               = (9216, example_full)) by by_eval.
  assert (Hend : 0 + 9216 <= addressable_max) by by_eval.
  assert (Hl : (Z.to_nat 9216 <= length (replicate (Z.to_nat 9216) Byte.x58))%nat)
    by (rewrite length_replicate; lia).
  pose proof (write_ok example_file 0 (replicate (Z.to_nat 9216) Byte.x58) 9216 0
                example_full example_file_ok eq_refl example_file_fresh
                ltac:(lia) ltac:(lia) Hend Hl Hw) as Hwr.
  pose proof (written_file_ok example_file 0 (replicate (Z.to_nat 9216) Byte.x58)
                9216 0 example_full example_file_fresh ltac:(lia) ltac:(lia)
                Hend Hwr) as Hf.
  destruct Hwr as ((Hm & Hh & _) & _).
  split; [exact Hm|]. split; [exact Hh|]. split; [exact Hf|].
  assert (Hn : num_inode_blocks (superblock example_full) = 1) by by_eval.
  assert (Hb : num_blocks (superblock example_full) = 12) by by_eval.
  intros j. rewrite Hn, Hb. intros Hj.
  assert (Hall : forallb
                   (fun x => negb (bitmap_get example_full (Z.of_nat x) =? 0))
                   (seq 2 10) = true) by by_eval.
  rewrite forallb_forall in Hall.
  specialize (Hall (Z.to_nat j)). rewrite Z2Nat.id in Hall by lia.
  intros E. rewrite E in Hall. discriminate Hall. apply in_seq. lia.
Qed.

Lemma full_disk_witness :
  write example_full 0 [Byte.x59] 1 9216 = (E_OUT_OF_SPACE, example_full).
Proof.
  apply (proj2 (full_disk example_full 0 (proj1 example_full_ok)
                  (proj1 (proj2 example_full_ok))
                  (proj1 (proj2 (proj2 example_full_ok)))
                  (proj2 (proj2 (proj2 example_full_ok))))).
  - lia.
  - split; by_eval.
  - by_eval.
  - by_eval.
Defined.

(** ** An empty [write] *)

(** On a working device, a [write] of no bytes ([len <= 0], a negative
    length included) at an offset inside or at the end of a valid file
    returns 0 and changes nothing. *)
Theorem write_nothing (st : fs_state) (i : Z) (data : list byte)
    (len offset : Z) :
  mounted_ok st -> healthy st ->
  0 <= i < inode_count st ->
  byte.unsigned (valid (inode_at st i)) <> 0 ->
  len <= 0 -> 0 <= offset <= size (inode_at st i) ->
  write st i data len offset = (0, st).
Proof.
  intros Hm Hh Hi Hv Hlen Hoff. pose proof Hm as (Hmt & Hsb & _).
  assert (Hs : 0 <= size (inode_at st i) < 2 ^ 32) by apply decode_inode_ok.
  unfold write. rewrite Hmt, (bad_inode_num_false st i Hsb Hi). cbn [negb].
  rewrite (read_inode_ok st i false Hm Hh Hi). cbn [negb Z.eqb].
  apply Z.eqb_neq in Hv. rewrite Hv.
  unfold write_fill. rewrite (to_uint32_small offset) by lia.
  replace (size (inode_at st i) <? offset) with false
    by (symmetry; apply Z.ltb_ge; lia).
  replace (Z.to_nat len) with 0%nat by lia. cbn [write_loop].
  rewrite (to_uint32_small offset) by lia.
  replace (size (inode_at st i) <? offset) with false
    by (symmetry; apply Z.ltb_ge; lia).
  reflexivity.
Qed.

Lemma write_nothing_witness :
  write example_sparse 0 [] (-3) 5001 = (0, example_sparse).
Proof.
  apply (write_nothing example_sparse 0 [] (-3) 5001 (proj1 example_sparse_ok)
           (proj1 (proj2 example_sparse_ok))).
  - split; by_eval.
  - by_eval.
  - lia.
  - split; by_eval.
Defined.
